(* ===== verification/_CoqProject ===== *)
-Q . S2P
Prelude.v
Buffer.v
Timestamp.v
StdSet.v
TimerQueue.v
TimerRun.v
TimerSafe.v
Channel.v
EpollPoller.v
EventLoop.v
LoopRun.v
LoopConc.v
TcpConnection.v
TcpSpec.v
ServedConn.v
HostedConn.v
LoopHost.v
Reactor.v
QueuedConn.v
ReactorLife.v
ReactorThreads.v
LogStream.v
Printf.v
TimeFormat.v
LogFile.v
AsyncLogging.v
Logger.v
LogTime.v
LoopThread.v
Inet.v
AcceptorPoll.v
TcpServer.v
ServerNet.v
ServerDown.v
Sync.v
ProcessInfo.v
Benchmark.v
BenchClients.v
