(* ===== verification/Prelude.v ===== *)
(** * re_muduo: a verification of the Reactor network library

    re_muduo is a C++17 network library in the style of muduo: event loops, one per
    thread, that wait on epoll, dispatch events to channels, run timers and functors
    queued by other threads; TCP connections and a server on top of them; and an
    asynchronous logger beside them.  This library translates its sources
    ([src/include/*.h] and [src/src/base/*.cpp], and parts of the benchmarks) into executable definitions and proves
    what makes them correct.

    ** Conventions

    An operation returns in the monad [res] of this file: a value, or the fault that
    ends the defined behaviour of the program (an access outside an object, a
    dangling pointer, a failed [assert], a signed overflow, an exception nobody
    catches, [LOG_FATAL]).  A theorem that an operation returns [Ok] therefore says
    that none of these happens; a theorem about [wp] says the same, except that memory,
    the size of a container or the range of a time may run out.  The build does not define NDEBUG, so every [assert]
    is part of the model.  Integers are kept in their width where the code depends on
    it: [size_t] wraps ([u64]), signed arithmetic must not overflow ([int64]),
    [double] is IEEE binary64.  Pointers to objects of the program are addresses or
    indices into an explicit heap, [unique_ptr] is an option, pointers into arrays are
    offsets.  System calls are inputs of the operation that makes them ([sysret]) or
    the operations of a type class with the documented laws, and every class has a
    concrete instance with which the witnesses compute: [Epoll] and [simple_epoll],
    [EpollOpen], [EventFd], [Stdio] and [good_disk], [LogSink] and [file_sink],
    [InetText].  Interfaces between components are classes too: a connection is verified
    against a loop that keeps the promises of [ConnLoop], [ConnTimers] and [ConnHost] (and
    [ServedLoop], which adds what a server can observe); [simple_conn] and [counted_conn]
    implement them for the examples, [LoopHost] by the event loop itself.  Log output is not modelled except where a model records
    that an error was logged; a log call is taken to leave [errno] alone.

    ** The files, in the order of the dependencies

    - [Prelude]: the monad, machine integers, arrays, shared lemmas and automation.
    - [Buffer]: [Buffer.h], [Buffer.cpp].  Vector, reader and writer index; the
      specification is a queue of bytes, and every operation refines it.
    - [Timestamp]: [Timestamp.h], [Timestamp.cpp].  Points in time and the arithmetic
      of [double] they use.
    - [StdSet]: the operations of [std::set] the timer queue uses, on sorted lists.
    - [TimerQueue], [TimerRun]: [Timer.h], [Timer.cpp], [TimerQueue.h],
      [TimerQueue.cpp].  The two sets, the heap of timers and every member function;
      [handleRead] runs callbacks in an abstract world that contains the queue, so
      that callbacks may add and cancel timers.  The invariant of the queue holds in
      every reachable state, due timers run once and in order, [cancel] is exact.
    - [TimerSafe]: the same operations for any times and callbacks: the invariant of the
      queue is kept and nothing fails but a time that does not fit its type.
    - [Channel]: [Channel.h], [Channel.cpp].  Event masks, [handleEvent] and its order,
      and [tie] on a world of shared owners.  Callbacks may change the mask and the index
      of the channel they were called for; [Reactor] shows that a connection's do no more.
    - [EpollPoller]: [Poller.h], [Poller.cpp], [DefaultPoller.cpp], [EpollPoller.h],
      [EpollPoller.cpp].  The map of channels stays in step with the kernel's interest
      list, whatever the kernel refuses (and completely as long as it adds what it is
      asked to); [poll] reports exactly the registered channels that are ready.
    - [EventLoop], [LoopRun]: [Eventloop.h], [Eventloop.cpp].  Construction, the loop,
      functors, wake-up, channels and timers.  [while (!quit_)] has fuel for its turns
      and returns [None] when it is used up; what a turn does is proved without it.
    - [LoopConc]: the interleavings of a loop with other threads that queue functors
      or quit it, as a step relation that begins before [loop()] is entered and has a step
      for a [queueInLoop] that need not wake up: no wake-up is lost but for functors that
      only the loop's own thread has queued before the loop, every functor runs exactly
      once and in order, the loop makes progress.  The steps of other threads refine
      the operations of [EventLoop].
    - [TcpConnection], [TcpSpec]: [TcpConnection.h], [TcpConnection.cpp].  Every member
      function, with user callbacks as a parameter; what is sent is what was written
      followed by what is buffered, in every reachable state; shutting down, closing,
      high-water mark and timers.
    - [ServedConn]: a connection together with its channel: reported events are
      dispatched to its handlers, functors and timers run, users call it, their calls
      interrupted anywhere.  A step says whether it is in order ([own_step]); in every
      history of steps in order the close callback runs exactly once, when the connection
      becomes disconnected, and what each kind of step out of order does is shown too
      ([stale_event_closes_again], [forceClose_race], [destroyed_silently]).
    - [HostedConn]: under the promises of a loop every operation of a connection returns
      and keeps the loop consistent.
    - [LoopHost]: [queueInLoop], [updateChannel], [removeChannel], [runAfter], [runEvery]
      and [cancel] keep those promises ([host]: a loop, the address of the connection's
      channel, and the answers of the system as a script, [environment]).
    - [Reactor]: both together.  The connection's handlers, functors and timers are what
      the loop runs ([reactor_world]); from construction on, any number of turns is safe.
      A fault of the loop in a call of the connection is kept in [h_fault] and ends the
      run as soon as the handler returns ([raise]).
      [turns] needs no fuel: it takes the number of turns, and a turn is total.
    - [QueuedConn]: in which order a connection fills the queue of its loop: nothing that
      holds it by a plain pointer behind [connectDestroyed].
    - [ReactorLife]: on that loop the close callback runs exactly once, provided no round
      of polling reports the timer queue ahead of the connection.
    - [ReactorThreads]: the same loop while other threads use the connection.  A turn is
      split between its callbacks and functors ([reactor_step]; [steps_are_turns] shows
      that the steps make up the turn), a call of another thread at each access to a member
      of the connection and each call of the loop ([do_access]; [calls_are_steps] shows
      that the accesses make up the call), and all of these follow each other in any
      order.  As long as no call is overtaken by the close of the connection
      ([never_overtaken]) the reactor stays safe, closes once, runs what is queued in order
      and within two turns, [forceClose] takes effect, and no functor outlives the
      connection; a use of the connection after the server has let go of it is a fault
      ([perform_alive]).
    - [LogStream]: [LogStream.h], [LogStream.cpp].  Formatting into a fixed array.
      The digit loop has fuel 20, enough for 64 bits.
    - [Printf]: what the sources use of [snprintf], [atoi] and [isdigit]; the digit loop
      of [LogStream] prints the decimal notation.
    - [TimeFormat]: [Timestamp::to_string], with [localtime] as a parameter.
    - [LogFile]: [FileUtil.h], [FileUtil.cpp], [LogFile.h], [LogFile.cpp].  Rolling log
      files on a disk that may refuse bytes.  The write loop has fuel one more than
      the length of the line: each turn writes a byte or ends.
    - [AsyncLogging]: [AsyncLogging.h], [AsyncLogging.cpp].  The double-buffered log
      and its thread, all interleavings; the file is an interface that [LogFile]
      implements.
    - [Logger], [LogTime]: [Logger.h], [Logger_new.cpp], [AsyncLoggingInit.cpp].  A log
      line and its way to the output; in [LogTime] with its time stamp, the length a
      message may have, [cleanupLogFiles] with the programs that call it, and the
      logger of [Logger.cpp], which the build leaves out.
    - [LoopThread]: [Thread.h], [Thread.cpp], [EventLoopThread.h],
      [EventLoopThread.cpp], [EventLoopThreadPool.h], [EventLoopThreadPool.cpp].  The
      hand-over of a loop between threads as a finite step system, and round robin.
    - [Inet], [AcceptorPoll]: [InetAddress.h], [InetAddress.cpp], [Socket.h],
      [Socket.cpp], [Acceptor.h], [Acceptor.cpp]; in [AcceptorPoll] the acceptor with
      its channel in the loop and its poller, from construction to destruction.
    - [TcpServer]: [TcpServer.h], [TcpServer.cpp].  The table of connections while
      several loops run their functors in any order, connections closing once.
    - [ServerNet]: the server with the connections of [ServedConn] in the place of that
      assumption; every history of the whole is one of [TcpServer].
    - [ServerDown]: the destructor of that server, what becomes of its connections, and
      which of them may still refer to it.
    - [Sync]: [CurrentThread.h], [CurrentThread.cpp], [Mutex.h], [Condition.h].
    - [ProcessInfo]: [ProcessInfo.h], [ProcessInfo.cpp].  The loops over lines have fuel;
      one more than the length of the file is enough, since a line is not empty.
    - [Benchmark], [BenchClients]: the statistics ([benchmark_base.cpp]) and the client
      loops of the programs under [benchmark] and [compare], against any answers of the
      sockets.  A client runs until its script of answers ends; [None] says that it would
      go on waiting.

    ** What the theorems leave open

    Some theorems state what goes wrong where the code does: [cancel_reads_freed_node],
    [prepend_overlap], [forceClose_race], [stale_event_closes_again], [destroyed_silently],
    [timeout_and_hangup], [idle_off_closes], [late_send_dangles], [overtaken_closes_twice],
    [queued_before_loop_waits], [add_failure_unnoticed], [keepalive_twice_leaks], [stop_loses_lines], [start_stop_aborts], [log_line_cases],
    [error_flag_never_set], [error_logs_deleted], [log_after_reset],
    [startLoop_can_hang], [full_disk_counted], [double_close_aborts],
    [destroyed_server_dangles], [holder_lost_by_wait], [level_race],
    [echo_bench_faults].  The theorems about histories of [ServedConn] and [ServerNet] are
    about steps in order, which excludes: an event that arrives after the close in the same
    round of polling ([ReactorLife] rules it out by a condition on the rounds, and
    [timeout_and_hangup] shows what happens without it), a hang-up reported next to
    priority data or a half-close but no input ([hup_ok]), a call of another thread that
    is overtaken by the close, and a server that destroys a connection before it is closed
    ([ServerDown] is about that).  [Reactor], [ReactorLife] and [ReactorThreads] are about
    one loop with one connection; a callback that the loop runs is one step there, and
    accesses of different threads take effect one after the other.
    They take it that the clock shows a time after the epoch, that [timerfd_settime] and the
    read of the timerfd do not fail fatally, and that [new] returns unused memory or fails.
    [cancelInLoop] reads a node it has freed; what that memory holds is a parameter, and a
    run in which it does not hold the old pointer ends there with the fault [FreedNode],
    which [wp] lists among the ways a run may end; nothing is assumed about it.

    Not modelled: the type aliases of [Callbacks.h], [noncopyable.h], the programs under
    [tests], and of the programs under [benchmark] and [compare] the threads that run
    their servers, the printed reports and the second copy of the statistics. *)
From Stdlib Require Import Strings.Byte.
From Stdlib Require Export ZArith Lia.
From stdpp Require Export base gmap option numbers list list_numbers.

#[global] Open Scope Z_scope.

(** ** Outcomes of C++ code

    A C++ operation returns a value, or it leaves the behaviour the language
    defines: it reads outside an object, copies between overlapping ranges in
    the wrong direction, overflows a signed integer, dereferences or frees an
    object that is not alive, reads a node of a container that it has erased ([FreedNode]), fails an [assert] (the build does not define
    NDEBUG), runs out of memory or of [max_size], or calls [exit] through
    [LOG_FATAL].  [OutOfFuel] marks a loop cut short by the bound of its model; the
    theorems about such loops prove that it does not happen. *)
Inductive fault :=
  | OutOfBounds
  | OverlappingCopy
  | LengthError
  | BadAlloc
  | SignedOverflow
  | BadCast
  | DanglingPointer
  | FreedNode
  | AssertionFailed
  | FatalExit
  | UncaughtException
  | OutOfFuel.

#[global] Instance fault_eq_dec : EqDecision fault.
Proof. solve_decision. Defined.

Inductive res (A : Type) :=
  | Ok (a : A)
  | Fault (e : fault).
Arguments Ok {A} a.
Arguments Fault {A} e.

#[global] Instance res_ret : MRet res := fun A a => Ok a.
#[global] Instance res_bind : MBind res := fun A B f m =>
  match m with Ok a => f a | Fault e => Fault e end.
#[global] Instance res_fmap : FMap res := fun A B f m =>
  match m with Ok a => Ok (f a) | Fault e => Fault e end.

(** [assert(b)] *)
Definition assert (b : bool) : res unit := if b then Ok tt else Fault AssertionFailed.

(** A left-to-right [for] loop over a container, stopping at the first fault. *)
Fixpoint for_each {A S} (f : A -> S -> res S) (l : list A) (s : S) : res S :=
  match l with
  | [] => Ok s
  | x :: l => s' ← f x s; for_each f l s'
  end.

Lemma bind_Ok {A B} (m : res A) (f : A -> res B) b :
  m ≫= f = Ok b <-> exists a, m = Ok a /\ f a = Ok b.
Proof. destruct m as [a|e]; simpl; naive_solver. Qed.

Lemma bind_ret_l {A B} (a : A) (f : A -> res B) : Ok a ≫= f = f a.
Proof. reflexivity. Qed.

Lemma assert_true b : b = true -> assert b = Ok tt.
Proof. by intros ->. Qed.

Lemma assert_Ok b u : assert b = Ok u <-> b = true.
Proof. destruct b, u; simpl; naive_solver. Qed.

Lemma for_each_app {A S} (f : A -> S -> res S) l1 l2 s :
  for_each f (l1 ++ l2) s = (s' ← for_each f l1 s; for_each f l2 s').
Proof.
  revert s; induction l1 as [|x l1 IH]; intros s; simpl; [done|].
  destruct (f x s); simpl; [apply IH|done].
Qed.

(** Loop rule: an invariant indexed by what is left to visit. *)
Lemma for_each_inv {A S} (f : A -> S -> res S) (I : list A -> S -> Prop) l s :
  I l s ->
  (forall x l s, I (x :: l) s -> exists s', f x s = Ok s' /\ I l s') ->
  exists s', for_each f l s = Ok s' /\ I [] s'.
Proof.
  intros HI Hstep; revert s HI; induction l as [|x l IH]; intros s HI; simpl; [by eauto|].
  destruct (Hstep _ _ _ HI) as (s1 & -> & HI1); simpl; auto.
Qed.

(** ** Post-conditions

    [wp r Q]: the operation returns a value with [Q], or gives up for want of a resource
    (memory, the size of a container, or a time that does not fit its type), or it ends at
    the one read of freed memory that the sources contain, in [TimerQueue::cancelInLoop]
    ([FreedNode]), which C++ gives no meaning.  No other fault is possible; a failed
    [assert] or a dangling pointer, in particular, is not. *)
Definition excused (e : fault) : bool :=
  match e with LengthError | BadAlloc | BadCast | SignedOverflow | FreedNode => true | _ => false end.

Definition wp {A} (r : res A) (Q : A -> Prop) : Prop :=
  match r with Ok a => Q a | Fault e => excused e = true end.

Lemma wp_mono {A} (r : res A) (P Q : A -> Prop) : wp r P -> (forall a, P a -> Q a) -> wp r Q.
Proof. destruct r; simpl; auto. Qed.

Lemma wp_bind {A B} (r : res A) (f : A -> res B) (P : A -> Prop) (Q : B -> Prop) :
  wp r P -> (forall a, P a -> wp (f a) Q) -> wp (r ≫= f) Q.
Proof. destruct r; simpl; auto. Qed.

Lemma wp_Ok {A} (r : res A) (P : A -> Prop) a : wp r P -> r = Ok a -> P a.
Proof. by intros H ->. Qed.

(** What is known of every value that is returned may be added. *)
Lemma wp_and {A} (r : res A) (P Q : A -> Prop) :
  wp r P -> (forall a, r = Ok a -> Q a) -> wp r (fun a => P a /\ Q a).
Proof. destruct r; simpl; auto. Qed.

Lemma wp_exists {A} (r : res A) (Q : A -> Prop) : (exists a, r = Ok a /\ Q a) -> wp r Q.
Proof. by intros (a & -> & H). Qed.

Lemma wp_for_each {A S} (f : A -> S -> res S) (I : S -> Prop) (l : list A) (s : S) :
  I s -> (forall x s, x ∈ l -> I s -> wp (f x s) I) -> wp (for_each f l s) I.
Proof.
  revert s. induction l as [|x l IH]; intros s Hs Hf; simpl; [done|].
  eapply wp_bind; [apply Hf; [by left|done]|]. intros s' Hs'. apply IH; [done|].
  intros y s2 Hy. apply Hf. by right.
Qed.

(** ** Machine integers (LP64) *)
Definition two64 : Z := 18446744073709551616.
Definition max_int64 : Z := 9223372036854775807.
Definition min_int64 : Z := -9223372036854775808.
Definition UINTPTR_MAX : Z := 18446744073709551615.

(** [size_t] arithmetic wraps. *)
Definition u64 (x : Z) : Z := x mod two64.
Definition size_add (x y : Z) : Z := u64 (x + y).
Definition size_sub (x y : Z) : Z := u64 (x - y).

(** Conversions to [uint32_t] and back to [int]. *)
Definition u32 (x : Z) : Z := x mod 4294967296.
Definition s32 (x : Z) : Z := let y := u32 x in if y <? 2147483648 then y else y - 4294967296.

(** Signed 64-bit arithmetic must stay in range. *)
Definition in_int64 (x : Z) : bool := (min_int64 <=? x) && (x <=? max_int64).
Definition int64 (x : Z) : res Z := if in_int64 x then Ok x else Fault SignedOverflow.

Lemma u64_small x : 0 <= x < two64 -> u64 x = x.
Proof. apply Z.mod_small. Qed.

Lemma u64_bound x : 0 <= u64 x < two64.
Proof. by apply Z.mod_pos_bound. Qed.

Lemma int64_Ok x y : int64 x = Ok y <-> y = x /\ min_int64 <= x <= max_int64.
Proof.
  unfold int64, in_int64.
  destruct (Z.leb_spec min_int64 x), (Z.leb_spec x max_int64); simpl; naive_solver lia.
Qed.

(** ** System calls

    The outcome of a system call: [-1] with [errno], or what it returned. *)
Inductive sysret (A : Type) :=
  | Errno (e : Z)
  | Done (a : A).
Arguments Errno {A} e.
Arguments Done {A} a.

Definition EINTR : Z := 4.
Definition EBADF : Z := 9.
Definition EAGAIN : Z := 11.
Definition EINVAL : Z := 22.
Definition EPIPE : Z := 32.
Definition ECONNRESET : Z := 104.

Definition nullptr : Z := 0.

#[global] Instance byte_eq_dec : EqDecision Byte.byte.
Proof. intros a b. destruct (Byte.byte_eq_dec a b); [by left|by right]. Defined.

#[global] Instance byte_countable : Countable Byte.byte.
Proof.
  refine (inj_countable Byte.to_N Byte.of_N _). intros b. apply Byte.of_to_N.
Defined.

(** ** Arrays: reading and overwriting a range of a list *)
Definition zlen {A} (l : list A) : Z := Z.of_nat (length l).

(** The elements of [l] at the offsets [i <= k < j]. *)
Definition slice {A} (l : list A) (i j : Z) : list A :=
  take (Z.to_nat (j - i)) (drop (Z.to_nat i) l).

(** [l] with [d] written from offset [i] on. *)
Definition splice {A} (l : list A) (i : Z) (d : list A) : list A :=
  take (Z.to_nat i) l ++ d ++ drop (Z.to_nat i + length d) l.

#[global] Arguments zlen : simpl never.
#[global] Arguments slice : simpl never.
#[global] Arguments splice : simpl never.
#[global] Arguments u64 : simpl never.
#[global] Arguments int64 : simpl never.

Section arrays.
Context {A : Type}.
Implicit Types l d : list A.

Lemma zlen_nonneg l : 0 <= zlen l.
Proof. unfold zlen; lia. Qed.

Lemma zlen_app l d : zlen (l ++ d) = zlen l + zlen d.
Proof. unfold zlen; rewrite length_app; lia. Qed.

Lemma zlen_nil : zlen (@nil A) = 0.
Proof. done. Qed.

Lemma zlen_0 l : zlen l = 0 -> l = [].
Proof. unfold zlen; destruct l; simpl; [done|lia]. Qed.

Lemma zlen_take l n : zlen (take n l) = Z.min (Z.of_nat n) (zlen l).
Proof. unfold zlen; rewrite length_take; lia. Qed.

Lemma zlen_drop l n : zlen (drop n l) = Z.max 0 (zlen l - Z.of_nat n).
Proof. unfold zlen; rewrite length_drop; lia. Qed.

Lemma zlen_slice l i j : 0 <= i -> i <= j -> j <= zlen l -> zlen (slice l i j) = j - i.
Proof. intros. unfold slice. rewrite zlen_take, zlen_drop. lia. Qed.

Lemma slice_nil l i : slice l i i = [].
Proof. unfold slice. by rewrite Z.sub_diag, take_0. Qed.

Lemma slice_all l : slice l 0 (zlen l) = l.
Proof. unfold slice, zlen. rewrite drop_0. apply take_ge. lia. Qed.

Lemma slice_app_split l i j k :
  0 <= i -> i <= j -> j <= k -> slice l i k = slice l i j ++ slice l j k.
Proof.
  intros. unfold slice.
  replace (Z.to_nat j) with (Z.to_nat i + Z.to_nat (j - i))%nat by lia.
  rewrite <- drop_drop.
  replace (Z.to_nat (k - i)) with (Z.to_nat (j - i) + Z.to_nat (k - j))%nat by lia.
  by rewrite take_take_drop.
Qed.

Lemma drop_slice l i j n :
  0 <= i -> 0 <= n -> drop (Z.to_nat n) (slice l i j) = slice l (i + n) j.
Proof.
  intros. unfold slice.
  rewrite skipn_firstn_comm, drop_drop. f_equal; [lia|f_equal; lia].
Qed.

Lemma take_slice l i j n :
  0 <= n <= j - i -> take (Z.to_nat n) (slice l i j) = slice l i (i + n).
Proof. intros. unfold slice. rewrite take_take. f_equal; lia. Qed.

Lemma slice_prefix l l' i j :
  0 <= i -> j <= zlen l -> slice (l ++ l') i j = slice l i j.
Proof.
  intros. unfold slice, zlen in *.
  destruct (Z.leb_spec j i).
  { replace (Z.to_nat (j - i)) with 0%nat by lia. by rewrite !take_0. }
  rewrite drop_app_le by lia. rewrite take_app_le; [done|]. rewrite length_drop; lia.
Qed.

Lemma zlen_splice l i d : 0 <= i -> i + zlen d <= zlen l -> zlen (splice l i d) = zlen l.
Proof.
  intros. unfold splice. rewrite !zlen_app, zlen_take, zlen_drop. unfold zlen in *. lia.
Qed.

Lemma slice_splice_eq l i d :
  0 <= i -> i + zlen d <= zlen l -> slice (splice l i d) i (i + zlen d) = d.
Proof.
  intros. unfold slice, splice, zlen in *.
  rewrite drop_app_ge by (rewrite length_take; lia). rewrite length_take.
  replace (Z.to_nat i - _)%nat with 0%nat by lia. rewrite drop_0.
  replace (Z.to_nat _) with (length d) by lia. by rewrite take_app_length.
Qed.

Lemma slice_splice_before l i d a b :
  0 <= a -> b <= i -> i <= zlen l -> slice (splice l i d) a b = slice l a b.
Proof.
  intros. destruct (Z.leb_spec b a).
  { unfold slice. replace (Z.to_nat (b - a)) with 0%nat by lia. by rewrite !take_0. }
  unfold splice. rewrite slice_prefix; [|lia|rewrite zlen_take; lia].
  unfold slice. rewrite skipn_firstn_comm, take_take. f_equal. lia.
Qed.

Lemma slice_splice_after l i d a b :
  0 <= i -> i + zlen d <= a -> i + zlen d <= zlen l ->
  slice (splice l i d) a b = slice l a b.
Proof.
  intros. unfold slice, splice, zlen in *.
  rewrite drop_app_ge by (rewrite length_take; lia). rewrite length_take.
  rewrite drop_app_ge by lia. rewrite drop_drop. f_equal. f_equal. lia.
Qed.
End arrays.

(** ** Filters *)
Lemma filter_keep {A} (P : A -> Prop) `{!forall x, Decision (P x)} (l : list A) :
  (forall x, x ∈ l -> P x) -> filter P l = l.
Proof.
  induction l as [|x l IH]; intros Hl; [done|]. rewrite filter_cons, decide_True by (apply Hl; set_solver).
  by rewrite IH by set_solver.
Qed.

Lemma filter_drop {A} (P : A -> Prop) `{!forall x, Decision (P x)} (l : list A) :
  (forall x, x ∈ l -> ~ P x) -> filter P l = [].
Proof.
  induction l as [|x l IH]; intros Hl; [done|]. rewrite filter_cons, decide_False by (apply Hl; set_solver).
  by rewrite IH by set_solver.
Qed.

(** ** Finite sets *)
Lemma gset_pop `{Countable A} (x : A) (X : gset A) : x ∉ X -> ({[x]} ∪ X) ∖ {[x]} = X.
Proof. set_solver. Qed.

Lemma gset_push `{Countable A} (x : A) (X : gset A) : x ∈ X -> {[x]} ∪ X ∖ {[x]} = X.
Proof.
  intros Hx. apply set_eq. intros y. destruct (decide (y = x)) as [->|]; set_solver.
Qed.

(** ** Automation

    [arrays] rewrites lengths of array expressions; [res_simpl] runs the
    outcome monad one step; [inv_res] opens a hypothesis that a run ended well. *)
Create HintDb arrays.
Create Rewrite HintDb arrays.
#[export] Hint Rewrite @zlen_app @zlen_nil @zlen_take @zlen_drop : arrays.
#[export] Hint Resolve zlen_nonneg : arrays.

Ltac zlen_nonneg_all :=
  repeat match goal with
  | |- context [zlen ?l] =>
      lazymatch goal with
      | _ : 0 <= zlen l |- _ => fail
      | _ => pose proof (zlen_nonneg l)
      end
  | _ : context [zlen ?l] |- _ =>
      lazymatch goal with
      | _ : 0 <= zlen l |- _ => fail
      | _ => pose proof (zlen_nonneg l)
      end
  end.

Ltac arr := zlen_nonneg_all; autorewrite with arrays in *; zlen_nonneg_all; lia.

Ltac res_simpl := simpl; rewrite ?bind_ret_l; simpl.

Ltac inv_res :=
  repeat match goal with
  | H : _ ≫= _ = Ok _ |- _ =>
      let a := fresh "a" in let H1 := fresh "Hm" in
      apply bind_Ok in H; destruct H as (a & H1 & H); simpl in H
  | H : mret _ = Ok _ |- _ => injection H as H; try subst
  | H : Ok _ = Ok _ |- _ => injection H as H; try subst
  | H : Fault _ = Ok _ |- _ => discriminate H
  | H : assert _ = Ok _ |- _ => apply assert_Ok in H
  end.

(** Splits on the comparison a guard of the code computes. *)
Ltac zcase :=
  match goal with
  | |- context [Z.ltb ?a ?b] => destruct (Z.ltb_spec a b)
  | |- context [Z.leb ?a ?b] => destruct (Z.leb_spec a b)
  | |- context [Z.eqb ?a ?b] => destruct (Z.eqb_spec a b)
  end.
