(* ===== verification/Buffer.v ===== *)
(** * Buffer: the byte buffer of a connection

    Models [include/Buffer.h] and [src/base/Buffer.cpp].  A [Buffer] is a
    vector of bytes with a reader and a writer index; pointers into it
    ([peek], [beginWrite], the argument of [retrieveUntil]) are offsets into the
    vector.  [size_t] arithmetic wraps, vector accesses outside the vector and
    [std::copy] into its own source range are faults, and [resize] beyond
    [max_size] throws [std::length_error].  The results of [readv] and [write]
    are inputs.  The abstract specification is a queue of bytes. *)
From Stdlib Require Import Strings.Byte.
From S2P Require Import Prelude.

(** ** The vector *)

(** [std::vector<char>::max_size()] on LP64. *)
Definition max_size : Z := max_int64.

Definition zeros (n : Z) : list byte := replicate (Z.to_nat n) x00.

Definition vector_new (n : Z) : res (list byte) :=
  if n <=? max_size then Ok (zeros n) else Fault LengthError.

Definition vector_resize (v : list byte) (n : Z) : res (list byte) :=
  if n <=? max_size then Ok (take (Z.to_nat n) v ++ zeros (n - zlen v))
  else Fault LengthError.

(** Reading [n] bytes from offset [i], as [std::string(p, n)] does. *)
Definition vector_read (v : list byte) (i n : Z) : res (list byte) :=
  if (0 <=? i) && (i + n <=? zlen v) then Ok (slice v i (i + n)) else Fault OutOfBounds.

(** [std::copy] from outside the vector to offset [d]. *)
Definition copy_in (v data : list byte) (d : Z) : res (list byte) :=
  if (0 <=? d) && (d + zlen data <=? zlen v) then Ok (splice v d data) else Fault OutOfBounds.

(** [std::copy(v + first, v + last, v + d)] within the vector: [d] must not be
    in the source range. *)
Definition copy_within (v : list byte) (first last d : Z) : res (list byte) :=
  if (0 <=? first) && (first <=? last) && (last <=? zlen v)
     && (0 <=? d) && (d + (last - first) <=? zlen v)
  then if (first <=? d) && (d <? last) then Fault OverlappingCopy
       else Ok (splice v d (slice v first last))
  else Fault OutOfBounds.

(** [std::search]: the offset of the first occurrence of [pat] in [l], or the
    length of [l]. *)
Fixpoint search (pat l : list byte) : nat :=
  if decide (pat `prefix_of` l) then 0%nat
  else match l with
       | [] => 0%nat
       | _ :: l => S (search pat l)
       end.

(** ** The class *)
Record Buffer := mkBuffer {
  buffer_ : list byte;
  readerIndex_ : Z;
  writerIndex_ : Z
}.

Definition kCheapPrepend : Z := 8.
Definition kInitialSize : Z := 1024.
Definition kCRLF : list byte := [x0d; x0a].

Definition Buffer_new (initialSize : Z) : res Buffer :=
  v ← vector_new (size_add kCheapPrepend initialSize);
  Ok (mkBuffer v kCheapPrepend kCheapPrepend).

Definition readableBytes (b : Buffer) : Z := size_sub (writerIndex_ b) (readerIndex_ b).
Definition writableBytes (b : Buffer) : Z := size_sub (zlen (buffer_ b)) (writerIndex_ b).
Definition prependableBytes (b : Buffer) : Z := readerIndex_ b.
Definition empty (b : Buffer) : bool := readableBytes b =? 0.
Definition peek (b : Buffer) : Z := readerIndex_ b.
Definition beginWrite (b : Buffer) : Z := writerIndex_ b.

(** [findCRLF(start)]: [None] is [nullptr]. *)
Definition findCRLF_from (b : Buffer) (start : Z) : option Z :=
  let crlf := start + Z.of_nat (search kCRLF (slice (buffer_ b) start (beginWrite b))) in
  if crlf =? beginWrite b then None else Some crlf.

Definition findCRLF (b : Buffer) : option Z := findCRLF_from b (peek b).

Definition retrieveAll (b : Buffer) : Buffer :=
  mkBuffer (buffer_ b) kCheapPrepend kCheapPrepend.

Definition retrieve (b : Buffer) (len : Z) : Buffer :=
  if len <? readableBytes b
  then mkBuffer (buffer_ b) (size_add (readerIndex_ b) len) (writerIndex_ b)
  else retrieveAll b.

Definition retrieveUntil (b : Buffer) (end_ : Z) : Buffer :=
  retrieve b (u64 (end_ - peek b)).

Definition retrieveAllAsString (b : Buffer) : res (list byte * Buffer) :=
  result ← vector_read (buffer_ b) (peek b) (readableBytes b);
  Ok (result, retrieveAll b).

Definition retrieveAsString (b : Buffer) (len : Z) : res (list byte * Buffer) :=
  result ← vector_read (buffer_ b) (peek b) len;
  Ok (result, retrieve b len).

Definition makeSpace (b : Buffer) (len : Z) : res Buffer :=
  if size_add (writableBytes b) (prependableBytes b) <? size_add len kCheapPrepend
  then
    v ← vector_resize (buffer_ b) (size_add (writerIndex_ b) len);
    Ok (mkBuffer v (readerIndex_ b) (writerIndex_ b))
  else
    let readable := readableBytes b in
    v ← copy_within (buffer_ b) (readerIndex_ b) (writerIndex_ b) kCheapPrepend;
    Ok (mkBuffer v kCheapPrepend (size_add kCheapPrepend readable)).

Definition ensureWritableBytes (b : Buffer) (len : Z) : res Buffer :=
  if writableBytes b <? len then makeSpace b len else Ok b.

(** [append(data, len)] with [len] the length of [data]. *)
Definition append (b : Buffer) (data : list byte) : res Buffer :=
  b ← ensureWritableBytes b (zlen data);
  v ← copy_in (buffer_ b) data (beginWrite b);
  Ok (mkBuffer v (readerIndex_ b) (size_add (writerIndex_ b) (zlen data))).

Definition prepend (b : Buffer) (data : list byte) : res Buffer :=
  let len := zlen data in
  if len <? prependableBytes b
  then
    let r := size_sub (readerIndex_ b) len in
    v ← copy_in (buffer_ b) data r;
    Ok (mkBuffer v r (writerIndex_ b))
  else
    let readable := readableBytes b in
    let needed := size_add (size_add kCheapPrepend len) readable in
    v ← (if zlen (buffer_ b) <? needed then vector_resize (buffer_ b) needed
         else Ok (buffer_ b));
    v ← copy_within v (readerIndex_ b) (writerIndex_ b) (kCheapPrepend + len);
    v ← copy_in v data kCheapPrepend;
    Ok (mkBuffer v kCheapPrepend (size_add (size_add kCheapPrepend len) readable)).

Definition shrink (b : Buffer) (reserve : Z) : res Buffer :=
  let readable := readableBytes b in
  buf ← vector_new (size_add (size_add kCheapPrepend readable) reserve);
  data ← vector_read (buffer_ b) (readerIndex_ b) (writerIndex_ b - readerIndex_ b);
  v ← copy_in buf data kCheapPrepend;
  Ok (mkBuffer v kCheapPrepend (size_add kCheapPrepend readable)).

Definition extrabuf_size : Z := 65536.

(** [readFd]: [ret] is what [readv] into the writable tail and the 64 KiB stack
    buffer delivered.  Returns [n] and [savedErrno] when [n < 0]. *)
Definition readFd (b : Buffer) (ret : sysret (list byte)) : res (Z * option Z * Buffer) :=
  let writable := writableBytes b in
  match ret with
  | Errno e => Ok (-1, Some e, b)
  | Done data =>
      let n := zlen data in
      v ← copy_in (buffer_ b) (take (Z.to_nat writable) data) (writerIndex_ b);
      if n <=? writable
      then Ok (n, None, mkBuffer v (readerIndex_ b) (size_add (writerIndex_ b) n))
      else
        b' ← append (mkBuffer v (readerIndex_ b) (zlen v)) (drop (Z.to_nat writable) data);
        Ok (n, None, b')
  end.

(** [writeFd]: [ret] is what [write] of the readable bytes returned. *)
Definition writeFd (b : Buffer) (ret : sysret Z) : Z * option Z * Buffer :=
  match ret with
  | Errno e => (-1, Some e, b)
  | Done n =>
      if n <=? readableBytes b
      then (n, None, mkBuffer (buffer_ b) (size_add (readerIndex_ b) n) (writerIndex_ b))
      else (n, None, b)
  end.

(** ** Well-formedness and the abstract contents *)
Definition wf (b : Buffer) : Prop :=
  0 <= readerIndex_ b /\ readerIndex_ b <= writerIndex_ b /\
  writerIndex_ b <= zlen (buffer_ b) /\ kCheapPrepend <= zlen (buffer_ b) /\
  zlen (buffer_ b) <= max_size.

(** The bytes between the reader and the writer index. *)
Definition readable (b : Buffer) : list byte :=
  slice (buffer_ b) (readerIndex_ b) (writerIndex_ b).

Ltac unfold_sizes :=
  unfold wf, size_add, size_sub, max_size, max_int64, two64, kCheapPrepend, kInitialSize,
    prependableBytes, peek, beginWrite in *; simpl in *.

Ltac unwrap :=
  unfold_sizes; repeat (rewrite u64_small by (unfold two64; arr)).

Lemma wf_sizes b :
  wf b ->
  readableBytes b = writerIndex_ b - readerIndex_ b /\
  writableBytes b = zlen (buffer_ b) - writerIndex_ b.
Proof. intros. unfold readableBytes, writableBytes. unwrap. done. Qed.

Lemma zlen_readable b : wf b -> zlen (readable b) = readableBytes b.
Proof.
  intros Hwf. destruct (wf_sizes b Hwf) as [-> _]. unfold readable.
  rewrite zlen_slice; unfold wf in Hwf; lia.
Qed.

Lemma zlen_zeros n : 0 <= n -> zlen (zeros n) = n.
Proof. intros. unfold zeros, zlen. rewrite length_replicate. lia. Qed.

Lemma vector_resize_grow v n :
  zlen v <= n <= max_size -> vector_resize v n = Ok (v ++ zeros (n - zlen v)).
Proof.
  intros. unfold vector_resize. destruct (Z.leb_spec n max_size); [|lia].
  rewrite take_ge; [done|]. unfold zlen in *; lia.
Qed.

Lemma copy_in_Ok v data d :
  0 <= d -> d + zlen data <= zlen v -> copy_in v data d = Ok (splice v d data).
Proof.
  intros. unfold copy_in. by rewrite (proj2 (Z.leb_le _ _)), (proj2 (Z.leb_le _ _)) by done.
Qed.

Lemma vector_read_Ok v i n :
  0 <= i -> i + n <= zlen v -> vector_read v i n = Ok (slice v i (i + n)).
Proof.
  intros. unfold vector_read. by rewrite (proj2 (Z.leb_le _ _)), (proj2 (Z.leb_le _ _)) by done.
Qed.

Lemma copy_within_Ok v first last d :
  0 <= first -> first <= last -> last <= zlen v -> 0 <= d -> d + (last - first) <= zlen v ->
  ~ (first <= d < last) ->
  copy_within v first last d = Ok (splice v d (slice v first last)).
Proof.
  intros. unfold copy_within. repeat rewrite (proj2 (Z.leb_le _ _)) by done. simpl.
  destruct (Z.leb_spec first d), (Z.ltb_spec d last); simpl; [lia|done..].
Qed.

Lemma Buffer_new_spec n :
  0 <= n -> kCheapPrepend + n <= max_size ->
  exists b, Buffer_new n = Ok b /\ wf b /\ readable b = [] /\ writableBytes b = n.
Proof.
  intros. unfold Buffer_new, vector_new. unwrap.
  destruct (Z.leb_spec (8 + n) 9223372036854775807); [|lia]. simpl.
  eexists. split; [done|]. unfold writableBytes, readable. simpl.
  rewrite zlen_zeros by lia. split; [lia|].
  split; [apply slice_nil|]. unwrap. lia.
Qed.

(** Room for [len] more bytes: at the tail, after compaction (which keeps the
    8 prependable bytes), or by growing within [max_size]. *)
Definition has_room (b : Buffer) (len : Z) : Prop :=
  len <= writableBytes b \/
  len + kCheapPrepend <= writableBytes b + prependableBytes b \/
  writerIndex_ b + len <= max_size.

(** [makeSpace] makes room for [len] bytes and keeps the contents. *)
Lemma makeSpace_spec b len :
  wf b -> writableBytes b < len <= max_size -> has_room b len ->
  exists b', makeSpace b len = Ok b' /\ wf b' /\ readable b' = readable b /\
             len <= zlen (buffer_ b') - writerIndex_ b'.
Proof.
  intros Hwf Hw Hmax. destruct (wf_sizes b Hwf) as [Hr Hw']. unfold has_room in Hmax.
  rewrite Hw' in *. unfold makeSpace. rewrite Hr, Hw'. unwrap. zcase.
  - rewrite vector_resize_grow by (unfold_sizes; lia). simpl. eexists. split; [done|].
    simpl. rewrite zlen_app, zlen_zeros by lia.
    split; [split_and!; simpl; rewrite ?zlen_app, ?zlen_zeros by lia; lia|].
    split; [|lia]. unfold readable; simpl. apply slice_prefix; lia.
  - rewrite copy_within_Ok by lia. simpl. eexists. split; [done|].
    set (d := slice (buffer_ b) (readerIndex_ b) (writerIndex_ b)).
    assert (zlen d = writerIndex_ b - readerIndex_ b) as Hd by (apply zlen_slice; lia).
    simpl. rewrite zlen_splice by lia.
    split; [split_and!; simpl; rewrite ?zlen_splice by lia; lia|].
    split; [|lia]. change (readable b) with d. unfold readable; simpl. clearbody d.
    rewrite <- Hd. apply slice_splice_eq; lia.
Qed.

Lemma ensureWritableBytes_spec b len :
  wf b -> 0 <= len <= max_size -> has_room b len ->
  exists b', ensureWritableBytes b len = Ok b' /\ wf b' /\ readable b' = readable b /\
             len <= zlen (buffer_ b') - writerIndex_ b'.
Proof.
  intros Hwf Hlen Hroom. unfold ensureWritableBytes. destruct (wf_sizes b Hwf) as [_ Hw].
  zcase; [apply makeSpace_spec; done || lia|]. exists b. split_and!; try done. lia.
Qed.

Lemma append_contents b data :
  wf b -> zlen data <= max_size -> has_room b (zlen data) ->
  exists b', append b data = Ok b' /\ wf b' /\ readable b' = readable b ++ data.
Proof.
  intros Hwf Hmax Hfit. unfold append. pose proof (zlen_nonneg data).
  destruct (ensureWritableBytes_spec b (zlen data) Hwf (conj H Hmax) Hfit)
    as (b1 & -> & Hwf1 & Hr1 & Hroom).
  simpl. unfold beginWrite. unfold wf in Hwf1. rewrite copy_in_Ok by lia. simpl.
  eexists. split; [done|]. rewrite <- Hr1. unfold readable. unwrap.
  rewrite zlen_splice by lia. split; [split_and!; arr|].
  rewrite (slice_app_split _ (readerIndex_ b1) (writerIndex_ b1)) by arr.
  rewrite slice_splice_before, slice_splice_eq by lia. done.
Qed.

(** Without room, growing the vector throws. *)
Lemma append_full b data :
  wf b -> zlen data <= max_size -> ~ has_room b (zlen data) -> append b data = Fault LengthError.
Proof.
  intros Hwf Hmax Hno. destruct (wf_sizes b Hwf) as [Hr Hw]. unfold has_room in Hno.
  unfold append, ensureWritableBytes, makeSpace. zcase; [|tauto].
  rewrite Hw in *. unwrap. zcase; [|tauto]. unfold vector_resize, max_size, max_int64.
  zcase; [lia|done].
Qed.

Lemma append_cases b data :
  wf b -> zlen data <= max_size ->
  (has_room b (zlen data) /\
   exists b', append b data = Ok b' /\ wf b' /\ readable b' = readable b ++ data)
  \/ (~ has_room b (zlen data) /\ append b data = Fault LengthError).
Proof.
  intros Hwf Hmax. destruct (wf_sizes b Hwf) as [Hr Hw].
  assert (has_room b (zlen data) \/ ~ has_room b (zlen data)) as [Hroom|Hno]
    by (unfold has_room; lia).
  - left. split; [done|]. by apply append_contents.
  - right. split; [done|]. by apply append_full.
Qed.

Lemma append_Ok_contents b data b' :
  wf b -> zlen data <= max_size -> append b data = Ok b' ->
  wf b' /\ readable b' = readable b ++ data.
Proof.
  intros Hwf Hmax E. destruct (append_cases b data Hwf Hmax) as [(_ & b1 & E1 & H)|[_ E1]]; congruence.
Qed.

Lemma retrieveAll_contents b : wf b -> wf (retrieveAll b) /\ readable (retrieveAll b) = [].
Proof. intros. unfold retrieveAll. unfold_sizes. split; [lia|apply slice_nil]. Qed.

Lemma retrieve_contents b n :
  wf b -> 0 <= n -> wf (retrieve b n) /\ readable (retrieve b n) = drop (Z.to_nat n) (readable b).
Proof.
  intros Hwf Hn. unfold retrieve. pose proof (zlen_readable b Hwf) as Hlen.
  destruct (wf_sizes b Hwf) as [Hr _]. zcase.
  - unfold readable. rewrite drop_slice by (unfold wf in Hwf; lia). unwrap. split; [lia|done].
  - rewrite drop_ge by (unfold zlen in *; lia). by apply retrieveAll_contents.
Qed.

Lemma retrieveUntil_contents b k :
  wf b -> readerIndex_ b <= k <= writerIndex_ b ->
  wf (retrieveUntil b k) /\ readable (retrieveUntil b k) = slice (buffer_ b) k (writerIndex_ b).
Proof.
  intros Hwf Hk. unfold retrieveUntil.
  assert (u64 (k - peek b) = k - readerIndex_ b) as -> by (unwrap; done).
  destruct (retrieve_contents b (k - readerIndex_ b)) as [Hwf' ->]; [done|lia|].
  split; [done|]. unfold readable. unfold wf in Hwf. rewrite drop_slice by lia. f_equal; lia.
Qed.

Lemma read_readable b n :
  wf b -> 0 <= n <= readableBytes b ->
  vector_read (buffer_ b) (peek b) n = Ok (take (Z.to_nat n) (readable b)).
Proof.
  intros Hwf Hn. destruct (wf_sizes b Hwf) as [Hr _]. unfold wf in Hwf. unfold peek, readable.
  rewrite vector_read_Ok, take_slice by lia. done.
Qed.

Lemma retrieveAsString_contents b n :
  wf b -> 0 <= n <= readableBytes b ->
  exists b', retrieveAsString b n = Ok (take (Z.to_nat n) (readable b), b') /\ wf b' /\
             readable b' = drop (Z.to_nat n) (readable b).
Proof.
  intros Hwf Hn. unfold retrieveAsString. rewrite read_readable by done. simpl.
  eexists. split; [done|]. apply retrieve_contents; [done|lia].
Qed.

Lemma retrieveAllAsString_contents b :
  wf b -> exists b', retrieveAllAsString b = Ok (readable b, b') /\ wf b' /\ readable b' = [].
Proof.
  intros Hwf. unfold retrieveAllAsString. pose proof (zlen_readable b Hwf).
  pose proof (zlen_nonneg (readable b)).
  rewrite read_readable by (done || lia). simpl.
  rewrite take_ge by (unfold zlen in *; lia).
  eexists. split; [done|]. by apply retrieveAll_contents.
Qed.

(** A prepend is defined when the data fits strictly before the reader index, or
    when moving the contents up does not land inside them. *)
Definition prepend_safe (b : Buffer) (data : list byte) : Prop :=
  zlen data < readerIndex_ b \/
  (readableBytes b <= kCheapPrepend + zlen data - readerIndex_ b /\
   kCheapPrepend + zlen data + readableBytes b <= max_size).

Lemma prepend_moved v r w data :
  0 <= r -> r <= w -> w <= zlen v -> kCheapPrepend + zlen data + (w - r) <= zlen v ->
  w <= kCheapPrepend + zlen data -> r <= zlen data ->
  exists v1 v2,
    copy_within v r w (kCheapPrepend + zlen data) = Ok v1 /\
    copy_in v1 data kCheapPrepend = Ok v2 /\ zlen v2 = zlen v /\
    slice v2 kCheapPrepend (kCheapPrepend + zlen data + (w - r)) = data ++ slice v r w.
Proof.
  intros. zlen_nonneg_all. unfold kCheapPrepend in *.
  set (d := slice v r w).
  assert (zlen d = w - r) as Hd by (apply zlen_slice; lia).
  assert (copy_within v r w (8 + zlen data) = Ok (splice v (8 + zlen data) d)) as ->
    by (apply copy_within_Ok; lia).
  clearbody d. do 2 eexists. split; [done|].
  rewrite copy_in_Ok by (rewrite ?zlen_splice by lia; lia). split; [done|].
  rewrite !zlen_splice by (rewrite ?zlen_splice by lia; lia).
  split; [done|]. rewrite (slice_app_split _ 8 (8 + zlen data)) by lia. f_equal.
  - apply slice_splice_eq; rewrite ?zlen_splice by lia; lia.
  - rewrite slice_splice_after by (rewrite ?zlen_splice by lia; lia).
    rewrite <- Hd. apply slice_splice_eq; lia.
Qed.

Lemma prepend_contents b data :
  wf b -> prepend_safe b data ->
  exists b', prepend b data = Ok b' /\ wf b' /\ readable b' = data ++ readable b.
Proof.
  intros Hwf Hsafe. unfold prepend, prepend_safe in *.
  destruct (wf_sizes b Hwf) as [Hr _]. rewrite Hr in *. unfold readable. unwrap. zcase.
  - assert (zlen (splice (buffer_ b) (readerIndex_ b - zlen data) data) = zlen (buffer_ b))
      as Hlen by (apply zlen_splice; arr).
    rewrite u64_small by (unfold two64; arr).
    rewrite copy_in_Ok by arr. simpl. eexists. split; [done|]. simpl. rewrite Hlen.
    split; [split_and!; arr|].
    rewrite (slice_app_split _ _ (readerIndex_ b)) by arr. f_equal.
    + pose proof (slice_splice_eq (buffer_ b) (readerIndex_ b - zlen data) data) as E.
      rewrite Z.sub_add in E. apply E; arr.
    + apply slice_splice_after; arr.
  - destruct Hsafe as [|[Hov Hmax]]; [lia|].
    rewrite (u64_small (8 + zlen data)) by (unfold two64; arr). unwrap.
    set (v := if _ <? _ then _ else _).
    assert (exists v', v = Ok v' /\ 8 + zlen data + (writerIndex_ b - readerIndex_ b) <= zlen v' /\
              zlen (buffer_ b) <= zlen v' <= max_int64 /\
              slice v' (readerIndex_ b) (writerIndex_ b)
              = slice (buffer_ b) (readerIndex_ b) (writerIndex_ b)) as (v' & -> & Hv1 & Hv2 & <-).
    { subst v. unfold max_int64. zcase.
      - rewrite vector_resize_grow by (unfold max_size, max_int64; lia). eexists. split; [done|].
        rewrite zlen_app, zlen_zeros by lia. rewrite slice_prefix by lia. split; [lia|]. split; [lia|done].
      - eexists. split; [done|]. split; [lia|]. split; [lia|done]. }
    simpl. unfold max_int64 in *.
    destruct (prepend_moved v' (readerIndex_ b) (writerIndex_ b) data)
      as (v1 & v2 & E1 & E2 & E3 & E4); [unfold kCheapPrepend; lia..|].
    unfold kCheapPrepend in *. rewrite E1. simpl. rewrite E2. simpl.
    eexists. split; [done|]. simpl. rewrite E3. split; [split_and!; arr|done].
Qed.

Lemma shrink_contents b reserve :
  wf b -> 0 <= reserve -> kCheapPrepend + readableBytes b + reserve <= max_size ->
  exists b', shrink b reserve = Ok b' /\ wf b' /\ readable b' = readable b /\
             writableBytes b' = reserve.
Proof.
  intros Hwf Hres Hmax. unfold shrink. destruct (wf_sizes b Hwf) as [Hr _]. rewrite Hr in *.
  unwrap. unfold vector_new. unfold max_size, max_int64.
  destruct (Z.leb_spec (8 + (writerIndex_ b - readerIndex_ b) + reserve) 9223372036854775807);
    [|lia]. simpl.
  rewrite vector_read_Ok by lia. simpl.
  replace (readerIndex_ b + (writerIndex_ b - readerIndex_ b)) with (writerIndex_ b) by lia.
  set (d := slice _ _ _). change (readable b) with d.
  assert (zlen d = writerIndex_ b - readerIndex_ b) as Hd by (apply zlen_slice; lia).
  clearbody d. rewrite <- Hd in *.
  rewrite copy_in_Ok by (rewrite ?zlen_zeros; lia). simpl.
  eexists. split; [done|]. simpl. unfold readable, writableBytes; simpl.
  rewrite zlen_splice by (rewrite ?zlen_zeros; lia). rewrite zlen_zeros by lia.
  split; [split_and!; lia|].
  split; [apply slice_splice_eq; rewrite ?zlen_zeros; lia|]. unwrap. lia.
Qed.

(** [readv] fills the writable tail first and never delivers more than the two
    buffers hold. *)
Definition readv_ok (b : Buffer) (ret : sysret (list byte)) : Prop :=
  match ret with
  | Errno _ => True
  | Done data => zlen data <= writableBytes b + extrabuf_size
  end.

Definition delivered (ret : sysret (list byte)) : list byte :=
  match ret with Errno _ => [] | Done data => data end.

Definition count (ret : sysret (list byte)) : Z :=
  match ret with Errno _ => -1 | Done data => zlen data end.

Lemma readFd_contents b ret :
  wf b -> readv_ok b ret -> zlen (buffer_ b) + extrabuf_size <= max_size ->
  exists e b', readFd b ret = Ok (count ret, e, b') /\ wf b' /\
               readable b' = readable b ++ delivered ret.
Proof.
  intros Hwf Hret Hmax. destruct (wf_sizes b Hwf) as [Hr Hw]. unfold readFd, readv_ok in *.
  destruct ret as [e|data]; simpl.
  { eexists _, b. rewrite app_nil_r. done. }
  rewrite Hw in *. set (v := zlen (buffer_ b) - writerIndex_ b) in *.
  assert (0 <= v) by (unfold wf in Hwf; lia).
  assert (zlen (take (Z.to_nat v) data) <= v) by arr.
  unfold wf in Hwf. rewrite copy_in_Ok by lia. simpl.
  set (b0 := splice _ _ _).
  assert (zlen b0 = zlen (buffer_ b)) as Hb0 by (apply zlen_splice; lia).
  assert (slice b0 (readerIndex_ b) (writerIndex_ b + zlen (take (Z.to_nat v) data))
          = readable b ++ take (Z.to_nat v) data) as Hb1.
  { rewrite (slice_app_split _ _ (writerIndex_ b)) by arr. subst b0.
    rewrite slice_splice_before, slice_splice_eq by lia. done. }
  clearbody b0. zcase.
  - eexists _, _. split; [done|]. rewrite take_ge in Hb1 by (unfold zlen in *; lia).
    unfold readable at 1. simpl. unwrap. rewrite Hb0. split; [split_and!; arr|done].
  - destruct (append_contents (mkBuffer b0 (readerIndex_ b) (zlen b0)) (drop (Z.to_nat v) data))
      as (b' & -> & Hwf' & Hr').
    { unfold_sizes. rewrite Hb0. lia. }
    { unfold extrabuf_size, max_size, max_int64 in *. arr. }
    { do 2 right. simpl. rewrite Hb0. unfold extrabuf_size in *. arr. }
    eexists _, b'. split; [done|]. split; [done|]. rewrite Hr'. unfold readable at 1. simpl.
    replace (writerIndex_ b + zlen (take (Z.to_nat v) data)) with (zlen b0) in Hb1 by arr.
    rewrite Hb1, <- app_assoc, take_drop. done.
Qed.

(** Without a bound on the contents the vector may run out of [max_size]. *)
Lemma append_wp b data : wf b -> zlen data <= max_size -> wp (Buffer.append b data) wf.
Proof.
  intros Hb Hd. destruct (append_cases b data Hb Hd) as [[_ (b' & -> & Hb' & _)]|[_ ->]]; done.
Qed.

Lemma readFd_wp b ret : wf b -> readv_ok b ret -> wp (readFd b ret) (fun x => wf x.2).
Proof.
  intros Hb Hr. destruct (wf_sizes b Hb) as [_ Hw]. unfold readFd. destruct ret as [e|data]; [done|].
  simpl in Hr. rewrite Hw in *. set (v := zlen (buffer_ b) - writerIndex_ b) in *.
  unfold wf in Hb. assert (0 <= v) by lia.
  assert (zlen (take (Z.to_nat v) data) <= v) by (unfold zlen; rewrite length_take; lia).
  rewrite copy_in_Ok by lia. rewrite bind_ret_l.
  set (b0 := splice _ _ _). assert (zlen b0 = zlen (buffer_ b)) as Hb0 by (apply zlen_splice; lia).
  destruct (Z.leb_spec (zlen data) v).
  - pose proof (zlen_nonneg data). unfold wf. simpl. rewrite Hb0. unfold size_add. rewrite u64_small; [lia|].
    unfold max_size, max_int64, two64 in *. lia.
  - eapply wp_bind; [apply append_wp|by intros b' Hb'].
    + unfold wf. simpl. rewrite Hb0. lia.
    + unfold zlen in *. rewrite length_drop. unfold extrabuf_size, max_size, max_int64 in *. lia.
Qed.

Lemma writeFd_contents b n :
  wf b -> 0 <= n <= readableBytes b ->
  wf (writeFd b (Done n)).2 /\ readable (writeFd b (Done n)).2 = drop (Z.to_nat n) (readable b).
Proof.
  intros Hwf Hn. destruct (wf_sizes b Hwf) as [Hr _]. unfold writeFd. zcase; [|lia]. simpl.
  unfold readable. unfold_sizes. rewrite drop_slice by lia.
  rewrite u64_small by (unfold two64; lia). split; [lia|done].
Qed.

(** ** Searching *)
Definition occurs_at (pat l : list byte) (i : nat) : Prop := pat `prefix_of` drop i l.

Lemma search_first pat l :
  pat <> [] ->
  (search pat l <= length l)%nat /\
  (forall j, (j < search pat l)%nat -> ~ occurs_at pat l j) /\
  ((search pat l < length l)%nat -> occurs_at pat l (search pat l)) /\
  (search pat l = length l -> forall j, ~ occurs_at pat l j).
Proof.
  intros Hpat. unfold occurs_at. induction l as [|x l (IH1 & IH2 & IH3 & IH4)].
  - assert (~ pat `prefix_of` []) as Hn.
    { intros [k Hk]. destruct pat; simplify_eq/=. }
    simpl. destruct (decide _); [done|]. repeat split; try lia. intros _ j. by rewrite drop_nil.
  - cbn [search]. destruct (decide _) as [Hp|Hp]; simpl.
    + repeat split; try (intros; lia); try done.
    + repeat split; [lia| | |].
      * intros [|j] Hj; [done|]. apply IH2. lia.
      * intros Hj. apply IH3. lia.
      * intros Hj [|j]; [done|]. apply IH4. lia.
Qed.

Lemma findCRLF_search b :
  wf b ->
  findCRLF b = (let k := search kCRLF (readable b) in
                if decide (k = length (readable b)) then None
                else Some (readerIndex_ b + Z.of_nat k)).
Proof.
  intros Hwf. unfold findCRLF, findCRLF_from, peek, beginWrite. fold (readable b).
  pose proof (zlen_readable b Hwf) as Hl. destruct (wf_sizes b Hwf) as [Hr _].
  rewrite Hr in Hl. unfold zlen in Hl. simpl.
  destruct (decide _) as [E|E]; zcase; try done; lia.
Qed.

(** ** Specification: a queue of bytes

    Every operation of the class, with the system-call results it depends on,
    what it does to a queue of bytes, and what it hands to the caller. *)
Inductive op :=
  | OAppend (data : list byte)
  | OPrepend (data : list byte)
  | ORetrieve (n : Z)
  | ORetrieveUntil (consumed : Z)
  | ORetrieveAll
  | ORetrieveAsString (n : Z)
  | ORetrieveAllAsString
  | OShrink (reserve : Z)
  | OReadFd (ret : sysret (list byte))
  | OWriteFd (ret : sysret Z).

Definition run_op (b : Buffer) (o : op) : res (list byte * Buffer) :=
  match o with
  | OAppend data => b' ← append b data; Ok ([], b')
  | OPrepend data => b' ← prepend b data; Ok ([], b')
  | ORetrieve n => Ok ([], retrieve b n)
  | ORetrieveUntil k => Ok ([], retrieveUntil b (peek b + k))
  | ORetrieveAll => Ok ([], retrieveAll b)
  | ORetrieveAsString n => retrieveAsString b n
  | ORetrieveAllAsString => retrieveAllAsString b
  | OShrink reserve => b' ← shrink b reserve; Ok ([], b')
  | OReadFd ret => '(_, _, b') ← readFd b ret; Ok ([], b')
  | OWriteFd ret => Ok ([], (writeFd b ret).2)
  end.

Definition spec_op (q : list byte) (o : op) : list byte * list byte :=
  match o with
  | OAppend data => ([], q ++ data)
  | OPrepend data => ([], data ++ q)
  | ORetrieve n | ORetrieveUntil n | OWriteFd (Done n) => ([], drop (Z.to_nat n) q)
  | ORetrieveAll => ([], [])
  | ORetrieveAsString n => (take (Z.to_nat n) q, drop (Z.to_nat n) q)
  | ORetrieveAllAsString => (q, [])
  | OShrink _ | OWriteFd (Errno _) => ([], q)
  | OReadFd ret => ([], q ++ delivered ret)
  end.

(** What the caller and the kernel owe the buffer. *)
Definition admissible (b : Buffer) (o : op) : Prop :=
  match o with
  | OAppend data => zlen data <= max_size /\ has_room b (zlen data)
  | OPrepend data => prepend_safe b data
  | ORetrieve n => 0 <= n
  | ORetrieveUntil n | ORetrieveAsString n | OWriteFd (Done n) => 0 <= n <= readableBytes b
  | ORetrieveAll | ORetrieveAllAsString | OWriteFd (Errno _) => True
  | OShrink r => 0 <= r /\ kCheapPrepend + readableBytes b + r <= max_size
  | OReadFd ret => readv_ok b ret /\ zlen (buffer_ b) + extrabuf_size <= max_size
  end.

Lemma run_op_spec b o :
  wf b -> admissible b o ->
  exists b', run_op b o = Ok ((spec_op (readable b) o).1, b') /\ wf b' /\
             readable b' = (spec_op (readable b) o).2.
Proof.
  intros Hwf Hadm. destruct o as [data|data|n|n| |n| |r|ret|[e|n]]; simpl in *.
  - destruct (append_contents b data) as (b' & -> & ? & ?); [naive_solver..|]. by eexists.
  - destruct (prepend_contents b data) as (b' & -> & ? & ?); [naive_solver..|]. by eexists.
  - eexists. split; [done|]. by apply retrieve_contents.
  - destruct (wf_sizes b Hwf) as [Hr _]. eexists. split; [done|].
    destruct (retrieveUntil_contents b (peek b + n)) as [? ->]; [done|unfold peek; lia|].
    split; [done|]. unfold readable, peek. unfold wf in Hwf. by rewrite drop_slice by lia.
  - eexists. split; [done|]. by apply retrieveAll_contents.
  - by apply retrieveAsString_contents.
  - by apply retrieveAllAsString_contents.
  - destruct (shrink_contents b r) as (b' & -> & ? & ? & _); [naive_solver..|]. by eexists.
  - destruct (readFd_contents b ret) as (e & b' & -> & ? & ?); [naive_solver..|]. by eexists.
  - by eexists.
  - eexists. split; [done|]. by apply writeFd_contents.
Qed.

Fixpoint run_ops (b : Buffer) (os : list op) : res (list (list byte) * Buffer) :=
  match os with
  | [] => Ok ([], b)
  | o :: os =>
      '(out, b) ← run_op b o;
      '(outs, b) ← run_ops b os;
      Ok (out :: outs, b)
  end.

Fixpoint spec_ops (q : list byte) (os : list op) : list (list byte) * list byte :=
  match os with
  | [] => ([], q)
  | o :: os =>
      let '(out, q) := spec_op q o in
      let '(outs, q) := spec_ops q os in (out :: outs, q)
  end.

(** Admissibility of a sequence, checked along the run. *)
Fixpoint admissible_run (b : Buffer) (os : list op) : Prop :=
  match os with
  | [] => True
  | o :: os =>
      admissible b o /\
      match run_op b o with Ok (_, b') => admissible_run b' os | Fault _ => True end
  end.

(** C15: a buffer is a queue of bytes.  Every sequence of appends, prepends,
    retrievals, shrinks, [readFd]s and [writeFd]s whose steps are admissible
    succeeds, hands out exactly the bytes the queue hands out, ends in a
    well-formed buffer, and leaves exactly the queue's bytes readable. *)
Theorem buffer_refines_queue (b : Buffer) (os : list op) :
  wf b -> admissible_run b os ->
  exists b', run_ops b os = Ok ((spec_ops (readable b) os).1, b') /\ wf b' /\
             readable b' = (spec_ops (readable b) os).2.
Proof.
  revert b; induction os as [|o os IH]; intros b Hwf Hadm; simpl in *; [by exists b|].
  destruct Hadm as [Ho Hos]. destruct (run_op_spec b o Hwf Ho) as (b1 & E & Hwf1 & Hr1).
  rewrite E in *. destruct (spec_op (readable b) o) as [out q]. simpl in *. subst q.
  destruct (IH b1 Hwf1 Hos) as (b' & E' & Hwf' & Hr'). rewrite E'. simpl.
  destruct (spec_ops (readable b1) os). simpl in *. by exists b'.
Qed.

Lemma buffer_refines_queue_witness :
  let ops := [OAppend [x41; x42; x43; x44]; OPrepend [x30]; ORetrieve 2;
              OReadFd (Done [x45; x46]); ORetrieveAsString 3; OWriteFd (Done 1)] in
  exists b b', Buffer_new 4 = Ok b /\ run_ops b ops = Ok ([[]; []; []; []; [x42; x43; x44]; []], b')
            /\ readable b' = [x46].
Proof.
  intros ops. assert (exists b, Buffer_new 4 = Ok b) as [b Hb] by (eexists; reflexivity).
  pose proof (buffer_refines_queue b ops) as H. injection Hb as <-.
  destruct H as (b' & E & _ & Hr); [split_and!; done| |].
  - vm_compute. repeat (split || (left; done) || (intro; done)).
  - eexists _, b'. split; [reflexivity|]. split; [exact E|exact Hr].
Defined.

(** The outcome of [append] on a well-formed buffer.  With room at the tail,
    after compaction or by growing, the data ends up behind the readable bytes;
    otherwise, and only then, [std::length_error] is thrown. *)
Theorem append_outcome (b : Buffer) (data : list byte) :
  wf b -> zlen data <= max_size ->
  (has_room b (zlen data) /\
   exists b', append b data = Ok b' /\ wf b' /\ readable b' = readable b ++ data)
  \/ (~ has_room b (zlen data) /\ append b data = Fault LengthError).
Proof. apply append_cases. Qed.

Lemma append_outcome_witness :
  exists b, Buffer_new 2 = Ok b /\
  exists b', append b [x41; x42; x43] = Ok b' /\ readable b' = [x41; x42; x43].
Proof.
  eexists. split; [reflexivity|].
  edestruct (append_outcome (mkBuffer (zeros 10) 8 8) [x41; x42; x43])
    as [[_ (b' & E & _ & Hr)]|[_ E]]; [split_and!; done|done| |discriminate E].
  exists b'. split; [exact E|exact Hr].
Defined.

(** [findCRLF] finds the first line end.  It returns the position of the
    first CR LF among the readable bytes, so that retrieving up to it yields the
    line without its terminator, and [nullptr] exactly when there is none. *)
Theorem findCRLF_first (b : Buffer) :
  wf b ->
  match findCRLF b with
  | Some k =>
      exists i, k = readerIndex_ b + Z.of_nat i /\ occurs_at kCRLF (readable b) i /\
        (forall j, (j < i)%nat -> ~ occurs_at kCRLF (readable b) j) /\
        (exists b', retrieveAsString b (k - peek b) = Ok (take i (readable b), b') /\
           readable (retrieve b' 2) = drop (i + 2) (readable b))
  | None => forall j, ~ occurs_at kCRLF (readable b) j
  end.
Proof.
  intros Hwf. rewrite findCRLF_search by done. simpl.
  destruct (search_first kCRLF (readable b)) as (H1 & H2 & H3 & H4); [done|].
  destruct (decide _) as [E|E]; [by apply H4|].
  set (i := search kCRLF (readable b)) in *. exists i. split; [done|].
  split; [apply H3; lia|]. split; [done|]. unfold peek.
  replace (readerIndex_ b + Z.of_nat i - readerIndex_ b) with (Z.of_nat i) by lia.
  pose proof (zlen_readable b Hwf) as Hl. unfold zlen in Hl.
  destruct (retrieveAsString_contents b (Z.of_nat i)) as (b' & E1 & Hwf' & Hr'); [done|lia|].
  rewrite Nat2Z.id in *. exists b'. split; [done|].
  destruct (retrieve_contents b' 2) as [_ ->]; [done|lia|].
  rewrite Hr', drop_drop. done.
Qed.

Lemma findCRLF_first_witness :
  exists b, wf b /\ readable b = [x41; x42; x0d; x0a; x43] /\ findCRLF b = Some 10 /\
  exists b', retrieveAsString b 2 = Ok ([x41; x42], b') /\ readable (retrieve b' 2) = [x43].
Proof.
  exists (mkBuffer (zeros 8 ++ [x41; x42; x0d; x0a; x43]) 8 13).
  split; [split_and!; done|]. split; [done|]. split; [reflexivity|].
  destruct (findCRLF_first (mkBuffer (zeros 8 ++ [x41; x42; x0d; x0a; x43]) 8 13))
    as (i & Hk & _ & _ & b' & E & Hr); [split_and!; done|].
  simpl in Hk. assert (i = 2%nat) as -> by lia.
  exists b'. split; [exact E|exact Hr].
Defined.

(** [prepend] is defined exactly when the move does not overlap.  If the data
    is not shorter than the prependable space, fewer than [max_size] bytes are
    needed and the contents are longer than the distance they move, the
    [std::copy] of line 127 writes into its own source range. *)
Theorem prepend_overlap (b : Buffer) (data : list byte) :
  wf b -> kCheapPrepend + zlen data + readableBytes b <= max_size ->
  (prepend b data = Fault OverlappingCopy <->
   readerIndex_ b <= zlen data /\ kCheapPrepend + zlen data < writerIndex_ b).
Proof.
  intros Hwf Hmax. destruct (wf_sizes b Hwf) as [Hr _]. split.
  - intros E. destruct (decide (zlen data < readerIndex_ b)) as [Hlt|Hge];
      [|destruct (decide (writerIndex_ b <= kCheapPrepend + zlen data)) as [Hle|]; [|lia]].
    all: destruct (prepend_contents b data Hwf) as (b' & E' & _);
      [unfold prepend_safe; rewrite Hr in *; lia|congruence].
  - intros [H1 H2]. unfold prepend. rewrite Hr in *. unfold prependableBytes, peek.
    destruct (Z.ltb_spec (zlen data) (readerIndex_ b)); [lia|]. zlen_nonneg_all.
    unfold size_add. unfold_sizes. rewrite (u64_small (8 + zlen data)) by (unfold two64; lia).
    rewrite u64_small by (unfold two64; lia).
    assert (forall v, zlen (buffer_ b) <= zlen v ->
              8 + zlen data + (writerIndex_ b - readerIndex_ b) <= zlen v ->
              copy_within v (readerIndex_ b) (writerIndex_ b) (8 + zlen data)
              = Fault OverlappingCopy) as Hov.
    { intros v Hv Hv'. unfold copy_within.
      repeat rewrite (proj2 (Z.leb_le _ _)) by lia. simpl.
      by rewrite (proj2 (Z.ltb_lt _ _)) by lia. }
    zcase.
    + rewrite vector_resize_grow by (unfold max_size, max_int64; lia). simpl.
      rewrite Hov; [done| |]; rewrite zlen_app, zlen_zeros by lia; lia.
    + simpl. by rewrite Hov by lia.
Qed.

Lemma prepend_overlap_witness :
  let b := mkBuffer (zeros 8 ++ replicate 16 x41 ++ zeros 1024) 8 24 in
  prepend b (replicate 8 x42) = Fault OverlappingCopy.
Proof.
  intros b. apply (prepend_overlap b (replicate 8 x42)); [split_and!; done|done|split; done].
Defined.

(** [retrieveAsString] does not stop at the writer index.  Asked for more than
    the readable bytes, it returns, when the vector is long enough, a string that
    continues with the vector's bytes behind the writer index, and reads outside
    the vector otherwise. *)
Theorem retrieveAsString_overread (b : Buffer) (n : Z) :
  wf b -> readableBytes b < n ->
  (n <= zlen (buffer_ b) - readerIndex_ b /\
   retrieveAsString b n
   = Ok (readable b ++ slice (buffer_ b) (writerIndex_ b) (readerIndex_ b + n), retrieveAll b))
  \/ (zlen (buffer_ b) - readerIndex_ b < n /\ retrieveAsString b n = Fault OutOfBounds).
Proof.
  intros Hwf Hn. destruct (wf_sizes b Hwf) as [Hr _]. rewrite Hr in Hn.
  unfold retrieveAsString, retrieve, peek. rewrite Hr.
  destruct (Z.ltb_spec n (writerIndex_ b - readerIndex_ b)); [lia|]. unfold wf in Hwf.
  destruct (decide (n <= zlen (buffer_ b) - readerIndex_ b)); [left|right]; (split; [lia|]).
  - rewrite vector_read_Ok by lia. simpl. unfold readable.
    by rewrite <- slice_app_split by lia.
  - unfold vector_read. rewrite (proj2 (Z.leb_le _ _)) by lia.
    by rewrite (proj2 (Z.leb_gt _ _)) by lia.
Qed.

Lemma retrieveAsString_overread_witness :
  let b := mkBuffer (zeros 8 ++ [x41; x42; x43]) 8 9 in
  retrieveAsString b 3 = Ok ([x41; x42; x43], retrieveAll b).
Proof.
  intros b. destruct (retrieveAsString_overread b 3) as [[_ E]|[H _]];
    [split_and!; done|done|exact E|vm_compute in H; discriminate H].
Defined.
