(* ===== verification/Timestamp.v ===== *)
(** * Timestamp: [double] arithmetic and points in time

    Models [include/Timestamp.h] and [src/base/Timestamp.cpp].  A [double] is an
    IEEE 754 binary64 datum ([spec_float] at precision 53, exponent 1024) with
    the correctly rounded operations of the Standard Library's [SpecFloat]; the
    conversion to [int64_t] truncates and is a fault outside the range.  A
    [Timestamp] is its [microSecondsSinceEpoch_]. *)
From Stdlib Require Import SpecFloat.
From S2P Require Import Prelude.

(** ** [double] *)
Abbreviation double := spec_float (only parsing).

Definition dmul (x y : double) : double := SFmul 53 1024 x y.
Definition ddiv (x y : double) : double := SFdiv 53 1024 x y.
Definition dltb (x y : double) : bool := SFltb x y.
Definition dleb (x y : double) : bool := SFleb x y.
Definition dzero : double := S754_zero false.

(** Conversion of an integer to [double], rounded to nearest. *)
Definition double_of_int (z : Z) : double := binary_normalize 53 1024 z 0 false.

(** The integer part of a finite [double]. *)
Definition truncate (s : bool) (m : positive) (e : Z) : Z :=
  let a := if 0 <=? e then Z.pos m * 2 ^ e else Z.pos m / 2 ^ (- e) in
  if s then - a else a.

(** [static_cast<int64_t>(x)] *)
Definition double_to_int64 (x : double) : res Z :=
  match x with
  | S754_zero _ => Ok 0
  | S754_finite s m e =>
      let z := truncate s m e in if in_int64 z then Ok z else Fault BadCast
  | S754_infinity _ | S754_nan => Fault BadCast
  end.

Definition nonneg_sign (x : double) : Prop :=
  match x with
  | S754_zero _ | S754_finite false _ _ | S754_infinity false | S754_nan => True
  | _ => False
  end.

Lemma truncate_nonneg m e : 0 <= truncate false m e.
Proof.
  unfold truncate. destruct (Z.leb_spec 0 e).
  - apply Z.mul_nonneg_nonneg; [lia|]. apply Z.pow_nonneg; lia.
  - apply Z.div_pos; [lia|]. apply Z.pow_pos_nonneg; lia.
Qed.

Lemma double_to_int64_nonneg x z : nonneg_sign x -> double_to_int64 x = Ok z -> 0 <= z.
Proof.
  destruct x as [|[]| |[] m e]; simpl; try done; intros _; try (intros [= <-]; lia).
  destruct (in_int64 _); [|done]. intros [= <-]. apply truncate_nonneg.
Qed.

Lemma binary_round_aux_nonneg p emax m e l : nonneg_sign (binary_round_aux p emax false m e l).
Proof.
  unfold binary_round_aux. destruct (shr_fexp _ _ _ _ _) as [mrs e'].
  destruct (shr_fexp _ _ _ _ _) as [mrs' e'']. destruct (shr_m _); simpl; try done.
  repeat case_match; simplify_eq/=; done.
Qed.

(** The product of a positive and a nonnegative double is not negative. *)
Lemma dmul_nonneg x m e : dltb dzero x = true -> nonneg_sign (dmul x (S754_finite false m e)).
Proof.
  destruct x as [[]|[]| |[] mx ex]; simpl; try done. intros _.
  unfold dmul, SFmul. simpl. apply binary_round_aux_nonneg.
Qed.

(** *** Exact operations

    A result that fits in 53 bits is not rounded. *)
Lemma digits2_pos_log2 p : Z.pos (digits2_pos p) = Z.log2 (Z.pos p) + 1.
Proof.
  induction p as [p IH|p IH|]; cbn [digits2_pos]; [| |done]; rewrite Pos2Z.inj_succ, IH.
  - change (Z.pos p~1) with (2 * Z.pos p + 1). rewrite Z.log2_succ_double by lia. lia.
  - change (Z.pos p~0) with (2 * Z.pos p). rewrite Z.log2_double by lia. lia.
Qed.

Lemma iter_pos_nat {A} (f : A -> A) (n : positive) (x : A) :
  SpecFloat.iter_pos f n x = Nat.iter (Pos.to_nat n) f x.
Proof.
  revert x; induction n as [n IH|n IH|]; intros x; simpl SpecFloat.iter_pos; rewrite ?IH; [| |done].
  - rewrite Pos2Nat.inj_xI. replace (S (2 * Pos.to_nat n)) with (Pos.to_nat n + Pos.to_nat n + 1)%nat
      by lia. by rewrite !Nat.iter_add.
  - rewrite Pos2Nat.inj_xO. replace (2 * Pos.to_nat n)%nat with (Pos.to_nat n + Pos.to_nat n)%nat
      by lia. by rewrite Nat.iter_add.
Qed.

Lemma shr_1_exact n m :
  0 < m ->
  Nat.iter n shr_1 (Build_shr_record (m * 2 ^ Z.of_nat n) false false)
  = Build_shr_record m false false.
Proof.
  intros Hm. induction n as [|n IH]; [by rewrite Z.mul_1_r|].
  rewrite Nat.iter_succ_r, <- IH. f_equal.
  replace (m * 2 ^ Z.of_nat (S n)) with (2 * (m * 2 ^ Z.of_nat n))
    by (rewrite Nat2Z.inj_succ, Z.pow_succ_r; lia).
  assert (0 < m * 2 ^ Z.of_nat n) by (apply Z.mul_pos_pos; [|apply Z.pow_pos_nonneg]; lia).
  by destruct (m * 2 ^ Z.of_nat n).
Qed.

Lemma shr_fexp_exact a n e :
  0 < a -> 0 <= n -> Z.log2 a = 52 -> -1074 <= e + n ->
  shr_fexp 53 1024 (a * 2 ^ n) e loc_Exact = (Build_shr_record a false false, e + n).
Proof.
  intros Ha Hn Hlog He. unfold shr_fexp.
  assert (0 < a * 2 ^ n) as Hpos by (apply Z.mul_pos_pos; [|apply Z.pow_pos_nonneg]; lia).
  assert (Zdigits2 (a * 2 ^ n) = 53 + n) as ->.
  { unfold Zdigits2. destruct (a * 2 ^ n) as [|p|p] eqn:E; [lia| |lia].
    rewrite digits2_pos_log2, <- E, Z.log2_mul_pow2 by lia. lia. }
  replace (fexp 53 1024 (53 + n + e) - e) with n by (unfold fexp, emin; lia).
  cbn [shr_record_of_loc]. unfold shr.
  destruct n as [|p|p]; [by rewrite Z.mul_1_r, Z.add_0_r| |lia].
  rewrite iter_pos_nat, <- (positive_nat_Z p). by rewrite shr_1_exact.
Qed.

Lemma round_exact a n e :
  0 < a -> 0 <= n -> Z.log2 a = 52 -> -1074 <= e + n <= 971 ->
  binary_round_aux 53 1024 false (a * 2 ^ n) e loc_Exact = S754_finite false (Z.to_pos a) (e + n).
Proof.
  intros. unfold binary_round_aux. rewrite shr_fexp_exact by lia. cbn [shr_m loc_of_shr_record].
  simpl round_nearest_even. rewrite <- (Z.mul_1_r a) at 1. change 1 with (2 ^ 0) at 1.
  rewrite shr_fexp_exact by lia. cbn [shr_m]. rewrite Z.add_0_r.
  destruct a as [|p|p]; [lia| |lia]. simpl. by rewrite (proj2 (Z.leb_le _ _)) by lia.
Qed.

(** The 53-bit significand of [k]. *)
Definition significand (k : Z) : Z := k * 2 ^ (52 - Z.log2 k).

Lemma significand_spec k :
  0 < k < 2 ^ 53 -> 0 < significand k /\ Z.log2 (significand k) = 52 /\ 0 <= Z.log2 k <= 52.
Proof.
  intros Hk. assert (0 <= Z.log2 k <= 52) as Hl.
  { split; [apply Z.log2_nonneg|]. apply Z.lt_succ_r, Z.log2_lt_pow2; simpl; lia. }
  unfold significand. split; [apply Z.mul_pos_pos; [|apply Z.pow_pos_nonneg]; lia|].
  split; [rewrite Z.log2_mul_pow2; lia|lia].
Qed.

Lemma double_of_int_exact k :
  0 < k < 2 ^ 53 ->
  double_of_int k = S754_finite false (Z.to_pos (significand k)) (Z.log2 k - 52).
Proof.
  intros Hk. destruct (significand_spec k Hk) as (Hs & Hlog & Hl).
  unfold double_of_int, binary_normalize. destruct k as [|p|p]; [lia| |lia].
  unfold binary_round. rewrite digits2_pos_log2.
  replace (fexp 53 1024 (Z.log2 (Z.pos p) + 1 + 0)) with (Z.log2 (Z.pos p) - 52)
    by (unfold fexp, emin; lia).
  assert (exists m, shl_align p 0 (Z.log2 (Z.pos p) - 52) = (m, Z.log2 (Z.pos p) - 52) /\
                    Z.pos m = significand (Z.pos p) * 2 ^ 0) as (m & -> & ->).
  { unfold shl_align, significand. rewrite Z.sub_0_r, Z.mul_1_r.
    destruct (Z.log2 (Z.pos p) - 52) as [|d|d] eqn:E; [|lia|].
    - exists p. replace (52 - Z.log2 (Z.pos p)) with 0 by lia. by rewrite Z.mul_1_r.
    - eexists. split; [done|]. replace (52 - Z.log2 (Z.pos p)) with (Z.pos d) by lia.
      clear. induction d as [|d IH] using Pos.peano_ind; [simpl; lia|].
      rewrite Pos.iter_succ, Pos2Z.inj_xO, IH, Pos2Z.inj_succ, Z.pow_succ_r; lia. }
  rewrite round_exact by lia. by rewrite Z.add_0_r.
Qed.

(** ** [Timestamp] *)
Abbreviation Timestamp := Z (only parsing).

Definition kMicroSecondsPerSecond : Z := 1000 * 1000.

Definition Timestamp_default : Timestamp := 0.
Definition invalid : Timestamp := Timestamp_default.
Definition valid (t : Timestamp) : bool := 0 <? t.

(** The comparison operators. *)
Definition ts_lt (a b : Timestamp) : bool := a <? b.
Definition ts_gt (a b : Timestamp) : bool := b <? a.
Definition ts_eq (a b : Timestamp) : bool := a =? b.
Definition ts_ne (a b : Timestamp) : bool := negb (a =? b).
Definition ts_le (a b : Timestamp) : bool := a <=? b.
Definition ts_ge (a b : Timestamp) : bool := b <=? a.

(** [now()] for the [timeval] that [gettimeofday] stores. *)
Definition now (tv_sec tv_usec : Z) : res Timestamp :=
  s ← int64 (tv_sec * kMicroSecondsPerSecond); int64 (s + tv_usec).

Definition addTime (timestamp : Timestamp) (seconds : double) : res Timestamp :=
  delta ← double_to_int64 (dmul seconds (double_of_int kMicroSecondsPerSecond));
  int64 (timestamp + delta).

Definition timeDifference (high low : Timestamp) : res double :=
  diff ← int64 (high - low);
  Ok (ddiv (double_of_int diff) (double_of_int kMicroSecondsPerSecond)).

Lemma micros_double : exists m e, double_of_int kMicroSecondsPerSecond = S754_finite false m e.
Proof. do 2 eexists. reflexivity. Qed.

Lemma addTime_later t seconds t' :
  dltb dzero seconds = true -> addTime t seconds = Ok t' -> t <= t' <= max_int64.
Proof.
  intros Hpos H. unfold addTime in H. inv_res. apply int64_Ok in H as [-> Hr].
  destruct micros_double as (m & e & E). rewrite E in Hm.
  pose proof (double_to_int64_nonneg _ _ (dmul_nonneg seconds m e Hpos) Hm). lia.
Qed.

(** Whole seconds convert without rounding as long as the microseconds fit in
    53 bits (about 285 years). *)
Lemma seconds_exact k :
  0 < k -> k * kMicroSecondsPerSecond < 2 ^ 53 ->
  double_to_int64 (dmul (double_of_int k) (double_of_int kMicroSecondsPerSecond))
  = Ok (k * kMicroSecondsPerSecond).
Proof.
  unfold kMicroSecondsPerSecond. intros Hk Hmax. change (1000 * 1000) with 1000000 in *.
  destruct (significand_spec k) as (Hs & _ & Hl); [lia|].
  destruct (significand_spec (k * 1000000)) as (Hs' & Hlog' & Hl'); [lia|].
  rewrite double_of_int_exact by lia.
  change (double_of_int 1000000) with (S754_finite false 8589934592000000 (-33)).
  unfold dmul, SFmul. simpl xorb. rewrite Pos2Z.inj_mul, Z2Pos.id by lia.
  set (L := Z.log2 (k * 1000000)) in *. set (l := Z.log2 k) in *.
  assert (l <= L) by (apply Z.log2_le_mono; lia).
  assert (L <= l + 20) as HL.
  { unfold L, l. pose proof (Z.log2_mul_above k 1000000).
    change (Z.log2 1000000) with 19 in *. lia. }
  replace (significand k * 8589934592000000)
    with (significand (k * 1000000) * 2 ^ (L - l + 33)).
  2:{ unfold significand. fold L l. change 8589934592000000 with (1000000 * 2 ^ 33).
      replace (k * 1000000 * 2 ^ (52 - L) * 2 ^ (L - l + 33))
        with (k * 1000000 * (2 ^ (52 - L) * 2 ^ (L - l + 33))) by lia.
      rewrite <- Z.pow_add_r by lia. replace (52 - L + (L - l + 33)) with (52 - l + 33) by lia.
      rewrite Z.pow_add_r by lia. lia. }
  rewrite round_exact by lia. simpl double_to_int64. unfold truncate.
  rewrite Z2Pos.id by lia. replace (l - 52 + -33 + (L - l + 33)) with (L - 52) by lia.
  assert ((if 0 <=? L - 52 then significand (k * 1000000) * 2 ^ (L - 52)
           else significand (k * 1000000) / 2 ^ (- (L - 52))) = k * 1000000) as ->.
  { unfold significand. fold L. destruct (Z.leb_spec 0 (L - 52)).
    - replace (L - 52) with 0 by lia. replace (52 - L) with 0 by lia. lia.
    - replace (- (L - 52)) with (52 - L) by lia. apply Z.div_mul.
      apply Z.pow_nonzero; lia. }
  unfold in_int64. rewrite (proj2 (Z.leb_le _ _)), (proj2 (Z.leb_le _ _));
    [done|unfold max_int64; lia|unfold min_int64; lia].
Qed.

(** [addTime] with a whole number of seconds is exact.  The product
    [seconds * 1000000] in [double] and its conversion to [int64_t] lose nothing
    as long as it stays below 2^53 microseconds. *)
Theorem addTime_whole_seconds (t k : Z) :
  0 < k -> k * kMicroSecondsPerSecond < 2 ^ 53 -> 0 <= t -> t + 2 ^ 53 <= max_int64 ->
  addTime t (double_of_int k) = Ok (t + k * kMicroSecondsPerSecond).
Proof.
  intros Hk Hmax Ht Ht'. unfold addTime. rewrite seconds_exact by done. simpl.
  apply int64_Ok. unfold max_int64, min_int64, kMicroSecondsPerSecond in *. lia.
Qed.

Lemma addTime_whole_seconds_witness :
  addTime 1700000000000000 (double_of_int 30) = Ok 1700000030000000.
Proof. apply (addTime_whole_seconds 1700000000000000 30); done. Defined.
