(* ===== verification/StdSet.v ===== *)
(** * StdSet: [std::set] as a strictly sorted list

    The containers [TimerQueue] keeps ordered: a list sorted by the element
    type's [operator<], with the [insert], [erase] and [lower_bound] the code
    calls.  [StrictTotal] is what a comparator owes the container; its instance
    here is the order of [std::pair<Timestamp, Timer*>]. *)
From Stdlib Require Import Sorted.
From S2P Require Import Prelude.

Class StrictTotal {A : Type} (ltb : A -> A -> bool) : Prop := {
  ltb_irrefl x : ltb x x = false;
  ltb_trans x y z : ltb x y = true -> ltb y z = true -> ltb x z = true;
  ltb_total x y : ltb x y = false -> ltb y x = false -> x = y
}.

Section set.
Context {A : Type} (ltb : A -> A -> bool).
Implicit Types (x y : A) (l : list A).

(** [insert]: the set and whether the element was new. *)
Fixpoint set_insert x l : list A * bool :=
  match l with
  | [] => ([x], true)
  | y :: l' =>
      if ltb x y then (x :: l, true)
      else if ltb y x then let '(r, b) := set_insert x l' in (y :: r, b)
      else (l, false)
  end.

(** [erase(key)]: the set and the number of elements removed. *)
Fixpoint set_erase x l : list A * Z :=
  match l with
  | [] => ([], 0)
  | y :: l' =>
      if ltb x y then (l, 0)
      else if ltb y x then let '(r, n) := set_erase x l' in (y :: r, n)
      else (l', 1)
  end.

(** [[begin, lower_bound(x))] and [[lower_bound(x), end)]. *)
Fixpoint lower_bound x l : list A * list A :=
  match l with
  | [] => ([], [])
  | y :: l' => if ltb y x then let '(a, b) := lower_bound x l' in (y :: a, b) else ([], l)
  end.

Definition sorted l : Prop := StronglySorted (fun x y => ltb x y = true) l.
End set.

Section set_lemmas.
Context {A : Type} (ltb : A -> A -> bool) `{Hst : !StrictTotal ltb}.
Implicit Types (x y : A) (l : list A).
Local Abbreviation lt := (fun x y => ltb x y = true).

Lemma sorted_cons x l : sorted ltb (x :: l) <-> sorted ltb l /\ Forall (lt x) l.
Proof.
  split; [intros H; by inversion H|]. intros [? ?]. by constructor.
Qed.

Lemma sorted_not_in x l : Forall (lt x) l -> x ∉ l.
Proof.
  intros H Hin. rewrite Forall_forall in H. specialize (H x Hin). simpl in H.
  by rewrite ltb_irrefl in H.
Qed.

Lemma sorted_NoDup l : sorted ltb l -> NoDup l.
Proof.
  induction l as [|x l IH]; [by constructor|]. intros [? ?]%sorted_cons.
  constructor; [by apply sorted_not_in|auto].
Qed.

Lemma elem_of_set_insert x y l : y ∈ (set_insert ltb x l).1 <-> y = x \/ y ∈ l.
Proof.
  induction l as [|z l IH]; simpl; [set_solver|].
  destruct (ltb x z) eqn:E1; simpl; [set_solver|]. destruct (ltb z x) eqn:E2.
  - destruct (set_insert ltb x l) as [r b]. simpl in *. set_solver.
  - rewrite (ltb_total _ _ E1 E2). set_solver.
Qed.

Lemma set_insert_sorted x l : sorted ltb l -> sorted ltb (set_insert ltb x l).1.
Proof.
  induction l as [|z l IH]; intros Hs; simpl; [by repeat constructor|].
  apply sorted_cons in Hs as [Hs Hz].
  destruct (ltb x z) eqn:E1; simpl.
  - apply sorted_cons. split; [by apply sorted_cons|]. constructor; [done|].
    eapply Forall_impl; [exact Hz|]. intros y Hy. by eapply ltb_trans.
  - destruct (ltb z x) eqn:E2; [|by apply sorted_cons].
    specialize (IH Hs). pose proof (fun y => elem_of_set_insert x y l) as Hin.
    destruct (set_insert ltb x l) as [r b]. simpl in *. apply sorted_cons. split; [done|].
    rewrite Forall_forall in *. intros y Hy. apply Hin in Hy as [->|Hy]; [done|by apply Hz].
Qed.

Lemma set_insert_new x l : sorted ltb l -> ((set_insert ltb x l).2 = true <-> x ∉ l).
Proof.
  induction l as [|z l IH]; intros Hs; simpl; [set_solver|].
  apply sorted_cons in Hs as [Hs Hz].
  destruct (ltb x z) eqn:E1; simpl.
  - split; [|done]. intros _ [->|Hin]%elem_of_cons.
    + by rewrite ltb_irrefl in E1.
    + rewrite Forall_forall in Hz. pose proof (ltb_trans x z x E1 (Hz _ Hin)) as E.
      by rewrite ltb_irrefl in E.
  - destruct (ltb z x) eqn:E2.
    + specialize (IH Hs). destruct (set_insert ltb x l) as [r b]. simpl in *.
      rewrite IH, not_elem_of_cons. split; [|naive_solver]. intros ?. split; [|done].
      intros ->. by rewrite ltb_irrefl in E2.
    + rewrite (ltb_total _ _ E1 E2). split; [done|]. set_solver.
Qed.

Lemma set_insert_permutation x l : sorted ltb l -> x ∉ l -> (set_insert ltb x l).1 ≡ₚ x :: l.
Proof.
  intros Hs Hx. apply NoDup_Permutation.
  - by apply sorted_NoDup, set_insert_sorted.
  - constructor; [done|by apply sorted_NoDup].
  - intros y. rewrite elem_of_set_insert. set_solver.
Qed.

Lemma set_erase_notin x l : sorted ltb l -> x ∉ l -> set_erase ltb x l = (l, 0).
Proof.
  induction l as [|z l IH]; intros Hs Hx; simpl; [done|].
  apply sorted_cons in Hs as [Hs Hz]. destruct (ltb x z) eqn:E1; [done|].
  destruct (ltb z x) eqn:E2; [by rewrite IH by set_solver|].
  rewrite (ltb_total _ _ E1 E2) in Hx. set_solver.
Qed.

Lemma set_erase_in x l :
  sorted ltb l -> x ∈ l ->
  exists r, set_erase ltb x l = (r, 1) /\ l ≡ₚ x :: r /\ sorted ltb r.
Proof.
  induction l as [|z l IH]; intros Hs Hx; simpl; [set_solver|].
  apply sorted_cons in Hs as [Hs Hz]. destruct (ltb x z) eqn:E1.
  { exfalso. apply elem_of_cons in Hx as [->|Hx]; [by rewrite ltb_irrefl in E1|].
    rewrite Forall_forall in Hz. pose proof (ltb_trans x z x E1 (Hz _ Hx)) as E.
    by rewrite ltb_irrefl in E. }
  destruct (ltb z x) eqn:E2.
  - destruct IH as (r & -> & Hp & Hr); [done| |].
    { apply elem_of_cons in Hx as [->|]; [by rewrite ltb_irrefl in E2|done]. }
    eexists. split; [done|]. split; [rewrite Hp; apply perm_swap|].
    apply sorted_cons. split; [done|]. rewrite Hp in Hz. by inversion Hz.
  - exists l. rewrite (ltb_total _ _ E1 E2). done.
Qed.

Lemma lower_bound_spec x l :
  sorted ltb l ->
  let '(a, b) := lower_bound ltb x l in
  l = a ++ b /\ Forall (fun y => ltb y x = true) a /\ Forall (fun y => ltb y x = false) b.
Proof.
  induction l as [|z l IH]; intros Hs; simpl; [done|].
  apply sorted_cons in Hs as [Hs Hz]. destruct (ltb z x) eqn:E.
  - specialize (IH Hs). destruct (lower_bound ltb x l) as [a b].
    destruct IH as (-> & ? & ?). split_and!; [done|by constructor|done].
  - split_and!; [done|done|]. constructor; [done|].
    eapply Forall_impl; [exact Hz|]. intros y Hy. simpl. destruct (ltb y x) eqn:E'; [|done].
    by rewrite (ltb_trans z y x Hy E') in E.
Qed.

Lemma sorted_app l1 l2 :
  sorted ltb (l1 ++ l2) -> sorted ltb l1 /\ sorted ltb l2 /\
  (forall x y, x ∈ l1 -> y ∈ l2 -> ltb x y = true).
Proof.
  induction l1 as [|z l1 IH]; simpl.
  - intros ?. split_and!; [constructor|done|set_solver].
  - intros [(H1 & H2 & H3)%IH Hz]%sorted_cons. rewrite Forall_app in Hz. destruct Hz as [Hz1 Hz2].
    split_and!; [by apply sorted_cons|done|]. intros x y [->|Hx]%elem_of_cons Hy; [|by apply H3].
    rewrite Forall_forall in Hz2. by apply Hz2.
Qed.
End set_lemmas.

Create HintDb stdset.
#[export] Hint Resolve set_insert_sorted sorted_NoDup : stdset.

(** ** The order of [std::pair<Timestamp, Timer*>] *)
Definition entry_ltb (a b : Z * Z) : bool :=
  (a.1 <? b.1) || (negb (b.1 <? a.1) && (a.2 <? b.2)).

#[global] Instance entry_ltb_order : StrictTotal entry_ltb.
Proof.
  unfold entry_ltb. split.
  - intros [a b]; simpl. rewrite !Z.ltb_irrefl. done.
  - intros [a1 a2] [b1 b2] [c1 c2]; simpl. lia.
  - intros [a1 a2] [b1 b2]; simpl. intros ? ?. f_equal; lia.
Qed.

Lemma entry_ltb_spec a b : entry_ltb a b = true <-> a.1 < b.1 \/ (a.1 = b.1 /\ a.2 < b.2).
Proof. unfold entry_ltb. lia. Qed.
