(* ===== verification/TimerQueue.v ===== *)
(** * TimerQueue: timers, their queue and the timerfd

    Models [include/Timer.h], [src/base/Timer.cpp], [include/TimerQueue.h] and
    [src/base/TimerQueue.cpp].  The [Timer] objects live in an explicit heap
    indexed by address, so [new], [delete] and a use of a freed timer are
    visible; [timers_] is a [std::set] (StdSet), [activeTimers_] and
    [cancelingTimers_], of which only membership and size are used, are finite
    sets.  Callbacks are values of an abstract type, run by the enclosing world
    (a class below), because a callback may call back into the queue.  Clock
    readings and results of [timerfd_settime] and [read] are inputs.

    [cancelInLoop] reads [it->first] after [activeTimers_.erase(it)] has freed
    the node of [it].  What the freed memory reads as is a parameter, [erased_first],
    about which nothing is assumed: unless it is the pointer that was there, the read
    is the fault [FreedNode]. *)
From Stdlib Require Import Sorted.
From S2P Require Import Prelude Timestamp StdSet.

Section timer.
Context {CB : Type}.

(** ** [Timer] and [TimerId] *)
Record Timer := mkTimer {
  callback_ : option CB;
  expiration_ : Timestamp;
  interval_ : double;
  repeat_ : bool;
  sequence_ : Z
}.

(** The constructor, with [s_numCreated_] before and after. *)
Definition Timer_new (cb : option CB) (when : Timestamp) (interval : double)
    (s_numCreated_ : Z) : Timer * Z :=
  (mkTimer cb when interval (dltb dzero interval) s_numCreated_, s_numCreated_ + 1).

Definition with_expiration (t : Timer) (e : Timestamp) : Timer :=
  mkTimer (callback_ t) e (interval_ t) (repeat_ t) (sequence_ t).

Definition restart (t : Timer) (now : Timestamp) : res Timer :=
  if repeat_ t then
    if negb (valid now) then Ok (with_expiration t invalid)
    else e ← addTime now (interval_ t); Ok (with_expiration t e)
  else Ok (with_expiration t invalid).

End timer.
Arguments Timer : clear implicits.

Record TimerId := mkTimerId {
  timer_ : Z;
  id_sequence_ : Z
}.

Definition TimerId_default : TimerId := mkTimerId nullptr 0.
Definition isValid (id : TimerId) : bool := negb (timer_ id =? nullptr).

(** ** The timerfd *)
Record timespec := mkTimespec { tv_sec : Z; tv_nsec : Z }.

Definition howMuchTimeFromNow (when now : Timestamp) : res timespec :=
  microseconds ← int64 (when - now);
  let microseconds := if microseconds <? 100 then 100 else microseconds in
  Ok (mkTimespec (Z.quot microseconds kMicroSecondsPerSecond)
                 (Z.rem microseconds kMicroSecondsPerSecond * 1000)).

(** The [LOG_ERROR] lines of the file. *)
Inductive logline :=
  | LSettimeFailed
  | LReadShort
  | LAddNull
  | LCancelNull
  | LCancelErase
  | LCallbackException
  | LExpiredInvalidNow
  | LExpiredErase
  | LResetInvalidNow
  | LResetNull
  | LReinsertFailed
  | LInsertNull
  | LInsertTimers
  | LInsertActive.

#[global] Instance logline_eq_dec : EqDecision logline.
Proof. solve_decision. Defined.

(** ** [TimerQueue] *)
Record TimerQueue (CB : Type) := mkTimerQueue {
  heap : gmap Z (Timer CB);
  timers_ : list (Z * Z);
  activeTimers_ : gset (Z * Z);
  callingExpiredTimers_ : bool;
  cancelingTimers_ : gset (Z * Z);
  timerfd_armed : option timespec;
  errors : list logline
}.
Arguments mkTimerQueue {CB}.
Arguments heap {CB}. Arguments timers_ {CB}. Arguments activeTimers_ {CB}.
Arguments callingExpiredTimers_ {CB}. Arguments cancelingTimers_ {CB}.
Arguments timerfd_armed {CB}. Arguments errors {CB}.

(** The state at the end of the constructor. *)
Definition TimerQueue_new {CB} : TimerQueue CB := mkTimerQueue ∅ [] ∅ false ∅ None [].

Section ops.
Context {CB : Type}.
Implicit Types (q : TimerQueue CB) (p : Z).

Definition set_heap h q : TimerQueue CB :=
  mkTimerQueue h (timers_ q) (activeTimers_ q) (callingExpiredTimers_ q)
    (cancelingTimers_ q) (timerfd_armed q) (errors q).
Definition set_sets ts act q : TimerQueue CB :=
  mkTimerQueue (heap q) ts act (callingExpiredTimers_ q)
    (cancelingTimers_ q) (timerfd_armed q) (errors q).
Definition set_calling b c q : TimerQueue CB :=
  mkTimerQueue (heap q) (timers_ q) (activeTimers_ q) b c (timerfd_armed q) (errors q).
Definition set_armed a q : TimerQueue CB :=
  mkTimerQueue (heap q) (timers_ q) (activeTimers_ q) (callingExpiredTimers_ q)
    (cancelingTimers_ q) a (errors q).
Definition LOG_ERROR l q : TimerQueue CB :=
  mkTimerQueue (heap q) (timers_ q) (activeTimers_ q) (callingExpiredTimers_ q)
    (cancelingTimers_ q) (timerfd_armed q) (errors q ++ [l]).

(** Reading through a [Timer*]. *)
Definition deref q p : res (Timer CB) :=
  match heap q !! p with Some t => Ok t | None => Fault DanglingPointer end.

(** [delete p] *)
Definition delete_timer q p : res (TimerQueue CB) :=
  if p =? nullptr then Ok q
  else match heap q !! p with
       | Some _ => Ok (set_heap (delete p (heap q)) q)
       | None => Fault DanglingPointer
       end.

(** [resetTimerfd]: [now] is the clock reading of [howMuchTimeFromNow] and [ret]
    the [errno] of a failing [timerfd_settime]. *)
Definition resetTimerfd (expiration now : Timestamp) (ret : option Z) q : res (TimerQueue CB) :=
  newValue ← howMuchTimeFromNow expiration now;
  match ret with
  | None => Ok (set_armed (Some newValue) q)
  | Some e =>
      if (e =? EBADF) || (e =? EINVAL) then Fault FatalExit
      else Ok (LOG_ERROR LSettimeFailed q)
  end.

(** [readTimerfd]: [n] and [errno] as [read] leaves them. *)
Definition readTimerfd (n err : Z) q : res (TimerQueue CB) :=
  if n =? 8 then Ok q
  else if (err =? EBADF) || (err =? EINVAL) then Fault FatalExit
  else Ok (LOG_ERROR LReadShort q).

Definition sizes_agree q : bool :=
  Nat.eqb (length (timers_ q)) (size (activeTimers_ q)).

(** [insert]: [inLoop] is [loop_->isInLoopThread()] of the calling thread. *)
Definition insert (inLoop : bool) (p : Z) q : res (bool * TimerQueue CB) :=
  _ ← assert inLoop;
  if p =? nullptr then Ok (false, LOG_ERROR LInsertNull q)
  else
    _ ← assert (sizes_agree q);
    t ← deref q p;
    let when := expiration_ t in
    let earliestChanged :=
      match timers_ q with [] => true | e :: _ => ts_lt when e.1 end in
    let '(timers, inserted) := set_insert entry_ltb (when, p) (timers_ q) in
    if negb inserted then Ok (false, LOG_ERROR LInsertTimers q)
    else if decide ((p, sequence_ t) ∈ activeTimers_ q) then
      let timers := (set_erase entry_ltb (when, p) timers).1 in
      Ok (false, LOG_ERROR LInsertActive (set_sets timers (activeTimers_ q) q))
    else
      let q := set_sets timers ({[(p, sequence_ t)]} ∪ activeTimers_ q) q in
      _ ← assert (sizes_agree q);
      Ok (earliestChanged, q).

Definition addTimerInLoop (inLoop : bool) (p : Z) (now : Timestamp) (ret : option Z) q
    : res (TimerQueue CB) :=
  _ ← assert inLoop;
  if p =? nullptr then Ok (LOG_ERROR LAddNull q)
  else
    '(earliestChanged, q) ← insert inLoop p q;
    if earliestChanged : bool then t ← deref q p; resetTimerfd (expiration_ t) now ret q
    else Ok q.

(** Reading the pointer [p] back from a node of [activeTimers_] that has been freed. *)
Definition read_freed (erased_first : Z -> Z) (p : Z) : res Z :=
  if erased_first p =? p then Ok p else Fault FreedNode.

(** [cancelInLoop]: line 159 reads [it->first] from the node that line 158 has freed. *)
Definition cancelInLoop (erased_first : Z -> Z) (inLoop : bool) (id : TimerId) q
    : res (TimerQueue CB) :=
  _ ← assert inLoop;
  if timer_ id =? nullptr then Ok (LOG_ERROR LCancelNull q)
  else
    let timer := (timer_ id, id_sequence_ id) in
    if decide (timer ∈ activeTimers_ q) then
      t ← deref q (timer_ id);
      let '(timers, n) := set_erase entry_ltb (expiration_ t, timer_ id) (timers_ q) in
      let q := if n =? 1 then q else LOG_ERROR LCancelErase q in
      let q := set_sets timers (activeTimers_ q ∖ {[timer]}) q in
      first ← read_freed erased_first (timer_ id);
      delete_timer q first
    else if callingExpiredTimers_ q then
      Ok (set_calling (callingExpiredTimers_ q) ({[timer]} ∪ cancelingTimers_ q) q)
    else Ok q.

(** One turn of the [for] loop of [getExpired]. *)
Definition erase_active (it : Z * Z) q : res (TimerQueue CB) :=
  t ← deref q it.2;
  let timer := (it.2, sequence_ t) in
  let q' := set_sets (timers_ q) (activeTimers_ q ∖ {[timer]}) q in
  Ok (if decide (timer ∈ activeTimers_ q) then q' else LOG_ERROR LExpiredErase q').

Definition getExpired (now : Timestamp) q : res (list (Z * Z) * TimerQueue CB) :=
  if negb (valid now) then Ok ([], LOG_ERROR LExpiredInvalidNow q)
  else
    let sentry := (now, UINTPTR_MAX) in
    let '(expired, rest) := lower_bound entry_ltb sentry (timers_ q) in
    _ ← assert (match rest with [] => true | e :: _ => ts_lt now e.1 end);
    q ← for_each erase_active expired (set_sets rest (activeTimers_ q) q);
    Ok (expired, q).

(** One turn of the [for] loop of [reset]. *)
Definition reset_one (inLoop : bool) (now : Timestamp) (it : Z * Z) q : res (TimerQueue CB) :=
  if it.2 =? nullptr then Ok (LOG_ERROR LResetNull q)
  else
    t ← deref q it.2;
    if repeat_ t && negb (bool_decide ((it.2, sequence_ t) ∈ cancelingTimers_ q)) then
      t' ← restart t now;
      '(earliestChanged, q) ← insert inLoop it.2 (set_heap (<[it.2 := t']> (heap q)) q);
      Ok (if earliestChanged : bool then q else LOG_ERROR LReinsertFailed q)
    else delete_timer q it.2.

Definition reset (inLoop : bool) (expired : list (Z * Z)) (now clock : Timestamp)
    (ret : option Z) q : res (TimerQueue CB) :=
  if negb (valid now) then Ok (LOG_ERROR LResetInvalidNow q)
  else
    q ← for_each (reset_one inLoop now) expired q;
    nextExpire ← match timers_ q with
                 | [] => Ok Timestamp_default
                 | e :: _ => t ← deref q e.2; Ok (expiration_ t)
                 end;
    if valid nextExpire then resetTimerfd nextExpire clock ret q else Ok q.
End ops.

(** [~TimerQueue], after its channel has been removed: the loop over [timers_]. *)
Definition TimerQueue_destroy {CB} (q : TimerQueue CB) : res (TimerQueue CB) :=
  for_each (fun it q => delete_timer q it.2) (timers_ q) q.

(** ** Running callbacks

    The world a callback runs in contains the queue.  [run_callback] tells
    whether the callback threw: [handleRead] catches everything. *)
Class TimerWorld (CB W : Type) := {
  queue : W -> TimerQueue CB;
  set_queue : TimerQueue CB -> W -> W;
  run_callback : CB -> W -> res (W * bool);
  queue_set w q : queue (set_queue q w) = q
}.

Section handleRead.
Context {CB W : Type} `{!TimerWorld CB W}.

(** [it.second->run()] inside the [try] block. *)
Definition run_expired (it : Z * Z) (w : W) : res W :=
  t ← deref (queue w) it.2;
  match callback_ t with
  | None => Ok w
  | Some cb =>
      '(w, threw) ← run_callback cb w;
      Ok (if threw : bool then set_queue (LOG_ERROR LCallbackException (queue w)) w else w)
  end.

(** Inputs of one [handleRead]: the two clock readings, and the results of [read]
    and [timerfd_settime]. *)
Record read_env := mkReadEnv {
  env_now : Timestamp;
  env_read : Z * Z;
  env_clock : Timestamp;
  env_settime : option Z
}.

Definition handleRead (inLoop : bool) (env : read_env) (w : W) : res W :=
  _ ← assert inLoop;
  q ← readTimerfd (env_read env).1 (env_read env).2 (queue w);
  '(expired, q) ← getExpired (env_now env) q;
  w ← for_each run_expired expired (set_queue (set_calling true ∅ q) w);
  let q := set_calling false (cancelingTimers_ (queue w)) (queue w) in
  q ← reset inLoop expired (env_now env) (env_clock env) (env_settime env) q;
  Ok (set_queue q w).
End handleRead.

(** ** The invariant

    [loose] is the set of timers that are alive but not armed: created and not
    yet inserted, or expired and not yet reset. *)
Section invariant.
Context {CB : Type}.
Implicit Types (q : TimerQueue CB) (h : gmap Z (Timer CB)) (p w : Z) (loose : gset Z).

Definition seq_of h p : Z := match h !! p with Some t => sequence_ t | None => 0 end.
Definition key h (e : Z * Z) : Z * Z := (e.2, seq_of h e.2).

Record queue_ok loose q : Prop := {
  ok_sorted : sorted entry_ltb (timers_ q);
  ok_nodup : NoDup (timers_ q).*2;
  ok_entry w p : (w, p) ∈ timers_ q -> exists t, heap q !! p = Some t /\ expiration_ t = w;
  ok_active : activeTimers_ q = list_to_set (key (heap q) <$> timers_ q);
  ok_dom p : is_Some (heap q !! p) <-> p ∈ (timers_ q).*2 \/ p ∈ loose;
  ok_loose p : p ∈ loose -> p ∉ (timers_ q).*2;
  ok_addr p : is_Some (heap q !! p) -> 0 < p < UINTPTR_MAX
}.

Lemma TimerQueue_new_ok : queue_ok ∅ (@TimerQueue_new CB).
Proof.
  split; simpl; try (by constructor); try set_solver.
  - intros p. rewrite lookup_empty, is_Some_alt. set_solver.
  - intros p [? H]. done.
Qed.

Lemma key_ext h h' (l : list (Z * Z)) :
  (forall p, p ∈ l.*2 -> h !! p = h' !! p) -> key h <$> l = key h' <$> l.
Proof.
  intros H. apply list_fmap_ext. intros i e Hi. unfold key, seq_of. rewrite H; [done|].
  apply list_elem_of_fmap. exists e. split; [done|]. by apply list_elem_of_lookup_2 in Hi.
Qed.

Lemma key_nodup h (l : list (Z * Z)) : NoDup l.*2 -> NoDup (key h <$> l).
Proof.
  intros H. apply (NoDup_fmap_1 fst). rewrite <- list_fmap_compose. exact H.
Qed.

Lemma key_in h (l : list (Z * Z)) p s :
  (p, s) ∈ key h <$> l <-> p ∈ l.*2 /\ s = seq_of h p.
Proof.
  rewrite !list_elem_of_fmap. unfold key. split.
  - intros ([w p'] & [= -> ->] & Hin). simpl. split; [by exists (w, p')|done].
  - intros [([w p'] & Hp & Hin) Hs]. simpl in Hp. subst. exists (w, p'). done.
Qed.

Lemma elem_snd (l : list (Z * Z)) p : p ∈ l.*2 <-> exists w, (w, p) ∈ l.
Proof.
  rewrite list_elem_of_fmap. split.
  - intros ([w p'] & -> & ?). by exists w.
  - intros [w ?]. by exists (w, p).
Qed.

Lemma queue_ok_sizes loose q : queue_ok loose q -> sizes_agree q = true.
Proof.
  intros Hok. unfold sizes_agree. apply Nat.eqb_eq. rewrite (ok_active _ _ Hok).
  rewrite size_list_to_set by (apply key_nodup, (ok_nodup _ _ Hok)).
  by rewrite length_fmap.
Qed.

(** The armed timers are exactly the live timers that are not loose, each under
    its expiration. *)
Lemma queue_ok_timers loose q w p :
  queue_ok loose q ->
  ((w, p) ∈ timers_ q <-> (p ∉ loose) /\ exists t, heap q !! p = Some t /\ expiration_ t = w).
Proof.
  intros Hok. split.
  - intros Hin. split; [|by apply (ok_entry _ _ Hok)].
    intros Hl. apply (ok_loose _ _ Hok p Hl). rewrite elem_snd. by exists w.
  - intros (Hl & t & Ht & Hw). assert (is_Some (heap q !! p)) as Hs by eauto.
    apply (ok_dom _ _ Hok) in Hs as [Hs|]; [|done]. apply elem_snd in Hs as [w' Hin].
    destruct (ok_entry _ _ Hok _ _ Hin) as (t' & Ht' & Hw'). congruence.
Qed.

Lemma queue_ok_active loose q p s :
  queue_ok loose q ->
  ((p, s) ∈ activeTimers_ q <->
   (p ∉ loose) /\ exists t, heap q !! p = Some t /\ sequence_ t = s).
Proof.
  intros Hok. rewrite (ok_active _ _ Hok), elem_of_list_to_set, key_in, elem_snd.
  unfold seq_of. split.
  - intros [[w Hin] ->]. apply (queue_ok_timers _ _ _ _ Hok) in Hin as (Hl & t & Ht & _).
    split; [done|]. exists t. by rewrite Ht.
  - intros (Hl & t & Ht & Hs). rewrite Ht. split; [|done]. exists (expiration_ t).
    apply (queue_ok_timers _ _ _ _ Hok). eauto.
Qed.

(** Only the heap, the two sets and [loose] matter. *)
Lemma queue_ok_same loose q q' :
  queue_ok loose q -> heap q' = heap q -> timers_ q' = timers_ q ->
  activeTimers_ q' = activeTimers_ q -> queue_ok loose q'.
Proof. intros [] Hh Ht Ha. split; rewrite ?Hh, ?Ht, ?Ha; done. Qed.

Lemma queue_ok_log loose q l : queue_ok loose q -> queue_ok loose (LOG_ERROR l q).
Proof. intros H. by apply (queue_ok_same _ _ _ H). Qed.

Lemma queue_ok_calling loose q b c : queue_ok loose q -> queue_ok loose (set_calling b c q).
Proof. intros H. by apply (queue_ok_same _ _ _ H). Qed.

Lemma queue_ok_armed loose q a : queue_ok loose q -> queue_ok loose (set_armed a q).
Proof. intros H. by apply (queue_ok_same _ _ _ H). Qed.

(** Allocating a timer. *)
Lemma queue_ok_new loose q p t :
  queue_ok loose q -> heap q !! p = None -> 0 < p < UINTPTR_MAX ->
  queue_ok ({[p]} ∪ loose) (set_heap (<[p := t]> (heap q)) q).
Proof.
  intros Hok Hp Hr. assert ((p ∉ (timers_ q).*2) /\ (p ∉ loose)) as [Hpt Hpl].
  { split; intros Hin; assert (is_Some (heap q !! p)) as [? E]
      by (apply (ok_dom _ _ Hok); auto); congruence. }
  destruct Hok as [H1 H2 H3 H4 H5 H6 H7]. split; simpl; try done.
  - intros w p' Hin. rewrite lookup_insert_ne; [by apply H3|].
    intros <-. apply Hpt, elem_snd. by exists w.
  - rewrite H4. f_equal. apply key_ext. intros p' Hin. rewrite lookup_insert_ne; [done|congruence].
  - intros p'. rewrite lookup_insert_is_Some, H5, elem_of_union, elem_of_singleton.
    destruct (decide (p = p')) as [<-|]; naive_solver.
  - intros p' [->%elem_of_singleton|Hin]%elem_of_union; [done|by apply H6].
  - intros p' Hs. apply lookup_insert_is_Some in Hs as [<-|[_ Hs]]; auto.
Qed.

(** Changing a timer that is not armed. *)
Lemma queue_ok_update loose q p t t0 :
  queue_ok loose q -> p ∈ loose -> heap q !! p = Some t0 ->
  queue_ok loose (set_heap (<[p := t]> (heap q)) q).
Proof.
  intros Hok Hp Ht0. pose proof (ok_loose _ _ Hok p Hp) as Hpt.
  destruct Hok as [H1 H2 H3 H4 H5 H6 H7]. split; simpl; try done.
  - intros w p' Hin. rewrite lookup_insert_ne; [by apply H3|].
    intros <-. apply Hpt, elem_snd. by exists w.
  - rewrite H4. f_equal. apply key_ext. intros p' Hin. rewrite lookup_insert_ne; [done|congruence].
  - intros p'. rewrite lookup_insert_is_Some, H5.
    destruct (decide (p = p')) as [<-|]; tauto.
  - intros p' Hs. apply lookup_insert_is_Some in Hs as [<-|[_ Hs]]; [|by apply H7]. apply H7. eauto.
Qed.

(** Freeing a timer that is not armed. *)
Lemma queue_ok_free loose q p :
  queue_ok loose q -> p ∈ loose ->
  delete_timer q p = Ok (set_heap (delete p (heap q)) q) /\
  queue_ok (loose ∖ {[p]}) (set_heap (delete p (heap q)) q).
Proof.
  intros Hok Hp. pose proof (ok_loose _ _ Hok p Hp) as Hpt.
  assert (is_Some (heap q !! p)) as Hs by (apply (ok_dom _ _ Hok); auto).
  split.
  { unfold delete_timer, nullptr. pose proof (ok_addr _ _ Hok p Hs).
    destruct (Z.eqb_spec p 0); [lia|]. destruct Hs as [t ->]. done. }
  destruct Hok as [H1 H2 H3 H4 H5 H6 H7]. split; simpl; try done.
  - intros w p' Hin. rewrite lookup_delete_ne; [by apply H3|].
    intros <-. apply Hpt, elem_snd. by exists w.
  - rewrite H4. f_equal. apply key_ext. intros p' Hin. rewrite lookup_delete_ne; [done|congruence].
  - intros p'. rewrite lookup_delete_is_Some, H5, elem_of_difference, elem_of_singleton.
    destruct (decide (p = p')) as [<-|]; naive_solver.
  - intros p' [Hin _]%elem_of_difference. by apply H6.
  - intros p' Hs'. apply lookup_delete_is_Some in Hs' as [_ Hs']. auto.
Qed.
End invariant.

Create HintDb timers.
#[export] Hint Resolve queue_ok_log queue_ok_calling queue_ok_armed queue_ok_sizes : timers.

(** ** What the operations do under the invariant *)
Section operations.
Context {CB : Type}.
Implicit Types (q : TimerQueue CB) (h : gmap Z (Timer CB)) (p w : Z) (loose : gset Z).

Lemma deref_Some q p t : heap q !! p = Some t -> deref q p = Ok t.
Proof. unfold deref. by intros ->. Qed.

(** Whether [t] would fire before every armed timer. *)
Definition earliest (t : Timer CB) q : bool :=
  match timers_ q with [] => true | e :: _ => expiration_ t <? e.1 end.

Lemma earliest_spec loose q t :
  queue_ok loose q ->
  (earliest t q = true <-> forall e, e ∈ timers_ q -> expiration_ t < e.1).
Proof.
  intros Hok. unfold earliest. pose proof (ok_sorted _ _ Hok) as Hs.
  destruct (timers_ q) as [|e l]; [set_solver|]. apply sorted_cons in Hs as [_ Hl].
  rewrite Forall_forall in Hl. rewrite Z.ltb_lt. split.
  - intros Hlt e' [->|Hin]%elem_of_cons; [done|]. specialize (Hl _ Hin). simpl in Hl.
    apply entry_ltb_spec in Hl. lia.
  - intros H. apply H. set_solver.
Qed.

(** [insert] arms a loose timer and tells whether it is now the earliest. *)
Lemma insert_ok loose q p t :
  queue_ok loose q -> p ∈ loose -> heap q !! p = Some t ->
  exists ts act, insert true p q = Ok (earliest t q, set_sets ts act q) /\
    ts ≡ₚ (expiration_ t, p) :: timers_ q /\ queue_ok (loose ∖ {[p]}) (set_sets ts act q).
Proof.
  intros Hok Hp Ht. pose proof (ok_loose _ _ Hok p Hp) as Hpt.
  assert ((expiration_ t, p) ∉ timers_ q) as Hnin.
  { intros Hin. apply Hpt, elem_snd. eauto. }
  unfold insert. simpl. pose proof (ok_addr _ _ Hok p ltac:(eauto)).
  destruct (Z.eqb_spec p nullptr); [unfold nullptr in *; lia|].
  rewrite (queue_ok_sizes _ _ Hok). simpl. rewrite (deref_Some _ _ _ Ht). simpl.
  fold (earliest t q). pose proof (ok_sorted _ _ Hok) as Hs.
  pose proof (set_insert_permutation entry_ltb _ _ Hs Hnin) as Hperm.
  pose proof (proj2 (set_insert_new entry_ltb _ _ Hs) Hnin) as Hnew.
  pose proof (set_insert_sorted entry_ltb (expiration_ t, p) _ Hs) as Hs'.
  destruct (set_insert entry_ltb (expiration_ t, p) (timers_ q)) as [ts b]. simpl in *. subst b.
  simpl. destruct (decide _) as [Hact|Hact].
  { apply (queue_ok_active _ _ _ _ Hok) in Hact as [Hl _]. done. }
  assert (queue_ok (loose ∖ {[p]})
    (set_sets ts ({[(p, sequence_ t)]} ∪ activeTimers_ q) q)) as Hok'.
  { destruct Hok as [H1 H2 H3 H4 H5 H6 H7]. split; simpl; try done.
    - rewrite Hperm. simpl. by constructor.
    - intros w p'. rewrite Hperm. intros [[= -> ->]|Hin]%elem_of_cons; [eauto|by apply H3].
    - rewrite H4, Hperm. simpl. unfold key at 2. simpl. unfold seq_of at 1. by rewrite Ht.
    - intros p'. rewrite H5, Hperm. simpl. rewrite elem_of_cons, elem_of_difference, elem_of_singleton.
      destruct (decide (p = p')) as [<-|]; naive_solver.
    - intros p' [Hin Hne]%elem_of_difference. rewrite Hperm. simpl. rewrite elem_of_cons.
      intros [->|Hin']; [by rewrite elem_of_singleton in Hne|]. by apply (H6 p'). }
  rewrite (queue_ok_sizes _ _ Hok'). simpl. eauto.
Qed.

Lemma howMuchTimeFromNow_spec e now :
  in_int64 (e - now) = true ->
  exists ts, howMuchTimeFromNow e now = Ok ts /\
    0 <= tv_sec ts /\ 0 <= tv_nsec ts < 1000000000 /\
    tv_sec ts * 1000000000 + tv_nsec ts = Z.max 100 (e - now) * 1000.
Proof.
  intros Hr. unfold howMuchTimeFromNow, int64. rewrite Hr. simpl. eexists. split; [done|]. simpl.
  set (m := if _ <? _ then _ else _).
  assert (m = Z.max 100 (e - now)) as -> by (subst m; zcase; lia).
  unfold kMicroSecondsPerSecond. change (1000 * 1000) with 1000000.
  rewrite Z.quot_div_nonneg, Z.rem_mod_nonneg by lia.
  pose proof (Z.div_mod (Z.max 100 (e - now)) 1000000 ltac:(lia)).
  pose proof (Z.mod_pos_bound (Z.max 100 (e - now)) 1000000 ltac:(lia)).
  pose proof (Z.div_pos (Z.max 100 (e - now)) 1000000 ltac:(lia) ltac:(lia)). lia.
Qed.

(** [addTimerInLoop] arms the timer and, when it is the earliest, the timerfd. *)
Lemma addTimerInLoop_ok loose q p t now :
  queue_ok loose q -> p ∈ loose -> heap q !! p = Some t ->
  in_int64 (expiration_ t - now) = true ->
  exists q', addTimerInLoop true p now None q = Ok q' /\ queue_ok (loose ∖ {[p]}) q' /\
    heap q' = heap q /\ timers_ q' ≡ₚ (expiration_ t, p) :: timers_ q /\
    callingExpiredTimers_ q' = callingExpiredTimers_ q /\
    cancelingTimers_ q' = cancelingTimers_ q /\ errors q' = errors q /\
    (if earliest t q
     then exists ts, howMuchTimeFromNow (expiration_ t) now = Ok ts /\ timerfd_armed q' = Some ts
     else timerfd_armed q' = timerfd_armed q).
Proof.
  intros Hok Hp Ht Hr. unfold addTimerInLoop. simpl.
  pose proof (ok_addr _ _ Hok p ltac:(eauto)).
  destruct (Z.eqb_spec p nullptr); [unfold nullptr in *; lia|].
  destruct (insert_ok _ _ _ _ Hok Hp Ht) as (ts & act & -> & Hperm & Hok'). simpl.
  destruct (earliest t q) eqn:E.
  - unfold deref. simpl. rewrite Ht. simpl. unfold resetTimerfd.
    destruct (howMuchTimeFromNow_spec _ _ Hr) as (tsp & -> & _). simpl.
    eexists. split; [done|]. split; [by apply queue_ok_armed|]. simpl. split_and!; try done. eauto.
  - eexists. split; [done|]. split; [done|]. simpl. split_and!; done.
Qed.
End operations.

Section expiry.
Context {CB : Type}.
Implicit Types (q : TimerQueue CB) (h : gmap Z (Timer CB)) (p w : Z) (loose : gset Z).

(** The [for] loop of [getExpired] removes exactly the expired keys. *)
Lemma erase_active_loop (expired rest : list (Z * Z)) q :
  NoDup (expired ++ rest).*2 -> (forall p, p ∈ expired.*2 -> is_Some (heap q !! p)) ->
  activeTimers_ q = list_to_set (key (heap q) <$> expired ++ rest) ->
  for_each erase_active expired q
  = Ok (set_sets (timers_ q) (list_to_set (key (heap q) <$> rest)) q).
Proof.
  revert q. induction expired as [|[w p] l IH]; intros q Hnd Hheap Hact.
  { simpl in *. rewrite <- Hact. by destruct q. }
  destruct (Hheap p) as [t Ht]; [simpl; set_solver|].
  cbn [for_each]. unfold erase_active at 2. cbn [snd]. rewrite (deref_Some _ _ _ Ht). simpl.
  apply NoDup_cons in Hnd as [Hp Hnd].
  assert ((p, sequence_ t) = key (heap q) (w, p)) as Hkey by (unfold key, seq_of; simpl; by rewrite Ht).
  rewrite decide_True by (rewrite Hact, Hkey; simpl; set_solver).
  simpl. set (q1 := set_sets _ _ q).
  rewrite (IH q1); [by destruct q|done|intros p' Hp'; apply (Hheap p'); simpl; set_solver|].
  subst q1. simpl. rewrite Hact, Hkey. simpl.
  assert (key (heap q) (w, p) ∉ key (heap q) <$> l ++ rest) as Hnin.
  { unfold key at 1. simpl. rewrite key_in. naive_solver. }
  apply gset_pop. by rewrite elem_of_list_to_set.
Qed.

(** [getExpired] takes out exactly the timers due at [now]. *)
Lemma getExpired_ok loose q now :
  queue_ok loose q -> valid now = true ->
  exists expired q', getExpired now q = Ok (expired, q') /\
    timers_ q = expired ++ timers_ q' /\
    (forall e, e ∈ expired -> e.1 <= now) /\ (forall e, e ∈ timers_ q' -> now < e.1) /\
    queue_ok (list_to_set expired.*2 ∪ loose) q' /\
    heap q' = heap q /\ errors q' = errors q /\ timerfd_armed q' = timerfd_armed q.
Proof.
  intros Hok Hnow. unfold getExpired. rewrite Hnow. simpl.
  pose proof (lower_bound_spec entry_ltb (now, UINTPTR_MAX) _ (ok_sorted _ _ Hok)) as Hlb.
  destruct (lower_bound entry_ltb _ _) as [expired rest]. destruct Hlb as (Hts & Hexp & Hrest).
  assert (forall e, e ∈ timers_ q -> e.2 < UINTPTR_MAX) as Haddr.
  { intros [w p] Hin. apply (ok_entry _ _ Hok) in Hin as (t & Ht & _). simpl.
    pose proof (ok_addr _ _ Hok p). naive_solver. }
  rewrite Forall_forall in Hexp, Hrest.
  assert (forall e, e ∈ rest -> now < e.1) as Hr.
  { intros e He. specialize (Hrest _ He). simpl in Hrest.
    specialize (Haddr e ltac:(rewrite Hts; set_solver)).
    destruct (Z.ltb_spec now e.1); [done|]. exfalso.
    assert (entry_ltb e (now, UINTPTR_MAX) = true) by (apply entry_ltb_spec; simpl; lia).
    congruence. }
  assert (match rest with [] => true | e :: _ => ts_lt now e.1 end = true) as ->.
  { destruct rest as [|e rest]; [done|]. apply Z.ltb_lt, Hr. set_solver. }
  simpl. set (q0 := set_sets rest (activeTimers_ q) q).
  assert (NoDup (expired ++ rest).*2) as Hnd by (rewrite <- Hts; apply (ok_nodup _ _ Hok)).
  rewrite (erase_active_loop expired rest q0); [|done| |].
  2:{ intros p Hp. simpl. apply (ok_dom _ _ Hok). left. rewrite Hts, fmap_app. set_solver. }
  2:{ simpl. rewrite <- Hts. apply (ok_active _ _ Hok). }
  simpl. eexists _, _. split; [done|]. simpl. split; [done|].
  split. { intros e He. specialize (Hexp _ He). apply entry_ltb_spec in Hexp. simpl in Hexp. lia. }
  split; [done|]. split; [|done].
  destruct (sorted_app entry_ltb expired rest) as (_ & Hs & _); [rewrite <- Hts; apply (ok_sorted _ _ Hok)|].
  rewrite fmap_app, NoDup_app in Hnd. destruct Hnd as (_ & Hdisj & Hnd).
  split; simpl; try done.
  - intros w p Hin. apply (ok_entry _ _ Hok). rewrite Hts. set_solver.
  - intros p. rewrite (ok_dom _ _ Hok p), Hts, fmap_app, elem_of_app, elem_of_union, elem_of_list_to_set.
    tauto.
  - intros p [Hp%elem_of_list_to_set|Hp]%elem_of_union; [by apply Hdisj|].
    pose proof (ok_loose _ _ Hok p Hp) as Hn. rewrite Hts, fmap_app in Hn. set_solver.
  - apply (ok_addr _ _ Hok).
Qed.

(** [cancelInLoop] of an armed timer disarms and frees it, provided the read
    of the erased node still yields the timer's address. *)
Lemma cancelInLoop_armed loose q ef id t :
  queue_ok loose q -> heap q !! timer_ id = Some t -> sequence_ t = id_sequence_ id ->
  timer_ id ∉ loose -> ef (timer_ id) = timer_ id ->
  exists ts act, let q' := set_heap (delete (timer_ id) (heap q)) (set_sets ts act q) in
    cancelInLoop ef true id q = Ok q' /\ timers_ q ≡ₚ (expiration_ t, timer_ id) :: ts /\
    queue_ok loose q'.
Proof.
  intros Hok Ht Hseq Hl Hef. set (p := timer_ id) in *.
  assert (0 < p < UINTPTR_MAX) by (apply (ok_addr _ _ Hok); eauto).
  assert ((p, id_sequence_ id) ∈ activeTimers_ q) as Hact
    by (apply (queue_ok_active _ _ _ _ Hok); eauto).
  assert ((expiration_ t, p) ∈ timers_ q) as Hin by (apply (queue_ok_timers _ _ _ _ Hok); eauto).
  unfold cancelInLoop. simpl. fold p. destruct (Z.eqb_spec p nullptr); [unfold nullptr in *; lia|].
  rewrite decide_True by done. rewrite (deref_Some _ _ _ Ht). simpl.
  destruct (set_erase_in entry_ltb _ _ (ok_sorted _ _ Hok) Hin) as (ts & -> & Hperm & Hs).
  simpl. unfold read_freed. rewrite Hef, Z.eqb_refl, bind_ret_l. set (act := activeTimers_ q ∖ _). exists ts, act. simpl.
  assert (queue_ok ({[p]} ∪ loose) (set_sets ts act q)) as Hok1.
  { pose proof (ok_nodup _ _ Hok) as Hnd. rewrite Hperm in Hnd. simpl in Hnd.
    apply NoDup_cons in Hnd as [Hnp Hnd]. destruct Hok as [H1 H2 H3 H4 H5 H6 H7].
    split; simpl; try done.
    - intros w p' Hin'. apply H3. rewrite Hperm. set_solver.
    - subst act. rewrite H4, Hperm. simpl. unfold key at 1. simpl. unfold seq_of. rewrite Ht, Hseq.
      apply gset_pop. rewrite elem_of_list_to_set, key_in. tauto.
    - intros p'. rewrite H5, Hperm. simpl. rewrite elem_of_cons, elem_of_union, elem_of_singleton. tauto.
    - intros p' [->%elem_of_singleton|Hp']%elem_of_union; [done|].
      specialize (H6 p' Hp'). rewrite Hperm in H6. simpl in H6. set_solver. }
  destruct (queue_ok_free _ _ p Hok1) as [-> Hok2]; [set_solver|].
  split; [done|]. split; [done|]. by rewrite gset_pop in Hok2.
Qed.

Lemma cancelInLoop_reads ef b id q :
  ef (timer_ id) = timer_ id -> cancelInLoop ef b id q = cancelInLoop (fun p => p) b id q.
Proof. intros He. unfold cancelInLoop, read_freed. by rewrite He. Qed.

(** If it reads as anything else, the run ends there. *)
Lemma cancelInLoop_freed loose q ef id t :
  queue_ok loose q -> heap q !! timer_ id = Some t -> sequence_ t = id_sequence_ id ->
  timer_ id ∉ loose -> ef (timer_ id) <> timer_ id -> cancelInLoop ef true id q = Fault FreedNode.
Proof.
  intros Hok Ht Hseq Hl Hef. assert (0 < timer_ id < UINTPTR_MAX) by (apply (ok_addr _ _ Hok); eauto).
  unfold cancelInLoop. simpl. destruct (Z.eqb_spec (timer_ id) nullptr); [unfold nullptr in *; lia|].
  rewrite decide_True by (apply (queue_ok_active _ _ _ _ Hok); eauto). rewrite (deref_Some _ _ _ Ht). simpl.
  destruct (set_erase _ _ _) as [ts n0]. unfold read_freed. by destruct (Z.eqb_spec (ef (timer_ id)) (timer_ id)).
Qed.

(** [cancelInLoop] of anything else only remembers the id while expired
    callbacks are running. *)
Lemma cancelInLoop_other q ef id :
  timer_ id <> nullptr -> (timer_ id, id_sequence_ id) ∉ activeTimers_ q ->
  cancelInLoop ef true id q
  = Ok (if callingExpiredTimers_ q
        then set_calling true ({[(timer_ id, id_sequence_ id)]} ∪ cancelingTimers_ q) q else q).
Proof.
  intros Hn Hact. unfold cancelInLoop. simpl.
  destruct (Z.eqb_spec (timer_ id) nullptr); [done|]. rewrite decide_False by done.
  by destruct (callingExpiredTimers_ q) eqn:E.
Qed.
End expiry.

Section resetting.
Context {CB : Type}.
Implicit Types (q : TimerQueue CB) (h : gmap Z (Timer CB)) (p w : Z) (loose c : gset Z).

(** What becomes of an expired timer: a repeating timer that was not cancelled is
    restarted, any other is freed. *)
Definition after_fire (canceling : gset (Z * Z)) (now : Timestamp) p (t : Timer CB)
    : res (option (Timer CB)) :=
  if repeat_ t && negb (bool_decide ((p, sequence_ t) ∈ canceling))
  then t' ← restart t now; Ok (Some t')
  else Ok None.

Definition update_heap (o : option (Timer CB)) p h : gmap Z (Timer CB) :=
  match o with Some t => <[p := t]> h | None => delete p h end.

Lemma lookup_update_heap o p h p' :
  update_heap o p h !! p' = if decide (p = p') then o else h !! p'.
Proof. destruct o; simpl; [apply lookup_insert|apply lookup_delete]. Qed.

Lemma reset_one_ok loose q now w p t o :
  queue_ok loose q -> p ∈ loose -> heap q !! p = Some t ->
  after_fire (cancelingTimers_ q) now p t = Ok o ->
  exists q', reset_one true now (w, p) q = Ok q' /\ queue_ok (loose ∖ {[p]}) q' /\
    heap q' = update_heap o p (heap q) /\ cancelingTimers_ q' = cancelingTimers_ q /\
    callingExpiredTimers_ q' = callingExpiredTimers_ q /\ timerfd_armed q' = timerfd_armed q.
Proof.
  intros Hok Hp Ht Ho. pose proof (ok_addr _ _ Hok p ltac:(eauto)).
  unfold reset_one. cbn [snd]. destruct (Z.eqb_spec p nullptr); [unfold nullptr in *; lia|].
  rewrite (deref_Some _ _ _ Ht). simpl. unfold after_fire in Ho.
  destruct (repeat_ t && _) eqn:E.
  - inv_res. rewrite Hm. simpl.
    pose proof (queue_ok_update _ _ _ a _ Hok Hp Ht) as Hok1.
    destruct (insert_ok _ _ p a Hok1 Hp) as (ts & act & -> & _ & Hok2);
      [apply lookup_insert_eq|]. simpl.
    destruct (earliest a _); eexists; (split; [done|]);
      (split; [|done]); [done|by apply queue_ok_log].
  - injection Ho as <-. destruct (queue_ok_free _ _ p Hok Hp) as [-> Hok1]. by eexists.
Qed.

(** The heap after the timers at the addresses [ps] have been reset. *)
Definition reset_heap (c : gset (Z * Z)) (now : Timestamp) (ps : list Z) h p : option (Timer CB) :=
  if decide (p ∈ ps)
  then t ← h !! p; match after_fire c now p t with Ok o => o | Fault _ => None end
  else h !! p.

Lemma reset_loop expired loose q now :
  NoDup expired.*2 -> (forall p, p ∈ expired.*2 -> p ∉ loose) ->
  queue_ok (list_to_set expired.*2 ∪ loose) q ->
  (forall p t, p ∈ expired.*2 -> heap q !! p = Some t ->
     exists o, after_fire (cancelingTimers_ q) now p t = Ok o) ->
  exists q', for_each (reset_one true now) expired q = Ok q' /\ queue_ok loose q' /\
    cancelingTimers_ q' = cancelingTimers_ q /\
    callingExpiredTimers_ q' = callingExpiredTimers_ q /\ timerfd_armed q' = timerfd_armed q /\
    forall p, heap q' !! p = reset_heap (cancelingTimers_ q) now expired.*2 (heap q) p.
Proof.
  revert q. induction expired as [|[w p] l IH]; intros q Hnd Hdisj Hok Hfire.
  { simpl in *. exists q. rewrite (left_id_L ∅ (∪)) in Hok. done. }
  apply NoDup_cons in Hnd as [Hp Hnd]. fold (@fmap list _ _ _ (@snd Z Z) l) in Hp, Hnd.
  assert (p ∈ (list_to_set ((w, p) :: l).*2 ∪ loose : gset Z)) as Hpl by (simpl; set_solver).
  assert (is_Some (heap q !! p)) as [t Ht] by (apply (ok_dom _ _ Hok); auto).
  destruct (Hfire p t) as [o Ho]; [simpl; set_solver|done|].
  destruct (reset_one_ok _ _ now w p t o Hok Hpl Ht Ho) as (q1 & E1 & Hok1 & Hh1 & Hc1 & Hb1 & Ha1).
  assert (((list_to_set ((w, p) :: l).*2 ∪ loose) ∖ {[p]} : gset Z) = list_to_set l.*2 ∪ loose) as Hset.
  { simpl. rewrite <- (assoc_L (∪)). apply gset_pop.
    rewrite elem_of_union, elem_of_list_to_set. intros [|Hin]; [done|].
    apply (Hdisj p); [simpl; set_solver|done]. }
  rewrite Hset in Hok1.
  destruct (IH q1) as (q' & E' & Hok' & Hc' & Hb' & Ha' & Hh'); try done.
  { intros p' Hp'. apply Hdisj. simpl. set_solver. }
  { intros p' t' Hp' Ht'. rewrite Hc1. apply Hfire; [simpl; set_solver|].
    rewrite Hh1, lookup_update_heap in Ht'. by rewrite decide_False in Ht' by (intros ->; done). }
  cbn [for_each]. rewrite E1, bind_ret_l. exists q'.
  split; [done|]. split; [done|]. split_and!; try congruence.
  intros p'. rewrite Hh', Hh1, Hc1. unfold reset_heap. rewrite lookup_update_heap.
  assert (p' ∈ ((w, p) :: l).*2 <-> p = p' \/ p' ∈ l.*2) as Hiff by (simpl; set_solver).
  destruct (decide (p' ∈ l.*2)) as [Hl|Hl], (decide (p' ∈ ((w, p) :: l).*2)) as [Hc|Hc],
    (decide (p = p')) as [<-|Hne]; try done; rewrite Hiff in Hc;
    try (exfalso; clear -Hc Hl; tauto); try (exfalso; clear -Hc Hl Hne; tauto).
  rewrite Ht. simpl. by rewrite Ho.
Qed.

(** All expirations within 2^62 microseconds of the epoch: differences fit. *)
Definition in_range q : Prop :=
  forall p t, heap q !! p = Some t -> - 2 ^ 62 <= expiration_ t <= 2 ^ 62.

Lemma range_diff a b : - 2 ^ 62 <= a <= 2 ^ 62 -> 0 <= b <= 2 ^ 62 -> in_int64 (a - b) = true.
Proof.
  intros. unfold in_int64, min_int64, max_int64.
  rewrite andb_true_iff, !Z.leb_le. lia.
Qed.

(** The timerfd is set for the first armed timer. *)
Definition armed_for_first q (clock : Timestamp) : Prop :=
  match timers_ q with
  | [] => True
  | e :: _ => valid e.1 = true ->
      exists ts, howMuchTimeFromNow e.1 clock = Ok ts /\ timerfd_armed q = Some ts
  end.

Lemma reset_ok expired loose q now clock :
  NoDup expired.*2 -> (forall p, p ∈ expired.*2 -> p ∉ loose) ->
  queue_ok (list_to_set expired.*2 ∪ loose) q -> valid now = true -> 0 <= clock <= 2 ^ 62 ->
  (forall p t, p ∈ expired.*2 -> heap q !! p = Some t ->
     exists o, after_fire (cancelingTimers_ q) now p t = Ok o /\
               forall t', o = Some t' -> expiration_ t' <= 2 ^ 62) ->
  in_range q ->
  exists q', reset true expired now clock None q = Ok q' /\ queue_ok loose q' /\
    callingExpiredTimers_ q' = callingExpiredTimers_ q /\ armed_for_first q' clock /\
    (timers_ q' = [] -> timerfd_armed q' = timerfd_armed q) /\
    cancelingTimers_ q' = cancelingTimers_ q /\
    forall p, heap q' !! p = reset_heap (cancelingTimers_ q) now expired.*2 (heap q) p.
Proof.
  intros Hnd Hdisj Hok Hnow Hclock Hfire Hr. unfold reset. rewrite Hnow. simpl.
  destruct (reset_loop expired loose q now) as (q1 & -> & Hok1 & Hc1 & Hb1 & Ha1 & Hh1); try done.
  { intros p t Hp Ht. destruct (Hfire p t Hp Ht) as (o & ? & _). eauto. }
  simpl. unfold armed_for_first. destruct (timers_ q1) as [|e l] eqn:Ets; simpl.
  { exists q1. rewrite Ets. done. }
  destruct (ok_entry _ _ Hok1 e.1 e.2) as (t & Ht & Hw); [rewrite Ets; destruct e; set_solver|].
  rewrite (deref_Some _ _ _ Ht). simpl. rewrite Hw.
  destruct (valid e.1) eqn:Hv; [|exists q1; rewrite Ets; split_and!; try done; by rewrite Hv].
  assert (e.1 <= 2 ^ 62) as He.
  { rewrite Hh1 in Ht. unfold reset_heap in Ht. rewrite <- Hw. destruct (decide _) as [Hin|_].
    - destruct (heap q !! e.2) as [t0|] eqn:E0; [|done]. simpl in Ht.
      destruct (Hfire _ _ Hin E0) as (o & Eo & Ho). rewrite Eo in Ht. by apply Ho.
    - by apply (Hr _ _ Ht). }
  unfold valid in Hv. apply Z.ltb_lt in Hv. unfold resetTimerfd.
  destruct (howMuchTimeFromNow_spec e.1 clock) as (ts & E & _); [apply range_diff; lia|].
  rewrite E. simpl. eexists. split; [done|]. split; [by apply queue_ok_armed|].
  simpl. rewrite Ets. split_and!; try done. by exists ts.
Qed.
End resetting.
