(* ===== verification/TimerRun.v ===== *)
(** * TimerRun: firing timers

    The correctness of [TimerQueue::handleRead] for any client whose callbacks
    use the queue only through [addTimer] and [cancel], the interface
    [TimerClient] such a client satisfies, and a client whose callbacks are
    scripts of such calls. *)
From S2P Require Import Prelude Timestamp StdSet TimerQueue.

Section client.
Context {CB : Type}.
Implicit Types (q : TimerQueue CB) (loose : gset Z).

(** One call into the queue from the loop thread: [addTimer] with the address
    [new] returned and a successful [timerfd_settime], or [cancel]. *)
Inductive api_step (ef : Z -> Z) : TimerQueue CB -> TimerQueue CB -> Prop :=
  | api_add q q' p t now :
      heap q !! p = None -> 0 < p < UINTPTR_MAX ->
      - 2 ^ 62 <= expiration_ t <= 2 ^ 62 -> 0 <= now <= 2 ^ 62 ->
      addTimerInLoop true p now None (set_heap (<[p := t]> (heap q)) q) = Ok q' ->
      api_step ef q q'
  | api_cancel q q' id :
      cancelInLoop ef true id q = Ok q' -> api_step ef q q'.

(** What every call, and so every callback, leaves alone. *)
Record undisturbed loose q q' : Prop := {
  und_ok : queue_ok loose q';
  und_range : in_range q';
  und_heap p : p ∈ loose -> heap q' !! p = heap q !! p;
  und_calling : callingExpiredTimers_ q' = callingExpiredTimers_ q;
  und_canceling : cancelingTimers_ q ⊆ cancelingTimers_ q'
}.

Lemma undisturbed_refl loose q : queue_ok loose q -> in_range q -> undisturbed loose q q.
Proof. by split. Qed.

Lemma undisturbed_trans loose q1 q2 q3 :
  undisturbed loose q1 q2 -> undisturbed loose q2 q3 -> undisturbed loose q1 q3.
Proof.
  intros [] []. split; try done; [|congruence|set_solver].
  intros p Hp. rewrite und_heap1, und_heap0; done.
Qed.

Lemma undisturbed_same loose q q1 q2 :
  undisturbed loose q q1 -> heap q2 = heap q1 -> timers_ q2 = timers_ q1 ->
  activeTimers_ q2 = activeTimers_ q1 -> callingExpiredTimers_ q2 = callingExpiredTimers_ q1 ->
  cancelingTimers_ q1 ⊆ cancelingTimers_ q2 -> undisturbed loose q q2.
Proof.
  intros [H1 H2 H3 H4 H5] Eh Et Ea Ec Es. split; [by apply (queue_ok_same _ _ _ H1)|..].
  - unfold in_range. by rewrite Eh.
  - by rewrite Eh.
  - congruence.
  - set_solver.
Qed.

Lemma set_heap_range q q' : heap q' = heap q -> in_range q -> in_range q'.
Proof. unfold in_range. by intros ->. Qed.

Context (ef : Z -> Z).

Lemma cancel_undisturbed loose q q' id :
  cancelInLoop ef true id q = Ok q' -> queue_ok loose q -> in_range q -> undisturbed loose q q'.
Proof.
  intros E Hok Hr. destruct (decide (timer_ id = nullptr)) as [E0|E0].
  { unfold cancelInLoop in E. rewrite E0 in E. simpl in E. injection E as <-.
    split; auto with timers. }
  destruct (decide ((timer_ id, id_sequence_ id) ∈ activeTimers_ q)) as [Ha|Ha].
  - apply (queue_ok_active _ _ _ _ Hok) in Ha as (Hl & t & Ht & Hs).
    destruct (decide (ef (timer_ id) = timer_ id)) as [He|He];
      [|by rewrite (cancelInLoop_freed loose q ef id t) in E].
    destruct (cancelInLoop_armed loose q ef id t) as (ts & act & E' & _ & Hok'); try done.
    rewrite E' in E. injection E as <-. split; try done; simpl.
    + intros p t'. simpl. rewrite lookup_delete. case_decide; [done|]. apply Hr.
    + intros p Hp. rewrite lookup_delete_ne; [done|]. intros <-. done.
  - rewrite (cancelInLoop_other q ef id E0 Ha) in E. injection E as <-.
    apply (undisturbed_same loose q q); [by apply undisturbed_refl|..];
      destruct (callingExpiredTimers_ q) eqn:Ec; simpl; try done. set_solver.
Qed.

Lemma api_step_undisturbed loose q q' :
  api_step ef q q' -> queue_ok loose q -> in_range q -> undisturbed loose q q'.
Proof.
  intros Hstep Hok Hr. destruct Hstep as [q q' p t now Hp Hpr Hexp Hnow E|q q' id E];
    [|by eapply cancel_undisturbed].
  assert (p ∉ loose) as Hpl.
  { intros Hin. assert (is_Some (heap q !! p)) as [? ?] by (apply (ok_dom _ _ Hok); auto). congruence. }
  pose proof (queue_ok_new loose q p t Hok Hp Hpr) as Hok1.
  destruct (addTimerInLoop_ok _ _ p t now Hok1) as (q2 & E2 & Hok2 & Eh & _ & Ec & Es & _);
    [set_solver|apply lookup_insert_eq|by apply range_diff|].
  rewrite E2 in E. injection E as <-. rewrite gset_pop in Hok2 by done. simpl in *.
  split; try done.
  - intros p' t'. rewrite Eh, lookup_insert. case_decide; [by intros [= <-]|apply Hr].
  - intros p' Hp'. rewrite Eh, lookup_insert_ne; [done|]. intros <-. done.
  - by rewrite Es.
Qed.

Lemma api_steps_undisturbed loose q q' :
  rtc (api_step ef) q q' -> queue_ok loose q -> in_range q -> undisturbed loose q q'.
Proof.
  induction 1 as [q|q1 q2 q3 H12 H23 IH]; intros Hok Hr; [by apply undisturbed_refl|].
  pose proof (api_step_undisturbed loose _ _ H12 Hok Hr) as Hu.
  eapply undisturbed_trans; [exact Hu|]. destruct Hu. by apply IH.
Qed.
End client.

(** The promise of a client: a callback returns, normally or by an exception, and
    has touched the queue only through its interface, with times in range and a
    [timerfd_settime] that succeeds.  A cancellation that ends at the freed node does
    not return, so such a callback is none of a client's. *)
Class TimerClient {CB W : Type} `{!TimerWorld CB W} (ef : Z -> Z) : Prop := {
  client_total cb (w : W) loose :
    queue_ok loose (queue w) -> in_range (queue w) ->
    exists w' threw, run_callback cb w = Ok (w', threw);
  client_api cb (w w' : W) threw :
    run_callback cb w = Ok (w', threw) -> rtc (api_step ef) (queue w) (queue w')
}.

Section firing.
Context {CB W : Type} `{!TimerWorld CB W} (ef : Z -> Z) `{!TimerClient ef}.
Implicit Types (w : W) (loose : gset Z).

Lemma run_expired_ok loose (it : Z * Z) w :
  queue_ok loose (queue w) -> in_range (queue w) -> it.2 ∈ loose ->
  exists w', run_expired it w = Ok w' /\ undisturbed loose (queue w) (queue w').
Proof.
  intros Hok Hr Hp. assert (is_Some (heap (queue w) !! it.2)) as [t Ht]
    by (apply (ok_dom _ _ Hok); auto).
  unfold run_expired. rewrite (deref_Some _ _ _ Ht). simpl.
  destruct (callback_ t) as [cb|]; [|by exists w; split; [|apply undisturbed_refl]].
  destruct (client_total cb w loose Hok Hr) as (w1 & threw & E). rewrite E. simpl.
  pose proof (api_steps_undisturbed ef loose _ _ (client_api _ _ _ _ E) Hok Hr) as Hu.
  destruct threw; [|by eexists]. eexists. split; [done|].
  rewrite queue_set. by apply (undisturbed_same _ _ _ _ Hu).
Qed.

Lemma run_all_ok loose expired w :
  queue_ok loose (queue w) -> in_range (queue w) -> (forall e, e ∈ expired -> e.2 ∈ loose) ->
  exists w', for_each run_expired expired w = Ok w' /\ undisturbed loose (queue w) (queue w').
Proof.
  intros Hok Hr Hin.
  destruct (for_each_inv run_expired (fun rest w' =>
    undisturbed loose (queue w) (queue w') /\ forall e : Z * Z, e ∈ rest -> e.2 ∈ loose) expired w)
    as (w' & E & Hu & _); [..|by exists w'].
  - split; [by apply undisturbed_refl|done].
  - intros e rest w1 [Hu Hrest].
    destruct (run_expired_ok loose e w1) as (w2 & E & Hu2);
      [apply (und_ok _ _ _ Hu)|apply (und_range _ _ _ Hu)|apply Hrest; set_solver|].
    exists w2. split; [done|]. split; [by eapply undisturbed_trans|]. set_solver.
Qed.

(** What [handleRead] does with a timer that was due. *)
Definition settled (now : Timestamp) (canceling : gset (Z * Z)) p (t : Timer CB)
    (o : option (Timer CB)) : Prop :=
  if repeat_ t && negb (bool_decide ((p, sequence_ t) ∈ canceling))
  then exists e, addTime now (interval_ t) = Ok e /\ o = Some (with_expiration t e)
  else o = None.

Lemma after_fire_settled now c p (t : Timer CB) :
  valid now = true ->
  (repeat_ t = true ->
   exists e, addTime now (interval_ t) = Ok e /\ - 2 ^ 62 <= e <= 2 ^ 62) ->
  exists o, after_fire c now p t = Ok o /\
    (forall t', o = Some t' -> - 2 ^ 62 <= expiration_ t' <= 2 ^ 62) /\ settled now c p t o.
Proof.
  intros Hv Hrep. unfold after_fire, settled, restart. rewrite Hv. simpl.
  destruct (repeat_ t); simpl; [|by exists None].
  destruct Hrep as (e & -> & He); [done|]. simpl.
  case_bool_decide; simpl; [by exists None|].
  eexists. split; [done|]. split; [intros t' [= <-]; done|]. eauto.
Qed.

(** Inputs of a normal wakeup: the clock is sane and the system calls succeed. *)
Definition env_ok (env : read_env) : Prop :=
  0 < env_now env <= 2 ^ 62 /\ 0 <= env_clock env <= 2 ^ 62 /\
  (env_read env).1 = 8 /\ env_settime env = None.

(** The next period of every repeating timer can be computed. *)
Definition restartable (now : Timestamp) (q : TimerQueue CB) : Prop :=
  forall p t, heap q !! p = Some t -> repeat_ t = true ->
    exists e, addTime now (interval_ t) = Ok e /\ - 2 ^ 62 <= e <= 2 ^ 62.

Lemma handleRead_settles loose env w :
  queue_ok loose (queue w) -> in_range (queue w) -> env_ok env ->
  restartable (env_now env) (queue w) ->
  exists w', handleRead true env w = Ok w' /\ queue_ok loose (queue w') /\
    in_range (queue w') /\
    callingExpiredTimers_ (queue w') = false /\ armed_for_first (queue w') (env_clock env) /\
    forall p t, heap (queue w) !! p = Some t -> p ∉ loose -> expiration_ t <= env_now env ->
      settled (env_now env) (cancelingTimers_ (queue w')) p t (heap (queue w') !! p).
Proof.
  intros Hok Hr (Hnow & Hclock & Hread & Hset) Hrep. unfold handleRead. simpl.
  unfold readTimerfd. rewrite Hread. simpl.
  assert (valid (env_now env) = true) as Hv by (apply Z.ltb_lt; lia).
  destruct (getExpired_ok _ _ _ Hok Hv) as (expired & q1 & -> & Hts & Hexp & Hrest & Hok1 & Hh1 & _ & _).
  simpl. set (L := list_to_set expired.*2 ∪ loose) in *.
  set (w1 := set_queue (set_calling true ∅ q1) w).
  assert (queue w1 = set_calling true ∅ q1) as Hw1 by apply queue_set.
  destruct (run_all_ok L expired w1) as (w2 & -> & Hu).
  { rewrite Hw1. auto with timers. }
  { rewrite Hw1. apply (set_heap_range (queue w)); [by rewrite <- Hh1|done]. }
  { intros e He. subst L. rewrite elem_of_union, elem_of_list_to_set. left. by apply list_elem_of_fmap_2. }
  simpl. destruct Hu as [Hok2 Hr2 Hh2 _ _]. rewrite Hw1 in Hh2. simpl in Hh2. rewrite Hh1 in Hh2.
  pose proof (ok_nodup _ _ Hok) as Hnd. rewrite Hts, fmap_app, NoDup_app in Hnd.
  destruct Hnd as (Hnd & _ & _).
  assert (forall p, p ∈ expired.*2 -> p ∉ loose) as Hdisj.
  { intros p Hp Hl. apply (ok_loose _ _ Hok p Hl). rewrite Hts, fmap_app. set_solver. }
  set (q2 := set_calling false (cancelingTimers_ (queue w2)) (queue w2)).
  assert (forall p t, p ∈ expired.*2 -> heap q2 !! p = Some t -> heap (queue w) !! p = Some t) as Hsame.
  { intros p t Hp. simpl. rewrite Hh2; [done|]. subst L. set_solver. }
  destruct (reset_ok expired loose q2 (env_now env) (env_clock env))
    as (q3 & E3 & Hok3 & Hc3 & Ha3 & _ & Hcan & Hh3); try done.
  { subst q2. auto with timers. }
  { intros p t Hp Ht. destruct (after_fire_settled (env_now env) (cancelingTimers_ q2) p t)
      as (o & ? & Hmax & _); [done|intros; eapply Hrep; eauto|]. exists o. split; [done|].
    intros t' Ht'. by apply Hmax. }
  rewrite Hset, E3. simpl. eexists. split; [done|]. rewrite queue_set.
  split; [done|]. split; [|split_and!; try done].
  { intros p t. rewrite Hh3. unfold reset_heap. case_decide as Hp; [|intros Ht; by apply (Hr2 _ _ Ht)].
    destruct (heap q2 !! p) as [t0|] eqn:Ht0; [|done]. simpl.
    destruct (after_fire_settled (env_now env) (cancelingTimers_ q2) p t0) as (o & Ho & Hmax & _);
      [done|intros; eapply Hrep; eauto|]. simpl in Ho. rewrite Ho. apply Hmax. }
  intros p t Ht Hl Hdue. rewrite Hh3, Hcan. unfold reset_heap.
  assert (p ∈ expired.*2) as Hp.
  { assert ((expiration_ t, p) ∈ timers_ (queue w)) as Hin
      by (apply (queue_ok_timers _ _ _ _ Hok); eauto).
    rewrite Hts, elem_of_app in Hin. rewrite elem_snd. destruct Hin as [Hin|Hin]; [eauto|].
    specialize (Hrest _ Hin). simpl in Hrest. lia. }
  rewrite decide_True by done.
  assert (heap q2 !! p = Some t) as -> by (simpl; rewrite Hh2; [done|subst L; set_solver]).
  destruct (after_fire_settled (env_now env) (cancelingTimers_ q2) p t) as (o & Ho & _ & Hset');
    [done|intros; eapply Hrep; eauto|]. simpl in *. by rewrite Ho.
Qed.
End firing.

(** ** A client: callbacks as scripts

    A callback is a number; [body] gives the calls it makes.  The world keeps the
    queue, [Timer::s_numCreated_], the ids handed out and the callbacks run. *)
Inductive action :=
  | AAdd (cb : nat) (when : Timestamp) (interval : double) (clock : Timestamp)
  | ACancel (id : TimerId)
  | AThrow.

Record script_world := mkScriptWorld {
  sw_queue : TimerQueue nat;
  sw_created : Z;
  sw_ids : list TimerId;
  sw_ran : list nat
}.

(** An allocator: the address after the highest live one. *)
Definition alloc {CB} (h : gmap Z (Timer CB)) : option Z :=
  let p := map_fold (fun p _ m => Z.max p m) 0 h + 1 in
  if p <? UINTPTR_MAX then Some p else None.

Lemma map_fold_max {CB} (h : gmap Z (Timer CB)) :
  0 <= map_fold (fun p _ m => Z.max p m) 0 h /\
  forall p, is_Some (h !! p) -> p <= map_fold (fun p _ m => Z.max p m) 0 h.
Proof.
  apply (map_fold_weak_ind (fun m (h : gmap Z (Timer CB)) =>
    0 <= m /\ forall p, is_Some (h !! p) -> p <= m)).
  - split; [lia|]. intros p [t Ht]. by rewrite lookup_empty in Ht.
  - intros p t h' m Hp [H0 H]. split; [lia|]. intros p'. rewrite lookup_insert_is_Some'.
    intros [->|Hs]; [lia|]. specialize (H p' Hs). lia.
Qed.

Lemma alloc_fresh {CB} (h : gmap Z (Timer CB)) p :
  alloc h = Some p -> h !! p = None /\ 0 < p < UINTPTR_MAX.
Proof.
  unfold alloc. destruct (map_fold_max h) as [H0 Hmax]. zcase; [|done]. intros [= <-].
  split; [|lia]. apply eq_None_not_Some. intros Hs. specialize (Hmax _ Hs). lia.
Qed.

Definition sane (x : Z) : bool := (- 2 ^ 62 <=? x) && (x <=? 2 ^ 62).

(** One call.  [true] is an exception, raised by [AThrow], by [std::bad_alloc] and
    by the client itself for times out of range. *)
Definition run_action (a : action) (w : script_world) : res (script_world * bool) :=
  match a with
  | AAdd cb when interval clock =>
      if negb (sane when && sane clock && (0 <=? clock)) then Ok (w, true)
      else match alloc (heap (sw_queue w)) with
      | None => Ok (w, true)
      | Some p =>
          let '(t, n) := Timer_new (Some cb) when interval (sw_created w) in
          q ← addTimerInLoop true p clock None
                (set_heap (<[p := t]> (heap (sw_queue w))) (sw_queue w));
          Ok (mkScriptWorld q n (sw_ids w ++ [mkTimerId p (sequence_ t)]) (sw_ran w), false)
      end
  | ACancel id =>
      q ← cancelInLoop (fun p => p) true id (sw_queue w);
      Ok (mkScriptWorld q (sw_created w) (sw_ids w) (sw_ran w), false)
  | AThrow => Ok (w, true)
  end.

Fixpoint run_script (l : list action) (w : script_world) : res (script_world * bool) :=
  match l with
  | [] => Ok (w, false)
  | a :: l =>
      '(w, threw) ← run_action a w;
      if threw : bool then Ok (w, true) else run_script l w
  end.

Section script.
Context (body : nat -> list action).

Definition run_body (cb : nat) (w : script_world) : res (script_world * bool) :=
  run_script (body cb) (mkScriptWorld (sw_queue w) (sw_created w) (sw_ids w) (sw_ran w ++ [cb])).

#[local] Instance script_timer_world : TimerWorld nat script_world := {
  queue := sw_queue;
  set_queue q w := mkScriptWorld q (sw_created w) (sw_ids w) (sw_ran w);
  run_callback := run_body;
  queue_set w q := eq_refl
}.

Lemma run_action_api a w w' threw :
  run_action a w = Ok (w', threw) ->
  w' = w \/ api_step (fun p => p) (sw_queue w) (sw_queue w').
Proof.
  destruct a as [cb when interval clock|id|]; simpl; [| |intros [= <- _]; by left].
  - destruct (sane when && sane clock && (0 <=? clock)) eqn:Es; simpl; [|intros [= <- _]; by left].
    unfold sane in Es. rewrite !andb_true_iff, !Z.leb_le in Es.
    destruct (alloc _) as [p|] eqn:Ep; [|intros [= <- _]; by left].
    apply alloc_fresh in Ep as [Hp Hpr]. intros E. inv_res. simpl.
    right. eapply (api_add _ _ _ p _ clock); [done|done| |lia|exact Hm]. simpl. lia.
  - intros E. inv_res. right. by apply (api_cancel _ _ _ id).
Qed.

Lemma run_action_total loose a w :
  queue_ok loose (sw_queue w) -> in_range (sw_queue w) ->
  exists w' threw, run_action a w = Ok (w', threw).
Proof.
  intros Hok Hr. destruct a as [cb when interval clock|id|]; simpl; [| |by do 2 eexists].
  - destruct (sane when && sane clock && (0 <=? clock)) eqn:Es; simpl; [|by do 2 eexists].
    unfold sane in Es. rewrite !andb_true_iff, !Z.leb_le in Es.
    destruct (alloc _) as [p|] eqn:Ep; [|by do 2 eexists].
    apply alloc_fresh in Ep as [Hp Hpr]. set (t := mkTimer _ _ _ _ _).
    pose proof (queue_ok_new _ _ p t Hok Hp Hpr) as Hok1.
    destruct (addTimerInLoop_ok _ _ p t clock Hok1) as (q2 & -> & _);
      [set_solver|apply lookup_insert_eq|apply range_diff; simpl; lia|]. by do 2 eexists.
  - destruct (decide (timer_ id = nullptr)) as [E0|E0].
    { unfold cancelInLoop. rewrite E0. simpl. by do 2 eexists. }
    destruct (decide ((timer_ id, id_sequence_ id) ∈ activeTimers_ (sw_queue w))) as [Ha|Ha].
    + apply (queue_ok_active _ _ _ _ Hok) in Ha as (Hl & t & Ht & Hs).
      destruct (cancelInLoop_armed loose (sw_queue w) (fun p => p) id t) as (? & ? & -> & _);
        try done. by do 2 eexists.
    + rewrite cancelInLoop_other by done. by do 2 eexists.
Qed.

Lemma run_script_api l w w' threw :
  run_script l w = Ok (w', threw) -> rtc (api_step (fun p => p)) (sw_queue w) (sw_queue w').
Proof.
  revert w. induction l as [|a l IH]; intros w; simpl; [by intros [= <- _]|].
  intros E. inv_res. destruct a0 as [w1 [|]]; inv_res; simplify_eq/=;
    apply run_action_api in Hm as [->|Hm]; auto using rtc_once, rtc_refl.
  eapply rtc_l; [exact Hm|by apply IH].
Qed.

Lemma run_script_total loose l w :
  queue_ok loose (sw_queue w) -> in_range (sw_queue w) ->
  exists w' threw, run_script l w = Ok (w', threw).
Proof.
  revert w. induction l as [|a l IH]; intros w Hok Hr; simpl; [by do 2 eexists|].
  destruct (run_action_total loose a w Hok Hr) as (w1 & threw & E). rewrite E. simpl.
  destruct threw; [by do 2 eexists|].
  apply run_action_api in E as [->|E]; [by apply IH|].
  pose proof (api_step_undisturbed _ loose _ _ E Hok Hr) as []. by apply IH.
Qed.

#[local] Instance script_client : TimerClient (fun p => p).
Proof.
  split; simpl; unfold run_body.
  - intros cb w loose Hok Hr. by apply (run_script_total loose).
  - intros cb w w' threw E. by apply run_script_api in E.
Qed.

Lemma run_action_ran a w w' threw : run_action a w = Ok (w', threw) -> sw_ran w' = sw_ran w.
Proof.
  destruct a as [cb when interval clock|id|]; simpl; [| |by intros [= <- _]].
  - destruct (negb _); [by intros [= <- _]|]. destruct (alloc _); [|by intros [= <- _]].
    intros E. by inv_res.
  - intros E. by inv_res.
Qed.

Lemma run_script_ran l w w' threw : run_script l w = Ok (w', threw) -> sw_ran w' = sw_ran w.
Proof.
  revert w. induction l as [|a l IH]; intros w; simpl; [by intros [= <- _]|].
  intros E. inv_res. destruct a0 as [w1 [|]]; apply run_action_ran in Hm; inv_res; simplify_eq/=.
  - done.
  - rewrite <- Hm. by apply IH.
Qed.

(** The callbacks of the given entries. *)
Definition callbacks (h : gmap Z (Timer nat)) (es : list (Z * Z)) : list nat :=
  omap (fun e => t ← h !! e.2; callback_ t) es.

Lemma run_expired_ran loose it (w : script_world) :
  queue_ok loose (queue w) -> in_range (queue w) -> it.2 ∈ loose ->
  exists w', run_expired it w = Ok w' /\ undisturbed loose (queue w) (queue w') /\
    sw_ran w' = sw_ran w ++ callbacks (heap (queue w)) [it].
Proof.
  intros Hok Hr Hp.
  destruct (run_expired_ok (fun p => p) loose it w Hok Hr Hp) as (w' & E & Hu).
  exists w'. split; [done|]. split; [done|]. unfold run_expired in E. inv_res.
  unfold deref in Hm. simpl in *. destruct (heap (sw_queue w) !! it.2) as [t|]; [|done].
  injection Hm as ->. simpl. destruct (callback_ a) as [cb|]; [|by injection E as ->; rewrite app_nil_r].
  inv_res. destruct a0 as [w1 threw]. apply run_script_ran in Hm. simpl in Hm.
  destruct threw; injection E as <-; simpl; done.
Qed.

Lemma run_all_ran loose expired (w : script_world) :
  queue_ok loose (queue w) -> in_range (queue w) -> (forall e, e ∈ expired -> e.2 ∈ loose) ->
  exists w', for_each run_expired expired w = Ok w' /\ undisturbed loose (queue w) (queue w') /\
    sw_ran w' = sw_ran w ++ callbacks (heap (queue w)) expired.
Proof.
  intros Hok Hr. revert w Hok Hr.
  induction expired as [|e es IH]; intros w Hok Hr Hin.
  { exists w. rewrite app_nil_r. split; [done|]. split; [by apply undisturbed_refl|done]. }
  destruct (run_expired_ran loose e w) as (w1 & E1 & Hu & Er); [done|done|apply Hin; set_solver|].
  destruct (IH w1) as (w2 & E2 & Hu2 & Er2);
    [apply (und_ok _ _ _ Hu)|apply (und_range _ _ _ Hu)|set_solver|].
  exists w2. cbn [for_each]. rewrite E1, bind_ret_l. split; [done|].
  split; [by eapply undisturbed_trans|]. rewrite Er2, Er, <- app_assoc. f_equal.
  unfold callbacks. change (e :: es) with ([e] ++ es). rewrite omap_app. f_equal.
  apply list_omap_ext, Forall_Forall2_diag, Forall_forall. intros x Hx.
  by rewrite (und_heap _ _ _ Hu) by set_solver.
Qed.

(** The entries due at [now], in the order of the queue. *)
Definition due (now : Timestamp) (es : list (Z * Z)) : list (Z * Z) :=
  filter (fun e => e.1 <= now) es.

Lemma due_split now (es rest : list (Z * Z)) :
  (forall e, e ∈ es -> e.1 <= now) -> (forall e, e ∈ rest -> now < e.1) ->
  due now (es ++ rest) = es.
Proof.
  intros H1 H2. unfold due. rewrite filter_app.
  rewrite (filter_keep _ es) by done.
  rewrite (filter_drop _ rest), app_nil_r; [done|].
  intros e He. specialize (H2 _ He). lia.
Qed.

Lemma handleRead_ran loose env (w w' : script_world) :
  queue_ok loose (queue w) -> in_range (queue w) -> env_ok env ->
  handleRead true env w = Ok w' ->
  sw_ran w' = sw_ran w ++ callbacks (heap (queue w)) (due (env_now env) (timers_ (queue w))).
Proof.
  intros Hok Hr (Hnow & _ & Hread & _) E. unfold handleRead in E. rewrite assert_true, bind_ret_l in E by done.
  unfold readTimerfd in E. rewrite Hread, Z.eqb_refl, bind_ret_l in E.
  assert (valid (env_now env) = true) as Hv by (apply Z.ltb_lt; lia).
  destruct (getExpired_ok _ _ _ Hok Hv) as (expired & q1 & E1 & Hts & Hexp & Hrest & Hok1 & Hh1 & _).
  rewrite E1, bind_ret_l in E. rewrite Hts, due_split by done.
  set (L := list_to_set expired.*2 ∪ loose) in *.
  destruct (run_all_ran L expired (set_queue (set_calling true ∅ q1) w)) as (w2 & E2 & _ & Er2).
  { apply queue_ok_calling. exact Hok1. }
  { apply (set_heap_range (queue w)); [exact Hh1|done]. }
  { intros e He. subst L. rewrite elem_of_union, elem_of_list_to_set. left.
    by apply list_elem_of_fmap_2. }
  rewrite E2, bind_ret_l in E. apply bind_Ok in E as (q3 & _ & [= <-]).
  simpl in *. by rewrite Er2, Hh1.
Qed.
End script.

(** ** Reachable states *)
Section reachable.
Context {CB W : Type} `{!TimerWorld CB W} (ef : Z -> Z) `{!TimerClient ef}.

(** The loop thread calls into the queue, or the timerfd becomes readable. *)
Inductive world_step : W -> W -> Prop :=
  | ws_api w w' : api_step ef (queue w) (queue w') -> world_step w w'
  | ws_fire w w' env :
      env_ok env -> restartable (env_now env) (queue w) ->
      handleRead true env w = Ok w' -> world_step w w'.

Lemma world_step_ok loose (w w' : W) :
  world_step w w' -> queue_ok loose (queue w) -> in_range (queue w) ->
  queue_ok loose (queue w') /\ in_range (queue w').
Proof.
  intros Hstep Hok Hr. destruct Hstep as [w w' Hapi|w w' env Henv Hrep E].
  - by destruct (api_step_undisturbed ef loose _ _ Hapi Hok Hr).
  - destruct (handleRead_settles ef loose env w Hok Hr Henv Hrep) as (w1 & E1 & Hok1 & Hr1 & _).
    rewrite E1 in E. by injection E as <-.
Qed.

Lemma world_steps_ok loose (w w' : W) :
  rtc world_step w w' -> queue_ok loose (queue w) -> in_range (queue w) ->
  queue_ok loose (queue w') /\ in_range (queue w').
Proof.
  induction 1 as [w|w1 w2 w3 H12 H23 IH]; intros Hok Hr; [done|].
  destruct (world_step_ok loose _ _ H12 Hok Hr). by apply IH.
Qed.
End reachable.

(** A computed check that every repeating timer can be restarted. *)
Definition restart_check {CB} (now : Timestamp) (q : TimerQueue CB) : bool :=
  forallb (fun '(_, t) => implb (repeat_ t)
             (match addTime now (interval_ t) with Ok e => sane e | Fault _ => false end))
    (map_to_list (heap q)).

Lemma restart_check_ok {CB} now (q : TimerQueue CB) :
  restart_check now q = true -> restartable now q.
Proof.
  unfold restart_check. rewrite forallb_forall. intros H p t Ht Hrep.
  apply elem_of_map_to_list, list_elem_of_In in Ht. specialize (H _ Ht). simpl in H.
  rewrite Hrep in H. simpl in H. destruct (addTime now (interval_ t)) as [e|]; [|done].
  exists e. split; [done|]. unfold sane in H. lia.
Qed.

Lemma script_steps body l (w w' : script_world) threw :
  run_script l w = Ok (w', threw) ->
  rtc (world_step (TimerWorld0 := script_timer_world body) (fun p => p)) w w'.
Proof.
  revert w. induction l as [|a l IH]; intros w; simpl; [by intros [= <- _]|].
  intros E. inv_res. destruct a0 as [w1 [|]]; inv_res; simplify_eq/=;
    apply run_action_api in Hm as [->|Hm]; auto using rtc_refl.
  - by apply rtc_once, ws_api.
  - eapply rtc_l; [by apply ws_api|by apply IH].
Qed.

(** ** Properties *)

(** C17: the queue is consistent and leaks nothing in every reachable state.  From
    an empty queue, after any sequence of additions, cancellations and
    [handleRead]s that return, with callbacks that add and cancel timers themselves
    ([TimerClient]), times within 2^62 microseconds and a [timerfd_settime] that succeeds;
    a cancellation of an armed timer returns when the freed node it reads still holds the
    pointer, and nothing is assumed of that.  Then
    [timers_] is strictly sorted by expiration and address, [activeTimers_]
    holds exactly the same timers under their sequence numbers, every entry
    points to a live timer that expires then, and every live timer is armed. *)
Theorem timer_queue_safe {CB W : Type} `{!TimerWorld CB W} (ef : Z -> Z) `{!TimerClient ef}
    (w w' : W) :
  queue w = TimerQueue_new -> rtc (world_step ef) w w' ->
  let q := queue w' in
  sorted entry_ltb (timers_ q) /\ sizes_agree q = true /\
  (forall e p, (e, p) ∈ timers_ q <-> exists t, heap q !! p = Some t /\ expiration_ t = e) /\
  (forall p s, (p, s) ∈ activeTimers_ q <-> exists t, heap q !! p = Some t /\ sequence_ t = s).
Proof.
  intros Hw Hsteps. cbv zeta.
  destruct (world_steps_ok ef ∅ _ _ Hsteps) as [Hok _].
  - rewrite Hw. apply TimerQueue_new_ok.
  - rewrite Hw. intros p t. simpl. by rewrite lookup_empty.
  - split; [apply (ok_sorted _ _ Hok)|]. split; [by apply (queue_ok_sizes ∅)|]. split.
    + intros e p. rewrite (queue_ok_timers _ _ _ _ Hok). set_solver.
    + intros p s. rewrite (queue_ok_active _ _ _ _ Hok). set_solver.
Qed.

(** A queue with a one-shot timer at 200 and a timer repeating every second. *)
Definition demo_body (cb : nat) : list action :=
  match cb with
  | 0%nat => [AAdd 7 5000 dzero 300]
  | 1%nat => [ACancel (mkTimerId 2 1)]
  | _ => []
  end.

Definition demo_actions : list action :=
  [AAdd 0 200 dzero 100; AAdd 1 250 (double_of_int 1) 100; AAdd 2 9000 dzero 100].

Definition demo_world : script_world :=
  match run_script demo_actions (mkScriptWorld TimerQueue_new 0 [] []) with
  | Ok (w, _) => w
  | Fault _ => mkScriptWorld TimerQueue_new 0 [] []
  end.

Definition demo_env : read_env := mkReadEnv 300 (8, 0) 300 None.

Definition demo_end : script_world :=
  match handleRead (TimerWorld0 := script_timer_world demo_body) true demo_env demo_world with
  | Ok w => w
  | Fault _ => demo_world
  end.

Lemma demo_restartable : restartable 300 (sw_queue demo_world).
Proof. apply restart_check_ok. vm_compute. reflexivity. Qed.

Lemma demo_env_ok : env_ok demo_env.
Proof. split_and!; done. Qed.

Lemma demo_fires :
  handleRead (TimerWorld0 := script_timer_world demo_body) true demo_env demo_world = Ok demo_end.
Proof. vm_compute. reflexivity. Qed.

Lemma demo_runs :
  run_script demo_actions (mkScriptWorld TimerQueue_new 0 [] []) = Ok (demo_world, false).
Proof. vm_compute. reflexivity. Qed.

Lemma timer_queue_safe_witness :
  sizes_agree (sw_queue demo_end) = true /\
  (exists t, heap (sw_queue demo_end) !! 4 = Some t /\ expiration_ t = 5000).
Proof.
  destruct (timer_queue_safe (TimerWorld0 := script_timer_world demo_body)
    (fun p => p) (TimerClient0 := script_client demo_body)
    (mkScriptWorld TimerQueue_new 0 [] []) demo_end) as (_ & H1 & H2 & _).
  - done.
  - eapply rtc_r; [exact (script_steps demo_body demo_actions _ demo_world false demo_runs)|].
    refine (ws_fire _ _ _ demo_env demo_env_ok _ demo_fires). exact demo_restartable.
  - split; [exact H1|]. apply H2. vm_compute. by constructor.
Defined.

(** C9: one wakeup of the queue.  When the clock and the system calls behave and
    the callbacks return, having thrown, added or cancelled timers as they like
    ([TimerClient]: times in range, a [timerfd_settime] that succeeds, and no cancellation
    that ends at the read of a freed node), [handleRead] returns; the queue is consistent again, the timerfd is set for the
    new first timer, and every timer that was due is restarted one interval
    after [now] if it repeats and was not cancelled meanwhile, and freed
    otherwise. *)
Theorem handleRead_correct {CB W : Type} `{!TimerWorld CB W} (ef : Z -> Z) `{!TimerClient ef}
    (env : read_env) (w : W) :
  queue_ok ∅ (queue w) -> in_range (queue w) -> env_ok env ->
  restartable (env_now env) (queue w) ->
  exists w', handleRead true env w = Ok w' /\ queue_ok ∅ (queue w') /\
    callingExpiredTimers_ (queue w') = false /\ armed_for_first (queue w') (env_clock env) /\
    forall p t, heap (queue w) !! p = Some t -> expiration_ t <= env_now env ->
      settled (env_now env) (cancelingTimers_ (queue w')) p t (heap (queue w') !! p).
Proof.
  intros Hok Hr Henv Hrep.
  destruct (handleRead_settles ef ∅ env w Hok Hr Henv Hrep)
    as (w' & E & Hok' & _ & Hc & Ha & Hs).
  exists w'. split_and!; try done. intros p t Ht Hdue. apply Hs; set_solver.
Qed.

(** The demonstration queue meets the hypotheses. *)
Lemma demo_ok : queue_ok ∅ (sw_queue demo_world) /\ in_range (sw_queue demo_world).
Proof.
  apply (world_steps_ok (TimerWorld0 := script_timer_world demo_body) (fun p => p)
    (TimerClient0 := script_client demo_body) ∅ _ _
    (script_steps demo_body demo_actions _ demo_world false demo_runs)).
  - apply TimerQueue_new_ok.
  - intros p t. simpl. by rewrite lookup_empty.
Qed.

Lemma handleRead_correct_witness :
  exists w', handleRead (TimerWorld0 := script_timer_world demo_body) true demo_env demo_world = Ok w' /\
    queue_ok ∅ (sw_queue w').
Proof.
  destruct (handleRead_correct (TimerWorld0 := script_timer_world demo_body) (fun p => p)
    (TimerClient0 := script_client demo_body) demo_env demo_world) as (w' & E & Hok & _).
  - exact (proj1 demo_ok).
  - exact (proj2 demo_ok).
  - exact demo_env_ok.
  - exact demo_restartable.
  - exists w'. split; [exact E|exact Hok].
Defined.

(** C18: exactly the due timers run.  [handleRead] runs the callbacks of the timers
    with [expiration <= now], each once, in the order of expiration and address,
    and no other: a timer that a callback of the batch cancels still runs, one
    that it adds does not.  The callbacks are scripts of additions and cancellations that
    return (the freed node a cancellation reads still holds its pointer). *)
Theorem handleRead_runs_due (body : nat -> list action) (env : read_env) (w : script_world) :
  queue_ok ∅ (sw_queue w) -> in_range (sw_queue w) -> env_ok env ->
  restartable (env_now env) (sw_queue w) ->
  exists w', handleRead (TimerWorld0 := script_timer_world body) true env w = Ok w' /\
    sw_ran w' = sw_ran w ++ callbacks (heap (sw_queue w)) (due (env_now env) (timers_ (sw_queue w))).
Proof.
  intros Hok Hr Henv Hrep.
  destruct (handleRead_settles (TimerWorld0 := script_timer_world body) (fun p => p)
    (TimerClient0 := script_client body) ∅ env w Hok Hr Henv Hrep) as (w' & E & _).
  exists w'. split; [done|]. by apply (handleRead_ran body ∅ env w w').
Qed.

Lemma handleRead_runs_due_witness :
  exists w', handleRead (TimerWorld0 := script_timer_world demo_body) true demo_env demo_world = Ok w' /\
    sw_ran w' = [0; 1]%nat.
Proof.
  destruct (handleRead_runs_due demo_body demo_env demo_world) as (w' & E & Hr).
  - exact (proj1 demo_ok).
  - exact (proj2 demo_ok).
  - exact demo_env_ok.
  - exact demo_restartable.
  - exists w'. split; [exact E|]. rewrite Hr. vm_compute. reflexivity.
Defined.

(** C29: what cancelling does, on every branch.  [cancelInLoop] of an armed timer erases it
    from both sets and then reads its address from the node it has just freed: if that
    memory still holds the address, it returns with the timer freed and every other timer as
    it was, and otherwise the run ends at that read; nothing is assumed about the memory.
    Any other id, one of a timer that is being run included, changes neither the timers nor
    the two sets, and is remembered exactly while expired callbacks are running. *)
Theorem cancel_exact {CB : Type} (ef : Z -> Z) (loose : gset Z) (q : TimerQueue CB) (id : TimerId) :
  queue_ok loose q -> timer_ id <> nullptr ->
  if decide ((timer_ id, id_sequence_ id) ∈ activeTimers_ q) then
    if decide (ef (timer_ id) = timer_ id) then
      exists q' t, cancelInLoop ef true id q = Ok q' /\ queue_ok loose q' /\
        heap q !! timer_ id = Some t /\ heap q' = delete (timer_ id) (heap q) /\
        timers_ q ≡ₚ (expiration_ t, timer_ id) :: timers_ q' /\ errors q' = errors q
    else cancelInLoop ef true id q = Fault FreedNode
  else
    exists q', cancelInLoop ef true id q = Ok q' /\ heap q' = heap q /\ timers_ q' = timers_ q /\
      activeTimers_ q' = activeTimers_ q /\
      cancelingTimers_ q' = (if callingExpiredTimers_ q
        then {[(timer_ id, id_sequence_ id)]} ∪ cancelingTimers_ q else cancelingTimers_ q).
Proof.
  intros Hok Hn. destruct (decide (_ ∈ activeTimers_ q)) as [Ha|Ha].
  - apply (queue_ok_active _ _ _ _ Hok) in Ha as (Hl & t & Ht & Hs). case_decide as Hef.
    + destruct (cancelInLoop_armed loose q ef id t Hok Ht Hs Hl Hef) as (ts & act & E & Hp & Hok').
      eexists _, t. by split_and!.
    + by eapply cancelInLoop_freed.
  - rewrite (cancelInLoop_other q ef id Hn Ha). eexists. split; [done|]. by destruct (callingExpiredTimers_ q).
Qed.

Lemma cancel_exact_witness :
  (exists q', cancelInLoop (fun p => p) true (mkTimerId 3 2) (sw_queue demo_world) = Ok q' /\ heap q' !! 3 = None) /\
  cancelInLoop (fun _ => 0) true (mkTimerId 3 2) (sw_queue demo_world) = Fault FreedNode.
Proof.
  pose proof (cancel_exact (fun p => p) ∅ (sw_queue demo_world) (mkTimerId 3 2) (proj1 demo_ok) ltac:(discriminate)) as H1.
  pose proof (cancel_exact (fun _ => 0) ∅ (sw_queue demo_world) (mkTimerId 3 2) (proj1 demo_ok) ltac:(discriminate)) as H2.
  rewrite decide_True in H1, H2 by (vm_compute; reflexivity). simpl decide in H1, H2.
  split; [|exact H2]. destruct H1 as (q' & t & E & _ & _ & Hh & _). exists q'. split; [exact E|]. rewrite Hh. apply lookup_delete_eq.
Defined.

(** A stale [TimerId] does nothing.  When the address of a cancelled timer
    has been reused by a newer one, the sequence number differs, and cancelling
    the old id leaves both sets and every timer alone. *)
Theorem stale_id_harmless {CB : Type} (ef : Z -> Z) (q : TimerQueue CB) (id : TimerId) :
  queue_ok ∅ q -> timer_ id <> nullptr -> callingExpiredTimers_ q = false ->
  (forall t, heap q !! timer_ id = Some t -> sequence_ t <> id_sequence_ id) ->
  cancelInLoop ef true id q = Ok q.
Proof.
  intros Hok Hn Hc Hseq. rewrite cancelInLoop_other; [by rewrite Hc|done|].
  intros Ha. apply (queue_ok_active _ _ _ _ Hok) in Ha as (_ & t & Ht & Hs). by apply (Hseq t).
Qed.

Lemma stale_id_harmless_witness :
  cancelInLoop (fun p => p) true (mkTimerId 3 0) (sw_queue demo_world) = Ok (sw_queue demo_world).
Proof.
  apply (stale_id_harmless (fun p => p) (sw_queue demo_world) (mkTimerId 3 0)).
  - exact (proj1 demo_ok).
  - discriminate.
  - reflexivity.
  - intros t Ht. vm_compute in Ht. injection Ht as <-. vm_compute. discriminate.
Defined.

(** The delay handed to the kernel.  [howMuchTimeFromNow] yields a legal
    [timespec] of exactly the remaining time, and of 100 microseconds when the
    timer is due sooner or already late. *)
Theorem howMuchTimeFromNow_exact (when now : Timestamp) :
  in_int64 (when - now) = true ->
  exists ts, howMuchTimeFromNow when now = Ok ts /\
    0 <= tv_sec ts /\ 0 <= tv_nsec ts < 1000000000 /\
    tv_sec ts * 1000000000 + tv_nsec ts = Z.max 100 (when - now) * 1000.
Proof. apply howMuchTimeFromNow_spec. Qed.

Lemma howMuchTimeFromNow_exact_witness :
  exists ts, howMuchTimeFromNow 2500000 1000000 = Ok ts /\ tv_sec ts = 1 /\ tv_nsec ts = 500000000.
Proof.
  destruct (howMuchTimeFromNow_exact 2500000 1000000) as (ts & E & H1 & H2 & H3); [reflexivity|].
  exists ts. split; [exact E|]. lia.
Defined.

Lemma destroy_loop {CB} (l : list (Z * Z)) (q : TimerQueue CB) :
  NoDup l.*2 -> (forall p, p ∈ l.*2 -> is_Some (heap q !! p) /\ p <> nullptr) ->
  exists q', for_each (fun it q => delete_timer q it.2) l q = Ok q' /\
    forall p, heap q' !! p = if decide (p ∈ l.*2) then None else heap q !! p.
Proof.
  revert q. induction l as [|[w p] l IH]; intros q Hnd Hl.
  { exists q. split; [done|]. intros p. by rewrite decide_False by set_solver. }
  apply NoDup_cons in Hnd as [Hp Hnd]. fold (@fmap list _ _ _ (@snd Z Z) l) in Hp, Hnd.
  destruct (Hl p) as [[t Ht] Hn]; [simpl; set_solver|]. cbn [for_each snd]. unfold delete_timer at 2.
  destruct (Z.eqb_spec p nullptr); [done|]. rewrite Ht. simpl.
  destruct (IH (set_heap (delete p (heap q)) q)) as (q' & E & Hq'); [done| |].
  { intros p' Hp'. simpl. rewrite lookup_delete_ne by (intros <-; done). apply Hl. simpl. set_solver. }
  exists q'. split; [done|]. intros p'. rewrite Hq'. simpl. rewrite lookup_delete.
  repeat case_decide; set_solver.
Qed.

(** The destructor of the queue frees every timer exactly once: it never
    reaches a freed timer, and none is left. *)
Theorem destroy_frees_all {CB} (q : TimerQueue CB) :
  queue_ok ∅ q -> exists q', TimerQueue_destroy q = Ok q' /\ heap q' = ∅.
Proof.
  intros Hok. destruct (destroy_loop (timers_ q) q) as (q' & E & Hq').
  - apply (ok_nodup _ _ Hok).
  - intros p Hp. assert (is_Some (heap q !! p)) as Hs by (apply (ok_dom _ _ Hok); auto).
    split; [done|]. pose proof (ok_addr _ _ Hok p Hs). unfold nullptr. lia.
  - exists q'. split; [done|]. apply map_empty. intros p. rewrite Hq'. case_decide as Hp; [done|].
    apply eq_None_not_Some. rewrite (ok_dom _ _ Hok). set_solver.
Qed.

Lemma destroy_frees_all_witness :
  exists q', TimerQueue_destroy (sw_queue demo_world) = Ok q' /\ heap q' = ∅.
Proof. exact (destroy_frees_all (sw_queue demo_world) (proj1 demo_ok)). Defined.

(** [cancelInLoop] reads freed memory.  For every armed timer there is a content of the
    memory that [activeTimers_.erase(it)] has freed with which [delete it->first] is not the
    deletion of the timer: the run ends there. *)
Theorem cancel_reads_freed_node {CB : Type} (q : TimerQueue CB) (id : TimerId) (t : Timer CB) :
  queue_ok ∅ q -> heap q !! timer_ id = Some t -> sequence_ t = id_sequence_ id ->
  exists ef, cancelInLoop ef true id q = Fault FreedNode.
Proof.
  intros Hok Ht Hs. exists (fun p => p + 1). eapply (cancelInLoop_freed ∅); [done..|set_solver|lia].
Qed.

Lemma cancel_reads_freed_node_witness :
  exists ef, cancelInLoop ef true (mkTimerId 3 2) (sw_queue demo_world) = Fault FreedNode.
Proof.
  destruct (heap (sw_queue demo_world) !! 3) as [t|] eqn:Et; [|vm_compute in Et; discriminate].
  apply (cancel_reads_freed_node (sw_queue demo_world) (mkTimerId 3 2) t); [exact (proj1 demo_ok)|exact Et|].
  vm_compute in Et. injection Et as <-. reflexivity.
Defined.

(** [reset] takes [insert]'s result, which says whether the earliest expiry
    changed, for success.  Restarting a repeating timer that does not become the
    earliest arms it correctly and yet logs that the reinsertion failed. *)
Theorem spurious_reinsert_error {CB : Type} (loose : gset Z) (q : TimerQueue CB) (now w p : Z)
    (t t' : Timer CB) :
  queue_ok loose q -> p ∈ loose -> heap q !! p = Some t -> repeat_ t = true ->
  ((p, sequence_ t) ∉ cancelingTimers_ q) -> restart t now = Ok t' ->
  (exists e, e ∈ timers_ q /\ e.1 <= expiration_ t') ->
  exists q', reset_one true now (w, p) q = Ok q' /\ queue_ok (loose ∖ {[p]}) q' /\
    (expiration_ t', p) ∈ timers_ q' /\ errors q' = errors q ++ [LReinsertFailed].
Proof.
  intros Hok Hp Ht Hrep Hc Hre (e & He & Hle). pose proof (ok_addr _ _ Hok p ltac:(eauto)).
  unfold reset_one. cbn [snd]. destruct (Z.eqb_spec p nullptr); [unfold nullptr in *; lia|].
  rewrite (deref_Some _ _ _ Ht). simpl. rewrite Hrep, bool_decide_eq_false_2 by done. simpl.
  rewrite Hre. simpl. pose proof (queue_ok_update _ _ _ t' _ Hok Hp Ht) as Hok1.
  destruct (insert_ok _ _ p t' Hok1 Hp) as (ts & act & -> & Hperm & Hok2); [apply lookup_insert_eq|].
  simpl. destruct (earliest t' _) eqn:Ee.
  { rewrite (earliest_spec loose) in Ee by done. specialize (Ee e He). lia. }
  eexists. split; [done|]. split; [by apply queue_ok_log|]. simpl. split; [|done].
  rewrite Hperm. by left.
Qed.

(** The demonstration queue after [getExpired(300)]: timers 1 and 2 are due. *)
Definition demo_expired : TimerQueue nat :=
  match getExpired 300 (sw_queue demo_world) with Ok (_, q) => q | Fault _ => TimerQueue_new end.

Lemma demo_expired_ok : queue_ok {[1; 2]} demo_expired.
Proof.
  destruct (getExpired_ok ∅ (sw_queue demo_world) 300 (proj1 demo_ok) eq_refl)
    as (expired & q & E & _ & _ & _ & Hok & _).
  assert (getExpired 300 (sw_queue demo_world) = Ok ([(200, 1); (250, 2)], demo_expired)) as E'
    by (vm_compute; reflexivity).
  rewrite E in E'. injection E' as -> ->. replace {[1; 2]} with (list_to_set [(200, 1); (250, 2)].*2 ∪ ∅ : gset Z);
    [done|]. apply leibniz_equiv. set_solver.
Qed.

Definition demo_repeating : Timer nat := mkTimer (Some 1%nat) 250 (double_of_int 1) true 1.

Lemma spurious_reinsert_error_witness :
  exists q', reset_one true 300 (250, 2) demo_expired = Ok q' /\
    (1000300, 2) ∈ timers_ q' /\ errors q' = errors demo_expired ++ [LReinsertFailed].
Proof.
  destruct (spurious_reinsert_error {[1; 2]} demo_expired 300 250 2 demo_repeating
    (with_expiration demo_repeating 1000300)) as (q' & E & _ & Hin & Herr).
  - exact demo_expired_ok.
  - set_solver.
  - vm_compute. reflexivity.
  - reflexivity.
  - apply (bool_decide_unpack _). vm_compute. exact I.
  - vm_compute. reflexivity.
  - exists (9000, 3). split; [vm_compute; by constructor|]. vm_compute. discriminate.
  - exists q'. split; [exact E|]. split; [exact Hin|exact Herr].
Defined.
