(* ===== verification/TimerSafe.v ===== *)
(** * TimerSafe: the timer queue without assumptions on times

    [TimerRun.v] shows what [TimerQueue::handleRead] achieves when all times are in range.
    This file shows what holds for any times and any callbacks: the operations of
    [src/base/TimerQueue.cpp] keep the invariant of the queue and end without a fault,
    except that a time may not fit its type; [handleRead] does so for any world whose
    callbacks do. *)
From S2P Require Import Prelude Timestamp StdSet TimerQueue.

(** An [errno] that does not end the program. *)
Definition harmless (e : Z) : bool := negb ((e =? EBADF) || (e =? EINVAL)).
Definition settime_ok (ret : option Z) : Prop := forall e, ret = Some e -> harmless e = true.

Section safe.
Context {CB : Type} (P : CB -> Prop).
Implicit Types (q : TimerQueue CB) (h : gmap Z (Timer CB)) (loose : gset Z).

(** Every callback a timer of the heap holds satisfies [P]. *)
Definition callbacks_ok h : Prop := forall p t cb, h !! p = Some t -> callback_ t = Some cb -> P cb.

Lemma callbacks_insert h p t :
  callbacks_ok h -> (forall cb, callback_ t = Some cb -> P cb) -> callbacks_ok (<[p := t]> h).
Proof. intros H Ht p' t' cb. rewrite lookup_insert. case_decide; [intros [= <-]; apply Ht|apply H]. Qed.

Lemma callbacks_delete h p : callbacks_ok h -> callbacks_ok (delete p h).
Proof. intros H p' t' cb. rewrite lookup_delete. case_decide; [done|apply H]. Qed.

Lemma int64_wp x (Q : Z -> Prop) : Q x -> wp (int64 x) Q.
Proof. intros H. unfold int64. by destruct (in_int64 x). Qed.

Lemma addTime_wp t s : wp (addTime t s) (fun _ => True).
Proof.
  unfold addTime. eapply (wp_bind _ _ (fun _ => True)); [|intros; by apply int64_wp].
  unfold double_to_int64. destruct (dmul _ _); simpl; try done. by destruct (in_int64 _).
Qed.

Lemma resetTimerfd_wp e now ret q :
  settime_ok ret ->
  wp (resetTimerfd e now ret q) (fun q' => heap q' = heap q /\ timers_ q' = timers_ q /\
    activeTimers_ q' = activeTimers_ q /\ callingExpiredTimers_ q' = callingExpiredTimers_ q).
Proof.
  intros Hr. unfold resetTimerfd. eapply (wp_bind _ _ (fun _ => True)).
  { unfold howMuchTimeFromNow. eapply wp_bind; [by apply (int64_wp _ (fun _ => True))|done]. }
  intros ts _. destruct ret as [err|]; [|done]. specialize (Hr err eq_refl).
  unfold harmless in Hr. by destruct ((err =? EBADF) || (err =? EINVAL)).
Qed.

Lemma addTimerInLoop_wp loose q p t now ret :
  queue_ok loose q -> p ∈ loose -> heap q !! p = Some t -> settime_ok ret ->
  wp (addTimerInLoop true p now ret q) (fun q' => queue_ok (loose ∖ {[p]}) q' /\ heap q' = heap q).
Proof.
  intros Hok Hp Ht Hr. unfold addTimerInLoop. simpl. pose proof (ok_addr _ _ Hok p ltac:(eauto)).
  destruct (Z.eqb_spec p nullptr); [unfold nullptr in *; lia|].
  destruct (insert_ok _ _ _ _ Hok Hp Ht) as (ts & act & -> & _ & Hok'). rewrite bind_ret_l.
  destruct (earliest t q); [|done]. unfold deref. simpl. rewrite Ht, bind_ret_l.
  eapply wp_mono; [by apply resetTimerfd_wp|]. intros q' (Hh & Hts & Ha & _). split; [|done].
  by apply (queue_ok_same _ _ _ Hok').
Qed.

(** [cancelInLoop] frees the timer if that is armed and changes no other; it returns unless
    the freed node reads as something else. *)
Lemma cancelInLoop_cases loose q (ef : Z -> Z) id :
  queue_ok loose q ->
  exists q', (cancelInLoop ef true id q = Ok q' \/
      (timer_ id, id_sequence_ id) ∈ activeTimers_ q /\ cancelInLoop ef true id q = Fault FreedNode) /\
    cancelInLoop (fun p => p) true id q = Ok q' /\ queue_ok loose q' /\
    heap q' = (if decide ((timer_ id, id_sequence_ id) ∈ activeTimers_ q)
               then delete (timer_ id) (heap q) else heap q).
Proof.
  intros Hok. destruct (decide (timer_ id = nullptr)) as [E0|E0].
  { exists (LOG_ERROR LCancelNull q). unfold cancelInLoop. rewrite E0. simpl. split; [by left|]. split; [done|].
    split; [by apply queue_ok_log|]. rewrite decide_False; [done|].
    intros (_ & t & Ht & _)%(queue_ok_active _ _ _ _ Hok).
    pose proof (ok_addr _ _ Hok _ ltac:(eauto)). unfold nullptr in *. lia. }
  case_decide as Ha.
  - apply (queue_ok_active _ _ _ _ Hok) in Ha as (Hl & t & Ht & Hs).
    destruct (cancelInLoop_armed loose q (fun p => p) id t) as (ts & act & E & _ & Hok'); try done.
    eexists. split; [|done]. destruct (decide (ef (timer_ id) = timer_ id)) as [He|He].
    + left. by rewrite cancelInLoop_reads.
    + right. split; [apply (queue_ok_active _ _ _ _ Hok); eauto|by eapply cancelInLoop_freed].
  - rewrite !(cancelInLoop_other q _ id E0 Ha). eexists. split; [by left|]. split; [done|].
    destruct (callingExpiredTimers_ q); [|done]. split; [by apply queue_ok_calling|done].
Qed.

Lemma reset_one_wp loose q now w p :
  queue_ok loose q -> callbacks_ok (heap q) -> p ∈ loose ->
  wp (reset_one true now (w, p) q) (fun q' => queue_ok (loose ∖ {[p]}) q' /\ callbacks_ok (heap q')).
Proof.
  intros Hok Hcb Hp. assert (is_Some (heap q !! p)) as [t Ht] by (apply (ok_dom _ _ Hok); auto).
  destruct (after_fire (cancelingTimers_ q) now p t) as [o|e] eqn:Ho.
  - destruct (reset_one_ok loose q now w p t o Hok Hp Ht Ho) as (q' & -> & Hok' & Hh & _).
    split; [done|]. rewrite Hh. destruct o as [t'|]; simpl; [|by apply callbacks_delete].
    apply callbacks_insert; [done|]. intros cb Hc. apply (Hcb p t cb Ht). rewrite <- Hc. symmetry.
    unfold after_fire in Ho. destruct (_ && _); inv_res; [|done]. unfold restart in Hm.
    destruct (repeat_ t); [destruct (negb _)|]; inv_res; done.
  - unfold reset_one. cbn [snd]. pose proof (ok_addr _ _ Hok p ltac:(eauto)).
    destruct (Z.eqb_spec p nullptr); [unfold nullptr in *; lia|].
    rewrite (deref_Some _ _ _ Ht), bind_ret_l. unfold after_fire in Ho. destruct (_ && _); [|done].
    assert (excused e = true) as He; [|by destruct (restart t now) as [t'|e']; [done|injection Ho as ->]].
    destruct (restart t now) as [t'|e'] eqn:Er; [done|]. injection Ho as ->. unfold restart in Er.
    destruct (repeat_ t); [|done]. destruct (negb _); [done|]. pose proof (addTime_wp now (interval_ t)) as Hw.
    destruct (addTime now (interval_ t)); [done|]. by injection Er as <-.
Qed.

Lemma reset_wp expired loose q now clk ret :
  NoDup expired.*2 -> (forall p, p ∈ expired.*2 -> p ∉ loose) ->
  queue_ok (list_to_set expired.*2 ∪ loose) q -> callbacks_ok (heap q) -> settime_ok ret ->
  (valid now = false -> expired = []) ->
  wp (reset true expired now clk ret q) (fun q' => queue_ok loose q' /\ callbacks_ok (heap q')).
Proof.
  intros Hnd Hdisj Hok Hcb Hr Hv. unfold reset. destruct (valid now); simpl.
  2:{ rewrite (Hv eq_refl) in Hok. simpl in Hok. rewrite (left_id_L ∅ (∪)) in Hok.
      split; [by apply queue_ok_log|done]. }
  eapply (wp_bind _ _ (fun q' => queue_ok loose q' /\ callbacks_ok (heap q'))).
  - clear Hv. revert q Hok Hcb. induction expired as [|[w p] l IH]; intros q Hok Hcb.
    { simpl in *. by rewrite (left_id_L ∅ (∪)) in Hok. }
    apply NoDup_cons in Hnd as [Hp Hnd]. fold (@fmap list _ _ _ (@snd Z Z) l) in Hp, Hnd. cbn [for_each].
    eapply wp_bind; [apply (reset_one_wp _ _ _ w p Hok Hcb); simpl; set_solver|].
    intros q1 [Hok1 Hcb1]. apply IH; [done|intros p' Hp'; apply Hdisj; simpl; set_solver| |done].
    replace (list_to_set l.*2 ∪ loose : gset Z) with ((list_to_set ((w, p) :: l).*2 ∪ loose) ∖ {[p]} : gset Z); [done|].
    simpl. rewrite <- (assoc_L (∪)). apply gset_pop. rewrite elem_of_union, elem_of_list_to_set.
    intros [|Hin]; [done|]. apply (Hdisj p); [simpl; set_solver|done].
  - intros q1 [Hok1 Hcb1]. eapply (wp_bind _ _ (fun _ => True)).
    + destruct (timers_ q1) as [|e l] eqn:Ets; [done|].
      destruct (ok_entry _ _ Hok1 e.1 e.2) as (t & Ht & _); [rewrite Ets; destruct e; set_solver|].
      by rewrite (deref_Some _ _ _ Ht).
    + intros ne _. destruct (valid ne); [|done].
      eapply wp_mono; [by apply resetTimerfd_wp|]. intros q' (Hh & Hts & Ha & _).
      rewrite Hh. split; [by apply (queue_ok_same _ _ _ Hok1)|done].
Qed.
End safe.

(** What [handleRead] draws from the system: a read that does not fail fatally. *)
Definition read_env_ok (env : read_env) : Prop :=
  ((env_read env).1 = 8 \/ harmless (env_read env).2 = true) /\ settime_ok (env_settime env).

Section firing.
Context {CB W : Type} `{!TimerWorld CB W} (P : CB -> Prop).
(** [J loose w]: the world is consistent, and the timers in [loose] are alive but not
    armed. *)
Context (J : gset Z -> W -> Prop).
Context (J_queue : forall loose w, J loose w -> queue_ok loose (queue w) /\ callbacks_ok P (heap (queue w))).
Context (J_set : forall loose loose' w q,
  J loose w -> queue_ok loose' q -> callbacks_ok P (heap q) -> J loose' (set_queue q w)).
Context (J_run : forall loose w cb, J loose w -> P cb -> wp (run_callback cb w) (fun x => J loose x.1)).

Lemma run_expired_wp loose it w : J loose w -> it.2 ∈ loose -> wp (run_expired it w) (J loose).
Proof.
  intros Hj Hp. destruct (J_queue _ _ Hj) as [Hok Hcb].
  assert (is_Some (heap (queue w) !! it.2)) as [t Ht] by (apply (ok_dom _ _ Hok); auto).
  unfold run_expired. rewrite (deref_Some _ _ _ Ht), bind_ret_l.
  destruct (callback_ t) as [cb|] eqn:Ec; [|done].
  eapply wp_bind; [apply (J_run _ _ _ Hj), (Hcb _ _ _ Ht Ec)|]. intros [w1 threw] Hj1. simpl in *.
  destruct threw; [|done]. destruct (J_queue _ _ Hj1). by apply (J_set loose); [|apply queue_ok_log|].
Qed.

(** Firing: any times, any callbacks that keep the world consistent. *)
Lemma handleRead_wp loose env w :
  J loose w -> read_env_ok env -> wp (handleRead true env w) (J loose).
Proof.
  intros Hj [Hread Hset]. destruct (J_queue _ _ Hj) as [Hok Hcb]. unfold handleRead. simpl.
  eapply (wp_bind _ _ (fun q => queue_ok loose q /\ callbacks_ok P (heap q))).
  { unfold readTimerfd. destruct (Z.eqb_spec (env_read env).1 8); [done|].
    destruct Hread as [|Hread]; [done|]. unfold harmless in Hread.
    destruct ((_ =? EBADF) || _); [done|]. split; [by apply queue_ok_log|done]. }
  intros q [Hok1 Hcb1].
  eapply (wp_bind _ _ (fun x => queue_ok (list_to_set x.1.*2 ∪ loose) x.2 /\ callbacks_ok P (heap x.2) /\
    NoDup x.1.*2 /\ (forall p, p ∈ x.1.*2 -> p ∉ loose) /\ (valid (env_now env) = false -> x.1 = []))).
  { apply wp_exists. destruct (valid (env_now env)) eqn:Hv.
    - destruct (getExpired_ok loose q _ Hok1 Hv) as (expired & q' & E & Hts & _ & _ & Hok' & Hh & _).
      exists (expired, q'). split; [done|]. simpl. rewrite Hh. split_and!; try done.
      + pose proof (ok_nodup _ _ Hok1) as Hnd. rewrite Hts, fmap_app, NoDup_app in Hnd. by destruct Hnd.
      + intros p Hp Hl. apply (ok_loose _ _ Hok1 p Hl). rewrite Hts, fmap_app. set_solver.
    - exists ([], LOG_ERROR LExpiredInvalidNow q). unfold getExpired. rewrite Hv. split; [done|]. simpl.
      rewrite (left_id_L ∅ (∪)). split_and!; try done; [by apply queue_ok_log|constructor|set_solver]. }
  intros [expired q1] (Hok2 & Hcb2 & Hnd & Hdisj & Hv). simpl in *.
  eapply (wp_bind _ _ (J (list_to_set expired.*2 ∪ loose))).
  { apply wp_for_each.
    - by apply (J_set loose); [|apply queue_ok_calling|].
    - intros it w1 Hit Hj1. apply run_expired_wp; [done|].
      apply elem_of_union_l, elem_of_list_to_set, list_elem_of_fmap. by exists it. }
  intros w1 Hj1. destruct (J_queue _ _ Hj1) as [Hok3 Hcb3].
  eapply wp_bind; [apply (reset_wp P expired loose); try done; by apply queue_ok_calling|].
  intros q2 [Hok4 Hcb4]. by apply (J_set (list_to_set expired.*2 ∪ loose)).
Qed.
End firing.
