(* ===== verification/Channel.v ===== *)
(** * Channel: the event source of one file descriptor

    Models [include/Channel.h] and [src/base/Channel.cpp]: the record of a
    channel, its event masks, and the dispatch of the events the poller reported.
    Callbacks are values of an abstract type [F] run by the enclosing world,
    because a callback may change or destroy any object, the channel included:
    the dispatch reads the channel again, through its address, before each test
    as [this->Revents] does.  The operations that go through the event loop
    ([update], [remove]) are in EpollPoller and EventLoop. *)
From S2P Require Import Prelude Timestamp.

(** ** Event masks ([sys/epoll.h]) *)
Definition EPOLLIN : Z := 1.
Definition EPOLLPRI : Z := 2.
Definition EPOLLOUT : Z := 4.
Definition EPOLLERR : Z := 8.
Definition EPOLLHUP : Z := 16.
Definition EPOLLRDHUP : Z := 8192.

Definition kNoneEvent : Z := 0.
Definition kReadEvent : Z := Z.lor EPOLLIN EPOLLPRI.
Definition kWriteEvent : Z := EPOLLOUT.

(** A mask used as a condition. *)
Definition has (events mask : Z) : bool := negb (Z.land events mask =? 0).

(** ** The object *)
Record Channel (F : Type) := mkChannel {
  Loop : Z;
  Fd : Z;
  Events : Z;
  Revents : Z;
  Index : Z;
  TieObj : Z;
  Tied : bool;
  ReadCallback : option F;
  WriteCallback : option F;
  CloseCallback : option F;
  ErrorCallback : option F
}.
Arguments mkChannel {F}.
Arguments Loop {F}. Arguments Fd {F}. Arguments Events {F}. Arguments Revents {F}.
Arguments Index {F}. Arguments TieObj {F}. Arguments Tied {F}. Arguments ReadCallback {F}.
Arguments WriteCallback {F}. Arguments CloseCallback {F}. Arguments ErrorCallback {F}.

Section channel.
Context {F : Type}.
Implicit Types c : Channel F.

Definition Channel_new (loop fd : Z) : Channel F :=
  mkChannel loop fd kNoneEvent kNoneEvent (-1) nullptr false None None None None.

Definition with_events c (e : Z) : Channel F :=
  mkChannel (Loop c) (Fd c) e (Revents c) (Index c) (TieObj c) (Tied c)
    (ReadCallback c) (WriteCallback c) (CloseCallback c) (ErrorCallback c).
Definition setRevents c (r : Z) : Channel F :=
  mkChannel (Loop c) (Fd c) (Events c) r (Index c) (TieObj c) (Tied c)
    (ReadCallback c) (WriteCallback c) (CloseCallback c) (ErrorCallback c).
Definition setIndex c (i : Z) : Channel F :=
  mkChannel (Loop c) (Fd c) (Events c) (Revents c) i (TieObj c) (Tied c)
    (ReadCallback c) (WriteCallback c) (CloseCallback c) (ErrorCallback c).
Definition tie c (obj : Z) : Channel F :=
  mkChannel (Loop c) (Fd c) (Events c) (Revents c) (Index c) obj true
    (ReadCallback c) (WriteCallback c) (CloseCallback c) (ErrorCallback c).
Definition setReadCallback c (f : option F) : Channel F :=
  mkChannel (Loop c) (Fd c) (Events c) (Revents c) (Index c) (TieObj c) (Tied c)
    f (WriteCallback c) (CloseCallback c) (ErrorCallback c).
Definition setWriteCallback c (f : option F) : Channel F :=
  mkChannel (Loop c) (Fd c) (Events c) (Revents c) (Index c) (TieObj c) (Tied c)
    (ReadCallback c) f (CloseCallback c) (ErrorCallback c).
Definition setCloseCallback c (f : option F) : Channel F :=
  mkChannel (Loop c) (Fd c) (Events c) (Revents c) (Index c) (TieObj c) (Tied c)
    (ReadCallback c) (WriteCallback c) f (ErrorCallback c).
Definition setErrorCallback c (f : option F) : Channel F :=
  mkChannel (Loop c) (Fd c) (Events c) (Revents c) (Index c) (TieObj c) (Tied c)
    (ReadCallback c) (WriteCallback c) (CloseCallback c) f.

Definition isNoneEvent c : bool := Events c =? kNoneEvent.
Definition isWriting c : bool := has (Events c) kWriteEvent.
Definition isReading c : bool := has (Events c) kReadEvent.

(** What [enableReading] and its siblings do to [Events] before [update()]. *)
Inductive mask_op := EnableReading | DisableReading | EnableWriting | DisableWriting | DisableAll.

Definition mask (o : mask_op) (e : Z) : Z :=
  match o with
  | EnableReading => Z.lor e kReadEvent
  | DisableReading => Z.land e (Z.lnot kReadEvent)
  | EnableWriting => Z.lor e kWriteEvent
  | DisableWriting => Z.land e (Z.lnot kWriteEvent)
  | DisableAll => kNoneEvent
  end.
End channel.

(** *** The write bit of a mask *)
Lemma has_write e : has e kWriteEvent = Z.testbit e 2.
Proof.
  unfold has, kWriteEvent, EPOLLOUT.
  destruct (Z.testbit e 2) eqn:Eb.
  - destruct (Z.eqb_spec (Z.land e 4) 0) as [H|]; [|done].
    assert (Z.testbit (Z.land e 4) 2 = true) as Ht by (rewrite Z.land_spec, Eb; done).
    by rewrite H in Ht.
  - assert (Z.land e 4 = 0) as ->; [|done]. apply Z.bits_inj'. intros n Hn.
    rewrite Z.land_spec, Z.bits_0. destruct (decide (n = 2)) as [->|Hne]; [by rewrite Eb|].
    change 4 with (2 ^ 2). rewrite Z.pow2_bits_false by lia. apply andb_false_r.
Qed.

Lemma writing_enabled e : has (mask EnableWriting e) kWriteEvent = true.
Proof. rewrite has_write. unfold mask. rewrite Z.lor_spec. apply orb_true_r. Qed.

Lemma writing_disabled e : has (mask DisableWriting e) kWriteEvent = false.
Proof. rewrite has_write. unfold mask. rewrite Z.land_spec. apply andb_false_r. Qed.

Lemma writing_reading e : has (mask EnableReading e) kWriteEvent = has e kWriteEvent.
Proof. rewrite !has_write. unfold mask. rewrite Z.lor_spec. apply orb_false_r. Qed.

(** *** The read bits *)
Lemma reading_enabled e : has (mask EnableReading e) kReadEvent = true.
Proof.
  unfold has, mask. destruct (Z.eqb_spec (Z.land (Z.lor e kReadEvent) kReadEvent) 0) as [H|]; [|done].
  rewrite Z.land_lor_distr_l in H. by apply Z.lor_eq_0_iff in H as [_ H].
Qed.

Lemma reading_writing o e :
  o = EnableWriting \/ o = DisableWriting -> has (mask o e) kReadEvent = has e kReadEvent.
Proof.
  intros [-> | ->]; unfold has, mask.
  - rewrite Z.land_lor_distr_l. by rewrite Z.lor_0_r.
  - by rewrite <- Z.land_assoc.
Qed.

Lemma reading_some e : has e kReadEvent = true -> (e =? kNoneEvent) = false.
Proof. destruct (Z.eqb_spec e kNoneEvent) as [->|]; done. Qed.

#[global] Instance mask_op_eq_dec : EqDecision mask_op.
Proof. solve_decision. Defined.

(** ** Dispatch

    [run] calls a callback, with the receive time when it is a read callback, and
    tells whether it threw; [lock] is [weak_ptr::lock], [unlock] the end of the
    guard's scope. *)
Class ChannelWorld (F W : Type) := {
  chans : W -> gmap Z (Channel F);
  run : F -> option Timestamp -> W -> res (W * bool);
  lock : Z -> W -> option W;
  unlock : Z -> W -> res W
}.

Section dispatch.
Context {F W : Type} `{!ChannelWorld F W}.
Implicit Types (w : W) (p : Z).

Definition this w p : res (Channel F) :=
  match chans w !! p with Some c => Ok c | None => Fault DanglingPointer end.

(** Calling a [std::function] if it is set; what it throws leaves [loop()]. *)
Definition call (f : option F) (t : option Timestamp) w : res W :=
  match f with
  | None => Ok w
  | Some f => '(w, threw) ← run f t w; if threw : bool then Fault UncaughtException else Ok w
  end.

Definition handleEventWithGuard p (receiveTime : Timestamp) w : res W :=
  c ← this w p;
  w ← (if has (Revents c) EPOLLHUP && negb (has (Revents c) EPOLLIN)
       then call (CloseCallback c) None w else Ok w);
  c ← this w p;
  w ← (if has (Revents c) EPOLLERR then call (ErrorCallback c) None w else Ok w);
  c ← this w p;
  w ← (if has (Revents c) (Z.lor (Z.lor EPOLLIN EPOLLPRI) EPOLLRDHUP)
       then call (ReadCallback c) (Some receiveTime) w else Ok w);
  c ← this w p;
  if has (Revents c) EPOLLOUT then call (WriteCallback c) None w else Ok w.

Definition handleEvent p (receiveTime : Timestamp) w : res W :=
  c ← this w p;
  if Tied c then
    match lock (TieObj c) w with
    | Some w => w ← handleEventWithGuard p receiveTime w; unlock (TieObj c) w
    | None => Ok w
    end
  else handleEventWithGuard p receiveTime w.

(** *** Which callbacks run *)
Definition when (b : bool) (f : option F) (t : option Timestamp) : list (F * option Timestamp) :=
  if b then match f with Some f => [(f, t)] | None => [] end else [].

(** The callbacks for a set of reported events: close, error, read, write. *)
Definition dispatch (c : Channel F) (t : Timestamp) : list (F * option Timestamp) :=
  when (has (Revents c) EPOLLHUP && negb (has (Revents c) EPOLLIN)) (CloseCallback c) None ++
  when (has (Revents c) EPOLLERR) (ErrorCallback c) None ++
  when (has (Revents c) (Z.lor (Z.lor EPOLLIN EPOLLPRI) EPOLLRDHUP)) (ReadCallback c) (Some t) ++
  when (has (Revents c) EPOLLOUT) (WriteCallback c) None.

Definition run_call (x : F * option Timestamp) w : res W := call (Some x.1) x.2 w.

Lemma when_call (b : bool) (f : option F) t w :
  (if b then call f t w else Ok w) = for_each run_call (when b f t) w.
Proof.
  destruct b, f as [f|]; simpl; try done. unfold run_call. simpl.
  destruct (run f t w) as [[w' [|]]|]; done.
Qed.

(** What the dispatch reads of the channel.  A callback may change the rest: the mask and
    the index change when it calls [disableAll] or [enableWriting]. *)
Definition calls_of (c : Channel F) : Z * option F * option F * option F * option F :=
  (Revents c, ReadCallback c, WriteCallback c, CloseCallback c, ErrorCallback c).

(** As long as the channel is there after each callback, with the reported events and the
    callbacks it had, the dispatch runs exactly those of [dispatch], in order. *)
Definition survives p (c : Channel F) (l : list (F * option Timestamp)) w : Prop :=
  forall l1 w1, l1 `prefix_of` l -> for_each run_call l1 w = Ok w1 ->
    exists c1, chans w1 !! p = Some c1 /\ calls_of c1 = calls_of c.

Lemma survives_this p c l w : survives p c l w -> exists c1, this w p = Ok c1 /\ calls_of c1 = calls_of c.
Proof. intros H. unfold this. destruct (H [] w (prefix_nil l) eq_refl) as (c1 & -> & E). by exists c1. Qed.

Lemma survives_app p c l1 l2 w w1 :
  survives p c (l1 ++ l2) w -> for_each run_call l1 w = Ok w1 -> survives p c l2 w1.
Proof.
  intros H E l w2 Hl E2. apply (H (l1 ++ l)); [by apply prefix_app|].
  by rewrite for_each_app, E, bind_ret_l.
Qed.

Lemma guard_dispatch p c t w :
  survives p c (dispatch c t) w ->
  handleEventWithGuard p t w = for_each run_call (dispatch c t) w.
Proof.
  intros Hs. unfold handleEventWithGuard. destruct (survives_this _ _ _ _ Hs) as (c1 & -> & [= E1 E2 E3 E4 E5]).
  rewrite bind_ret_l, E1, E4. unfold dispatch in *. rewrite when_call, for_each_app.
  destruct (for_each run_call _ w) as [w1|] eqn:F1; [|done]. rewrite !bind_ret_l.
  pose proof (survives_app _ _ _ _ _ _ Hs F1) as H1. clear dependent c1.
  destruct (survives_this _ _ _ _ H1) as (c1 & -> & [= E1 E2 E3 E4 E5]).
  rewrite bind_ret_l, E1, E5, when_call, for_each_app.
  destruct (for_each run_call _ w1) as [w2|] eqn:F2; [|done]. rewrite !bind_ret_l.
  pose proof (survives_app _ _ _ _ _ _ H1 F2) as H2. clear dependent c1.
  destruct (survives_this _ _ _ _ H2) as (c1 & -> & [= E1 E2 E3 E4 E5]).
  rewrite bind_ret_l, E1, E2, when_call, for_each_app.
  destruct (for_each run_call _ w2) as [w3|] eqn:F3; [|done]. rewrite !bind_ret_l.
  pose proof (survives_app _ _ _ _ _ _ H2 F3) as H3. clear dependent c1.
  destruct (survives_this _ _ _ _ H3) as (c1 & -> & [= E1 E2 E3 E4 E5]).
  rewrite bind_ret_l, E1, E3. apply when_call.
Qed.
End dispatch.

(** ** A world with shared ownership

    Objects with strong reference counts, each owning one channel that is
    destroyed with it.  A callback is a list of objects of which it releases one
    reference each. *)
Record shared_world := mkSharedWorld {
  sh_chans : gmap Z (Channel (list Z));
  sh_refs : gmap Z nat;
  sh_owned : gmap Z Z;
  sh_ran : list (list Z)
}.

(** Releasing a reference; the last one destroys the object and its channel. *)
Definition release (obj : Z) (w : shared_world) : res shared_world :=
  match sh_refs w !! obj with
  | None | Some 0%nat => Fault DanglingPointer
  | Some 1%nat =>
      Ok (mkSharedWorld
            (match sh_owned w !! obj with Some p => delete p (sh_chans w) | None => sh_chans w end)
            (delete obj (sh_refs w)) (sh_owned w) (sh_ran w))
  | Some (S n) => Ok (mkSharedWorld (sh_chans w) (<[obj := n]> (sh_refs w)) (sh_owned w) (sh_ran w))
  end.

Definition acquire (obj : Z) (w : shared_world) : option shared_world :=
  match sh_refs w !! obj with
  | None | Some 0%nat => None
  | Some n => Some (mkSharedWorld (sh_chans w) (<[obj := S n]> (sh_refs w)) (sh_owned w) (sh_ran w))
  end.

#[global] Instance shared_channel_world : ChannelWorld (list Z) shared_world := {
  chans := sh_chans;
  run f _ w :=
    w ← for_each release f w;
    Ok (mkSharedWorld (sh_chans w) (sh_refs w) (sh_owned w) (sh_ran w ++ [f]), false);
  lock := acquire;
  unlock := release
}.

(** How many references the callbacks of [l] release. *)
Definition releases (l : list (list Z)) : nat := length (concat l).

Lemma releases_cons f l : releases (f :: l) = (length f + releases l)%nat.
Proof. unfold releases. simpl. apply length_app. Qed.

Lemma releases_app l1 l2 : releases (l1 ++ l2) = (releases l1 + releases l2)%nat.
Proof. induction l1 as [|f l IH]; [done|]. simpl. rewrite !releases_cons, IH. lia. Qed.

Lemma release_many obj k (f : list Z) w :
  Forall (eq obj) f -> sh_refs w !! obj = Some (S k + length f)%nat ->
  exists w', for_each release f w = Ok w' /\ sh_refs w' !! obj = Some (S k) /\
    sh_chans w' = sh_chans w /\ sh_owned w' = sh_owned w /\ sh_ran w' = sh_ran w.
Proof.
  revert w. induction f as [|x f IH]; intros w Hf Hn; simpl.
  { exists w. rewrite Hn. split_and!; try done. f_equal. simpl. lia. }
  apply Forall_cons in Hf as [<- Hf]. unfold release at 2. rewrite Hn. simpl.
  rewrite Nat.add_succ_r. simpl.
  destruct (IH (mkSharedWorld (sh_chans w) (<[obj := S (k + length f)]> (sh_refs w))
    (sh_owned w) (sh_ran w)) Hf) as (w' & -> & H1 & H2 & H3 & H4).
  - simpl. by rewrite lookup_insert_eq.
  - exists w'. done.
Qed.

Lemma run_calls_guarded obj k (l : list (list Z * option Timestamp)) w :
  Forall (fun x => Forall (eq obj) x.1) l ->
  sh_refs w !! obj = Some (S k + releases l.*1)%nat ->
  exists w', for_each run_call l w = Ok w' /\ sh_refs w' !! obj = Some (S k) /\
    sh_chans w' = sh_chans w /\ sh_owned w' = sh_owned w /\ sh_ran w' = sh_ran w ++ l.*1.
Proof.
  revert w. induction l as [|[f t] l IH]; intros w Hl Hn.
  { exists w. rewrite Hn. simpl. rewrite app_nil_r. split_and!; try done. unfold releases. simpl. f_equal. lia. }
  apply Forall_cons in Hl as [Hf Hl].
  rewrite fmap_cons, releases_cons in Hn. simpl fst in *.
  destruct (release_many obj (k + releases l.*1) f w Hf) as (w1 & E1 & H1 & H2 & H3 & H4).
  { rewrite Hn. f_equal. lia. }
  assert (run_call (f, t) w = Ok (mkSharedWorld (sh_chans w1) (sh_refs w1) (sh_owned w1) (sh_ran w1 ++ [f])))
    as E2 by (unfold run_call; simpl; by rewrite E1).
  cbn [for_each]. rewrite E2, bind_ret_l.
  destruct (IH (mkSharedWorld (sh_chans w1) (sh_refs w1) (sh_owned w1) (sh_ran w1 ++ [f])) Hl)
    as (w2 & -> & G1 & G2 & G3 & G4); [by simpl|].
  exists w2. simpl in *. rewrite G4, G2, G3, H2, H3, H4, <- app_assoc. done.
Qed.

(** ** Properties *)

(** C23: the dispatch of reported events.  If after each callback the channel still
    exists, with the events that were reported and the callbacks that were set when the
    dispatch began (its mask, index and tie may change), then [handleEvent] runs exactly
    these callbacks, in this order: close on a hang-up without input, error, read on input,
    priority data or peer shutdown, write; and none of them when the object the channel is
    tied to is gone.  ([Reactor.v] shows that the handlers of a connection leave its channel
    in this way.) *)
Theorem handleEvent_dispatch {F W : Type} `{!ChannelWorld F W} (p : Z) (c : Channel F)
    (t : Timestamp) (w : W) :
  chans w !! p = Some c ->
  (forall w1, (if Tied c then lock (TieObj c) w else Some w) = Some w1 ->
     survives p c (dispatch c t) w1) ->
  handleEvent p t w
  = match (if Tied c then lock (TieObj c) w else Some w) with
    | None => Ok w
    | Some w1 =>
        w2 ← for_each run_call (dispatch c t) w1;
        if Tied c then unlock (TieObj c) w2 else Ok w2
    end.
Proof.
  intros Hc Hs. unfold handleEvent, this. rewrite Hc, bind_ret_l. destruct (Tied c).
  - destruct (lock (TieObj c) w) as [w1|]; [|done]. rewrite (guard_dispatch p c t); auto.
  - rewrite (guard_dispatch p c t) by auto. by destruct (for_each _ _ _).
Qed.

(** A channel tied to object 7, with input, output and a hang-up reported. *)
Definition demo_channel : Channel (list Z) :=
  mkChannel 0 5 7 (Z.lor EPOLLIN (Z.lor EPOLLOUT EPOLLHUP)) 1 7 true
    (Some [7]) (Some [7]) (Some []) None.

Lemma handleEvent_dispatch_witness :
  handleEvent 1 100 (mkSharedWorld {[1 := demo_channel]} {[7 := 9%nat]} {[7 := 2]} [])
  = Ok (mkSharedWorld {[1 := demo_channel]} {[7 := 7%nat]} {[7 := 2]} [[7]; [7]]).
Proof.
  rewrite (handleEvent_dispatch 1 demo_channel 100); [vm_compute; reflexivity|reflexivity|].
  intros w1 E. vm_compute in E. injection E as <-. intros l1 w2 [l2 Hl] E.
  destruct l1 as [|x [|y [|]]]; vm_compute in Hl; simplify_eq Hl; intros; subst;
    vm_compute in E; injection E as <-; exists demo_channel; split; reflexivity.
Defined.

(** C31: a tied channel outlives its own events.  The callbacks may release the
    last references to the object that owns the channel; the guard keeps object
    and channel alive until every callback of the dispatch has run, and the
    object goes, with its channel, when the guard does. *)
Theorem tie_protects (w : shared_world) (p : Z) (c : Channel (list Z)) (t : Timestamp) :
  sh_chans w !! p = Some c -> Tied c = true -> sh_owned w !! TieObj c = Some p ->
  Forall (fun x => Forall (eq (TieObj c)) x.1) (dispatch c t) ->
  sh_refs w !! TieObj c = Some (releases (dispatch c t).*1) ->
  (0 < releases (dispatch c t).*1)%nat ->
  exists w', handleEvent p t w = Ok w' /\ sh_ran w' = sh_ran w ++ (dispatch c t).*1 /\
    sh_refs w' !! TieObj c = None /\ sh_chans w' = delete p (sh_chans w).
Proof.
  intros Hc Ht Ho Hobj Hn Hpos. unfold handleEvent, this. simpl. rewrite Hc. simpl.
  rewrite Ht. unfold acquire. rewrite Hn.
  destruct (releases (dispatch c t).*1) as [|n] eqn:En; [lia|].
  set (w1 := mkSharedWorld _ _ _ _).
  assert (sh_refs w1 !! TieObj c = Some (S (releases (dispatch c t).*1))) as Hn1
    by (simpl; rewrite lookup_insert_eq; congruence).
  destruct (run_calls_guarded (TieObj c) 0 (dispatch c t) w1 Hobj Hn1) as (w2 & E2 & G1 & G2 & G3 & G4).
  rewrite (guard_dispatch p c t w1).
  - rewrite E2. simpl. unfold release. rewrite G1, G3. simpl. rewrite Ho.
    eexists. split; [done|]. simpl. rewrite lookup_delete_eq, G2, G4. done.
  - intros l1 w3 [l2 Hl] E3. rewrite Hl in Hobj, Hn1. apply Forall_app in Hobj as [Hobj _].
    rewrite fmap_app, releases_app in Hn1.
    destruct (run_calls_guarded (TieObj c) (releases l2.*1) l1 w1 Hobj) as (w4 & E4 & _ & G & _).
    { rewrite Hn1. f_equal. lia. }
    rewrite E3 in E4. injection E4 as <-. exists c. simpl. by rewrite G.
Qed.

Lemma tie_protects_witness :
  exists w', handleEvent 1 100 (mkSharedWorld {[1 := demo_channel]} {[7 := 2%nat]} {[7 := 1]} []) = Ok w' /\
    sh_ran w' = [[7]; [7]] /\ sh_chans w' = ∅.
Proof.
  destruct (tie_protects (mkSharedWorld {[1 := demo_channel]} {[7 := 2%nat]} {[7 := 1]} [])
    1 demo_channel 100) as (w' & E & Hr & _ & Hc).
  - reflexivity.
  - reflexivity.
  - reflexivity.
  - vm_compute. repeat constructor.
  - reflexivity.
  - vm_compute. lia.
  - exists w'. split; [exact E|]. split; [exact Hr|]. rewrite Hc. reflexivity.
Defined.
