(* ===== verification/EpollPoller.v ===== *)
(** * EpollPoller: the channels and the kernel's interest list

    Models [include/Poller.h], [src/base/Poller.cpp], [include/EpollPoller.h],
    [src/base/EpollPoller.cpp] and the halves of [Channel]'s [enableReading],
    ..., [remove] that run in the loop thread.  The kernel's epoll instance is
    not part of the program: it is a parameter with the laws of epoll_ctl(2)
    (class [Epoll]), and an instance shows that the laws can hold.  What
    [epoll_wait] returns is an input. *)
From S2P Require Import Prelude Timestamp Channel.

(** ** The epoll instance *)
Record epoll_event := mkEpollEvent { ev_events : Z; ev_ptr : Z }.

#[global] Instance epoll_event_eq_dec : EqDecision epoll_event.
Proof. solve_decision. Defined.

Inductive ctl := EPOLL_CTL_ADD | EPOLL_CTL_MOD | EPOLL_CTL_DEL.

(** [interest k] is the interest list; [accepts k fd] says that nothing but the
    list itself keeps [fd] from being added (the descriptor is open and supports
    epoll, and no limit is reached).  Adding a listed descriptor fails (EEXIST),
    so does changing or removing an unlisted one (ENOENT), and a call that fails
    changes nothing. *)
Class Epoll (K : Type) := {
  epoll_create1 : K;
  interest : K -> gmap Z epoll_event;
  accepts : K -> Z -> bool;
  epoll_ctl : ctl -> Z -> epoll_event -> K -> Z * K;
  create_empty : interest epoll_create1 = ∅;
  ctl_add k fd ev :
    interest k !! fd = None -> accepts k fd = true ->
    (epoll_ctl EPOLL_CTL_ADD fd ev k).1 = 0 /\
    interest (epoll_ctl EPOLL_CTL_ADD fd ev k).2 = <[fd := ev]> (interest k);
  ctl_mod k fd ev :
    is_Some (interest k !! fd) ->
    (epoll_ctl EPOLL_CTL_MOD fd ev k).1 = 0 /\
    interest (epoll_ctl EPOLL_CTL_MOD fd ev k).2 = <[fd := ev]> (interest k);
  ctl_del k fd ev :
    is_Some (interest k !! fd) ->
    (epoll_ctl EPOLL_CTL_DEL fd ev k).1 = 0 /\
    interest (epoll_ctl EPOLL_CTL_DEL fd ev k).2 = delete fd (interest k);
  ctl_fail op k fd ev :
    match op with
    | EPOLL_CTL_ADD => is_Some (interest k !! fd) \/ accepts k fd = false
    | _ => interest k !! fd = None
    end ->
    (epoll_ctl op fd ev k).1 = -1 /\ interest (epoll_ctl op fd ev k).2 = interest k
}.

(** A kernel that refuses a given set of descriptors. *)
Record simple_epoll := mkSimpleEpoll { se_list : gmap Z epoll_event; se_refused : gset Z }.

Definition simple_ctl (op : ctl) (fd : Z) (ev : epoll_event) (k : simple_epoll) : Z * simple_epoll :=
  match op, se_list k !! fd with
  | EPOLL_CTL_ADD, None =>
      if decide (fd ∈ se_refused k) then (-1, k)
      else (0, mkSimpleEpoll (<[fd := ev]> (se_list k)) (se_refused k))
  | EPOLL_CTL_MOD, Some _ => (0, mkSimpleEpoll (<[fd := ev]> (se_list k)) (se_refused k))
  | EPOLL_CTL_DEL, Some _ => (0, mkSimpleEpoll (delete fd (se_list k)) (se_refused k))
  | _, _ => (-1, k)
  end.

#[global, program] Instance simple_epoll_laws : Epoll simple_epoll := {
  epoll_create1 := mkSimpleEpoll ∅ ∅;
  interest := se_list;
  accepts k fd := bool_decide (fd ∉ se_refused k);
  epoll_ctl := simple_ctl
}.
Next Obligation. done. Qed.
Next Obligation.
  intros k fd ev Hn Ha%bool_decide_eq_true. unfold simple_ctl. by rewrite Hn, decide_False by done.
Qed.
Next Obligation. intros k fd ev [ev0 H]. unfold simple_ctl. by rewrite H. Qed.
Next Obligation. intros k fd ev [ev0 H]. unfold simple_ctl. by rewrite H. Qed.
Next Obligation.
  intros op k fd ev H. unfold simple_ctl. destruct op; [|by rewrite H..].
  destruct H as [[ev0 ->]|H%bool_decide_eq_false]; [done|].
  destruct (se_list k !! fd); [done|]. rewrite decide_True; [done|]. by apply dec_stable.
Qed.

(** ** The poller

    The state: the channel objects, [channels_] and the epoll instance.  [log]
    counts the [LOG_ERROR] lines of [poll]. *)
Definition kNew : Z := -1.
Definition kAdded : Z := 1.
Definition kDeleted : Z := 2.
Definition kInitEventListSize : Z := 16.

Record EpollPoller (F K : Type) := mkEpollPoller {
  objects : gmap Z (Channel F);
  channels_ : gmap Z Z;
  epollFd_ : K;
  poll_errors : Z
}.
Arguments mkEpollPoller {F K}.
Arguments objects {F K}. Arguments channels_ {F K}.
Arguments epollFd_ {F K}. Arguments poll_errors {F K}.

Section poller.
Context {F K : Type} `{!Epoll K}.
Implicit Types (s : EpollPoller F K) (p : Z) (c : Channel F).

Definition EpollPoller_new : EpollPoller F K := mkEpollPoller ∅ ∅ epoll_create1 0.

Definition set_objects h s : EpollPoller F K :=
  mkEpollPoller h (channels_ s) (epollFd_ s) (poll_errors s).
Definition set_channels m s : EpollPoller F K :=
  mkEpollPoller (objects s) m (epollFd_ s) (poll_errors s).
Definition set_epoll k s : EpollPoller F K :=
  mkEpollPoller (objects s) (channels_ s) k (poll_errors s).

Definition channel s p : res (Channel F) :=
  match objects s !! p with Some c => Ok c | None => Fault DanglingPointer end.

(** An assignment to members of the channel at [p]. *)
Definition modify p (f : Channel F -> Channel F) s : res (EpollPoller F K) :=
  c ← channel s p; Ok (set_objects (<[p := f c]> (objects s)) s).

(** [update]: the result of [epoll_ctl] is tested, but both branches are empty. *)
Definition update (operation : ctl) p s : res (EpollPoller F K) :=
  c ← channel s p;
  let event := mkEpollEvent (u32 (Events c)) p in
  Ok (set_epoll (epoll_ctl operation (Fd c) event (epollFd_ s)).2 s).

Definition updateChannel p s : res (EpollPoller F K) :=
  c ← channel s p;
  let index := Index c in
  if (index =? kNew) || (index =? kDeleted) then
    let s := if index =? kNew then set_channels (<[Fd c := p]> (channels_ s)) s else s in
    s ← modify p (fun c => setIndex c kAdded) s;
    update EPOLL_CTL_ADD p s
  else if isNoneEvent c then
    s ← update EPOLL_CTL_DEL p s;
    modify p (fun c => setIndex c kDeleted) s
  else update EPOLL_CTL_MOD p s.

Definition removeChannel p s : res (EpollPoller F K) :=
  c ← channel s p;
  let s := set_channels (delete (Fd c) (channels_ s)) s in
  s ← (if Index c =? kAdded then update EPOLL_CTL_DEL p s else Ok s);
  modify p (fun c => setIndex c kNew) s.

Definition hasChannel p s : res bool :=
  c ← channel s p;
  Ok (bool_decide (channels_ s !! Fd c = Some p)).

(** [enableReading] and its siblings, in the loop thread. *)
Definition change_mask (o : mask_op) p s : res (EpollPoller F K) :=
  s ← modify p (fun c => with_events c (mask o (Events c))) s;
  updateChannel p s.

(** The same for a mask that was computed before. *)
Definition store_mask (e : Z) p s : res (EpollPoller F K) :=
  s ← modify p (fun c => with_events c e) s;
  updateChannel p s.

(** One turn of the loop of [fillActiveChannels]. *)
Definition fill_one (ev : epoll_event) (st : EpollPoller F K * list Z)
    : res (EpollPoller F K * list Z) :=
  s ← modify (ev_ptr ev) (fun c => setRevents c (s32 (ev_events ev))) st.1;
  Ok (s, st.2 ++ [ev_ptr ev]).

Definition fillActiveChannels (events : list epoll_event) s (activeChannels : list Z)
    : res (EpollPoller F K * list Z) :=
  for_each fill_one events (s, activeChannels).

(** [poll]: [ret] is what [epoll_wait] returned. *)
Definition poll (ret : sysret (list epoll_event)) s (activeChannels : list Z)
    : res (EpollPoller F K * list Z) :=
  match ret with
  | Done events =>
      if 0 <? zlen events then fillActiveChannels events s activeChannels
      else Ok (s, activeChannels)
  | Errno e =>
      if negb (e =? EINTR)
      then Ok (mkEpollPoller (objects s) (channels_ s) (epollFd_ s) (poll_errors s + 1), activeChannels)
      else Ok (s, activeChannels)
  end.

(** ** The invariant *)

(** [channels_] holds the channels that are not [kNew], and the kernel lists
    exactly those that are [kAdded], under the events they ask for. *)
Record poller_ok s : Prop := {
  ok_index p c : objects s !! p = Some c -> Index c = kNew \/ Index c = kAdded \/ Index c = kDeleted;
  ok_map fd p :
    channels_ s !! fd = Some p <->
    exists c, objects s !! p = Some c /\ Fd c = fd /\ Index c <> kNew;
  ok_kernel fd ev :
    interest (epollFd_ s) !! fd = Some ev <->
    exists c, objects s !! ev_ptr ev = Some c /\ Fd c = fd /\ Index c = kAdded /\
      ev_events ev = u32 (Events c)
}.

Lemma EpollPoller_new_ok : poller_ok EpollPoller_new.
Proof.
  split; simpl.
  - intros p c. by rewrite lookup_empty.
  - intros fd p. rewrite lookup_empty. split; [done|]. intros (c & H & _). by rewrite lookup_empty in H.
  - intros fd ev. rewrite create_empty, lookup_empty. split; [done|].
    intros (c & H & _). by rewrite lookup_empty in H.
Qed.

(** Two registered channels never share a descriptor. *)
Lemma registered_unique s p p' c c' :
  poller_ok s -> objects s !! p = Some c -> objects s !! p' = Some c' -> Fd c = Fd c' ->
  Index c <> kNew -> Index c' <> kNew -> p = p'.
Proof.
  intros Hok Hp Hp' Hfd Hi Hi'.
  assert (channels_ s !! Fd c = Some p) as H1 by (apply (ok_map _ Hok); eauto).
  assert (channels_ s !! Fd c = Some p') as H2 by (apply (ok_map _ Hok); eauto). congruence.
Qed.

(** The state after the channel at [p] has become [c], with [channels_] and the
    interest list changed accordingly. *)
Definition registered p c : option Z := if decide (Index c = kNew) then None else Some p.
Definition listed p c : option epoll_event :=
  if decide (Index c = kAdded) then Some (mkEpollEvent (u32 (Events c)) p) else None.

Lemma poller_ok_replace s s' p c0 c :
  poller_ok s -> objects s !! p = Some c0 -> Fd c = Fd c0 ->
  (Index c = kNew \/ Index c = kAdded \/ Index c = kDeleted) ->
  (Index c0 = kNew -> channels_ s !! Fd c0 = None) ->
  objects s' = <[p := c]> (objects s) ->
  (forall fd, channels_ s' !! fd = if decide (fd = Fd c) then registered p c else channels_ s !! fd) ->
  (forall fd, interest (epollFd_ s') !! fd
     = if decide (fd = Fd c) then listed p c else interest (epollFd_ s) !! fd) ->
  poller_ok s'.
Proof.
  intros Hok Hp Hfd Hidx Hnew Ho Hm Hk.
  assert (forall p' c', p' <> p -> objects s !! p' = Some c' -> Fd c' = Fd c -> Index c' = kNew) as Halone.
  { intros p' c' Hne Hp' Hfd'. destruct (decide (Index c' = kNew)) as [|Hi]; [done|].
    assert (channels_ s !! Fd c0 = Some p') as E by (apply (ok_map _ Hok); exists c'; split_and!; congruence).
    destruct (decide (Index c0 = kNew)) as [Hi0|Hi0]; [rewrite (Hnew Hi0) in E; done|].
    exfalso. apply Hne. apply (registered_unique s p' p c' c0); congruence. }
  split.
  - intros p' c'. rewrite Ho, lookup_insert. case_decide; [by intros [= <-]|apply (ok_index _ Hok)].
  - intros fd p'. rewrite Hm, Ho. setoid_rewrite lookup_insert. case_decide as E1.
    + unfold registered. split.
      * case_decide as E2; [done|]. intros [= <-]. exists c. rewrite decide_True by done. done.
      * intros (c' & Hc' & Hfd' & Hi). case_decide as E2; [subst p'; injection Hc' as <-; by rewrite decide_False|].
        exfalso. apply Hi. apply (Halone p' c'); congruence.
    + rewrite (ok_map _ Hok). split; intros (c' & Hc' & Hfd' & Hi); exists c'; split_and!; try done.
      * rewrite decide_False; [done|]. intros ->. congruence.
      * case_decide; [congruence|done].
  - intros fd ev. rewrite Hk, Ho. setoid_rewrite lookup_insert. case_decide as E1.
    + unfold listed. split.
      * case_decide as E2; [|done]. intros [= <-]. exists c. simpl. rewrite decide_True by done. done.
      * intros (c' & Hc' & Hfd' & Hi & Hev). case_decide as E2.
        -- injection Hc' as <-. rewrite decide_True by done. destruct ev. simpl in *. congruence.
        -- exfalso. assert (Index c' = kNew) as Hn by (apply (Halone (ev_ptr ev) c'); congruence).
           rewrite Hn in Hi. done.
    + rewrite (ok_kernel _ Hok). split; intros (c' & Hc' & Hfd' & Hi & Hev); exists c'; split_and!; try done.
      * rewrite decide_False; [done|]. intros E. rewrite <- E in Hc'. congruence.
      * case_decide; [congruence|done].
Qed.

Lemma kernel_free s fd : poller_ok s -> channels_ s !! fd = None -> interest (epollFd_ s) !! fd = None.
Proof.
  intros Hok Hfd. destruct (interest (epollFd_ s) !! fd) as [ev|] eqn:E; [|done].
  apply (ok_kernel _ Hok) in E as (c & Hc & Hf & Hi & _).
  assert (channels_ s !! fd = Some (ev_ptr ev)); [|congruence].
  apply (ok_map _ Hok). exists c. split_and!; try done. by rewrite Hi.
Qed.

Lemma kernel_at s p c :
  poller_ok s -> objects s !! p = Some c -> Index c <> kNew ->
  interest (epollFd_ s) !! Fd c = listed p c.
Proof.
  intros Hok Hp Hi. unfold listed. case_decide as Ha.
  - apply (ok_kernel _ Hok). exists c. done.
  - destruct (interest (epollFd_ s) !! Fd c) as [ev|] eqn:E; [|done].
    apply (ok_kernel _ Hok) in E as (c' & Hc' & Hf & Hi' & _).
    assert (ev_ptr ev = p) as E by (apply (registered_unique s _ _ c' c); rewrite ?Hi'; done).
    rewrite E in Hc'. congruence.
Qed.

Lemma channel_Some s p c : objects s !! p = Some c -> channel s p = Ok c.
Proof. unfold channel. by intros ->. Qed.

(** A channel may be (re)added: nobody else uses its descriptor and the kernel
    takes it. *)
Definition may_add s c : Prop :=
  (Index c = kNew -> channels_ s !! Fd c = None) /\
  (Index c <> kAdded -> accepts (epollFd_ s) (Fd c) = true).

(** The index and events of a channel after a change of its mask. *)
Definition masked_to (e : Z) c : Channel F :=
  setIndex (with_events c e) (if (Index c =? kAdded) && (e =? kNoneEvent) then kDeleted else kAdded).
Definition masked (o : mask_op) c : Channel F := masked_to (mask o (Events c)) c.

(** *** What [updateChannel] computes, by the index of the channel *)
Definition event_of p c : epoll_event := mkEpollEvent (u32 (Events c)) p.

Lemma modify_eq p f s c :
  objects s !! p = Some c -> modify p f s = Ok (set_objects (<[p := f c]> (objects s)) s).
Proof. intros H. unfold modify. by rewrite (channel_Some _ _ _ H). Qed.

Lemma update_eq op p s c :
  objects s !! p = Some c ->
  update op p s = Ok (set_epoll (epoll_ctl op (Fd c) (event_of p c) (epollFd_ s)).2 s).
Proof. intros H. unfold update. by rewrite (channel_Some _ _ _ H). Qed.

Lemma updateChannel_add p s c :
  objects s !! p = Some c -> Index c = kNew \/ Index c = kDeleted ->
  updateChannel p s
  = Ok (mkEpollPoller (<[p := setIndex c kAdded]> (objects s))
          (if Index c =? kNew then <[Fd c := p]> (channels_ s) else channels_ s)
          (epoll_ctl EPOLL_CTL_ADD (Fd c) (event_of p c) (epollFd_ s)).2 (poll_errors s)).
Proof.
  intros H Hi. unfold updateChannel. rewrite (channel_Some _ _ _ H), bind_ret_l.
  assert ((Index c =? kNew) || (Index c =? kDeleted) = true) as -> by (destruct Hi as [-> | ->]; done).
  rewrite (modify_eq p _ _ c), bind_ret_l by (by destruct (Index c =? kNew)).
  rewrite (update_eq _ p _ (setIndex c kAdded)) by apply lookup_insert_eq.
  by destruct (Index c =? kNew).
Qed.

Lemma updateChannel_del p s c :
  objects s !! p = Some c -> Index c = kAdded -> Events c = kNoneEvent ->
  updateChannel p s
  = Ok (mkEpollPoller (<[p := setIndex c kDeleted]> (objects s)) (channels_ s)
          (epoll_ctl EPOLL_CTL_DEL (Fd c) (event_of p c) (epollFd_ s)).2 (poll_errors s)).
Proof.
  intros H Hi He. unfold updateChannel. rewrite (channel_Some _ _ _ H), bind_ret_l, Hi. simpl.
  unfold isNoneEvent. rewrite He. simpl. rewrite (update_eq _ p _ c H), bind_ret_l.
  by rewrite (modify_eq p _ _ c).
Qed.

Lemma updateChannel_mod p s c :
  objects s !! p = Some c -> Index c = kAdded -> Events c <> kNoneEvent ->
  updateChannel p s
  = Ok (set_epoll (epoll_ctl EPOLL_CTL_MOD (Fd c) (event_of p c) (epollFd_ s)).2 s).
Proof.
  intros H Hi He. unfold updateChannel. rewrite (channel_Some _ _ _ H), bind_ret_l, Hi. simpl.
  unfold isNoneEvent. destruct (Z.eqb_spec (Events c) kNoneEvent); [done|]. by rewrite (update_eq _ p _ c H).
Qed.

Lemma store_mask_eq e p s c :
  objects s !! p = Some c ->
  store_mask e p s = updateChannel p (set_objects (<[p := with_events c e]> (objects s)) s).
Proof. intros H. unfold store_mask. by rewrite (modify_eq _ _ _ _ H). Qed.

Lemma change_mask_eq o p s c :
  objects s !! p = Some c -> change_mask o p s = store_mask (mask o (Events c)) p s.
Proof. intros H. rewrite (store_mask_eq _ _ _ _ H). unfold change_mask. by rewrite (modify_eq _ _ _ _ H). Qed.

(** A channel that is not listed is added. *)
Lemma store_mask_add e p s c :
  poller_ok s -> objects s !! p = Some c -> may_add s c -> Index c <> kAdded ->
  exists s', store_mask e p s = Ok s' /\ poller_ok s' /\
    objects s' = <[p := masked_to e c]> (objects s).
Proof.
  intros Hok Hp [Hfree Hacc] Hi. set (c1 := with_events c e).
  assert (Index c = kNew \/ Index c = kDeleted) as Hi' by (destruct (ok_index _ Hok _ _ Hp) as [|[|]]; auto; done).
  assert (interest (epollFd_ s) !! Fd c = None) as Hn.
  { destruct Hi' as [E|E]; [apply kernel_free; auto|]. rewrite (kernel_at s p c Hok Hp) by (rewrite E; discriminate).
    unfold listed. by rewrite decide_False. }
  assert (masked_to e c = setIndex c1 kAdded) as Hm.
  { unfold masked_to. by destruct Hi' as [-> | ->]. }
  rewrite (store_mask_eq _ _ _ _ Hp), (updateChannel_add p _ c1); [|apply lookup_insert_eq|exact Hi'].
  eexists. split; [done|]. simpl. rewrite insert_insert_eq, Hm. split; [|done].
  destruct (ctl_add (epollFd_ s) (Fd c) (event_of p c1) Hn (Hacc Hi)) as [_ Hk].
  apply (poller_ok_replace s _ p c (setIndex c1 kAdded)); simpl; auto.
  - intros fd. destruct Hi' as [E|E]; rewrite E; simpl; [rewrite lookup_insert|];
      repeat case_decide; subst; try done. apply (ok_map _ Hok). exists c. by rewrite E.
  - intros fd. rewrite Hk, lookup_insert. repeat case_decide; subst; done.
Qed.

(** A listed channel is modified, or deleted when no event is left. *)
Lemma store_mask_listed e p s c :
  poller_ok s -> objects s !! p = Some c -> Index c = kAdded ->
  exists s', store_mask e p s = Ok s' /\ poller_ok s' /\
    objects s' = <[p := masked_to e c]> (objects s).
Proof.
  intros Hok Hp Hi. set (c1 := with_events c e).
  assert (is_Some (interest (epollFd_ s) !! Fd c)) as Hs.
  { rewrite (kernel_at s p c Hok Hp) by (rewrite Hi; discriminate). unfold listed. rewrite decide_True by done. eauto. }
  assert (channels_ s !! Fd c = Some p) as Hmap by (apply (ok_map _ Hok); exists c; by rewrite Hi).
  rewrite (store_mask_eq _ _ _ _ Hp). fold c1.
  destruct (decide (e = kNoneEvent)) as [He|He].
  - rewrite (updateChannel_del p _ c1); [|apply lookup_insert_eq|done|done].
    assert (masked_to e c = setIndex c1 kDeleted) as -> by (unfold masked_to; by rewrite Hi, (proj2 (Z.eqb_eq _ _) He)).
    eexists. split; [done|]. simpl. rewrite insert_insert_eq. split; [|done].
    destruct (ctl_del (epollFd_ s) (Fd c) (event_of p c1) Hs) as [_ Hk].
    apply (poller_ok_replace s _ p c (setIndex c1 kDeleted)); simpl; auto.
    + intros E. rewrite Hi in E. discriminate E.
    + intros fd. case_decide; [by subst|done].
    + intros fd. rewrite Hk, lookup_delete. repeat case_decide; subst; done.
  - rewrite (updateChannel_mod p _ c1); [|apply lookup_insert_eq|done|done].
    assert (masked_to e c = setIndex c1 kAdded) as ->.
    { unfold masked_to. rewrite Hi. by destruct (Z.eqb_spec e kNoneEvent). }
    assert (setIndex c1 kAdded = c1) as Hc1 by (subst c1; by destruct c; simpl in *; subst).
    rewrite Hc1. eexists. split; [done|]. simpl. split; [|done].
    destruct (ctl_mod (epollFd_ s) (Fd c) (event_of p c1) Hs) as [_ Hk].
    apply (poller_ok_replace s _ p c c1); simpl; auto.
    + intros E. rewrite Hi in E. discriminate E.
    + intros fd. unfold registered. simpl. rewrite Hi. case_decide; [by subst|done].
    + intros fd. unfold listed. simpl. rewrite Hk, lookup_insert, Hi. repeat case_decide; subst; done.
Qed.

Lemma store_mask_ok e p s c :
  poller_ok s -> objects s !! p = Some c -> may_add s c ->
  exists s', store_mask e p s = Ok s' /\ poller_ok s' /\
    objects s' = <[p := masked_to e c]> (objects s).
Proof.
  intros Hok Hp Hadd. destruct (decide (Index c = kAdded)).
  - by apply store_mask_listed.
  - by apply store_mask_add.
Qed.

Lemma change_mask_ok o p s c :
  poller_ok s -> objects s !! p = Some c -> may_add s c ->
  exists s', change_mask o p s = Ok s' /\ poller_ok s' /\
    objects s' = <[p := masked o c]> (objects s).
Proof. intros Hok Hp Hadd. rewrite (change_mask_eq _ _ _ _ Hp). by apply store_mask_ok. Qed.

Lemma removeChannel_ok p s c :
  poller_ok s -> objects s !! p = Some c -> Index c <> kNew ->
  exists s', removeChannel p s = Ok s' /\ poller_ok s' /\
    objects s' = <[p := setIndex c kNew]> (objects s).
Proof.
  intros Hok Hp Hi. unfold removeChannel. rewrite (channel_Some _ _ _ Hp), bind_ret_l.
  pose proof (kernel_at s p c Hok Hp Hi) as Hat. unfold listed in Hat.
  set (s1 := set_channels _ s).
  assert (exists k, (if Index c =? kAdded then update EPOLL_CTL_DEL p s1 else Ok s1) = Ok (set_epoll k s1) /\
    forall fd, interest k !! fd = if decide (fd = Fd c) then None else interest (epollFd_ s) !! fd)
    as (k & -> & Hk).
  { destruct (Z.eqb_spec (Index c) kAdded) as [Ha|Ha].
    - rewrite (update_eq _ p s1 c) by done. eexists. split; [done|].
      rewrite decide_True in Hat by done.
      destruct (ctl_del (epollFd_ s) (Fd c) (event_of p c)) as [_ Hk]; [by eauto|].
      intros fd. simpl. rewrite Hk, lookup_delete. repeat case_decide; subst; done.
    - exists (epollFd_ s). split; [done|]. rewrite decide_False in Hat by done.
      intros fd. case_decide; [by subst|done]. }
  rewrite bind_ret_l, (modify_eq p _ _ c) by done. eexists. split; [done|]. split; [|done].
  apply (poller_ok_replace s _ p c (setIndex c kNew)); simpl; auto; try done.
  intros fd. rewrite lookup_delete. repeat case_decide; subst; done.
Qed.

(** *** Channels that come, go and change what the poller does not look at *)
Definition key c : Z * Z * Z := (Fd c, Events c, Index c).

Lemma poller_ok_same_keys s s' :
  poller_ok s -> channels_ s' = channels_ s -> interest (epollFd_ s') = interest (epollFd_ s) ->
  (forall p, key <$> objects s' !! p = key <$> objects s !! p) -> poller_ok s'.
Proof.
  intros Hok Hm Hk Hkeys.
  assert (forall p c', objects s' !! p = Some c' -> exists c, objects s !! p = Some c /\ key c' = key c) as H1.
  { intros p c' Hc'. specialize (Hkeys p). rewrite Hc' in Hkeys. simpl in Hkeys.
    destruct (objects s !! p) as [c|]; [|done]. exists c. split; [done|]. simpl in Hkeys. congruence. }
  assert (forall p c, objects s !! p = Some c -> exists c', objects s' !! p = Some c' /\ key c' = key c) as H2.
  { intros p c Hc. specialize (Hkeys p). rewrite Hc in Hkeys. simpl in Hkeys.
    destruct (objects s' !! p) as [c'|]; [|done]. exists c'. split; [done|]. simpl in Hkeys. congruence. }
  split.
  - intros p c' Hc'. destruct (H1 _ _ Hc') as (c & Hc & E). injection E as E1 E2 ->.
    apply (ok_index _ Hok _ _ Hc).
  - intros fd p. rewrite Hm, (ok_map _ Hok). split; intros (c & Hc & Hfd & Hi).
    + destruct (H2 _ _ Hc) as (c' & Hc' & E). injection E as E1 E2 E3. exists c'. by rewrite E1, E3.
    + destruct (H1 _ _ Hc) as (c' & Hc' & E). injection E as E1 E2 E3. exists c'. by rewrite <- E1, <- E3.
  - intros fd ev. rewrite Hk, (ok_kernel _ Hok). split; intros (c & Hc & Hfd & Hi & Hev).
    + destruct (H2 _ _ Hc) as (c' & Hc' & E). injection E as E1 E2 E3. exists c'. by rewrite E1, E2, E3.
    + destruct (H1 _ _ Hc) as (c' & Hc' & E). injection E as E1 E2 E3. exists c'.
      by rewrite <- E1, <- E2, <- E3.
Qed.

Lemma poller_ok_set s p c c' :
  poller_ok s -> objects s !! p = Some c -> key c' = key c ->
  poller_ok (set_objects (<[p := c']> (objects s)) s).
Proof.
  intros Hok Hp Hk. apply (poller_ok_same_keys s); try done. intros p'. simpl.
  rewrite lookup_insert. case_decide as E; [|done]. subst p'. rewrite Hp. simpl. by rewrite Hk.
Qed.

(** Adding or removing an object with index [kNew]. *)
Lemma poller_ok_unregistered s s' :
  poller_ok s -> channels_ s' = channels_ s -> epollFd_ s' = epollFd_ s ->
  (forall p c, Index c <> kNew -> (objects s' !! p = Some c <-> objects s !! p = Some c)) ->
  (forall p c, objects s' !! p = Some c -> Index c = kNew \/ objects s !! p = Some c) ->
  poller_ok s'.
Proof.
  intros Hok Hm Hk Hobj Hnew. split.
  - intros p c Hc. destruct (Hnew _ _ Hc) as [|Hc']; [auto|]. apply (ok_index _ Hok _ _ Hc').
  - intros fd p. rewrite Hm, (ok_map _ Hok). split; intros (c & Hc & Hfd & Hi); exists c;
      (split; [by apply (Hobj p c Hi)|done]).
  - intros fd ev. rewrite Hk, (ok_kernel _ Hok).
    split; intros (c & Hc & Hfd & Hi & Hev); exists c;
      (split; [apply (Hobj _ c); [by rewrite Hi|done]|done]).
Qed.

Lemma poller_ok_new s p c :
  poller_ok s -> objects s !! p = None -> Index c = kNew ->
  poller_ok (set_objects (<[p := c]> (objects s)) s).
Proof.
  intros Hok Hp Hi. apply (poller_ok_unregistered s); try done; simpl.
  - intros p' c' Hi'. rewrite lookup_insert. case_decide as E; [|done]. subst p'.
    rewrite Hp. split; [by intros [= <-]|done].
  - intros p' c'. rewrite lookup_insert. case_decide as E; [intros [= <-]|]; auto.
Qed.

Lemma poller_ok_delete s p c :
  poller_ok s -> objects s !! p = Some c -> Index c = kNew ->
  poller_ok (set_objects (delete p (objects s)) s).
Proof.
  intros Hok Hp Hi. apply (poller_ok_unregistered s); try done; simpl.
  - intros p' c' Hi'. rewrite lookup_delete. case_decide as E; [|done]. subst p'.
    rewrite Hp. split; [done|]. by intros [= <-].
  - intros p' c'. rewrite lookup_delete. case_decide as E; [done|]. auto.
Qed.

(** *** Polling *)

(** What epoll_wait(2) may report: distinct listed descriptors, each with the
    pointer it was registered with and events that were asked for, or [EPOLLERR]
    or [EPOLLHUP], which always are; at most as many as the array holds. *)
Definition reports (k : K) (fd : Z) (ev : epoll_event) : Prop :=
  exists ev0, interest k !! fd = Some ev0 /\ ev_ptr ev = ev_ptr ev0 /\
    Z.land (ev_events ev) (Z.lor (ev_events ev0) (Z.lor EPOLLERR EPOLLHUP)) = ev_events ev.

Definition wait_ok (k : K) (events : list epoll_event) : Prop :=
  zlen events <= kInitEventListSize /\
  exists fds, NoDup fds /\ Forall2 (reports k) fds events.

Lemma reports_channel s fd ev :
  poller_ok s -> reports (epollFd_ s) fd ev ->
  exists c, objects s !! ev_ptr ev = Some c /\ Fd c = fd /\ Index c = kAdded.
Proof.
  intros Hok (ev0 & H & -> & _). apply (ok_kernel _ Hok) in H as (c & ? & ? & ? & _). eauto.
Qed.

Lemma reported_nodup s fds events :
  poller_ok s -> NoDup fds -> Forall2 (reports (epollFd_ s)) fds events -> NoDup (ev_ptr <$> events).
Proof.
  intros Hok Hnd H. induction H as [|fd ev fds evs Hr Hall IH]; simpl; [constructor|].
  apply NoDup_cons in Hnd as [Hfd Hnd]. apply NoDup_cons. split; [|by apply IH].
  intros (ev' & E & Hin)%list_elem_of_fmap.
  destruct (reports_channel _ _ _ Hok Hr) as (c & Hc & Hf & _).
  apply list_elem_of_lookup in Hin as [i Hi].
  destruct (Forall2_lookup_r _ _ _ _ _ Hall Hi) as (fd' & Hfd' & Hr').
  destruct (reports_channel _ _ _ Hok Hr') as (c' & Hc' & Hf' & _).
  apply Hfd. apply list_elem_of_lookup_2 in Hfd'. rewrite <- E in Hc'. congruence.
Qed.

(** The channel objects after [fillActiveChannels]. *)
Definition with_revents (events : list epoll_event) (o : gmap Z (Channel F)) : gmap Z (Channel F) :=
  foldl (fun o ev => alter (fun c => setRevents c (s32 (ev_events ev))) (ev_ptr ev) o) o events.

Lemma with_revents_cons ev evs o :
  with_revents (ev :: evs) o
  = with_revents evs (alter (fun c => setRevents c (s32 (ev_events ev))) (ev_ptr ev) o).
Proof. done. Qed.

Lemma fill_ok events s act :
  (forall ev, ev ∈ events -> is_Some (objects s !! ev_ptr ev)) ->
  fillActiveChannels events s act
  = Ok (set_objects (with_revents events (objects s)) s, act ++ (ev_ptr <$> events)).
Proof.
  unfold fillActiveChannels. revert s act. induction events as [|ev evs IH]; intros s act Hl.
  { simpl. rewrite app_nil_r. by destruct s. }
  destruct (Hl ev) as [c Hc]; [by left|]. cbn [for_each]. unfold fill_one at 2. simpl fst. simpl snd.
  rewrite (modify_eq _ _ _ _ Hc), !bind_ret_l. rewrite IH.
  - assert (<[ev_ptr ev := setRevents c (s32 (ev_events ev))]> (objects s)
      = alter (fun c => setRevents c (s32 (ev_events ev))) (ev_ptr ev) (objects s)) as Ea.
    { apply map_eq. intros p. rewrite lookup_insert, lookup_alter. case_decide as E; [|done].
      subst p. by rewrite Hc. }
    simpl. rewrite Ea, <- app_assoc. done.
  - intros ev' Hin. simpl. rewrite lookup_insert. case_decide; [by eauto|]. apply Hl. by right.
Qed.

(** Nothing but [Revents] changes. *)
Lemma with_revents_frame {A} (g : Channel F -> A) events o p :
  (forall c r, g (setRevents c r) = g c) -> g <$> with_revents events o !! p = g <$> o !! p.
Proof.
  intros Hg. revert o. induction events as [|ev evs IH]; intros o; [done|].
  rewrite with_revents_cons, IH, lookup_alter. case_decide as E; [|done]. subst p.
  destruct (o !! ev_ptr ev); simpl; [by rewrite Hg|done].
Qed.

Lemma with_revents_key events o p : key <$> with_revents events o !! p = key <$> o !! p.
Proof. by apply with_revents_frame. Qed.

Lemma with_revents_lookup events o p :
  NoDup (ev_ptr <$> events) ->
  with_revents events o !! p
  = match list_find (fun ev => ev_ptr ev = p) events with
    | Some (_, ev) => (fun c => setRevents c (s32 (ev_events ev))) <$> o !! p
    | None => o !! p
    end.
Proof.
  revert o. induction events as [|ev evs IH]; intros o Hnd; [done|].
  simpl in Hnd. apply NoDup_cons in Hnd as [Hp Hnd].
  rewrite with_revents_cons, (IH _ Hnd), lookup_alter. cbn [list_find]. destruct (decide (ev_ptr ev = p)) as [Heq|Hne].
  - destruct (list_find _ evs) as [[i ev']|] eqn:E; [|by rewrite Heq].
    apply list_find_Some in E as (Hi & Hptr & _). exfalso. apply Hp.
    rewrite Heq, <- Hptr. apply list_elem_of_fmap_2. by apply list_elem_of_lookup_2 in Hi.
  - by destruct (list_find _ evs) as [[i ev']|].
Qed.

Lemma wait_ok_live s events :
  poller_ok s -> wait_ok (epollFd_ s) events ->
  forall ev, ev ∈ events -> exists c, objects s !! ev_ptr ev = Some c /\ Index c = kAdded.
Proof.
  intros Hok (_ & fds & _ & Hall) ev [i Hi]%list_elem_of_lookup.
  destruct (Forall2_lookup_r _ _ _ _ _ Hall Hi) as (fd & _ & Hr).
  destruct (reports_channel _ _ _ Hok Hr) as (c & ? & _ & ?). eauto.
Qed.

Lemma poll_ok events s act :
  poller_ok s -> wait_ok (epollFd_ s) events ->
  poll (Done events) s act
  = Ok (set_objects (with_revents events (objects s)) s, act ++ (ev_ptr <$> events)) /\
  poller_ok (set_objects (with_revents events (objects s)) s).
Proof.
  intros Hok Hw. split.
  - unfold poll. destruct (Z.ltb_spec 0 (zlen events)).
    + apply fill_ok. intros ev Hev. destruct (wait_ok_live _ _ Hok Hw ev Hev) as (c & ? & _). eauto.
    + destruct events as [|ev evs]; [|unfold zlen in *; simpl in *; lia].
      simpl. rewrite app_nil_r. by destruct s.
  - apply (poller_ok_same_keys s); try done. intros p. apply with_revents_key.
Qed.

(** ** Reachable states

    What the loop thread does with channels and the poller, and whether the kernel has
    refused an [EPOLL_CTL_ADD] so far, which [update] does not notice.  A registered channel
    has a descriptor of its own, and only unregistered channels are destroyed. *)
Definition owns s c : Prop := Index c = kNew -> channels_ s !! Fd c = None.
Definition refuses s c : bool := negb (Index c =? kAdded) && negb (accepts (epollFd_ s) (Fd c)).

Inductive poller_step : bool * EpollPoller F K -> bool * EpollPoller F K -> Prop :=
  | ps_new r s p loop fd :
      objects s !! p = None ->
      poller_step (r, s) (r, set_objects (<[p := Channel_new loop fd]> (objects s)) s)
  | ps_set r s p c c' :
      objects s !! p = Some c -> key c' = key c ->
      poller_step (r, s) (r, set_objects (<[p := c']> (objects s)) s)
  | ps_mask r s s' o p c :
      objects s !! p = Some c -> owns s c -> change_mask o p s = Ok s' ->
      poller_step (r, s) (r || refuses s c, s')
  | ps_remove r s s' p c :
      objects s !! p = Some c -> owns s c -> removeChannel p s = Ok s' -> poller_step (r, s) (r, s')
  | ps_delete r s p c :
      objects s !! p = Some c -> Index c = kNew ->
      poller_step (r, s) (r, set_objects (delete p (objects s)) s)
  | ps_poll r s s' events act act' :
      wait_ok (epollFd_ s) events -> poll (Done events) s act = Ok (s', act') -> poller_step (r, s) (r, s')
  | ps_poll_failed r s s' e act act' :
      poll (Errno e) s act = Ok (s', act') -> poller_step (r, s) (r, s')
  | ps_kernel r s k :
      interest k = interest (epollFd_ s) -> poller_step (r, s) (r, set_epoll k s).
End poller.

(** ** A kernel that refuses nothing

    The code never looks at what [epoll_ctl] returns, so the poller does the same with a
    kernel that takes every descriptor; the real interest list is a part of the list there. *)
Section shadow.
Context {F K : Type} `{!Epoll K}.
Implicit Types (s : EpollPoller F K) (p : Z) (c : Channel F).

Definition shadow (k0 : simple_epoll) s : EpollPoller F simple_epoll :=
  mkEpollPoller (objects s) (channels_ s) k0 (poll_errors s).

(** [r]: some descriptor has been refused. *)
Record below (r : bool) (k : K) (k0 : simple_epoll) : Prop := {
  be_open : se_refused k0 = ∅;
  be_list : interest k ⊆ se_list k0;
  be_same : r = false -> interest k = se_list k0
}.

Definition follows (r : bool) s : Prop := exists k0, poller_ok (shadow k0 s) /\ below r (epollFd_ s) k0.

Lemma below_ctl op fd ev r r' k k0 :
  below r k k0 ->
  match op with EPOLL_CTL_ADD => se_list k0 !! fd = None | _ => is_Some (se_list k0 !! fd) end ->
  (r' = false -> r = false /\ (op = EPOLL_CTL_ADD -> accepts k fd = true)) ->
  below r' (epoll_ctl op fd ev k).2 (epoll_ctl op fd ev k0).2.
Proof.
  intros [Ho Hl Hs] Hop Hr'. destruct op.
  - assert ((epoll_ctl EPOLL_CTL_ADD fd ev k0).2 = mkSimpleEpoll (<[fd := ev]> (se_list k0)) (se_refused k0)) as ->
      by (simpl; rewrite Hop, decide_False; [done|rewrite Ho; set_solver]).
    assert (interest k !! fd = None) as Hn by (by eapply lookup_weaken_None).
    split; [done| |]; simpl.
    + destruct (accepts k fd) eqn:Ea.
      * rewrite (proj2 (ctl_add k fd ev Hn Ea)). by apply insert_mono.
      * rewrite (proj2 (ctl_fail EPOLL_CTL_ADD k fd ev (or_intror Ea))). by apply insert_subseteq_r.
    + intros E. destruct (Hr' E) as [Hr Ha]. rewrite (proj2 (ctl_add k fd ev Hn (Ha eq_refl))). by rewrite Hs.
  - assert ((epoll_ctl EPOLL_CTL_MOD fd ev k0).2 = mkSimpleEpoll (<[fd := ev]> (se_list k0)) (se_refused k0)) as ->
      by (simpl; by destruct Hop as [? ->]).
    split; [done| |]; simpl.
    + destruct (interest k !! fd) as [ev0|] eqn:Ei.
      * rewrite (proj2 (ctl_mod k fd ev ltac:(eauto))). by apply insert_mono.
      * rewrite (proj2 (ctl_fail EPOLL_CTL_MOD k fd ev Ei)). by apply insert_subseteq_r.
    + intros E. destruct (Hr' E) as [Hr _]. rewrite (proj2 (ctl_mod k fd ev ltac:(by rewrite Hs))). by rewrite Hs.
  - assert ((epoll_ctl EPOLL_CTL_DEL fd ev k0).2 = mkSimpleEpoll (delete fd (se_list k0)) (se_refused k0)) as ->
      by (simpl; by destruct Hop as [? ->]).
    split; [done| |]; simpl.
    + destruct (interest k !! fd) as [ev0|] eqn:Ei.
      * rewrite (proj2 (ctl_del k fd ev ltac:(eauto))). by apply delete_mono.
      * rewrite (proj2 (ctl_fail EPOLL_CTL_DEL k fd ev Ei)). rewrite <- (delete_id (interest k) fd Ei). by apply delete_mono.
    + intros E. destruct (Hr' E) as [Hr _]. rewrite (proj2 (ctl_del k fd ev ltac:(by rewrite Hs))). by rewrite Hs.
Qed.

(** A channel that the shadow lists, or does not. *)
Lemma shadow_listed k0 s p c :
  poller_ok (shadow k0 s) -> objects s !! p = Some c -> Index c = kAdded -> is_Some (se_list k0 !! Fd c).
Proof.
  intros Hok Hp Hi. change (is_Some (interest (epollFd_ (shadow k0 s)) !! Fd c)).
  rewrite (kernel_at _ p c Hok Hp) by (rewrite Hi; done). unfold listed. rewrite decide_True by done. eauto.
Qed.

Lemma shadow_free k0 s p c :
  poller_ok (shadow k0 s) -> objects s !! p = Some c -> owns s c -> Index c <> kAdded -> se_list k0 !! Fd c = None.
Proof.
  intros Hok Hp Ho Hi. change (interest (epollFd_ (shadow k0 s)) !! Fd c = None).
  destruct (decide (Index c = kNew)) as [Hn|Hn]; [by apply kernel_free, Ho|].
  rewrite (kernel_at _ p c Hok Hp Hn). unfold listed. by rewrite decide_False.
Qed.

Lemma mask_follows r s s' o p c :
  follows r s -> objects s !! p = Some c -> owns s c -> change_mask o p s = Ok s' -> follows (r || refuses s c) s'.
Proof.
  intros (k0 & Hok & Hb) Hp Ho E1.
  assert (may_add (shadow k0 s) c) as Hadd by (split; [exact Ho|intros _; simpl; by rewrite (be_open _ _ _ Hb)]).
  destruct (change_mask_ok o p (shadow k0 s) c Hok Hp Hadd) as (t & E2 & Hok' & _).
  rewrite (change_mask_eq _ _ _ _ Hp), (store_mask_eq _ _ _ _ Hp) in E1.
  rewrite (change_mask_eq o p (shadow k0 s) c Hp), (store_mask_eq _ p (shadow k0 s) c Hp) in E2. set (c1 := with_events c _) in *.
  assert (objects (set_objects (<[p := c1]> (objects s)) s) !! p = Some c1) as Hp1 by apply lookup_insert_eq.
  assert (objects (set_objects (<[p := c1]> (objects (shadow k0 s))) (shadow k0 s)) !! p = Some c1) as Hp0 by apply lookup_insert_eq.
  unfold refuses. destruct (Z.eqb_spec (Index c) kAdded) as [Hi|Hi]; simpl negb; cbn [andb].
  - rewrite orb_false_r. pose proof (shadow_listed k0 s p c Hok Hp Hi) as Hs.
    assert (forall op ev, op <> EPOLL_CTL_ADD -> below r (epoll_ctl op (Fd c) ev (epollFd_ s)).2 (epoll_ctl op (Fd c) ev k0).2) as Hc
      by (intros op ev Hop; apply (below_ctl op (Fd c) ev r r _ _ Hb); [by destruct op|done]).
    destruct (decide (Events c1 = kNoneEvent)) as [He|He].
    + rewrite (updateChannel_del p _ c1 Hp1 Hi He) in E1. rewrite (updateChannel_del p _ c1 Hp0 Hi He) in E2.
      injection E1 as <-. injection E2 as <-. eexists. split; [exact Hok'|by apply Hc].
    + rewrite (updateChannel_mod p _ c1 Hp1 Hi He) in E1. rewrite (updateChannel_mod p _ c1 Hp0 Hi He) in E2.
      injection E1 as <-. injection E2 as <-. eexists. split; [exact Hok'|by apply Hc].
  - assert (Index c1 = kNew \/ Index c1 = kDeleted) as Hi' by (destruct (ok_index _ Hok _ _ Hp) as [|[|]]; auto; done).
    rewrite (updateChannel_add p _ c1 Hp1 Hi') in E1. rewrite (updateChannel_add p _ c1 Hp0 Hi') in E2.
    injection E1 as <-. injection E2 as <-. eexists. split; [exact Hok'|].
    apply (below_ctl EPOLL_CTL_ADD (Fd c) _ r _ _ _ Hb); [by apply (shadow_free k0 s p c)|].
    intros [Hr Ha]%orb_false_iff. split; [done|]. intros _. by apply negb_false_iff in Ha.
Qed.

Lemma remove_follows r s s' p c :
  follows r s -> objects s !! p = Some c -> owns s c -> removeChannel p s = Ok s' -> follows r s'.
Proof.
  intros (k0 & Hok & Hb) Hp Ho. unfold removeChannel. rewrite (channel_Some _ _ _ Hp), bind_ret_l.
  assert (forall t, removeChannel p (shadow k0 s) = Ok t -> poller_ok t) as Hrm.
  { intros t Et. destruct (decide (Index c = kNew)) as [Hi|Hi].
    - unfold removeChannel in Et. rewrite (channel_Some _ _ c), bind_ret_l, Hi in Et by done. simpl in Et.
      rewrite (modify_eq p _ _ c) in Et by done. injection Et as <-.
      apply (poller_ok_same_keys (shadow k0 s)); simpl; try done; [by apply delete_id, Ho|].
      intros p'. rewrite lookup_insert. case_decide as E1; [|done]. subst p'. rewrite Hp. simpl. unfold key. simpl. by rewrite Hi.
    - destruct (removeChannel_ok p (shadow k0 s) c Hok Hp Hi) as (t' & E2 & Hok' & _). congruence. }
  unfold removeChannel in Hrm. rewrite (channel_Some _ _ c), bind_ret_l in Hrm by done.
  destruct (Z.eqb_spec (Index c) kAdded) as [Hi|Hi].
  - rewrite (update_eq _ p _ c), bind_ret_l, (modify_eq p _ _ c) by done.
    rewrite (update_eq _ p _ c), bind_ret_l, (modify_eq p _ _ c) in Hrm by done. intros [= <-].
    eexists. split; [exact (Hrm _ eq_refl)|]. simpl.
    apply (below_ctl EPOLL_CTL_DEL (Fd c) _ r r _ _ Hb); [by apply (shadow_listed k0 s p c)|done].
  - rewrite bind_ret_l, (modify_eq p _ _ c) by done. rewrite bind_ret_l, (modify_eq p _ _ c) in Hrm by done.
    intros [= <-]. exists k0. split; [exact (Hrm _ eq_refl)|exact Hb].
Qed.

Lemma wait_shadow r k k0 events : below r k k0 -> wait_ok k events -> wait_ok k0 events.
Proof.
  intros Hb (Hn & fds & Hd & Hall). split; [done|]. exists fds. split; [done|].
  eapply Forall2_impl; [exact Hall|]. intros fd ev (ev0 & H & Hrest). exists ev0. split; [|done].
  by apply (lookup_weaken _ _ _ _ H), (be_list _ _ _ Hb).
Qed.

Lemma poll_follows r s s' events act act' :
  follows r s -> wait_ok (epollFd_ s) events -> poll (Done events) s act = Ok (s', act') -> follows r s'.
Proof.
  intros (k0 & Hok & Hb) Hw E1. pose proof (wait_shadow _ _ _ _ Hb Hw) as Hw0.
  destruct (poll_ok events (shadow k0 s) act Hok Hw0) as [_ Hok'].
  assert (s' = set_objects (with_revents events (objects s)) s) as ->; [|by exists k0].
  unfold poll in E1. destruct (0 <? zlen events) eqn:En.
  - rewrite fill_ok in E1; [congruence|]. intros ev Hin.
    destruct (wait_ok_live (shadow k0 s) events Hok Hw0 ev Hin) as (c & Hc & _). by exists c.
  - injection E1 as <- <-. destruct events as [|ev evs]; [by destruct s|]. apply Z.ltb_ge in En. unfold zlen in En. simpl in En. lia.
Qed.

Lemma poller_step_follows r s r' s' : poller_step (r, s) (r', s') -> follows r s -> follows r' s'.
Proof.
  intros Hstep Hf. inversion Hstep as [r0 s0 p lp fd Hp|r0 s0 p c c' Hp Hk|r0 s0 s1 o p c Hp Ho E1|r0 s0 s1 p c Hp Ho E1|
    r0 s0 p c Hp Hi|r0 s0 s1 events act act' Hw E1|r0 s0 s1 e act act' E1|r0 s0 k Hk]; subst.
  - destruct Hf as (k0 & Hok & Hb). exists k0. split; [by apply (poller_ok_new (shadow k0 s))|done].
  - destruct Hf as (k0 & Hok & Hb). exists k0. split; [by apply (poller_ok_set (shadow k0 s) p c)|done].
  - by apply (mask_follows r s s' o p c).
  - by apply (remove_follows r' s s' p c).
  - destruct Hf as (k0 & Hok & Hb). exists k0. split; [by apply (poller_ok_delete (shadow k0 s) p c)|done].
  - by eapply poll_follows.
  - destruct Hf as (k0 & Hok & Hb). simpl in E1. exists k0. destruct (negb _); injection E1 as <- <-; [|by split].
    split; [|done]. by apply (poller_ok_same_keys (shadow k0 s)).
  - destruct Hf as (k0 & Hok & [H1 H2 H3]). exists k0. split; [done|]. split; simpl; rewrite ?Hk; done.
Qed.

Lemma poller_steps_follow x y : rtc poller_step x y -> follows x.1 x.2 -> follows y.1 y.2.
Proof. induction 1 as [|[] [] [] H1 _ IH]; [done|]. intros H. by eapply IH, poller_step_follows. Qed.

Lemma new_follows : follows false EpollPoller_new.
Proof.
  exists (mkSimpleEpoll ∅ ∅). split; [exact (@EpollPoller_new_ok F simple_epoll simple_epoll_laws)|]. split; simpl; rewrite ?create_empty; done.
Qed.
End shadow.

Section poller.
Context {F K : Type} `{!Epoll K}.
Implicit Types (s : EpollPoller F K) (p : Z) (c : Channel F).

Lemma hasChannel_ok s p c :
  poller_ok s -> objects s !! p = Some c ->
  hasChannel p s = Ok (bool_decide (Index c <> kNew)).
Proof.
  intros Hok Hp. unfold hasChannel. rewrite (channel_Some _ _ _ Hp), bind_ret_l. f_equal.
  apply bool_decide_ext. rewrite (ok_map _ Hok). split; [|by eauto].
  intros (c' & Hc' & _ & Hi). congruence.
Qed.
End poller.

(** ** Properties *)

(** C13: the poller, the channels and the kernel agree in every reachable state of a loop
    in which registered channels have descriptors of their own and are removed before they
    are destroyed.  Whatever the kernel refuses, each entry of the interest list is that of
    a live channel in state [kAdded], under its descriptor, with a pointer to it and the
    events it asks for; [channels_] holds exactly the channels that are not [kNew], and
    [hasChannel] finds exactly those.  As long as the kernel has not refused to add a
    channel ([refused]), every channel in state [kAdded] is in the interest list. *)
Theorem poller_in_sync {F K : Type} `{!Epoll K} (refused : bool) (s : EpollPoller F K) :
  rtc poller_step (false, EpollPoller_new) (refused, s) ->
  (forall fd ev, interest (epollFd_ s) !! fd = Some ev ->
     exists c, objects s !! ev_ptr ev = Some c /\ Fd c = fd /\ Index c = kAdded /\
       ev_events ev = u32 (Events c)) /\
  (refused = false -> forall p c, objects s !! p = Some c -> Index c = kAdded ->
     interest (epollFd_ s) !! Fd c = Some (mkEpollEvent (u32 (Events c)) p)) /\
  (forall fd p, channels_ s !! fd = Some p <->
     exists c, objects s !! p = Some c /\ Fd c = fd /\ Index c <> kNew) /\
  (forall p c, objects s !! p = Some c ->
     hasChannel p s = Ok (bool_decide (Index c <> kNew))).
Proof.
  intros Hs. destruct (poller_steps_follow _ _ Hs new_follows) as (k0 & Hok & [_ Hl Hsame]). simpl in *. split_and!.
  - intros fd ev H. apply (ok_kernel _ Hok). by apply (lookup_weaken _ _ _ _ H).
  - intros Hr p c Hp Hi. rewrite (Hsame Hr). apply (ok_kernel _ Hok). by exists c.
  - apply (ok_map _ Hok).
  - intros p c. exact (hasChannel_ok (shadow k0 s) p c Hok).
Qed.

(** What a change of interest does.  [enableReading], [disableReading],
    [enableWriting], [disableWriting] and [disableAll] return, touch no other
    channel, and leave the kernel watching this one for exactly the new mask;
    not watching it when it was watched and the mask became empty. *)
Theorem change_mask_spec {F K : Type} `{!Epoll K} (s : EpollPoller F K) (o : mask_op) (p : Z)
    (c : Channel F) :
  poller_ok s -> objects s !! p = Some c -> may_add s c ->
  exists s', change_mask o p s = Ok s' /\ poller_ok s' /\
    objects s' = <[p := masked o c]> (objects s) /\
    interest (epollFd_ s') !! Fd c
    = (if (Index c =? kAdded) && (mask o (Events c) =? kNoneEvent) then None
       else Some (mkEpollEvent (u32 (mask o (Events c))) p)).
Proof.
  intros Hok Hp Hadd. destruct (change_mask_ok o p s c Hok Hp Hadd) as (s' & E & Hok' & Ho).
  exists s'. split_and!; try done.
  assert (objects s' !! p = Some (masked o c)) as Hp' by (rewrite Ho; apply lookup_insert_eq).
  change (Fd c) with (Fd (masked o c)). rewrite (kernel_at s' p _ Hok' Hp').
  - unfold listed, masked. simpl. by destruct (_ && _).
  - unfold masked. simpl. by destruct (_ && _).
Qed.

(** C24: polling is safe and exact.  When [epoll_wait] reports events, [poll]
    dereferences only live, registered channels; the active list gets them in
    the reported order, none twice; each has its [Revents] set to what was
    reported and no other channel changes. *)
Theorem poll_reports {F K : Type} `{!Epoll K} (s : EpollPoller F K) (events : list epoll_event)
    (act : list Z) :
  poller_ok s -> wait_ok (epollFd_ s) events ->
  exists s', poll (Done events) s act = Ok (s', act ++ (ev_ptr <$> events)) /\ poller_ok s' /\
    NoDup (ev_ptr <$> events) /\
    forall p, objects s' !! p
      = match list_find (fun ev => ev_ptr ev = p) events with
        | Some (_, ev) => (fun c => setRevents c (s32 (ev_events ev))) <$> objects s !! p
        | None => objects s !! p
        end.
Proof.
  intros Hok Hw. destruct (poll_ok events s act Hok Hw) as [E Hok'].
  pose proof Hw as (_ & fds & Hnd & Hall).
  pose proof (reported_nodup s fds events Hok Hnd Hall) as Hnd'.
  eexists. split_and!; try done. intros p. by apply with_revents_lookup.
Qed.

(** Clearing the mask of a channel that is not listed, for instance calling
    [disableAll] twice, makes the poller add it again with no events: the kernel
    goes on reporting errors and hang-ups of a channel that asked for nothing. *)
Theorem disableAll_twice_listens {F K : Type} `{!Epoll K} (s s1 : EpollPoller F K) (p : Z)
    (c : Channel F) :
  poller_ok s -> objects s !! p = Some c -> Index c = kAdded ->
  change_mask DisableAll p s = Ok s1 -> accepts (epollFd_ s1) (Fd c) = true ->
  interest (epollFd_ s1) !! Fd c = None /\
  exists s2, change_mask DisableAll p s1 = Ok s2 /\
    interest (epollFd_ s2) !! Fd c = Some (mkEpollEvent 0 p).
Proof.
  intros Hok Hp Hi E1 Hacc.
  destruct (change_mask_ok DisableAll p s c Hok Hp) as (s1' & E1' & Hok1 & Ho1).
  { split; [rewrite Hi; discriminate|done]. }
  rewrite E1 in E1'. injection E1' as <-.
  assert (objects s1 !! p = Some (masked DisableAll c)) as Hp1 by (rewrite Ho1; apply lookup_insert_eq).
  destruct (change_mask_ok DisableAll p s1 _ Hok1 Hp1) as (s2 & E2 & Hok2 & Ho2).
  { split; [|done]. unfold masked, masked_to. rewrite Hi. discriminate. }
  assert (objects s2 !! p = Some (masked DisableAll (masked DisableAll c))) as Hp2
    by (rewrite Ho2; apply lookup_insert_eq).
  split; [|exists s2; split; [done|]].
  - change (Fd c) with (Fd (masked DisableAll c)). rewrite (kernel_at s1 p _ Hok1 Hp1);
      unfold listed, masked, masked_to; rewrite Hi; done.
  - change (Fd c) with (Fd (masked DisableAll (masked DisableAll c))).
    rewrite (kernel_at s2 p _ Hok2 Hp2); unfold listed, masked, masked_to; rewrite Hi; done.
Qed.

(** A failing [epoll_ctl] goes unnoticed.  When the kernel refuses to add a
    channel, [enableReading] returns as if it had: the channel says [kAdded] and
    the kernel does not watch it. *)
Theorem add_failure_unnoticed {F K : Type} `{!Epoll K} (s : EpollPoller F K) (p : Z)
    (c : Channel F) :
  objects s !! p = Some c -> Index c = kNew -> interest (epollFd_ s) !! Fd c = None ->
  accepts (epollFd_ s) (Fd c) = false ->
  exists s' c', change_mask EnableReading p s = Ok s' /\ objects s' !! p = Some c' /\
    Index c' = kAdded /\ isReading c' = true /\ interest (epollFd_ s') !! Fd c = None.
Proof.
  intros Hp Hi Hn Ha. rewrite (change_mask_eq _ _ _ _ Hp), (store_mask_eq _ _ _ _ Hp).
  set (c1 := with_events c _). rewrite (updateChannel_add p _ c1); [|apply lookup_insert_eq|by left].
  do 2 eexists. split; [done|]. simpl. rewrite insert_insert_eq, lookup_insert_eq. split_and!; try done.
  - unfold isReading, has. simpl. rewrite Z.land_lor_distr_l, Z.land_diag.
    destruct (Z.eqb_spec (Z.lor (Z.land (Events c) kReadEvent) kReadEvent) 0) as [E|]; [|done].
    apply Z.lor_eq_0_iff in E as [_ E]. discriminate E.
  - destruct (ctl_fail EPOLL_CTL_ADD (epollFd_ s) (Fd c) (event_of p c1)) as [_ ->]; [by right|done].
Qed.

(** ** Witnesses: channel 1 on descriptor 5, reading *)
Definition demo_new : EpollPoller nat simple_epoll :=
  set_objects {[1 := Channel_new 0 5]} EpollPoller_new.
Definition demo_reading : EpollPoller nat simple_epoll :=
  match change_mask EnableReading 1 demo_new with Ok s => s | Fault _ => demo_new end.
Definition demo_disabled : EpollPoller nat simple_epoll :=
  match change_mask DisableAll 1 demo_reading with Ok s => s | Fault _ => demo_new end.
Definition demo_reading_channel : Channel nat :=
  mkChannel 0 5 3 0 kAdded 0 false None None None None.

Lemma demo_new_may_add : may_add demo_new (Channel_new 0 5).
Proof. split; intros; vm_compute; reflexivity. Qed.

Lemma demo_reading_eq : change_mask EnableReading 1 demo_new = Ok demo_reading.
Proof. vm_compute. reflexivity. Qed.

Lemma demo_reading_steps : rtc poller_step (false, EpollPoller_new) (false, demo_reading).
Proof.
  eapply rtc_l; [apply (ps_new false EpollPoller_new 1 0 5); reflexivity|].
  apply rtc_once.
  exact (ps_mask false demo_new demo_reading EnableReading 1 (Channel_new 0 5) eq_refl (fun _ => eq_refl) demo_reading_eq).
Qed.

Lemma demo_reading_ok : poller_ok demo_reading.
Proof.
  assert (poller_ok demo_new) as H by (apply (poller_ok_new EpollPoller_new); [apply EpollPoller_new_ok|done|done]).
  destruct (change_mask_ok EnableReading 1 demo_new (Channel_new 0 5) H eq_refl demo_new_may_add) as (s' & E & Hok & _).
  rewrite demo_reading_eq in E. by injection E as ->.
Qed.

Lemma poller_in_sync_witness :
  interest (epollFd_ demo_reading) !! 5 = Some (mkEpollEvent 3 1) /\
  exists c, objects demo_reading !! 1 = Some c /\ Fd c = 5 /\ Index c = kAdded.
Proof.
  assert (interest (epollFd_ demo_reading) !! 5 = Some (mkEpollEvent 3 1)) as E by (vm_compute; reflexivity).
  split; [exact E|]. apply (proj1 (poller_in_sync false demo_reading demo_reading_steps)) in E.
  destruct E as (c & Hc & Hf & Hi & _). exists c. split; [exact Hc|]. split; [exact Hf|exact Hi].
Defined.

Lemma change_mask_spec_witness :
  exists s', change_mask EnableReading 1 demo_new = Ok s' /\
    interest (epollFd_ s') !! 5 = Some (mkEpollEvent 3 1).
Proof.
  destruct (change_mask_spec demo_new EnableReading 1 (Channel_new 0 5)) as (s' & E & _ & _ & Hk).
  - exact (poller_ok_new EpollPoller_new 1 (Channel_new 0 5) EpollPoller_new_ok eq_refl eq_refl).
  - reflexivity.
  - exact demo_new_may_add.
  - exists s'. split; [exact E|exact Hk].
Defined.

Lemma demo_wait_ok : wait_ok (epollFd_ demo_reading) [mkEpollEvent 1 1].
Proof.
  split; [vm_compute; discriminate|]. exists [5]. split; [apply NoDup_singleton|].
  constructor; [|constructor]. exists (mkEpollEvent 3 1). split_and!; vm_compute; reflexivity.
Qed.

Lemma poll_reports_witness :
  exists s', poll (Done [mkEpollEvent 1 1]) demo_reading [] = Ok (s', [1]) /\ poller_ok s'.
Proof.
  destruct (poll_reports demo_reading [mkEpollEvent 1 1] [] demo_reading_ok demo_wait_ok)
    as (s' & E & Hok & _).
  exists s'. split; [exact E|exact Hok].
Defined.

Lemma disableAll_twice_listens_witness :
  exists s2, change_mask DisableAll 1 demo_disabled = Ok s2 /\
    interest (epollFd_ s2) !! 5 = Some (mkEpollEvent 0 1).
Proof.
  destruct (disableAll_twice_listens demo_reading demo_disabled 1 demo_reading_channel) as [_ H].
  - exact demo_reading_ok.
  - vm_compute. reflexivity.
  - reflexivity.
  - vm_compute. reflexivity.
  - vm_compute. reflexivity.
  - exact H.
Defined.

Lemma add_failure_unnoticed_witness :
  exists s' c', change_mask EnableReading 1
      (set_epoll (mkSimpleEpoll ∅ {[5]}) demo_new) = Ok s' /\ objects s' !! 1 = Some c' /\
    Index c' = kAdded /\ isReading c' = true /\ interest (epollFd_ s') !! 5 = None.
Proof.
  apply (add_failure_unnoticed (set_epoll (mkSimpleEpoll ∅ {[5]}) demo_new) 1 (Channel_new 0 5)); reflexivity.
Defined.
