(* ===== verification/EventLoop.v ===== *)
(** * EventLoop: polling, dispatch, functors and timers of one thread

    Models [include/Eventloop.h], [src/base/Eventloop.cpp],
    [src/base/DefaultPoller.cpp] and the parts of [TimerQueue] that go through
    the loop ([addTimer], [cancel], the destructor).  The functors and channel
    callbacks the library binds itself are constructors of [Functor] and
    [Callback]; the user's are values of an abstract type [U], run by the
    enclosing world, which also provides the clock, the results of system calls
    and the addresses [new] returns (class [LoopWorld]).  [tid] is the thread
    that executes the code.  This file is about one thread at a time; LoopConc
    interleaves threads. *)
From S2P Require Import Prelude Timestamp StdSet TimerQueue Channel EpollPoller.

(** ** The eventfd

    A parameter with the laws of eventfd(2) for a non-blocking descriptor: a
    counter that [write] increases unless it would exceed its maximum (EAGAIN),
    and that [read] resets unless it is zero (EAGAIN). *)
Class EventFd (E : Type) := {
  eventfd0 : E;
  counter : E -> Z;
  efd_write : E -> sysret unit * E;
  efd_read : E -> sysret unit * E;
  counter_new : counter eventfd0 = 0;
  counter_range e : 0 <= counter e <= two64 - 2;
  efd_write_ok e : counter e < two64 - 2 ->
    (efd_write e).1 = Done tt /\ counter (efd_write e).2 = counter e + 1;
  efd_write_full e : counter e = two64 - 2 ->
    (efd_write e).1 = Errno EAGAIN /\ counter (efd_write e).2 = counter e;
  efd_read_ok e : 0 < counter e ->
    (efd_read e).1 = Done tt /\ counter (efd_read e).2 = 0;
  efd_read_zero e : counter e = 0 ->
    (efd_read e).1 = Errno EAGAIN /\ counter (efd_read e).2 = 0
}.

(** ** What the loop runs *)
Inductive Functor (U : Type) :=
  | FUser (u : U)
  | FAddTimerInLoop (timer : Z)
  | FCancelInLoop (id : TimerId)
  | FUpdateChannel (channel : Z)
  | FRemoveChannelInLoop (channel : Z).
Arguments FUser {U}. Arguments FAddTimerInLoop {U}. Arguments FCancelInLoop {U}.
Arguments FUpdateChannel {U}. Arguments FRemoveChannelInLoop {U}.

Inductive Callback (U : Type) :=
  | CbUser (u : U)
  | CbWakeup
  | CbTimer.
Arguments CbUser {U}. Arguments CbWakeup {U}. Arguments CbTimer {U}.

(** ** The state *)
Record EventLoop (U K E : Type) := mkEventLoop {
  this_ : Z;
  looping_ : bool;
  quit_ : bool;
  callingPendingFunctors_ : bool;
  threadId_ : Z;
  pollReturnTime_ : Timestamp;
  poller_ : EpollPoller (Callback U) K;
  wakeupFd_ : E;
  wakeupChannel_ : Z;
  timerfdChannel_ : Z;
  activeChannels_ : list Z;
  currentActiveChannel_ : Z;
  pendingFunctors_ : list (Functor U);
  timerQueue_ : TimerQueue U;
  loopStartedCallback_ : option U;
  loop_errors : Z
}.
Arguments mkEventLoop {U K E}.
Arguments this_ {U K E}. Arguments looping_ {U K E}. Arguments quit_ {U K E}.
Arguments callingPendingFunctors_ {U K E}. Arguments threadId_ {U K E}.
Arguments pollReturnTime_ {U K E}. Arguments poller_ {U K E}. Arguments wakeupFd_ {U K E}.
Arguments wakeupChannel_ {U K E}. Arguments timerfdChannel_ {U K E}.
Arguments activeChannels_ {U K E}. Arguments currentActiveChannel_ {U K E}.
Arguments pendingFunctors_ {U K E}. Arguments timerQueue_ {U K E}.
Arguments loopStartedCallback_ {U K E}. Arguments loop_errors {U K E}.

Section fields.
Context {U K E : Type}.
Implicit Types l : EventLoop U K E.

Definition with_flags looping quit calling l : EventLoop U K E :=
  mkEventLoop (this_ l) looping quit calling (threadId_ l) (pollReturnTime_ l) (poller_ l)
    (wakeupFd_ l) (wakeupChannel_ l) (timerfdChannel_ l) (activeChannels_ l)
    (currentActiveChannel_ l) (pendingFunctors_ l) (timerQueue_ l) (loopStartedCallback_ l)
    (loop_errors l).
Definition with_poller po l : EventLoop U K E :=
  mkEventLoop (this_ l) (looping_ l) (quit_ l) (callingPendingFunctors_ l) (threadId_ l)
    (pollReturnTime_ l) po (wakeupFd_ l) (wakeupChannel_ l) (timerfdChannel_ l)
    (activeChannels_ l) (currentActiveChannel_ l) (pendingFunctors_ l) (timerQueue_ l)
    (loopStartedCallback_ l) (loop_errors l).
Definition with_wakeup e l : EventLoop U K E :=
  mkEventLoop (this_ l) (looping_ l) (quit_ l) (callingPendingFunctors_ l) (threadId_ l)
    (pollReturnTime_ l) (poller_ l) e (wakeupChannel_ l) (timerfdChannel_ l)
    (activeChannels_ l) (currentActiveChannel_ l) (pendingFunctors_ l) (timerQueue_ l)
    (loopStartedCallback_ l) (loop_errors l).
Definition with_active t active current l : EventLoop U K E :=
  mkEventLoop (this_ l) (looping_ l) (quit_ l) (callingPendingFunctors_ l) (threadId_ l)
    t (poller_ l) (wakeupFd_ l) (wakeupChannel_ l) (timerfdChannel_ l)
    active current (pendingFunctors_ l) (timerQueue_ l)
    (loopStartedCallback_ l) (loop_errors l).
Definition with_pending fs l : EventLoop U K E :=
  mkEventLoop (this_ l) (looping_ l) (quit_ l) (callingPendingFunctors_ l) (threadId_ l)
    (pollReturnTime_ l) (poller_ l) (wakeupFd_ l) (wakeupChannel_ l) (timerfdChannel_ l)
    (activeChannels_ l) (currentActiveChannel_ l) fs (timerQueue_ l)
    (loopStartedCallback_ l) (loop_errors l).
Definition with_timers q l : EventLoop U K E :=
  mkEventLoop (this_ l) (looping_ l) (quit_ l) (callingPendingFunctors_ l) (threadId_ l)
    (pollReturnTime_ l) (poller_ l) (wakeupFd_ l) (wakeupChannel_ l) (timerfdChannel_ l)
    (activeChannels_ l) (currentActiveChannel_ l) (pendingFunctors_ l) q
    (loopStartedCallback_ l) (loop_errors l).
Definition log_error l : EventLoop U K E :=
  mkEventLoop (this_ l) (looping_ l) (quit_ l) (callingPendingFunctors_ l) (threadId_ l)
    (pollReturnTime_ l) (poller_ l) (wakeupFd_ l) (wakeupChannel_ l) (timerfdChannel_ l)
    (activeChannels_ l) (currentActiveChannel_ l) (pendingFunctors_ l) (timerQueue_ l)
    (loopStartedCallback_ l) (loop_errors l + 1).

Definition isInLoopThread (tid : Z) l : bool := threadId_ l =? tid.
End fields.

(** ** The world around the loop *)
Class LoopWorld (U K E W : Type) := {
  loop_ : W -> EventLoop U K E;
  set_loop : EventLoop U K E -> W -> W;
  loop_set w l : loop_ (set_loop l w) = l;
  (** user code, and whether it threw *)
  run_user : U -> option Timestamp -> W -> res (W * bool);
  (** [weak_ptr::lock] and the end of the guard, for tied channels *)
  lock_object : Z -> W -> option W;
  unlock_object : Z -> W -> res W;
  (** [Timestamp::now()], [timerfd_settime], [new Timer] with [s_numCreated_],
      the inputs of [TimerQueue::handleRead], and [epoll_wait] *)
  read_clock : W -> Timestamp * W;
  settime : W -> option Z * W;
  new_timer : W -> Z * Z * W;
  timer_env : W -> read_env * W;
  wait : W -> sysret (list epoll_event) * W;
  clock_loop w : loop_ (read_clock w).2 = loop_ w;
  settime_loop w : loop_ (settime w).2 = loop_ w;
  new_timer_loop w : loop_ (new_timer w).2 = loop_ w;
  timer_env_loop w : loop_ (timer_env w).2 = loop_ w;
  wait_loop w : loop_ (wait w).2 = loop_ w
}.

Section ops.
Context {U K E W : Type} `{!Epoll K} `{!EventFd E} `{!LoopWorld U K E W}.
(** [erased_first]: what [cancelInLoop] reads from the erased node. *)
Context (erased_first : Z -> Z).
Implicit Types (w : W) (l : EventLoop U K E) (tid p : Z).

Definition on_loop (f : EventLoop U K E -> EventLoop U K E) w : W := set_loop (f (loop_ w)) w.
Definition try_loop (f : EventLoop U K E -> res (EventLoop U K E)) w : res W :=
  l ← f (loop_ w); Ok (set_loop l w).

Lemma loop_on w f : loop_ (on_loop f w) = f (loop_ w).
Proof. apply loop_set. Qed.

Lemma timers_on w q : timerQueue_ (loop_ (on_loop (with_timers q) w)) = q.
Proof. by rewrite loop_on. Qed.

#[local] Instance loop_timer_world : TimerWorld U W := {
  queue w := timerQueue_ (loop_ w);
  set_queue q w := on_loop (with_timers q) w;
  run_callback u w := run_user u None w;
  queue_set := timers_on
}.

(** *** Waking up *)
Definition wakeup_errno (e : Z) l : res (EventLoop U K E) :=
  if e =? EAGAIN then Ok l
  else if (e =? EBADF) || (e =? EINVAL) then Fault FatalExit
  else Ok (log_error l).

Definition wakeup l : res (EventLoop U K E) :=
  let '(n, e) := efd_write (wakeupFd_ l) in
  let l := with_wakeup e l in
  match n with Done _ => Ok l | Errno err => wakeup_errno err l end.

(** [EventLoop::handleRead] *)
Definition handleRead l : res (EventLoop U K E) :=
  let '(n, e) := efd_read (wakeupFd_ l) in
  let l := with_wakeup e l in
  match n with Done _ => Ok l | Errno err => wakeup_errno err l end.

Definition quit tid l : res (EventLoop U K E) :=
  let l := with_flags (looping_ l) true (callingPendingFunctors_ l) l in
  if negb (isInLoopThread tid l) then wakeup l else Ok l.

(** *** Functors *)
Definition queueInLoop tid (cb : Functor U) l : res (EventLoop U K E) :=
  let l := with_pending (pendingFunctors_ l ++ [cb]) l in
  if negb (isInLoopThread tid l) || callingPendingFunctors_ l then wakeup l else Ok l.

Definition channel_of l p : res (Channel (Callback U)) := channel (poller_ l) p.

(** [removeChannel] of the poller unless the channel is being handled; the body
    of [removeChannelInLoop] and of the loop-thread branch of [removeChannel]. *)
Definition remove_unless_current p l : res (EventLoop U K E) :=
  if currentActiveChannel_ l =? p then Ok (log_error l)
  else po ← EpollPoller.removeChannel p (poller_ l); Ok (with_poller po l).

Definition removeChannelInLoop tid p l : res (EventLoop U K E) :=
  c ← channel_of l p;
  _ ← assert (Loop c =? this_ l);
  _ ← assert (isInLoopThread tid l);
  remove_unless_current p l.

(** Calling a functor; the result tells whether it threw.  The inputs of
    [resetTimerfd] are drawn whether or not [addTimerInLoop] comes to need them. *)
Definition run_functor tid (f : Functor U) w : res (W * bool) :=
  match f with
  | FUser u => run_user u None w
  | FAddTimerInLoop timer =>
      let '(now, w) := read_clock w in
      let '(ret, w) := settime w in
      q ← addTimerInLoop (isInLoopThread tid (loop_ w)) timer now ret (timerQueue_ (loop_ w));
      Ok (on_loop (with_timers q) w, false)
  | FCancelInLoop id =>
      q ← cancelInLoop erased_first (isInLoopThread tid (loop_ w)) id (timerQueue_ (loop_ w));
      Ok (on_loop (with_timers q) w, false)
  | FUpdateChannel p =>
      w ← try_loop (fun l => po ← EpollPoller.updateChannel p (poller_ l); Ok (with_poller po l)) w;
      Ok (w, false)
  | FRemoveChannelInLoop p => w ← try_loop (removeChannelInLoop tid p) w; Ok (w, false)
  end.

Definition runInLoop tid (cb : Functor U) w : res (W * bool) :=
  if isInLoopThread tid (loop_ w) then run_functor tid cb w
  else w ← try_loop (queueInLoop tid cb) w; Ok (w, false).

(** One turn of the loop of [doPendingFunctors]: exceptions are logged. *)
Definition run_pending tid (f : Functor U) w : res W :=
  '(w, threw) ← run_functor tid f w;
  Ok (if threw : bool then on_loop log_error w else w).

Definition doPendingFunctors tid w : res W :=
  let w := on_loop (fun l => with_flags (looping_ l) (quit_ l) true l) w in
  let functors := pendingFunctors_ (loop_ w) in
  let w := on_loop (with_pending []) w in
  w ← for_each (run_pending tid) functors w;
  Ok (on_loop (fun l => with_flags (looping_ l) (quit_ l) false l) w).

(** *** Channels *)
Definition updateChannel tid p w : res W :=
  c ← channel_of (loop_ w) p;
  _ ← assert (Loop c =? this_ (loop_ w));
  if isInLoopThread tid (loop_ w) then
    try_loop (fun l => po ← EpollPoller.updateChannel p (poller_ l); Ok (with_poller po l)) w
  else '(w, _) ← runInLoop tid (FUpdateChannel p) w; Ok w.

Definition removeChannel tid p w : res W :=
  c ← channel_of (loop_ w) p;
  _ ← assert (Loop c =? this_ (loop_ w));
  if isInLoopThread tid (loop_ w) then try_loop (remove_unless_current p) w
  else '(w, _) ← runInLoop tid (FRemoveChannelInLoop p) w; Ok w.

Definition hasChannel tid p l : res bool :=
  c ← channel_of l p;
  _ ← assert (Loop c =? this_ l);
  _ ← assert (isInLoopThread tid l);
  EpollPoller.hasChannel p (poller_ l).

(** [Channel::enableReading], ... : the mask at once, the poller through the loop. *)
Definition set_mask tid (o : mask_op) p w : res W :=
  w ← try_loop (fun l => po ← modify p (fun c => with_events c (mask o (Events c))) (poller_ l);
                          Ok (with_poller po l)) w;
  updateChannel tid p w.

(** *** Timers *)
Definition addTimer tid (cb : option U) (when : Timestamp) (interval : double) w
    : res (W * TimerId) :=
  match cb with
  | None => Ok (on_loop log_error w, TimerId_default)
  | Some cb =>
      let '(p, s_numCreated_, w) := new_timer w in
      let timer := (Timer_new (Some cb) when interval s_numCreated_).1 in
      let w := on_loop (fun l =>
        with_timers (set_heap (<[p := timer]> (heap (timerQueue_ l))) (timerQueue_ l)) l) w in
      '(w, threw) ← runInLoop tid (FAddTimerInLoop p) w;
      t ← deref (timerQueue_ (loop_ w)) p;
      Ok (w, mkTimerId p (sequence_ t))
  end.

Definition queue_cancel tid (id : TimerId) w : res W :=
  '(w, _) ← runInLoop tid (FCancelInLoop id) w; Ok w.

Definition runAt tid (time : Timestamp) (cb : option U) w : res (W * TimerId) :=
  match cb with
  | None => Ok (on_loop log_error w, TimerId_default)
  | Some _ =>
      if negb (valid time) then Ok (on_loop log_error w, TimerId_default)
      else addTimer tid cb time dzero w
  end.

Definition runAfter tid (delay : double) (cb : option U) w : res (W * TimerId) :=
  if dltb delay dzero then Ok (on_loop log_error w, TimerId_default)
  else
    let '(now, w) := read_clock w in
    time ← addTime now delay;
    runAt tid time cb w.

Definition runEvery tid (interval : double) (cb : option U) w : res (W * TimerId) :=
  if dleb interval dzero then Ok (on_loop log_error w, TimerId_default)
  else
    let '(now, w) := read_clock w in
    time ← addTime now interval;
    addTimer tid cb time interval w.

Definition cancel tid (id : TimerId) w : res W :=
  if negb (isValid id) then Ok (on_loop log_error w)
  else queue_cancel tid id w.

(** *** The loop *)
Definition run_channel_callback tid (f : Callback U) (t : option Timestamp) w : res (W * bool) :=
  match f with
  | CbUser u => run_user u t w
  | CbWakeup => w ← try_loop handleRead w; Ok (w, false)
  | CbTimer =>
      let '(env, w) := timer_env w in
      w ← TimerQueue.handleRead (isInLoopThread tid (loop_ w)) env w;
      Ok (w, false)
  end.

#[local] Instance loop_channel_world (tid : Z) : ChannelWorld (Callback U) W := {
  chans w := objects (poller_ (loop_ w));
  run := run_channel_callback tid;
  lock := lock_object;
  unlock := unlock_object
}.

Definition handle_active tid (t : Timestamp) p w : res W :=
  let w := on_loop (fun l => with_active (pollReturnTime_ l) (activeChannels_ l) p l) w in
  handleEvent (ChannelWorld0 := loop_channel_world tid) p t w.

(** One turn of the [while] loop. *)
Definition iteration tid w : res W :=
  let '(ret, w) := wait w in
  let '(now, w) := read_clock w in
  '(po, active) ← poll ret (poller_ (loop_ w)) [];
  let w := on_loop (fun l => with_active now active (currentActiveChannel_ l) (with_poller po l)) w in
  w ← for_each (handle_active tid now) active w;
  let w := on_loop (fun l => with_active (pollReturnTime_ l) (activeChannels_ l) nullptr l) w in
  doPendingFunctors tid w.

(** [while (!quit_)], with at most [fuel] turns; [None] when they do not suffice. *)
Fixpoint while_not_quit (fuel : nat) tid w : res (option W) :=
  if quit_ (loop_ w) then Ok (Some w)
  else match fuel with
       | O => Ok None
       | S fuel => w ← iteration tid w; while_not_quit fuel tid w
       end.

Definition call_user (u : option U) w : res W :=
  match u with
  | None => Ok w
  | Some u =>
      '(w, threw) ← run_user u None w; if threw : bool then Fault UncaughtException else Ok w
  end.

Definition loop (fuel : nat) tid w : res (option W) :=
  _ ← assert (negb (looping_ (loop_ w)));
  _ ← assert (isInLoopThread tid (loop_ w));
  let w := on_loop (fun l => with_flags true (quit_ l) (callingPendingFunctors_ l) l) w in
  w ← call_user (loopStartedCallback_ (loop_ w)) w;
  ow ← while_not_quit fuel tid w;
  Ok (option_map (on_loop (fun l => with_flags false (quit_ l) (callingPendingFunctors_ l) l)) ow).

(** *** Construction and destruction *)

(** [newDefaultPoller]: no poller when MUDUO_USE_POLL is set. *)
Definition newDefaultPoller (use_poll : bool) : option (EpollPoller (Callback U) K) :=
  if use_poll then None else Some EpollPoller_new.

(** Addresses and descriptors the constructor obtains. *)
Record new_env := mkNewEnv {
  ne_this : Z;
  ne_tid : Z;
  ne_wakeup : Z;
  ne_wakeupFd : Z;
  ne_timer : Z;
  ne_timerFd : Z
}.

(** The constructor, with [TimerQueue]'s: [t_loopInThisThread] is the value of the
    thread-local variable. *)
Definition EventLoop_new (use_poll : bool) (t_loopInThisThread : Z) (env : new_env)
    : res (EventLoop U K E) :=
  match newDefaultPoller use_poll with
  | None => Fault DanglingPointer
  | Some po =>
      let po := set_objects (<[ne_wakeup env := Channel_new (ne_this env) (ne_wakeupFd env)]> (objects po)) po in
      let po := set_objects (<[ne_timer env :=
        setReadCallback (Channel_new (ne_this env) (ne_timerFd env)) (Some CbTimer)]> (objects po)) po in
      po ← change_mask EnableReading (ne_timer env) po;
      if negb (t_loopInThisThread =? nullptr) then Fault FatalExit
      else
        po ← modify (ne_wakeup env) (fun c => setReadCallback c (Some CbWakeup)) po;
        po ← change_mask EnableReading (ne_wakeup env) po;
        Ok (mkEventLoop (ne_this env) false false false (ne_tid env) Timestamp_default po eventfd0
              (ne_wakeup env) (ne_timer env) [] nullptr [] TimerQueue_new None 0)
  end.

(** [createEventfd] and [createTimerfd]: [LOG_FATAL] when the system gives no descriptor. *)
Definition createEventfd (evtfd : sysret Z) : res Z :=
  match evtfd with Done fd => Ok fd | Errno _ => Fault FatalExit end.
Definition createTimerfd (timerfd : sysret Z) : res Z :=
  match timerfd with Done fd => Ok fd | Errno _ => Fault FatalExit end.

(** The constructor with the calls that create its descriptors. *)
Definition EventLoop_create (use_poll : bool) (t_loopInThisThread : Z) (evtfd timerfd : sysret Z) (env : new_env)
    : res (EventLoop U K E) :=
  fd ← createEventfd evtfd;
  tfd ← createTimerfd timerfd;
  EventLoop_new use_poll t_loopInThisThread
    (mkNewEnv (ne_this env) (ne_tid env) (ne_wakeup env) fd (ne_timer env) tfd).

(** The destructor, then that of the member [timerQueue_]. *)
Definition EventLoop_destroy tid w : res W :=
  w ← set_mask tid DisableAll (wakeupChannel_ (loop_ w)) w;
  w ← try_loop (fun l => po ← EpollPoller.removeChannel (wakeupChannel_ l) (poller_ l);
                          Ok (with_poller po l)) w;
  w ← set_mask tid DisableAll (timerfdChannel_ (loop_ w)) w;
  w ← removeChannel tid (timerfdChannel_ (loop_ w)) w;
  q ← TimerQueue_destroy (timerQueue_ (loop_ w));
  Ok (on_loop (with_timers q) w).
End ops.

(** ** Functors

    [grown l l'] says what code run by the loop thread may do to the queue of
    functors: append to it, waking the loop up if functors are being run, and
    never undo a wakeup. *)
Section functors.
Context {U K E W : Type} `{!Epoll K} `{!EventFd E} `{!LoopWorld U K E W}.
Implicit Types (l : EventLoop U K E) (w : W).

Definition woken l : Prop := 0 < counter (wakeupFd_ l).

Record grown l l' : Prop := {
  gr_pending : exists new, pendingFunctors_ l' = pendingFunctors_ l ++ new /\
    (new <> [] -> callingPendingFunctors_ l = true -> woken l');
  gr_calling : callingPendingFunctors_ l' = callingPendingFunctors_ l;
  gr_woken : woken l -> woken l'
}.

Lemma grown_refl l : grown l l.
Proof. split; [|done|done]. exists []. by rewrite app_nil_r. Qed.

Lemma grown_trans l1 l2 l3 : grown l1 l2 -> grown l2 l3 -> grown l1 l3.
Proof.
  intros [(n1 & H1 & K1) C1 W1] [(n2 & H2 & K2) C2 W2]. split; [|congruence|auto].
  exists (n1 ++ n2). rewrite H2, H1, app_assoc. split; [done|]. intros Hn Hc.
  destruct n2 as [|f n2]; [rewrite app_nil_r in Hn; auto|]. apply K2; congruence.
Qed.

Lemma grown_same l l' :
  pendingFunctors_ l' = pendingFunctors_ l -> callingPendingFunctors_ l' = callingPendingFunctors_ l ->
  wakeupFd_ l' = wakeupFd_ l -> grown l l'.
Proof.
  intros Hp Hc He. split; [|done|unfold woken; by rewrite He].
  exists []. by rewrite app_nil_r.
Qed.

(** A write never fails to leave the counter positive. *)
Lemma wakeup_ok l : exists l', wakeup l = Ok l' /\ woken l' /\
  pendingFunctors_ l' = pendingFunctors_ l /\ quit_ l' = quit_ l /\
  callingPendingFunctors_ l' = callingPendingFunctors_ l.
Proof.
  unfold wakeup. pose proof (counter_range (wakeupFd_ l)) as Hr.
  destruct (efd_write (wakeupFd_ l)) as [n e] eqn:Ew.
  destruct (decide (counter (wakeupFd_ l) = two64 - 2)) as [Hf|Hf].
  - destruct (efd_write_full _ Hf) as [H1 H2]. rewrite Ew in H1, H2. simpl in H1, H2. subst n.
    unfold wakeup_errno. rewrite Z.eqb_refl. eexists. split; [done|]. unfold woken, two64 in *. simpl.
    split_and!; try done. lia.
  - destruct (efd_write_ok (wakeupFd_ l)) as [H1 H2]; [lia|]. rewrite Ew in H1, H2. simpl in H1, H2.
    subst n. eexists. split; [done|]. unfold woken. simpl. split_and!; try done. lia.
Qed.

Lemma queueInLoop_ok tid f l :
  exists l', queueInLoop tid f l = Ok l' /\
    pendingFunctors_ l' = pendingFunctors_ l ++ [f] /\
    callingPendingFunctors_ l' = callingPendingFunctors_ l /\ (woken l -> woken l') /\
    (isInLoopThread tid l = false \/ callingPendingFunctors_ l = true -> woken l').
Proof.
  unfold queueInLoop. set (l1 := with_pending _ l).
  destruct (negb (isInLoopThread tid l1) || callingPendingFunctors_ l1) eqn:Eb.
  - destruct (wakeup_ok l1) as (l' & -> & Hw & Hp & _ & Hc). exists l'. split_and!; try done.
  - exists l1. apply orb_false_iff in Eb as [E1%negb_false_iff E2]. split_and!; try done.
    intros [H|H]; [unfold isInLoopThread in *; simpl in E1; congruence|simpl in E2; congruence].
Qed.

Lemma queueInLoop_grown tid f l l' : queueInLoop tid f l = Ok l' -> grown l l'.
Proof.
  intros E1. destruct (queueInLoop_ok tid f l) as (l1 & E2 & Hp & Hc & Hw & Hwake).
  rewrite E1 in E2. injection E2 as <-. split; [|done|done]. exists [f]. split; [done|]. auto.
Qed.
End functors.

(** What the loop asks of the functors it runs: in worlds that satisfy [J], a
    functor that is [safe] returns, normally or by an exception, keeps [J] and
    treats the queue as [grown] says.  [J] depends on the loop only through the
    poller and the timers. *)
Class LoopClient {U K E W : Type} `{!Epoll K} `{!EventFd E} `{!LoopWorld U K E W}
    (ef : Z -> Z) (tid : Z) (J : W -> Prop) (safe : Functor U -> Prop) : Prop := {
  client_runs f w :
    J w -> safe f -> exists w' threw, run_functor ef tid f w = Ok (w', threw) /\ J w' /\
      grown (loop_ w) (loop_ w');
  client_frame w l :
    J w -> poller_ l = poller_ (loop_ w) -> timerQueue_ l = timerQueue_ (loop_ w) -> J (set_loop l w)
}.

Section pending.
Context {U K E W : Type} `{!Epoll K} `{!EventFd E} `{!LoopWorld U K E W}.
Context (ef : Z -> Z) (tid : Z) (J : W -> Prop) (safe : Functor U -> Prop).
Context `{!LoopClient ef tid J safe}.

Lemma run_pending_ok f w :
  J w -> safe f -> exists w', run_pending ef tid f w = Ok w' /\ J w' /\ grown (loop_ w) (loop_ w').
Proof.
  intros Hj Hs. destruct (client_runs f w Hj Hs) as (w1 & threw & E1 & Hj1 & Hg).
  unfold run_pending. rewrite E1. simpl. eexists. split; [done|].
  destruct threw; [|done]. split; [by apply client_frame|].
  eapply grown_trans; [exact Hg|]. unfold on_loop. rewrite loop_set. by apply grown_same.
Qed.

Lemma run_pending_all fs w :
  J w -> Forall safe fs ->
  exists w', for_each (run_pending ef tid) fs w = Ok w' /\ J w' /\ grown (loop_ w) (loop_ w').
Proof.
  intros Hj Hs. revert w Hj. induction Hs as [|f fs Hf Hs IH]; intros w Hj; simpl.
  { exists w. split_and!; auto using grown_refl. }
  destruct (run_pending_ok f w Hj Hf) as (w1 & -> & Hj1 & Hg1). simpl.
  destruct (IH w1 Hj1) as (w2 & -> & Hj2 & Hg2). eauto using grown_trans.
Qed.

(** The pending functors are run; those queued meanwhile are left for the next
    turn, whose poll will not block. *)
Lemma doPendingFunctors_ok w :
  J w -> Forall safe (pendingFunctors_ (loop_ w)) ->
  exists w', doPendingFunctors ef tid w = Ok w' /\ J w' /\
    callingPendingFunctors_ (loop_ w') = false /\
    (pendingFunctors_ (loop_ w') <> [] -> woken (loop_ w')) /\ (woken (loop_ w) -> woken (loop_ w')).
Proof.
  intros Hj Hs. unfold doPendingFunctors. rewrite !loop_on. cbv zeta.
  set (w1 := on_loop (with_pending []) _).
  assert (loop_ w1 = with_pending [] (with_flags (looping_ (loop_ w)) (quit_ (loop_ w)) true (loop_ w)))
    as E1 by (subst w1; rewrite !loop_on; done).
  assert (J w1) as Hj1.
  { subst w1. unfold on_loop. apply client_frame; [apply client_frame; done| |]; by rewrite !loop_set. }
  destruct (run_pending_all (pendingFunctors_ (loop_ w)) w1 Hj1 Hs) as (w2 & E2 & Hj2 & [(new & Hp & Hw) Hc Hwk]).
  simpl. rewrite E2. simpl. rewrite E1 in Hp, Hw, Hwk. simpl in Hp, Hw, Hwk. eexists. split; [done|].
  rewrite loop_on. simpl. split; [unfold on_loop; by apply client_frame|]. split_and!; try done.
  rewrite Hp. auto.
Qed.
End pending.

(** ** A client: scripts

    User code is a number, [body] gives what it does to the loop. *)
Definition clamp (e : Z) : Z := Z.max 0 (Z.min e (two64 - 2)).

Lemma clamp_range e : 0 <= clamp e <= two64 - 2.
Proof. unfold clamp, two64. lia. Qed.

Lemma clamp_id e : 0 <= e <= two64 - 2 -> clamp e = e.
Proof. unfold clamp. lia. Qed.

#[global, program] Instance simple_eventfd : EventFd Z := {
  eventfd0 := 0;
  counter := clamp;
  efd_write e := if clamp e <? two64 - 2 then (Done tt, clamp e + 1) else (Errno EAGAIN, e);
  efd_read e := if 0 <? clamp e then (Done tt, 0) else (Errno EAGAIN, e);
  counter_range := clamp_range
}.
Next Obligation. done. Qed.
Next Obligation.
  intros e He; cbv beta. destruct (Z.ltb_spec (clamp e) (two64 - 2)); [|lia].
  split; [done|]. apply clamp_id. pose proof (clamp_range e). lia.
Qed.
Next Obligation. intros e He; cbv beta. by destruct (Z.ltb_spec (clamp e) (two64 - 2)); [lia|]. Qed.
Next Obligation. intros e He; cbv beta. by destruct (Z.ltb_spec 0 (clamp e)); [|lia]. Qed.
Next Obligation. intros e He; cbv beta. by destruct (Z.ltb_spec 0 (clamp e)); [lia|]. Qed.

Inductive loop_action :=
  | LQueue (u : nat)
  | LQuit
  | LThrow.

Record script_loop := mkScriptLoop {
  sl_loop : EventLoop nat simple_epoll Z;
  sl_ran : list nat;
  sl_clock : Timestamp;
  sl_settime : option Z;
  sl_new : Z * Z;
  sl_env : read_env;
  sl_wait : list (list epoll_event)
}.

Definition with_sl_loop l (w : script_loop) : script_loop :=
  mkScriptLoop l (sl_ran w) (sl_clock w) (sl_settime w) (sl_new w) (sl_env w) (sl_wait w).

Section script.
Context (tid : Z) (body : nat -> list loop_action).
Implicit Types w : script_loop.

Definition loop_action_run (a : loop_action) w : res (script_loop * bool) :=
  match a with
  | LQueue u => l ← queueInLoop tid (FUser u) (sl_loop w); Ok (with_sl_loop l w, false)
  | LQuit => l ← quit tid (sl_loop w); Ok (with_sl_loop l w, false)
  | LThrow => Ok (w, true)
  end.

Fixpoint loop_script (l : list loop_action) w : res (script_loop * bool) :=
  match l with
  | [] => Ok (w, false)
  | a :: l =>
      '(w, threw) ← loop_action_run a w;
      if threw : bool then Ok (w, true) else loop_script l w
  end.

Definition loop_body (u : nat) (_ : option Timestamp) w : res (script_loop * bool) :=
  loop_script (body u)
    (mkScriptLoop (sl_loop w) (sl_ran w ++ [u]) (sl_clock w) (sl_settime w) (sl_new w)
      (sl_env w) (sl_wait w)).

#[local] Instance script_loop_world : LoopWorld nat simple_epoll Z script_loop := {
  loop_ := sl_loop;
  set_loop := with_sl_loop;
  loop_set w l := eq_refl;
  run_user := loop_body;
  lock_object _ w := Some w;
  unlock_object _ w := Ok w;
  read_clock w := (sl_clock w, w);
  settime w := (sl_settime w, w);
  new_timer w := (sl_new w,
    mkScriptLoop (sl_loop w) (sl_ran w) (sl_clock w) (sl_settime w)
      ((sl_new w).1 + 1, (sl_new w).2 + 1) (sl_env w) (sl_wait w));
  timer_env w := (sl_env w, w);
  wait w := (Done (hd [] (sl_wait w)),
    mkScriptLoop (sl_loop w) (sl_ran w) (sl_clock w) (sl_settime w) (sl_new w) (sl_env w)
      (tl (sl_wait w)));
  clock_loop w := eq_refl;
  settime_loop w := eq_refl;
  new_timer_loop w := eq_refl;
  timer_env_loop w := eq_refl;
  wait_loop w := eq_refl
}.

(** What a script queues, up to where it throws. *)
Fixpoint queued (l : list loop_action) : list nat :=
  match l with
  | LQueue u :: l => u :: queued l
  | LQuit :: l => queued l
  | LThrow :: _ | [] => []
  end.

Definition queues w us (w' : script_loop) : Prop :=
  grown (sl_loop w) (sl_loop w') /\ sl_ran w' = sl_ran w /\
  pendingFunctors_ (sl_loop w') = pendingFunctors_ (sl_loop w) ++ (FUser <$> us).

Lemma queues_refl w : queues w [] w.
Proof. split_and!; [apply grown_refl|done|by rewrite app_nil_r]. Qed.

Lemma queues_trans w us1 w1 us2 w2 : queues w us1 w1 -> queues w1 us2 w2 -> queues w (us1 ++ us2) w2.
Proof.
  intros (H1 & H2 & H3) (G1 & G2 & G3). split_and!; [by eapply grown_trans|congruence|].
  by rewrite G3, H3, fmap_app, app_assoc.
Qed.

Lemma quit_grown (l : EventLoop nat simple_epoll Z) : exists l', quit tid l = Ok l' /\ grown l l' /\
  pendingFunctors_ l' = pendingFunctors_ l.
Proof.
  unfold quit. destruct (negb _); [|by eexists; split_and!; [done|apply grown_same|]].
  destruct (wakeup_ok (with_flags (looping_ l) true (callingPendingFunctors_ l) l))
    as (l' & -> & Hw & Hp & _ & Hc).
  exists l'. split_and!; try done. split; [|done|done]. exists []. by rewrite app_nil_r.
Qed.

Lemma loop_script_queues l w :
  exists w' threw, loop_script l w = Ok (w', threw) /\ queues w (queued l) w'.
Proof.
  revert w. induction l as [|[u| |] l IH]; intros w; simpl.
  - eauto using queues_refl.
  - destruct (queueInLoop_ok tid (FUser u) (sl_loop w)) as (l1 & E1 & Hp & _). rewrite E1. simpl.
    destruct (IH (with_sl_loop l1 w)) as (w2 & threw & -> & Hq). do 2 eexists. split; [done|].
    apply (queues_trans w [u] (with_sl_loop l1 w)); [|done].
    split_and!; [by eapply queueInLoop_grown|done|done].
  - destruct (quit_grown (sl_loop w)) as (l1 & -> & Hg & Hp). simpl.
    destruct (IH (with_sl_loop l1 w)) as (w2 & threw & -> & Hq). do 2 eexists. split; [done|].
    apply (queues_trans w [] (with_sl_loop l1 w)); [|done].
    split_and!; [done|done|]. simpl. by rewrite Hp, app_nil_r.
  - eauto using queues_refl.
Qed.

Lemma loop_body_queues u t w :
  exists w' threw, loop_body u t w = Ok (w', threw) /\ grown (sl_loop w) (sl_loop w') /\
    sl_ran w' = sl_ran w ++ [u] /\
    pendingFunctors_ (sl_loop w') = pendingFunctors_ (sl_loop w) ++ (FUser <$> queued (body u)).
Proof.
  unfold loop_body. destruct (loop_script_queues (body u)
    (mkScriptLoop (sl_loop w) (sl_ran w ++ [u]) (sl_clock w) (sl_settime w) (sl_new w)
      (sl_env w) (sl_wait w))) as (w' & threw & E & Hg & Hr & Hp). eauto 10.
Qed.

#[local] Instance script_loop_client (ef : Z -> Z) :
  LoopClient ef tid (fun _ => True) (fun f => exists u, f = FUser u).
Proof.
  split; [|done]. intros f w _ [u ->]. simpl.
  destruct (loop_body_queues u None w) as (w' & threw & -> & Hg & _). eauto 10.
Qed.

Lemma run_pending_script ef us w :
  exists w', for_each (run_pending ef tid) (FUser <$> us) w = Ok w' /\
    sl_ran w' = sl_ran w ++ us /\
    pendingFunctors_ (sl_loop w')
    = pendingFunctors_ (sl_loop w) ++ (FUser <$> concat (queued ∘ body <$> us)).
Proof.
  revert w. induction us as [|u us IH]; intros w.
  { exists w. simpl. by rewrite !app_nil_r. }
  destruct (loop_body_queues u None w) as (w1 & threw & E1 & _ & Hr & Hp).
  set (w2 := if threw then on_loop log_error w1 else w1).
  assert (run_pending ef tid (FUser u) w = Ok w2) as E2.
  { unfold run_pending, run_functor. change (run_user u None w) with (loop_body u None w).
    by rewrite E1. }
  rewrite fmap_cons. cbn [for_each]. rewrite E2, bind_ret_l.
  assert (sl_ran w2 = sl_ran w1 /\ pendingFunctors_ (sl_loop w2) = pendingFunctors_ (sl_loop w1))
    as [G1 G2] by (subst w2; by destruct threw).
  destruct (IH w2) as (w3 & -> & H1 & H2). exists w3. split; [done|].
  rewrite H1, H2, G1, G2, Hr, Hp, <- !app_assoc. simpl. by rewrite fmap_app.
Qed.
End script.
