(* ===== verification/LoopRun.v ===== *)
(** * LoopRun: properties of the event loop

    Functors run in order and exactly once, timers set through the loop are
    armed, construction registers the loop's own channels, and the inputs the
    timer interface rejects or does not reject. *)
From Stdlib Require Import SpecFloat.
From S2P Require Import Prelude Timestamp StdSet TimerQueue Channel EpollPoller EventLoop.

Section timers.
Context {U K E W : Type} `{!Epoll K} `{!EventFd E} `{!LoopWorld U K E W} (ef : Z -> Z).
Implicit Types (w : W) (tid : Z).

(** [addTimer] in the loop thread. *)
Lemma addTimer_in_loop tid cb when interval w p n w1 now w2 w3 :
  isInLoopThread tid (loop_ w) = true -> queue_ok ∅ (timerQueue_ (loop_ w)) ->
  new_timer w = (p, n, w1) -> heap (timerQueue_ (loop_ w)) !! p = None -> 0 < p < UINTPTR_MAX ->
  let t := (Timer_new (Some cb) when interval n).1 in
  let w1' := on_loop (fun l =>
    with_timers (set_heap (<[p := t]> (heap (timerQueue_ l))) (timerQueue_ l)) l) w1 in
  read_clock w1' = (now, w2) -> settime w2 = (None, w3) -> in_int64 (when - now) = true ->
  exists w', addTimer ef tid (Some cb) when interval w = Ok (w', mkTimerId p n) /\
    queue_ok ∅ (timerQueue_ (loop_ w')) /\
    heap (timerQueue_ (loop_ w')) = <[p := t]> (heap (timerQueue_ (loop_ w))) /\
    timers_ (timerQueue_ (loop_ w')) ≡ₚ (when, p) :: timers_ (timerQueue_ (loop_ w)) /\
    pendingFunctors_ (loop_ w') = pendingFunctors_ (loop_ w).
Proof.
  intros Hin Hok Enew Hp Hpr t w1' Ec Es Hr.
  pose proof (new_timer_loop w) as H1. rewrite Enew in H1. simpl in H1.
  pose proof (clock_loop w1') as H2. rewrite Ec in H2. simpl in H2.
  pose proof (settime_loop w2) as H3. rewrite Es in H3. simpl in H3.
  assert (loop_ w1' = with_timers (set_heap (<[p := t]> (heap (timerQueue_ (loop_ w)))) (timerQueue_ (loop_ w)))
    (loop_ w)) as H0 by (subst w1'; rewrite loop_on, H1; done).
  pose proof (queue_ok_new ∅ _ p t Hok Hp Hpr) as Hok1.
  destruct (addTimerInLoop_ok _ _ p t now Hok1) as (q & Eq & Hokq & Hh & Hperm & _);
    [set_solver|apply lookup_insert_eq|exact Hr|].
  assert (({[p]} ∪ ∅) ∖ {[p]} = (∅ : gset Z)) as Eset by set_solver. rewrite Eset in Hokq.
  unfold addTimer. rewrite Enew. fold t. fold w1'.
  assert (runInLoop ef tid (FAddTimerInLoop p) w1' = Ok (on_loop (with_timers q) w3, false)) as ->.
  { unfold runInLoop. rewrite H0. unfold isInLoopThread in *. simpl. rewrite Hin.
    rewrite Ec, Es. rewrite H3, H2, H0. unfold isInLoopThread. simpl. rewrite Hin, Eq. done. }
  rewrite bind_ret_l, loop_on, H3, H2, H0. simpl.
  rewrite (deref_Some q p t) by (rewrite Hh; apply lookup_insert_eq). simpl.
  eexists. split; [done|]. rewrite loop_on, H3, H2, H0. simpl. done.
Qed.
End timers.

(** ** Properties *)

(** Functors run in order, each exactly once.  [doPendingFunctors] runs the
    functors that were pending when it started, in the order they were queued,
    including those after one that throws; what they queue themselves is left
    pending, in order, for the next turn. *)
Theorem pending_fifo (ef : Z -> Z) (tid : Z) (body : nat -> list loop_action) (us : list nat)
    (w : script_loop) :
  pendingFunctors_ (sl_loop w) = FUser <$> us ->
  exists w', doPendingFunctors (LoopWorld0 := script_loop_world tid body) ef tid w = Ok w' /\
    sl_ran w' = sl_ran w ++ us /\
    pendingFunctors_ (sl_loop w') = FUser <$> concat (queued ∘ body <$> us) /\
    callingPendingFunctors_ (sl_loop w') = false.
Proof.
  intros Hp. unfold doPendingFunctors. simpl. rewrite Hp.
  set (w1 := with_sl_loop _ _).
  destruct (run_pending_script tid body ef us w1) as (w2 & -> & Hr & Hp2).
  eexists. split; [done|]. split; [exact Hr|]. split; [exact Hp2|done].
Qed.

(** A functor that queues two, one that throws, one that queues and throws. *)
Definition demo_loop_body (u : nat) : list loop_action :=
  match u with
  | 0%nat => [LQueue 5; LQueue 6]
  | 1%nat => [LThrow; LQueue 9]
  | 2%nat => [LQueue 7; LThrow; LQueue 8]
  | _ => [LQuit]
  end.

Definition demo_loop (pending : list (Functor nat)) : EventLoop nat simple_epoll Z :=
  mkEventLoop 1 false false false 100 0 EpollPoller_new 0 11 12 [] 0 pending TimerQueue_new None 0.

Definition demo_script (pending : list (Functor nat)) : script_loop :=
  mkScriptLoop (demo_loop pending) [] 1000 None (1, 0) (mkReadEnv 1000 (8, 0) 1000 None) [].

Lemma pending_fifo_witness :
  exists w', doPendingFunctors (LoopWorld0 := script_loop_world 100 demo_loop_body) (fun p => p) 100
      (demo_script [FUser 0%nat; FUser 1%nat; FUser 2%nat]) = Ok w' /\
    sl_ran w' = [0; 1; 2]%nat /\
    pendingFunctors_ (sl_loop w') = [FUser 5%nat; FUser 6%nat; FUser 7%nat].
Proof.
  destruct (pending_fifo (fun p => p) 100 demo_loop_body [0; 1; 2]%nat
    (demo_script [FUser 0%nat; FUser 1%nat; FUser 2%nat])) as (w' & E & Hr & Hp & _); [reflexivity|].
  exists w'. split; [exact E|]. split; [exact Hr|exact Hp].
Defined.

(** No functor is stranded.  Whatever the functors do (as long as they
    return and use the loop through its interface), after [doPendingFunctors]
    either nothing is pending or the eventfd is readable, so that the next poll
    returns at once. *)
Theorem pending_wakes {U K E W : Type} `{!Epoll K} `{!EventFd E} `{!LoopWorld U K E W}
    (ef : Z -> Z) (tid : Z) (J : W -> Prop) (safe : Functor U -> Prop)
    `{!LoopClient ef tid J safe} (w : W) :
  J w -> Forall safe (pendingFunctors_ (loop_ w)) ->
  exists w', doPendingFunctors ef tid w = Ok w' /\ J w' /\
    callingPendingFunctors_ (loop_ w') = false /\
    (pendingFunctors_ (loop_ w') <> [] -> 0 < counter (wakeupFd_ (loop_ w'))).
Proof.
  intros Hj Hs. destruct (doPendingFunctors_ok ef tid J safe w Hj Hs) as (w' & E1 & Hj' & Hc & Hw & _).
  exists w'. done.
Qed.

Lemma pending_wakes_witness :
  exists w', doPendingFunctors (LoopWorld0 := script_loop_world 100 demo_loop_body) (fun p => p) 100
      (demo_script [FUser 0%nat]) = Ok w' /\
    (pendingFunctors_ (sl_loop w') <> [] -> 0 < counter (wakeupFd_ (sl_loop w'))).
Proof.
  destruct (pending_wakes (LoopWorld0 := script_loop_world 100 demo_loop_body) (fun p => p) 100
    (fun _ => True) (fun f => exists u, f = FUser u)
    (LoopClient0 := script_loop_client 100 demo_loop_body (fun p => p))
    (demo_script [FUser 0%nat])) as (w' & E & _ & _ & H).
  - exact I.
  - constructor; [exists 0%nat; reflexivity|constructor].
  - exists w'. split; [exact E|exact H].
Defined.

(** [runInLoop] runs the functor at once when called by the loop's own
    thread; called by another one it runs nothing, appends the functor to the
    queue and makes the eventfd readable. *)
Theorem runInLoop_spec {U K E W : Type} `{!Epoll K} `{!EventFd E} `{!LoopWorld U K E W}
    (ef : Z -> Z) (tid : Z) (cb : Functor U) (w : W) :
  if isInLoopThread tid (loop_ w) then runInLoop ef tid cb w = run_functor ef tid cb w
  else exists l', runInLoop ef tid cb w = Ok (set_loop l' w, false) /\
    pendingFunctors_ l' = pendingFunctors_ (loop_ w) ++ [cb] /\ 0 < counter (wakeupFd_ l').
Proof.
  unfold runInLoop. destruct (isInLoopThread tid (loop_ w)) eqn:Hin; [done|].
  destruct (queueInLoop_ok tid cb (loop_ w)) as (l' & E1 & Hp & _ & _ & Hw).
  exists l'. unfold try_loop. rewrite E1. simpl. split; [done|]. split; [done|]. apply Hw. by left.
Qed.

(** [runAfter] in the loop thread arms a one-shot timer [delay] seconds from
    now and returns its id: the timer queue stays consistent, the timer is in it
    under that expiration, and every other timer is as it was. *)
Theorem runAfter_arms {U K E W : Type} `{!Epoll K} `{!EventFd E} `{!LoopWorld U K E W}
    (ef : Z -> Z) (tid : Z) (delay : double) (cb : U) (w w0 w1 w2 w3 : W) (t0 time now p n : Z) :
  isInLoopThread tid (loop_ w) = true -> queue_ok ∅ (timerQueue_ (loop_ w)) ->
  dltb delay dzero = false -> read_clock w = (t0, w0) -> addTime t0 delay = Ok time ->
  valid time = true -> new_timer w0 = (p, n, w1) ->
  heap (timerQueue_ (loop_ w)) !! p = None -> 0 < p < UINTPTR_MAX ->
  read_clock (on_loop (fun l => with_timers (set_heap
    (<[p := (Timer_new (Some cb) time dzero n).1]> (heap (timerQueue_ l))) (timerQueue_ l)) l) w1)
    = (now, w2) -> settime w2 = (None, w3) -> in_int64 (time - now) = true ->
  exists w', runAfter ef tid delay (Some cb) w = Ok (w', mkTimerId p n) /\
    queue_ok ∅ (timerQueue_ (loop_ w')) /\
    heap (timerQueue_ (loop_ w'))
    = <[p := mkTimer (Some cb) time dzero false n]> (heap (timerQueue_ (loop_ w))) /\
    timers_ (timerQueue_ (loop_ w')) ≡ₚ (time, p) :: timers_ (timerQueue_ (loop_ w)).
Proof.
  intros Hin Hok Hd Ec0 Ha Hv Enew Hp Hpr Ec Es Hr.
  pose proof (clock_loop w) as H0. rewrite Ec0 in H0. simpl in H0.
  unfold runAfter, runAt. rewrite Hd, Ec0, Ha, bind_ret_l, Hv. cbn [negb].
  destruct (addTimer_in_loop ef tid cb time dzero w0 p n w1 now w2 w3)
    as (w' & -> & Hok' & Hh & Ht & _); rewrite ?H0; try done.
  exists w'. rewrite Hh, Ht, H0. done.
Qed.

Lemma runAfter_arms_witness :
  exists w', runAfter (LoopWorld0 := script_loop_world 100 demo_loop_body) (fun p => p) 100
      (double_of_int 2) (Some 3%nat) (demo_script []) = Ok (w', mkTimerId 1 0) /\
    timers_ (timerQueue_ (sl_loop w')) = [(2001000, 1)].
Proof.
  destruct (runAfter_arms (LoopWorld0 := script_loop_world 100 demo_loop_body) (fun p => p) 100
    (double_of_int 2) 3%nat (demo_script []) _ _ _ _ 1000 2001000 1000 1 0
    eq_refl TimerQueue_new_ok ltac:(vm_compute; reflexivity) eq_refl ltac:(vm_compute; reflexivity)
    eq_refl eq_refl eq_refl ltac:(unfold UINTPTR_MAX; lia) eq_refl eq_refl eq_refl)
    as (w' & E & _ & _ & Ht).
  exists w'. split; [exact E|]. apply Permutation_singleton_r in Ht. exact Ht.
Defined.

(** What the timer interface refuses.  A negative delay, an interval that is
    not positive, an invalid time or an empty callback yields the invalid id and
    arms, queues and allocates nothing. *)
Theorem timer_api_rejects {U K E W : Type} `{!Epoll K} `{!EventFd E} `{!LoopWorld U K E W}
    (ef : Z -> Z) (tid : Z) (d : double) (t : Timestamp) (cb : option U) (w : W) :
  let refused r := r = Ok (on_loop log_error w, TimerId_default) in
  (dltb d dzero = true -> refused (runAfter ef tid d cb w)) /\
  (dleb d dzero = true -> refused (runEvery ef tid d cb w)) /\
  (valid t = false -> refused (runAt ef tid t cb w)) /\
  (cb = None -> refused (runAt ef tid t cb w)) /\
  isValid TimerId_default = false /\
  cancel ef tid TimerId_default w = Ok (on_loop log_error w).
Proof.
  cbv zeta. split_and!.
  - unfold runAfter. by intros ->.
  - unfold runEvery. by intros ->.
  - unfold runAt. intros ->. by destruct cb.
  - by intros ->.
  - done.
  - done.
Qed.

(** The timer interface does not refuse every bad delay.  A NaN is not less
    than zero, and a delay of 10^13 seconds does not fit in [int64_t]
    microseconds: [runAfter] converts both to [int64_t], which is undefined. *)
Theorem runAfter_unchecked {U K E W : Type} `{!Epoll K} `{!EventFd E} `{!LoopWorld U K E W}
    (ef : Z -> Z) (tid : Z) (cb : option U) (w : W) :
  runAfter ef tid S754_nan cb w = Fault BadCast /\
  runAfter ef tid (double_of_int (10 ^ 13)) cb w = Fault BadCast.
Proof.
  assert (double_to_int64 (dmul (double_of_int (10 ^ 13)) (double_of_int kMicroSecondsPerSecond))
    = Fault BadCast) as E1 by (vm_compute; reflexivity).
  assert (dltb (double_of_int (10 ^ 13)) dzero = false) as Hd by (vm_compute; reflexivity).
  assert (dltb S754_nan dzero = false) as Hn by reflexivity.
  assert (double_to_int64 (dmul S754_nan (double_of_int kMicroSecondsPerSecond)) = Fault BadCast) as E2
    by reflexivity.
  unfold runAfter. rewrite Hd, Hn. destruct (read_clock w) as [now w']. unfold addTime.
  rewrite E1, E2. split; reflexivity.
Qed.

Section construction.
Context {U K E : Type} `{!Epoll K} `{!EventFd E}.

(** Registering a new channel, with the kernel state it leads to. *)
Lemma enable_new (s : EpollPoller (Callback U) K) p c :
  poller_ok s -> objects s !! p = Some c -> Index c = kNew -> channels_ s !! Fd c = None ->
  accepts (epollFd_ s) (Fd c) = true ->
  exists s', change_mask EnableReading p s = Ok s' /\ poller_ok s' /\
    objects s' = <[p := masked EnableReading c]> (objects s) /\
    epollFd_ s' = (epoll_ctl EPOLL_CTL_ADD (Fd c)
                     (mkEpollEvent (u32 (mask EnableReading (Events c))) p) (epollFd_ s)).2.
Proof.
  intros Hok Hp Hi Hfree Hacc.
  destruct (change_mask_ok EnableReading p s c Hok Hp) as (s' & E1 & Hok' & Ho).
  { split; [done|]. intros _. exact Hacc. }
  exists s'. split_and!; try done.
  rewrite (change_mask_eq _ _ _ _ Hp), (store_mask_eq _ _ _ _ Hp), (updateChannel_add p _ (with_events c (mask EnableReading (Events c)))) in E1;
    [|apply lookup_insert_eq|by left].
  injection E1 as <-. done.
Qed.

(** The state a constructed loop starts in. *)
Lemma EventLoop_new_ok (env : new_env) :
  ne_wakeup env <> ne_timer env -> ne_wakeupFd env <> ne_timerFd env ->
  accepts (K := K) epoll_create1 (ne_timerFd env) = true ->
  (forall ev, accepts (epoll_ctl (K := K) EPOLL_CTL_ADD (ne_timerFd env) ev epoll_create1).2
                (ne_wakeupFd env) = true) ->
  exists (l : EventLoop U K E) cw ct, EventLoop_new false nullptr env = Ok l /\ poller_ok (poller_ l) /\
    objects (poller_ l) !! ne_wakeup env = Some cw /\ Fd cw = ne_wakeupFd env /\
    Index cw = kAdded /\ Events cw = kReadEvent /\ ReadCallback cw = Some CbWakeup /\
    objects (poller_ l) !! ne_timer env = Some ct /\ Fd ct = ne_timerFd env /\
    Index ct = kAdded /\ Events ct = kReadEvent /\ ReadCallback ct = Some CbTimer /\
    (forall p c, objects (poller_ l) !! p = Some c -> p = ne_wakeup env /\ c = cw \/ p = ne_timer env /\ c = ct) /\
    (forall c, c = cw \/ c = ct -> WriteCallback c = None /\ CloseCallback c = None /\ ErrorCallback c = None).
Proof.
  intros Haddr Hfds Ha1 Ha2. unfold EventLoop_new. simpl newDefaultPoller. cbv iota zeta.
  set (c1 := Channel_new (ne_this env) (ne_wakeupFd env)).
  set (c2 := setReadCallback (Channel_new (ne_this env) (ne_timerFd env)) (Some CbTimer)).
  set (s1 := set_objects (<[ne_wakeup env := c1]> (objects EpollPoller_new)) EpollPoller_new).
  set (s2 := set_objects (<[ne_timer env := c2]> (objects s1)) s1).
  assert (poller_ok s1) as Hok1 by (apply poller_ok_new; [apply EpollPoller_new_ok|apply lookup_empty|done]).
  assert (objects s1 !! ne_timer env = None) as Hn2
    by (simpl; rewrite lookup_insert_ne by done; apply lookup_empty).
  assert (poller_ok s2) as Hok2 by (by apply poller_ok_new).
  destruct (enable_new s2 (ne_timer env) c2) as (s3 & -> & Hok3 & Ho3 & Hk3); try done.
  { apply lookup_insert_eq. }
  rewrite bind_ret_l. simpl negb. cbv iota.
  assert (objects s3 !! ne_wakeup env = Some c1) as Hw3.
  { rewrite Ho3, lookup_insert_ne by done. simpl. rewrite lookup_insert_ne by done. apply lookup_insert_eq. }
  rewrite (modify_eq _ _ _ _ Hw3), bind_ret_l. set (c1' := setReadCallback c1 (Some CbWakeup)).
  set (s4 := set_objects _ s3).
  assert (poller_ok s4) as Hok4 by (by apply (poller_ok_set s3 _ c1)).
  destruct (enable_new s4 (ne_wakeup env) c1') as (s5 & -> & Hok5 & Ho5 & _); try done.
  { apply lookup_insert_eq. }
  { destruct (channels_ s4 !! Fd c1') as [p|] eqn:Ep; [|done].
    apply (ok_map _ Hok4) in Ep as (c & Hc & Hf & Hi). simpl in Hc. rewrite Ho3 in Hc.
    rewrite !lookup_insert in Hc. repeat case_decide; simplify_eq/=; try done.
    rewrite !lookup_insert_ne, lookup_empty in Hc by done. done. }
  { simpl. rewrite Hk3. apply Ha2. }
  rewrite bind_ret_l. eexists. exists (masked EnableReading c1'), (masked EnableReading c2).
  split; [done|]. simpl poller_. rewrite Ho5, lookup_insert_eq, lookup_insert_ne by done.
  simpl. rewrite lookup_insert_ne, Ho3, lookup_insert_eq by done. split_and!; try done.
  - intros p c Hp. rewrite ?Ho3 in Hp. simpl in Hp. rewrite !lookup_insert in Hp.
    repeat case_decide; simplify_eq/=; auto.
  - by intros c [->| ->].
Qed.

(** The members the constructor sets. *)
Lemma EventLoop_new_fields (env : new_env) (l : EventLoop U K E) :
  EventLoop_new false nullptr env = Ok l ->
  this_ l = ne_this env /\ threadId_ l = ne_tid env /\ looping_ l = false /\ pendingFunctors_ l = [] /\
  timerQueue_ l = TimerQueue_new /\ loopStartedCallback_ l = None.
Proof. intros E1. unfold EventLoop_new in E1. simpl newDefaultPoller in E1. cbv iota zeta in E1. inv_res. done. Qed.
End construction.

(** A constructed loop listens.  The constructor of [EventLoop] leaves the
    poller consistent, with the kernel watching the eventfd for its wakeup
    callback and the timerfd for the timer queue's, both for reading. *)
Theorem EventLoop_new_listens {U K E : Type} `{!Epoll K} `{!EventFd E} (env : new_env) :
  ne_wakeup env <> ne_timer env -> ne_wakeupFd env <> ne_timerFd env ->
  accepts (K := K) epoll_create1 (ne_timerFd env) = true ->
  (forall ev, accepts (epoll_ctl (K := K) EPOLL_CTL_ADD (ne_timerFd env) ev epoll_create1).2
                (ne_wakeupFd env) = true) ->
  exists l : EventLoop U K E, EventLoop_new false nullptr env = Ok l /\ poller_ok (poller_ l) /\
    interest (epollFd_ (poller_ l)) !! ne_wakeupFd env = Some (mkEpollEvent kReadEvent (ne_wakeup env)) /\
    interest (epollFd_ (poller_ l)) !! ne_timerFd env = Some (mkEpollEvent kReadEvent (ne_timer env)) /\
    (ReadCallback <$> objects (poller_ l) !! ne_wakeup env) = Some (Some CbWakeup) /\
    (ReadCallback <$> objects (poller_ l) !! ne_timer env) = Some (Some CbTimer).
Proof.
  intros Haddr Hfds Ha1 Ha2.
  destruct (EventLoop_new_ok (U := U) (E := E) env Haddr Hfds Ha1 Ha2)
    as (l & cw & ct & E1 & Hok & Hw & Fw & Iw & Ew & Cw & Ht & Ft & It & Et & Ct & _).
  exists l. split; [done|]. split; [done|]. rewrite Hw, Ht. simpl. split_and!; try congruence.
  - apply (ok_kernel _ Hok). exists cw. simpl. rewrite Ew. done.
  - apply (ok_kernel _ Hok). exists ct. simpl. rewrite Et. done.
Qed.

Definition demo_env : new_env := mkNewEnv 1 100 11 4 12 5.

Lemma EventLoop_new_listens_witness :
  exists l : EventLoop nat simple_epoll Z, EventLoop_new false nullptr demo_env = Ok l /\
    interest (epollFd_ (poller_ l)) !! 4 = Some (mkEpollEvent 3 11).
Proof.
  destruct (EventLoop_new_listens (U := nat) (K := simple_epoll) (E := Z) demo_env) as (l & E & _ & H & _).
  - discriminate.
  - discriminate.
  - reflexivity.
  - intros ev. reflexivity.
  - exists l. split; [exact E|exact H].
Defined.

(** The constructor fails when MUDUO_USE_POLL is set: [newDefaultPoller]
    returns null and the timer queue registers its channel through it; and a
    second loop in one thread ends the process. *)
Theorem EventLoop_new_fails {U K E : Type} `{!Epoll K} `{!EventFd E} (env : new_env) (t : Z) :
  EventLoop_new (U := U) (K := K) (E := E) true t env = Fault DanglingPointer /\
  (t <> nullptr -> accepts (K := K) epoll_create1 (ne_timerFd env) = true ->
   EventLoop_new (U := U) (K := K) (E := E) false t env = Fault FatalExit).
Proof.
  split; [done|]. intros Ht Ha. unfold EventLoop_new. simpl newDefaultPoller. cbv iota zeta.
  set (s1 := set_objects (<[ne_wakeup env := _]> _) EpollPoller_new).
  set (c2 := setReadCallback _ _). set (s2 := set_objects _ s1).
  rewrite (change_mask_eq _ (ne_timer env) s2 c2), (store_mask_eq _ (ne_timer env) s2 c2) by apply lookup_insert_eq.
  rewrite (updateChannel_add (ne_timer env) _ (with_events c2 (mask EnableReading (Events c2))));
    [|apply lookup_insert_eq|by left].
  rewrite bind_ret_l. destruct (Z.eqb_spec t nullptr); done.
Qed.

Lemma EventLoop_new_fails_witness :
  EventLoop_new (U := nat) (K := simple_epoll) (E := Z) false 9 demo_env = Fault FatalExit.
Proof. apply (EventLoop_new_fails (U := nat) (K := simple_epoll) (E := Z) demo_env 9); [discriminate|reflexivity]. Defined.
