(* ===== verification/LoopConc.v ===== *)
(** * LoopConc: the event loop and other threads

    The interleavings of [EventLoop::loop] with [queueInLoop] and [quit] called by
    other threads ([src/base/Eventloop.cpp]).  Every access to shared state is one
    step: appending to [pendingFunctors_] and swapping it out (each under
    [mutex_]), the flags [quit_] and [callingPendingFunctors_] (atomics), and the
    writes and reads of the eventfd.  The run begins before [loop()] is entered: the
    loop's own thread may queue functors and quit there and in [loopStartedCallback_],
    and later in the callbacks of channels and in functors.  [epoll_wait] returns at
    once when the eventfd is readable, and otherwise because of another event or the
    timeout, which is the step [ls_poll_other]. *)
From S2P Require Import Prelude Timestamp TimerQueue EpollPoller EventLoop.

Section conc.
Context {E : Type} `{!EventFd E}.

(** Where the loop thread is. *)
Inductive loop_pc :=
  | AtStart                       (* before loop(), or in loopStartedCallback_ *)
  | AtTest                        (* while (!quit_) *)
  | AtPoll                        (* poller_->poll() *)
  | AtHandle (wakeup : bool)      (* channel callbacks; is the eventfd among them? *)
  | AtCall                        (* callingPendingFunctors_ = true *)
  | AtSwap                        (* functors.swap(pendingFunctors_) *)
  | AtRun (functors : list nat)   (* for (const Functor& functor : functors) *)
  | AtPushed (back : loop_pc)     (* in queueInLoop: the test of callingPendingFunctors_ is next *)
  | AtDone.                       (* loop() has returned *)

(** User code runs there: it may call [queueInLoop] and [quit]. *)
Definition user_code (p : loop_pc) : bool :=
  match p with AtStart | AtHandle _ | AtRun _ => true | _ => false end.

(** Where another thread is: inside [queueInLoop] or [quit], before [wakeup()]. *)
Inductive thread_pc := Queued | QuitSet.

Record sys := mkSys {
  pc : loop_pc;
  threads : gmap Z thread_pc;
  pending : list nat;
  calling : bool;
  quit_set : bool;
  efd : E;
  ran : list nat;      (* functors run so far *)
  pushed : list nat;   (* functors queued so far *)
  early : list nat     (* of these, queued by the loop's thread before the first test *)
}.

Implicit Types s : sys.

Definition init : sys := mkSys AtStart ∅ [] false false eventfd0 [] [] [].

(** Steps of the other threads. *)
Inductive other_step : sys -> sys -> Prop :=
  | os_queue s t f :
      threads s !! t = None ->
      other_step s (mkSys (pc s) (<[t := Queued]> (threads s)) (pending s ++ [f]) (calling s)
        (quit_set s) (efd s) (ran s) (pushed s ++ [f]) (early s))
  | os_quit s t :
      threads s !! t = None ->
      other_step s (mkSys (pc s) (<[t := QuitSet]> (threads s)) (pending s) (calling s)
        true (efd s) (ran s) (pushed s) (early s))
  | os_wakeup s t k :
      threads s !! t = Some k ->
      other_step s (mkSys (pc s) (delete t (threads s)) (pending s) (calling s)
        (quit_set s) (efd_write (efd s)).2 (ran s) (pushed s) (early s)).

Definition goto p s : sys :=
  mkSys p (threads s) (pending s) (calling s) (quit_set s) (efd s) (ran s) (pushed s) (early s).

(** Steps of the loop thread.  [queueInLoop] of its own thread appends the functor
    ([ls_queue]) and then writes to the eventfd or not, as [callingPendingFunctors_]
    says. *)
Inductive loop_step : sys -> sys -> Prop :=
  | ls_start s : pc s = AtStart -> loop_step s (goto AtTest s)
  | ls_test s : pc s = AtTest -> quit_set s = false -> loop_step s (goto AtPoll s)
  | ls_exit s : pc s = AtTest -> quit_set s = true -> loop_step s (goto AtDone s)
  | ls_poll s : pc s = AtPoll -> 0 < counter (efd s) -> loop_step s (goto (AtHandle true) s)
  | ls_read s :
      pc s = AtHandle true ->
      loop_step s (mkSys (AtHandle false) (threads s) (pending s) (calling s) (quit_set s)
        (efd_read (efd s)).2 (ran s) (pushed s) (early s))
  | ls_handled s : pc s = AtHandle false -> loop_step s (goto AtCall s)
  | ls_call s :
      pc s = AtCall ->
      loop_step s (mkSys AtSwap (threads s) (pending s) true (quit_set s) (efd s) (ran s) (pushed s)
        (early s))
  | ls_swap s :
      pc s = AtSwap ->
      loop_step s (mkSys (AtRun (pending s)) (threads s) [] (calling s) (quit_set s) (efd s)
        (ran s) (pushed s) (early s))
  | ls_run s f fs :
      pc s = AtRun (f :: fs) ->
      loop_step s (mkSys (AtRun fs) (threads s) (pending s) (calling s) (quit_set s) (efd s)
        (ran s ++ [f]) (pushed s) (early s))
  | ls_done s :
      pc s = AtRun [] ->
      loop_step s (mkSys AtTest (threads s) (pending s) false (quit_set s) (efd s) (ran s) (pushed s)
        (early s))
  | ls_quit s :
      user_code (pc s) = true ->
      loop_step s (mkSys (pc s) (threads s) (pending s) (calling s) true (efd s) (ran s) (pushed s)
        (early s))
  | ls_queue s f :
      user_code (pc s) = true ->
      loop_step s (mkSys (AtPushed (pc s)) (threads s) (pending s ++ [f]) (calling s) (quit_set s)
        (efd s) (ran s) (pushed s ++ [f]) (match pc s with AtStart => early s ++ [f] | _ => early s end))
  | ls_wakeup s p :
      pc s = AtPushed p -> calling s = true ->
      loop_step s (mkSys p (threads s) (pending s) (calling s) (quit_set s)
        (efd_write (efd s)).2 (ran s) (pushed s) (early s))
  | ls_no_wakeup s p : pc s = AtPushed p -> calling s = false -> loop_step s (goto p s).

(** [epoll_wait] returns without the eventfd: another descriptor or the timeout. *)
Inductive poll_other : sys -> sys -> Prop :=
  | ls_poll_other s : pc s = AtPoll -> poll_other s (goto (AtHandle false) s).

Definition step s s' : Prop := other_step s s' \/ loop_step s s' \/ poll_other s s'.

(** ** The invariant *)
Fixpoint running (p : loop_pc) : list nat :=
  match p with AtRun fs => fs | AtPushed p => running p | _ => [] end.

Fixpoint calls_functors (p : loop_pc) : bool :=
  match p with AtSwap | AtRun _ => true | AtPushed p => calls_functors p | _ => false end.

(** Somebody has written, or is about to write, to the eventfd. *)
Definition awake s : Prop :=
  0 < counter (efd s) \/ exists t k, threads s !! t = Some k.

(** Nothing has been queued but by the loop's own thread before the loop. *)
Definition only_early s : Prop := pushed s = early s.

Record sys_ok s : Prop := {
  sys_conserved : pushed s = ran s ++ running (pc s) ++ pending s;
  sys_calling : calling s = calls_functors (pc s);
  sys_back p : pc s = AtPushed p -> user_code p = true;
  sys_awake :
    match pc s with
    | AtStart | AtPushed AtStart => awake s \/ only_early s
    | AtTest | AtPoll => pending s <> [] -> awake s \/ only_early s
    | AtRun _ => pending s <> [] -> awake s
    | _ => True
    end;
  sys_quit : pc s = AtPoll -> quit_set s = true -> awake s
}.

Lemma init_ok : sys_ok init.
Proof. split; simpl; try done. by right. Qed.

Lemma write_positive (e : E) : 0 < counter (efd_write e).2.
Proof.
  pose proof (counter_range e) as Hr.
  destruct (decide (counter e = two64 - 2)) as [Hf|Hf].
  - destruct (efd_write_full e Hf) as [_ ->]. unfold two64 in *. lia.
  - destruct (efd_write_ok e) as [_ ->]; lia.
Qed.

Lemma other_step_ok s s' : other_step s s' -> sys_ok s -> sys_ok s'.
Proof.
  intros Hstep [H1 H2 H3 H4 H5].
  assert (awake s') as Ha.
  { destruct Hstep as [s t f Ht|s t Ht|s t k Ht].
    - right. exists t, Queued. apply lookup_insert_eq.
    - right. exists t, QuitSet. apply lookup_insert_eq.
    - left. apply write_positive. }
  destruct Hstep as [s t f Ht|s t Ht|s t k Ht]; (split; [|done|done| |done]);
    try (cbn [pc]; destruct (pc s) as [| | | | | | |[]|]; auto; done).
  by simpl; rewrite H1, <- !app_assoc.
Qed.

Lemma loop_step_ok s s' : loop_step s s' -> sys_ok s -> sys_ok s'.
Proof.
  intros Hstep [H1 H2 H3 H4 H5].
  destruct Hstep as [s Hp|s Hp Hq|s Hp Hq|s Hp Hc|s Hp|s Hp|s Hp|s Hp|s f fs Hp|s Hp|s Hu|s f Hu|s p Hp Hc|s p Hp Hc];
    try (rewrite Hp in H1, H2, H4; simpl in H1, H2, H4; split; simpl; try done; try congruence; auto; fail).
  - rewrite Hp in H1, H2, H4. simpl in H1, H2, H4. split; simpl; try done. by rewrite H1, app_nil_r.
  - rewrite Hp in H1, H2, H4. simpl in H1, H2, H4. split; simpl; try done. by rewrite H1, <- !app_assoc.
  - split; simpl; try done. intros Ep. by rewrite Ep in Hu.
  - split; simpl; try done.
    + by rewrite H1, <- !app_assoc.
    + by intros p [= <-].
    + destruct (pc s); try done. destruct H4 as [H4|H4]; [by left|right].
      unfold only_early in *. simpl. congruence.
  - specialize (H3 _ Hp). rewrite Hp in H1, H2, H4. simpl in H1, H2. split; simpl; try done; [by intros q ->| |].
    + destruct p; try done; intros; first [by left; left; apply write_positive|by left; apply write_positive].
    + by intros ->.
  - specialize (H3 _ Hp). rewrite Hp in H1, H2, H4. simpl in H1, H2. split; simpl; try done; [by intros q ->| |].
    + destruct p; try done. simpl in H2. congruence.
    + by intros ->.
Qed.

Lemma step_ok s s' : step s s' -> sys_ok s -> sys_ok s'.
Proof.
  intros [H|[H|H]] Hok; [by eapply other_step_ok|by eapply loop_step_ok|].
  destruct H as [s Hp]. destruct Hok as [H1 H2 H3 H4 H5]. rewrite Hp in H1, H2.
  split; simpl; done.
Qed.

Lemma steps_ok s s' : rtc step s s' -> sys_ok s -> sys_ok s'.
Proof. induction 1; eauto using step_ok. Qed.

(** ** Progress of the loop thread alone *)
Lemma run_all s fs :
  pc s = AtRun fs ->
  rtc loop_step s (mkSys (AtRun []) (threads s) (pending s) (calling s) (quit_set s) (efd s)
    (ran s ++ fs) (pushed s) (early s)).
Proof.
  revert s. induction fs as [|f fs IH]; intros s Hp.
  { rewrite app_nil_r. replace (mkSys _ _ _ _ _ _ _ _ _) with s; [done|]. destruct s; simpl in *; congruence. }
  eapply rtc_l; [by apply (ls_run s f fs)|].
  replace (ran s ++ f :: fs) with ((ran s ++ [f]) ++ fs) by (by rewrite <- app_assoc).
  apply (IH (mkSys (AtRun fs) (threads s) (pending s) (calling s) (quit_set s) (efd s)
    (ran s ++ [f]) (pushed s) (early s))). done.
Qed.

(** From the poll with a readable eventfd, one turn of the loop runs everything
    that is pending. *)
Lemma turn_runs_pending s :
  sys_ok s -> pc s = AtPoll -> 0 < counter (efd s) ->
  exists s', rtc loop_step s s' /\ pc s' = AtTest /\ ran s' = pushed s /\ pushed s' = pushed s /\
    pending s' = [] /\ quit_set s' = quit_set s.
Proof.
  intros Hok Hp Hc. pose proof (sys_conserved _ Hok) as H1. rewrite Hp in H1. simpl in H1.
  set (e := (efd_read (efd s)).2).
  exists (mkSys AtTest (threads s) [] false (quit_set s) e (ran s ++ pending s) (pushed s) (early s)).
  split; [|simpl; by rewrite H1].
  eapply rtc_l; [by apply ls_poll|]. eapply rtc_l; [by apply ls_read|]. simpl.
  eapply rtc_l; [by apply ls_handled|]. eapply rtc_l; [by apply ls_call|].
  eapply rtc_l; [by apply ls_swap|]. simpl. etrans; [by apply (run_all _ (pending s))|].
  simpl. apply rtc_once. by apply (ls_done (mkSys (AtRun []) (threads s) [] true (quit_set s) e
    (ran s ++ pending s) (pushed s) (early s))).
Qed.
End conc.
#[global] Arguments sys E : clear implicits.

(** ** Properties *)

(** C1: no wakeup is lost.  The run begins before [loop()] is entered, and other threads
    and the loop's own queue functors and quit in any order.  When the loop thread is about
    to block in [epoll_wait] while [quit_] is set, the eventfd is readable, or another
    thread has still to execute the [wakeup()] of its [queueInLoop] or [quit].  The same
    holds while a functor is pending, with one exception: if all that was ever queued was
    queued by the loop's own thread before it entered the loop, nobody wakes it up. *)
Theorem no_lost_wakeup {E : Type} `{!EventFd E} (s : sys E) :
  rtc step init s -> pc s = AtPoll ->
  (quit_set s = true \/ pending s <> [] /\ pushed s <> early s) ->
  0 < counter (efd s) \/ exists t k, threads s !! t = Some k.
Proof.
  intros Hs Hp Hw. pose proof (steps_ok _ _ Hs init_ok) as Hok. destruct Hw as [Hw|[Hw Hn]].
  - by apply (sys_quit _ Hok).
  - pose proof (sys_awake _ Hok) as Ha. rewrite Hp in Ha. by destruct (Ha Hw).
Qed.

(** The loop's thread queues functor 3 before the loop and blocks, then thread 1 queues
    functor 7. *)
Definition demo_sys : sys Z :=
  mkSys AtPoll {[1 := Queued]} [3; 7]%nat false false eventfd0 [] [3; 7]%nat [3%nat].

Lemma demo_sys_reachable : rtc step init demo_sys.
Proof.
  eapply rtc_l; [right; left; exact (ls_queue init 3 eq_refl)|].
  eapply rtc_l; [right; left; apply (ls_no_wakeup _ AtStart); reflexivity|].
  eapply rtc_l; [right; left; apply ls_start; reflexivity|].
  eapply rtc_l; [right; left; apply ls_test; reflexivity|].
  apply rtc_once. left.
  exact (os_queue (mkSys AtPoll ∅ [3%nat] false false eventfd0 [] [3%nat] [3%nat]) 1 7 eq_refl).
Qed.

Lemma no_lost_wakeup_witness :
  0 < counter (efd demo_sys) \/ exists t k, threads demo_sys !! t = Some k.
Proof.
  apply (no_lost_wakeup demo_sys); [exact demo_sys_reachable|reflexivity|right; split; discriminate].
Defined.

(** C2: in every interleaving, the functors queued so far are those run, then
    those being run, then those pending, in the order they were queued: none is
    lost, run twice or overtaken. *)
Theorem functors_exactly_once {E : Type} `{!EventFd E} (s : sys E) :
  rtc step init s -> pushed s = ran s ++ running (pc s) ++ pending s.
Proof. intros Hs. apply (sys_conserved _ (steps_ok _ _ Hs init_ok)). Qed.

Lemma functors_exactly_once_witness :
  pushed demo_sys = ran demo_sys ++ running (pc demo_sys) ++ pending demo_sys.
Proof. apply (functors_exactly_once demo_sys). exact demo_sys_reachable. Defined.

(** C20: the loop makes progress without the timeout.  Once no other thread is
    inside [queueInLoop] or [quit], a blocked loop with a request to quit, or with pending
    functors of which not all were queued by its own thread before the loop, resumes
    because of the eventfd alone, runs every functor queued so far, and returns from
    [loop()] if [quit_] is set. *)
Theorem loop_progress {E : Type} `{!EventFd E} (s : sys E) :
  rtc step init s -> pc s = AtPoll -> threads s = ∅ ->
  (quit_set s = true \/ pending s <> [] /\ pushed s <> early s) ->
  exists s', rtc loop_step s s' /\ ran s' = pushed s /\ pushed s' = pushed s /\ pending s' = [] /\
    pc s' = if quit_set s then AtDone else AtTest.
Proof.
  intros Hs Hp Ht Hw. pose proof (steps_ok _ _ Hs init_ok) as Hok.
  assert (0 < counter (efd s)) as Hc.
  { assert (awake s) as [|(t & k & H)]; [|done|by rewrite Ht, lookup_empty in H].
    destruct Hw as [Hw|[Hw Hn]]; [by apply (sys_quit _ Hok)|].
    pose proof (sys_awake _ Hok) as Ha. rewrite Hp in Ha. by destruct (Ha Hw). }
  destruct (turn_runs_pending s Hok Hp Hc) as (s1 & Hs1 & Hp1 & Hr & Hpu & Hpe & Hq).
  destruct (quit_set s) eqn:Eq; [|by exists s1].
  exists (goto AtDone s1). split; [|done]. etrans; [exact Hs1|]. by apply rtc_once, ls_exit.
Qed.

Definition demo_woken : sys Z :=
  mkSys AtPoll ∅ [3; 7]%nat false false 1 [] [3; 7]%nat [3%nat].

Lemma loop_progress_witness :
  exists s', rtc loop_step demo_woken s' /\ ran s' = [3; 7]%nat /\ pc s' = AtTest.
Proof.
  destruct (loop_progress demo_woken) as (s' & Hs & Hr & _ & _ & Hp).
  - eapply rtc_r; [exact demo_sys_reachable|]. left. exact (os_wakeup demo_sys 1 Queued eq_refl).
  - reflexivity.
  - reflexivity.
  - right. split; discriminate.
  - exists s'. split; [exact Hs|]. split; [exact Hr|exact Hp].
Defined.

(** The exception is real.  A functor that the loop's own thread queues before [loop()]
    waits for the timeout: the loop blocks in the poll with the functor pending, and
    without other threads no step is left but another event or the 10 s timeout. *)
Theorem queued_before_loop_waits {E : Type} `{!EventFd E} (f : nat) :
  let blocked : sys E := mkSys AtPoll ∅ [f] false false eventfd0 [] [f] [f] in
  rtc step init blocked /\ ~ exists s', loop_step blocked s'.
Proof.
  split.
  - eapply rtc_l; [right; left; exact (ls_queue init f eq_refl)|].
    eapply rtc_l; [right; left; apply (ls_no_wakeup _ AtStart); reflexivity|].
    eapply rtc_l; [right; left; apply ls_start; reflexivity|].
    apply rtc_once. right. left. apply (ls_test (mkSys AtTest ∅ [f] false false eventfd0 [] [f] [f])); done.
  - intros [s' Hstep]. inversion Hstep; simplify_eq/=; try done.
    match goal with H : 0 < counter _ |- _ => rewrite counter_new in H; lia end.
Qed.

(** ** The code and the steps

    The shared state of an [EventLoop] whose functors are user code. *)
Definition user_functor {U} (f : Functor U) : option U :=
  match f with FUser u => Some u | _ => None end.

Definition shared {K E : Type} (p : loop_pc) (th : gmap Z thread_pc) (r q e : list nat)
    (l : EventLoop nat K E) : sys E :=
  mkSys p th (omap user_functor (pendingFunctors_ l)) (callingPendingFunctors_ l) (quit_ l)
    (wakeupFd_ l) r q e.

(** [wakeup] never fails: the only error of the eventfd is [EAGAIN]. *)
Lemma wakeup_writes {K E : Type} `{!EventFd E} (l : EventLoop nat K E) :
  wakeup l = Ok (with_wakeup (efd_write (wakeupFd_ l)).2 l).
Proof.
  unfold wakeup. pose proof (counter_range (wakeupFd_ l)).
  destruct (efd_write (wakeupFd_ l)) as [n e] eqn:Ew. simpl.
  destruct (decide (counter (wakeupFd_ l) = two64 - 2)) as [Hf|Hf].
  - destruct (efd_write_full _ Hf) as [H1 _]. rewrite Ew in H1. simpl in H1. by subst n.
  - destruct (efd_write_ok (wakeupFd_ l)) as [H1 _]; [lia|]. rewrite Ew in H1. simpl in H1. by subst n.
Qed.

(** The steps of the loop's own thread in [queueInLoop] are the code's. *)
Lemma own_steps_refine {K E : Type} `{!EventFd E} (l : EventLoop nat K E) (tid : Z) (f : nat)
    (p : loop_pc) (th : gmap Z thread_pc) (r q ea : list nat) :
  isInLoopThread tid l = true -> user_code p = true ->
  exists l', queueInLoop tid (FUser f) l = Ok l' /\
    rtc loop_step (shared p th r q ea l)
      (shared p th r (q ++ [f]) (match p with AtStart => ea ++ [f] | _ => ea end) l').
Proof.
  intros Hin Hp. pose proof (ls_queue (shared p th r q ea l) f Hp) as Hs. simpl in Hs.
  set (ea' := match p with AtStart => ea ++ [f] | _ => ea end) in *.
  unfold queueInLoop. unfold isInLoopThread in *. simpl. rewrite Hin. simpl.
  set (l1 := with_pending (pendingFunctors_ l ++ [FUser f]) l).
  assert (loop_step (shared p th r q ea l) (shared (AtPushed p) th r (q ++ [f]) ea' l1)) as H1
    by (unfold shared at 2; simpl; by rewrite omap_app).
  destruct (callingPendingFunctors_ l) eqn:Ec.
  - eexists. split; [apply wakeup_writes|]. eapply rtc_l; [exact H1|]. apply rtc_once.
    by apply (ls_wakeup (shared (AtPushed p) th r (q ++ [f]) ea' l1) p).
  - exists l1. split; [done|]. eapply rtc_l; [exact H1|]. apply rtc_once.
    by apply (ls_no_wakeup (shared (AtPushed p) th r (q ++ [f]) ea' l1) p).
Qed.

(** C19: the steps of the other threads are the code's: [queueInLoop] and [quit],
    as EventLoop defines them, called by a thread other than the loop's, are
    exactly the two steps of this model in sequence. *)
Theorem other_steps_refine {K E : Type} `{!EventFd E} (l : EventLoop nat K E) (tid t : Z) (f : nat)
    (p : loop_pc) (th : gmap Z thread_pc) (r q ea : list nat) :
  isInLoopThread tid l = false -> th !! t = None ->
  (exists l', queueInLoop tid (FUser f) l = Ok l' /\
     rtc other_step (shared p th r q ea l) (shared p th r (q ++ [f]) ea l')) /\
  (exists l', quit tid l = Ok l' /\ rtc other_step (shared p th r q ea l) (shared p th r q ea l')).
Proof.
  intros Hin Ht.
  assert (forall (l1 : EventLoop nat K E) r1 q1 k, exists l2, wakeup l1 = Ok l2 /\
    other_step (shared p (<[t := k]> th) r1 q1 ea l1) (shared p th r1 q1 ea l2)) as Hwake.
  { intros l1 r1 q1 k. pose proof (os_wakeup (shared p (<[t := k]> th) r1 q1 ea l1) t k) as Hs.
    simpl in Hs. rewrite delete_insert_id in Hs by done. eexists. split; [apply wakeup_writes|apply Hs, lookup_insert_eq]. }
  split.
  - unfold queueInLoop. unfold isInLoopThread in *. simpl. rewrite Hin. simpl.
    destruct (Hwake (with_pending (pendingFunctors_ l ++ [FUser f]) l) r (q ++ [f]) Queued) as (l2 & -> & Hs).
    exists l2. split; [done|]. eapply rtc_l; [by apply (os_queue _ t f)|]. apply rtc_once.
    unfold shared at 1 in Hs. simpl in Hs. by rewrite omap_app in Hs.
  - unfold quit. unfold isInLoopThread in *. simpl. rewrite Hin. simpl.
    destruct (Hwake (with_flags (looping_ l) true (callingPendingFunctors_ l) l) r q QuitSet) as (l2 & -> & Hs).
    exists l2. split; [done|]. eapply rtc_l; [by apply (os_quit _ t)|]. apply rtc_once. exact Hs.
Qed.

Lemma other_steps_refine_witness :
  exists l', queueInLoop 2 (FUser 7%nat)
      (mkEventLoop 1 true false false 100 0 (EpollPoller_new (F := Callback nat) (K := simple_epoll))
         0 11 12 [] 0 [] TimerQueue_new None 0) = Ok l' /\
    rtc other_step (mkSys AtPoll ∅ [] false false 0 [] [] [])
      (shared AtPoll ∅ [] [7%nat] [] l').
Proof.
  destruct (other_steps_refine
    (mkEventLoop 1 true false false 100 0 (EpollPoller_new (F := Callback nat) (K := simple_epoll))
         0 11 12 [] 0 [] TimerQueue_new None 0) 2 2 7 AtPoll ∅ [] [] [] eq_refl (lookup_empty 2)) as [(l' & E & H) _].
  exists l'. split; [exact E|exact H].
Defined.
