(* ===== verification/TcpConnection.v ===== *)
(** * TcpConnection: one connection, its buffers, states and timers

    Models [include/TcpConnection.h], [src/base/TcpConnection.cpp] and the
    [shutdownWrite] of [src/base/Socket.cpp].  What a connection asks of its event
    loop is an interface, the class [ConnLoop]: posting functors, updating and
    removing its channel, timers, the clock.  The user's callbacks are a parameter
    [user] that may call back into the connection.  Results of [readv] and [write]
    are inputs; [inLoop] tells whether the calling thread is the loop's. *)
From Stdlib Require Import Strings.Byte.
From S2P Require Import Prelude Buffer Timestamp TimerQueue Channel.

(** ** The interface to the event loop *)

(** Functors a connection hands to [runInLoop] and [queueInLoop]. *)
Inductive conn_task :=
  | TWriteComplete
  | THighWaterMark (size : Z)
  | TSendInLoop (message : list byte)
  | TShutdownInLoop
  | TForceCloseInLoop
  | TSetConnectionTimeoutInLoop (seconds : double)
  | TResetIdleTimerInLoop
  | TSetupKeepAliveTimer.

Inductive timer_task := OnConnectionTimeout | OnIdleTimeout | OnKeepAliveTimeout.

#[global] Instance timer_task_eq_dec : EqDecision timer_task.
Proof. solve_decision. Defined.

(** The key of a timer: address and sequence number. *)
Definition id_key (id : TimerId) : Z * Z := (timer_ id, id_sequence_ id).

(** [armed s] maps the timers of this connection that are set to what they run. *)
Class ConnLoop (S : Type) := {
  post : conn_task -> S -> S;
  update_channel : Z -> S -> S;
  remove_channel : S -> S;
  run_after : double -> timer_task -> S -> res (TimerId * S);
  run_every : double -> timer_task -> S -> res (TimerId * S);
  cancel_timer : TimerId -> S -> S;
  clock : S -> Timestamp;
  armed : S -> gmap (Z * Z) timer_task
}.

(** A functor whose message is a string the library can hold. *)
Definition task_ok (t : conn_task) : Prop :=
  match t with TSendInLoop m => zlen m <= max_size | _ => True end.

(** What a loop in a consistent state promises about timers: a timer set with a delay
    the loop accepts gets a fresh valid id; cancelling disarms that timer and no other;
    nothing else touches them, and the loop stays consistent. *)
Class ConnTimers (S : Type) `{!ConnLoop S} := {
  loop_ok : S -> Prop;
  ok_post t s : loop_ok s -> task_ok t -> loop_ok (post t s);
  ok_update e s : loop_ok s -> loop_ok (update_channel e s);
  ok_remove s : loop_ok s -> loop_ok (remove_channel s);
  ok_after d t s id s' : loop_ok s -> run_after d t s = Ok (id, s') -> loop_ok s';
  ok_every d t s id s' : loop_ok s -> run_every d t s = Ok (id, s') -> loop_ok s';
  ok_cancel id s : loop_ok s -> loop_ok (cancel_timer id s);
  armed_post t s : loop_ok s -> armed (post t s) = armed s;
  armed_update e s : loop_ok s -> armed (update_channel e s) = armed s;
  armed_remove s : loop_ok s -> armed (remove_channel s) = armed s;
  armed_after d t s id s' :
    loop_ok s -> dltb d dzero = false -> run_after d t s = Ok (id, s') ->
    isValid id = true /\ armed s !! id_key id = None /\ armed s' = <[id_key id := t]> (armed s);
  armed_every d t s id s' :
    loop_ok s -> dleb d dzero = false -> run_every d t s = Ok (id, s') ->
    isValid id = true /\ armed s !! id_key id = None /\ armed s' = <[id_key id := t]> (armed s);
  armed_cancel id s :
    loop_ok s -> isValid id = true -> armed (cancel_timer id s) = delete (id_key id) (armed s)
}.

(** ** The state *)
Inductive StateE := kDisconnected | kConnecting | kConnected | kDisconnecting.

#[global] Instance StateE_eq_dec : EqDecision StateE.
Proof. solve_decision. Defined.

(** What happens on the socket besides reading, in order. *)
Inductive sock_op := SWrite (bytes : list byte) | SShutdownWrite.

(** [events] is the mask of [channel_]; [socket_ops] the traffic of [socket_];
    [sent] is not in the code: the bytes [sendInLoop] has written or buffered. *)
Record TcpConnection (S : Type) := mkConn {
  state_ : StateE;
  events : Z;
  tied : bool;
  highWaterMark_ : Z;
  writeCompleteCallback_ : bool;
  highWaterMarkCallback_ : bool;
  connectionTimeoutTimerId_ : TimerId;
  idleTimerId_ : TimerId;
  keepAliveTimerId_ : TimerId;
  idleTimeout_ : double;
  keepAliveInterval_ : double;
  keepAliveEnabled_ : bool;
  lastActivityTime_ : Timestamp;
  inputBuffer_ : Buffer;
  outputBuffer_ : Buffer;
  loop : S;
  socket_ops : list sock_op;
  sent : list byte
}.
Arguments mkConn {S}.
Arguments state_ {S}. Arguments events {S}. Arguments tied {S}. Arguments highWaterMark_ {S}.
Arguments writeCompleteCallback_ {S}. Arguments highWaterMarkCallback_ {S}.
Arguments connectionTimeoutTimerId_ {S}. Arguments idleTimerId_ {S}. Arguments keepAliveTimerId_ {S}.
Arguments idleTimeout_ {S}. Arguments keepAliveInterval_ {S}. Arguments keepAliveEnabled_ {S}.
Arguments lastActivityTime_ {S}. Arguments inputBuffer_ {S}. Arguments outputBuffer_ {S}.
Arguments loop {S}. Arguments socket_ops {S}. Arguments sent {S}.

(** Callbacks of the user. *)
Inductive user_call :=
  | UConnection
  | UMessage (receiveTime : Timestamp)
  | UClose
  | UWriteComplete
  | UHighWaterMark (size : Z).

Section conn.
Context {S : Type} `{!ConnLoop S}.
Implicit Types c : TcpConnection S.

Definition set_state s c : TcpConnection S :=
  mkConn s (events c) (tied c) (highWaterMark_ c) (writeCompleteCallback_ c) (highWaterMarkCallback_ c)
    (connectionTimeoutTimerId_ c) (idleTimerId_ c) (keepAliveTimerId_ c) (idleTimeout_ c)
    (keepAliveInterval_ c) (keepAliveEnabled_ c) (lastActivityTime_ c) (inputBuffer_ c)
    (outputBuffer_ c) (loop c) (socket_ops c) (sent c).
Definition set_loop l c : TcpConnection S :=
  mkConn (state_ c) (events c) (tied c) (highWaterMark_ c) (writeCompleteCallback_ c)
    (highWaterMarkCallback_ c) (connectionTimeoutTimerId_ c) (idleTimerId_ c) (keepAliveTimerId_ c)
    (idleTimeout_ c) (keepAliveInterval_ c) (keepAliveEnabled_ c) (lastActivityTime_ c)
    (inputBuffer_ c) (outputBuffer_ c) l (socket_ops c) (sent c).
Definition set_tied c : TcpConnection S :=
  mkConn (state_ c) (events c) true (highWaterMark_ c) (writeCompleteCallback_ c)
    (highWaterMarkCallback_ c) (connectionTimeoutTimerId_ c) (idleTimerId_ c) (keepAliveTimerId_ c)
    (idleTimeout_ c) (keepAliveInterval_ c) (keepAliveEnabled_ c) (lastActivityTime_ c)
    (inputBuffer_ c) (outputBuffer_ c) (loop c) (socket_ops c) (sent c).
Definition set_events e c : TcpConnection S :=
  mkConn (state_ c) e (tied c) (highWaterMark_ c) (writeCompleteCallback_ c)
    (highWaterMarkCallback_ c) (connectionTimeoutTimerId_ c) (idleTimerId_ c) (keepAliveTimerId_ c)
    (idleTimeout_ c) (keepAliveInterval_ c) (keepAliveEnabled_ c) (lastActivityTime_ c)
    (inputBuffer_ c) (outputBuffer_ c) (loop c) (socket_ops c) (sent c).
Definition set_input b c : TcpConnection S :=
  mkConn (state_ c) (events c) (tied c) (highWaterMark_ c) (writeCompleteCallback_ c)
    (highWaterMarkCallback_ c) (connectionTimeoutTimerId_ c) (idleTimerId_ c) (keepAliveTimerId_ c)
    (idleTimeout_ c) (keepAliveInterval_ c) (keepAliveEnabled_ c) (lastActivityTime_ c)
    b (outputBuffer_ c) (loop c) (socket_ops c) (sent c).
(** The output side: buffer, socket traffic and [sent]. *)
Definition set_output b ops total c : TcpConnection S :=
  mkConn (state_ c) (events c) (tied c) (highWaterMark_ c) (writeCompleteCallback_ c)
    (highWaterMarkCallback_ c) (connectionTimeoutTimerId_ c) (idleTimerId_ c) (keepAliveTimerId_ c)
    (idleTimeout_ c) (keepAliveInterval_ c) (keepAliveEnabled_ c) (lastActivityTime_ c)
    (inputBuffer_ c) b (loop c) ops total.
Definition set_timers t1 t2 t3 c : TcpConnection S :=
  mkConn (state_ c) (events c) (tied c) (highWaterMark_ c) (writeCompleteCallback_ c)
    (highWaterMarkCallback_ c) t1 t2 t3
    (idleTimeout_ c) (keepAliveInterval_ c) (keepAliveEnabled_ c) (lastActivityTime_ c)
    (inputBuffer_ c) (outputBuffer_ c) (loop c) (socket_ops c) (sent c).
Definition set_timing idle interval enabled last c : TcpConnection S :=
  mkConn (state_ c) (events c) (tied c) (highWaterMark_ c) (writeCompleteCallback_ c)
    (highWaterMarkCallback_ c) (connectionTimeoutTimerId_ c) (idleTimerId_ c) (keepAliveTimerId_ c)
    idle interval enabled last
    (inputBuffer_ c) (outputBuffer_ c) (loop c) (socket_ops c) (sent c).
Definition set_callbacks mark complete high c : TcpConnection S :=
  mkConn (state_ c) (events c) (tied c) mark complete high
    (connectionTimeoutTimerId_ c) (idleTimerId_ c) (keepAliveTimerId_ c)
    (idleTimeout_ c) (keepAliveInterval_ c) (keepAliveEnabled_ c) (lastActivityTime_ c)
    (inputBuffer_ c) (outputBuffer_ c) (loop c) (socket_ops c) (sent c).

(** The constructor: default buffers, 64 MiB high-water mark. *)
Definition TcpConnection_new (now : Timestamp) (l : S) : res (TcpConnection S) :=
  i ← Buffer_new kInitialSize;
  o ← Buffer_new kInitialSize;
  Ok (mkConn kConnecting kNoneEvent false (64 * 1024 * 1024) false false
        TimerId_default TimerId_default TimerId_default dzero (double_of_int 30) false now
        i o l [] []).

Definition is_writing c : bool := has (events c) kWriteEvent.

(** [channel_->enableReading()] and its siblings. *)
Definition channel_mask (o : mask_op) c : TcpConnection S :=
  let c := set_events (mask o (events c)) c in
  set_loop (update_channel (events c) (loop c)) c.

Definition queue_task t c : TcpConnection S := set_loop (post t (loop c)) c.

(** [loop_->cancel(id)] when [id.isValid()]. *)
Definition cancel_if_valid (id : TimerId) c : TcpConnection S :=
  if isValid id then set_loop (cancel_timer id (loop c)) c else c.

(** *** Closing down *)
Definition shutdownInLoop c : TcpConnection S :=
  if negb (is_writing c)
  then set_output (outputBuffer_ c) (socket_ops c ++ [SShutdownWrite]) (sent c) c
  else c.

Context (user : user_call -> TcpConnection S -> res (TcpConnection S)).

Definition connectEstablished c : res (TcpConnection S) :=
  let c := set_state kConnected c in
  let c := set_tied c in
  let c := channel_mask EnableReading c in
  user UConnection c.

Definition connectDestroyed c : res (TcpConnection S) :=
  c ← (if decide (state_ c = kConnected) then
         let c := set_state kDisconnected c in
         let c := channel_mask DisableAll c in
         user UConnection c
       else Ok c);
  Ok (set_loop (remove_channel (loop c)) c).

Definition handleClose c : res (TcpConnection S) :=
  let c := set_state kDisconnected c in
  let c := channel_mask DisableAll c in
  let c := cancel_if_valid (connectionTimeoutTimerId_ c) c in
  let c := cancel_if_valid (idleTimerId_ c) c in
  let c := cancel_if_valid (keepAliveTimerId_ c) c in
  c ← user UConnection c;
  user UClose c.

(** [handleError] only reads the socket's error and logs it. *)
Definition handleError c : TcpConnection S := c.

Definition shutdown (inLoop : bool) c : TcpConnection S :=
  if decide (state_ c = kConnected) then
    let c := set_state kDisconnecting c in
    if inLoop then shutdownInLoop c else queue_task TShutdownInLoop c
  else c.

Definition open_or_closing c : bool :=
  bool_decide (state_ c = kConnected) || bool_decide (state_ c = kDisconnecting).

Definition forceCloseInLoop c : res (TcpConnection S) :=
  if open_or_closing c then handleClose c else Ok c.

Definition forceClose (inLoop : bool) c : res (TcpConnection S) :=
  if open_or_closing c then
    let c := set_state kDisconnecting c in
    if inLoop then forceCloseInLoop c else Ok (queue_task TForceCloseInLoop c)
  else Ok c.

(** *** Sending *)

(** The first half of [sendInLoop]: if nothing is queued, write at once; [ret] is
    what [write] returns.  Yields [nwrote] and [faultError]. *)
Definition write_at_once (data : list byte) (ret : sysret Z) c : Z * bool * TcpConnection S :=
  if negb (is_writing c) && (readableBytes (outputBuffer_ c) =? 0) then
    match ret with
    | Done nwrote =>
        let bytes := take (Z.to_nat nwrote) data in
        let c := set_output (outputBuffer_ c) (socket_ops c ++ [SWrite bytes]) (sent c ++ bytes) c in
        let remaining := size_sub (zlen data) nwrote in
        (nwrote, false,
         if (remaining =? 0) && writeCompleteCallback_ c then queue_task TWriteComplete c else c)
    | Errno e => (0, negb (e =? EAGAIN) && ((e =? EPIPE) || (e =? ECONNRESET)), c)
    end
  else (0, false, c).

(** The second half: buffer the rest and ask for writability. *)
Definition buffer_rest (rest : list byte) c : res (TcpConnection S) :=
  let remaining := zlen rest in
  let oldLen := readableBytes (outputBuffer_ c) in
  let c := if (highWaterMark_ c <=? size_add oldLen remaining) && (oldLen <? highWaterMark_ c)
              && highWaterMarkCallback_ c
           then queue_task (THighWaterMark (size_add oldLen remaining)) c else c in
  b ← Buffer.append (outputBuffer_ c) rest;
  let c := set_output b (socket_ops c) (sent c ++ rest) c in
  Ok (if negb (is_writing c) then channel_mask EnableWriting c else c).

Definition sendInLoop (data : list byte) (ret : sysret Z) c : res (TcpConnection S) :=
  if decide (state_ c = kDisconnected) then Ok c
  else
    let '(nwrote, faultError, c) := write_at_once data ret c in
    let remaining := size_sub (zlen data) nwrote in
    if negb faultError && (0 <? remaining) then buffer_rest (drop (Z.to_nat nwrote) data) c
    else Ok c.

Definition send (inLoop : bool) (message : list byte) (ret : sysret Z) c : res (TcpConnection S) :=
  if decide (state_ c = kConnected) then
    if inLoop then sendInLoop message ret c else Ok (queue_task (TSendInLoop message) c)
  else Ok c.

(** [send] of a [Buffer] pointer: also returns the emptied buffer. *)
Definition send_buffer (inLoop : bool) (message : Buffer) (ret : sysret Z) c
    : res (Buffer * TcpConnection S) :=
  if decide (state_ c = kConnected) then
    if inLoop then
      data ← vector_read (buffer_ message) (peek message) (readableBytes message);
      c ← sendInLoop data ret c;
      Ok (retrieveAll message, c)
    else
      '(msg, message) ← retrieveAllAsString message;
      Ok (message, queue_task (TSendInLoop msg) c)
  else Ok (message, c).

(** [handleWrite]: [ret] is what [write] returns; [stale] is [errno] when it
    returns 0 and does not set it. *)
Definition handleWrite (ret : sysret Z) (stale : Z) c : res (TcpConnection S) :=
  if is_writing c then
    data ← vector_read (buffer_ (outputBuffer_ c)) (peek (outputBuffer_ c))
             (readableBytes (outputBuffer_ c));
    let failed (e : Z) :=
      if negb (e =? EAGAIN) && ((e =? EPIPE) || (e =? ECONNRESET)) then handleClose c else Ok c in
    match ret with
    | Errno e => failed e
    | Done n =>
        if 0 <? n then
          let c := set_output (retrieve (outputBuffer_ c) n)
                     (socket_ops c ++ [SWrite (take (Z.to_nat n) data)]) (sent c) c in
          if readableBytes (outputBuffer_ c) =? 0 then
            let c := channel_mask DisableWriting c in
            let c := if writeCompleteCallback_ c then queue_task TWriteComplete c else c in
            Ok (if decide (state_ c = kDisconnecting) then shutdownInLoop c else c)
          else Ok c
        else failed stale
    end
  else Ok c.

(** *** Timers *)
Definition setConnectionTimeoutInLoop (seconds : double) c : res (TcpConnection S) :=
  let c := cancel_if_valid (connectionTimeoutTimerId_ c) c in
  if dltb dzero seconds then
    '(id, l) ← run_after seconds OnConnectionTimeout (loop c);
    Ok (set_timers id (idleTimerId_ c) (keepAliveTimerId_ c) (set_loop l c))
  else Ok c.

Definition setConnectionTimeout (inLoop : bool) (seconds : double) c : res (TcpConnection S) :=
  if inLoop then setConnectionTimeoutInLoop seconds c
  else Ok (queue_task (TSetConnectionTimeoutInLoop seconds) c).

Definition resetIdleTimerInLoop c : res (TcpConnection S) :=
  let c := cancel_if_valid (idleTimerId_ c) c in
  '(id, l) ← run_after (idleTimeout_ c) OnIdleTimeout (loop c);
  let c := set_timers (connectionTimeoutTimerId_ c) id (keepAliveTimerId_ c) (set_loop l c) in
  Ok (set_timing (idleTimeout_ c) (keepAliveInterval_ c) (keepAliveEnabled_ c) (clock (loop c)) c).

Definition resetIdleTimer (inLoop : bool) c : res (TcpConnection S) :=
  if dleb (idleTimeout_ c) dzero then Ok c
  else if inLoop then resetIdleTimerInLoop c
  else Ok (queue_task TResetIdleTimerInLoop c).

Definition setIdleTimeout (inLoop : bool) (seconds : double) c : res (TcpConnection S) :=
  let c := set_timing seconds (keepAliveInterval_ c) (keepAliveEnabled_ c) (lastActivityTime_ c) c in
  if dltb dzero seconds then resetIdleTimer inLoop c
  else if isValid (idleTimerId_ c) then
    let c := cancel_if_valid (idleTimerId_ c) c in
    Ok (set_timers (connectionTimeoutTimerId_ c) TimerId_default (keepAliveTimerId_ c) c)
  else Ok c.

Definition setupKeepAliveTimer c : res (TcpConnection S) :=
  if negb (keepAliveEnabled_ c) then Ok c
  else
    '(id, l) ← run_every (keepAliveInterval_ c) OnKeepAliveTimeout (loop c);
    Ok (set_timers (connectionTimeoutTimerId_ c) (idleTimerId_ c) id (set_loop l c)).

Definition enableKeepAlive (inLoop enable : bool) (interval : Z) c : res (TcpConnection S) :=
  let c := set_timing (idleTimeout_ c) (double_of_int interval) enable (lastActivityTime_ c) c in
  if enable then
    if inLoop then setupKeepAliveTimer c else Ok (queue_task TSetupKeepAliveTimer c)
  else if isValid (keepAliveTimerId_ c) then
    let c := cancel_if_valid (keepAliveTimerId_ c) c in
    Ok (set_timers (connectionTimeoutTimerId_ c) (idleTimerId_ c) TimerId_default c)
  else Ok c.

Definition HEARTBEAT : list byte := [x48; x45; x41; x52; x54; x42; x45; x41; x54].

Definition onKeepAliveTimeout (ret : sysret Z) c : res (TcpConnection S) :=
  if negb (bool_decide (state_ c = kConnected))
  then Ok (cancel_if_valid (keepAliveTimerId_ c) c)
  else sendInLoop HEARTBEAT ret c.

(** A timer of the connection fires, in the loop thread. *)
Definition onTimer (t : timer_task) (ret : sysret Z) c : res (TcpConnection S) :=
  match t with
  | OnConnectionTimeout | OnIdleTimeout => forceClose true c
  | OnKeepAliveTimeout => onKeepAliveTimeout ret c
  end.

(** *** Reading *)
Definition handleRead (receiveTime : Timestamp) (ret : sysret (list byte)) c
    : res (TcpConnection S) :=
  '(n, savedErrno, b) ← readFd (inputBuffer_ c) ret;
  let c := set_input b c in
  if 0 <? n then
    c ← user (UMessage receiveTime) c;
    c ← (if dltb dzero (idleTimeout_ c) then resetIdleTimer true c else Ok c);
    Ok (set_timing (idleTimeout_ c) (keepAliveInterval_ c) (keepAliveEnabled_ c) receiveTime c)
  else if n =? 0 then handleClose c
  else Ok (handleError c).

(** The loop runs a functor of the connection. *)
Definition run_task (t : conn_task) (ret : sysret Z) c : res (TcpConnection S) :=
  match t with
  | TWriteComplete => user UWriteComplete c
  | THighWaterMark n => user (UHighWaterMark n) c
  | TSendInLoop m => sendInLoop m ret c
  | TShutdownInLoop => Ok (shutdownInLoop c)
  | TForceCloseInLoop => forceCloseInLoop c
  | TSetConnectionTimeoutInLoop s => setConnectionTimeoutInLoop s c
  | TResetIdleTimerInLoop => resetIdleTimerInLoop c
  | TSetupKeepAliveTimer => setupKeepAliveTimer c
  end.
End conn.
