(* ===== verification/TcpSpec.v ===== *)
(** * TcpSpec: what a connection guarantees

    The invariant of a connection (its byte stream is intact, the channel asks
    for writability exactly while there is something to write), preserved by
    every handler, task, timer and call of the interface, for any user code that
    keeps it; the properties that follow; and the interleaving of [forceClose]
    with the loop. *)
From Stdlib Require Import Strings.Byte.
From S2P Require Import Prelude Buffer Timestamp TimerQueue Channel TcpConnection.

Section invariant.
Context {S : Type} `{!ConnLoop S}.
Implicit Types c : TcpConnection S.

(** The bytes written to the socket. *)
Definition written (ops : list sock_op) : list byte :=
  concat ((fun o => match o with SWrite b => b | SShutdownWrite => [] end) <$> ops).

Lemma written_app ops ops' : written (ops ++ ops') = written ops ++ written ops'.
Proof. unfold written. by rewrite fmap_app, concat_app. Qed.

Record conn_inv c : Prop := {
  ci_in : wf (inputBuffer_ c);
  ci_out : wf (outputBuffer_ c);
  ci_stream : sent c = written (socket_ops c) ++ readable (outputBuffer_ c);
  ci_writing : is_writing c = true -> readable (outputBuffer_ c) <> [];
  ci_pending : readable (outputBuffer_ c) <> [] -> state_ c <> kDisconnected -> is_writing c = true;
  ci_closed : state_ c = kDisconnected -> events c = kNoneEvent
}.

(** The fields the invariant looks at. *)
Lemma conn_inv_same c c' :
  conn_inv c -> state_ c' = state_ c -> events c' = events c -> inputBuffer_ c' = inputBuffer_ c ->
  outputBuffer_ c' = outputBuffer_ c -> socket_ops c' = socket_ops c -> sent c' = sent c -> conn_inv c'.
Proof.
  intros [] H1 H2 H3 H4 H5 H6. unfold is_writing in *.
  split; unfold is_writing; rewrite ?H1, ?H2, ?H3, ?H4, ?H5, ?H6; done.
Qed.

Lemma conn_inv_loop c l : conn_inv c -> conn_inv (set_loop l c).
Proof. intros H. by apply (conn_inv_same c). Qed.

Lemma conn_inv_task c t : conn_inv c -> conn_inv (queue_task t c).
Proof. apply conn_inv_loop. Qed.

Lemma conn_inv_cancel c id : conn_inv c -> conn_inv (cancel_if_valid id c).
Proof. unfold cancel_if_valid. destruct (isValid id); auto using conn_inv_loop. Qed.

Lemma conn_inv_timers c t1 t2 t3 : conn_inv c -> conn_inv (set_timers t1 t2 t3 c).
Proof. intros H. by apply (conn_inv_same c). Qed.

Lemma conn_inv_timing c a b d e : conn_inv c -> conn_inv (set_timing a b d e c).
Proof. intros H. by apply (conn_inv_same c). Qed.

(** [set_state] between states other than [kDisconnected]. *)
Lemma conn_inv_state c s :
  conn_inv c -> state_ c <> kDisconnected -> s <> kDisconnected -> conn_inv (set_state s c).
Proof.
  intros [H1 H2 H3 H4 H5 H6] Hc Hs. unfold is_writing in *. split; simpl; auto; done.
Qed.

(** Closing: no interest is left. *)
Lemma conn_inv_close c :
  conn_inv c -> conn_inv (channel_mask DisableAll (set_state kDisconnected c)).
Proof. intros []. unfold channel_mask. split; simpl; try done. Qed.

Lemma no_output_empty c :
  wf (outputBuffer_ c) -> (readableBytes (outputBuffer_ c) =? 0) = true <-> readable (outputBuffer_ c) = [].
Proof.
  intros Hwf. rewrite Z.eqb_eq, <- (zlen_readable _ Hwf). unfold zlen.
  destruct (readable (outputBuffer_ c)); simpl; split; try done; lia.
Qed.

Lemma shutdownInLoop_inv c : conn_inv c -> conn_inv (shutdownInLoop c).
Proof.
  intros [H1 H2 H3 H4 H5 H6]. unfold shutdownInLoop. destruct (negb (is_writing c)); [|by split].
  split; simpl; try done. rewrite written_app, H3. unfold written at 3. simpl. by rewrite app_nil_r.
Qed.
End invariant.
Create HintDb conn.
#[export] Hint Resolve conn_inv_loop conn_inv_task conn_inv_cancel conn_inv_timers conn_inv_timing
  conn_inv_close shutdownInLoop_inv : conn.

(** What [write] of [len] bytes may return. *)
Definition write_ok (len : Z) (ret : sysret Z) : Prop :=
  match ret with Errno _ => True | Done n => 0 <= n <= len end.

(** User code that keeps the invariant. *)
Class ConnUser {S : Type} `{!ConnLoop S}
    (user : user_call -> TcpConnection S -> res (TcpConnection S)) : Prop :=
  user_inv k c c' : conn_inv c -> user k c = Ok c' -> conn_inv c'.

Section handlers.
Context {S : Type} `{!ConnLoop S}.
Context (user : user_call -> TcpConnection S -> res (TcpConnection S)) `{!ConnUser user}.
Implicit Types c : TcpConnection S.

Lemma handleClose_inv c c' : conn_inv c -> handleClose user c = Ok c' -> conn_inv c'.
Proof.
  intros Hc E. unfold handleClose in E. inv_res.
  eapply user_inv; [|exact E]. eapply user_inv; [|exact Hm]. auto with conn.
Qed.

Lemma forceCloseInLoop_inv c c' : conn_inv c -> forceCloseInLoop user c = Ok c' -> conn_inv c'.
Proof.
  intros Hc. unfold forceCloseInLoop. destruct (open_or_closing c); [by apply handleClose_inv|].
  by intros [= <-].
Qed.

Lemma open_not_closed c : open_or_closing c = true -> state_ c <> kDisconnected.
Proof. unfold open_or_closing. by destruct (state_ c). Qed.

Lemma forceClose_inv b c c' : conn_inv c -> forceClose user b c = Ok c' -> conn_inv c'.
Proof.
  intros Hc. unfold forceClose. destruct (open_or_closing c) eqn:Eo; [|by intros [= <-]].
  assert (conn_inv (set_state kDisconnecting c)) by (apply conn_inv_state; auto using open_not_closed; done).
  destruct b; [by apply forceCloseInLoop_inv|]. intros [= <-]. auto with conn.
Qed.

Lemma shutdown_inv b c : conn_inv c -> conn_inv (shutdown b c).
Proof.
  intros Hc. unfold shutdown. case_decide as Es; [|done].
  assert (conn_inv (set_state kDisconnecting c)) by (apply conn_inv_state; [done|by rewrite Es|done]).
  destruct b; auto with conn.
Qed.

Lemma connectEstablished_inv c c' :
  conn_inv c -> state_ c <> kDisconnected -> connectEstablished user c = Ok c' -> conn_inv c'.
Proof.
  intros Hc Hs E. eapply user_inv; [|exact E]. apply conn_inv_loop.
  pose proof (conn_inv_state c kConnected Hc Hs ltac:(done)) as [H1 H2 H3 H4 H5 H6].
  unfold is_writing in *. split; simpl in *; try done; unfold is_writing; simpl;
    change (Z.lor (events c) kReadEvent) with (mask EnableReading (events c));
    rewrite ?writing_reading; done.
Qed.

Lemma connectDestroyed_inv c c' : conn_inv c -> connectDestroyed user c = Ok c' -> conn_inv c'.
Proof.
  intros Hc E. unfold connectDestroyed in E. case_decide; inv_res; apply conn_inv_loop; [|done].
  eapply user_inv; [|exact Hm]. auto with conn.
Qed.

Lemma write_at_once_inv data ret c :
  conn_inv c -> write_ok (zlen data) ret ->
  let '(n, _, c') := write_at_once data ret c in
  0 <= n <= zlen data /\ conn_inv c' /\ state_ c' = state_ c /\ outputBuffer_ c' = outputBuffer_ c /\
  events c' = events c.
Proof.
  intros Hc Hret. unfold write_at_once. pose proof (zlen_nonneg data).
  destruct (negb (is_writing c) && _) eqn:Ew; [|split_and!; try done; lia].
  apply andb_true_iff in Ew as [_ Ew]. apply (no_output_empty c) in Ew; [|apply (ci_out _ Hc)].
  destruct ret as [e|n]; [split_and!; try done; lia|]. simpl in Hret.
  set (c1 := set_output _ _ _ c).
  assert (conn_inv c1) as Hc1.
  { destruct Hc as [H1 H2 H3 H4 H5 H6]. split; simpl; try done.
    rewrite written_app, H3, Ew, !app_nil_r. unfold written at 3. simpl. by rewrite app_nil_r. }
  split; [done|]. destruct (_ && _); split_and!; auto with conn.
Qed.

Lemma buffer_rest_inv rest c c' :
  conn_inv c -> state_ c <> kDisconnected -> 0 < zlen rest <= max_size ->
  buffer_rest rest c = Ok c' ->
  conn_inv c' /\ readable (outputBuffer_ c') = readable (outputBuffer_ c) ++ rest /\
  socket_ops c' = socket_ops c.
Proof.
  intros Hc Hs Hlen E. unfold buffer_rest in E.
  set (c1 := if _ && highWaterMarkCallback_ c then _ else c) in E.
  assert (conn_inv c1 /\ state_ c1 = state_ c /\ outputBuffer_ c1 = outputBuffer_ c /\
    socket_ops c1 = socket_ops c) as (Hc1 & Hs1 & Ho1 & Hops) by (subst c1; destruct (_ && _); auto with conn).
  clearbody c1. inv_res. rewrite Ho1 in Hm.
  destruct (append_Ok_contents _ _ _ (ci_out _ Hc) (proj2 Hlen) Hm) as [Hwf Hr].
  assert (readable a <> []) as Hne.
  { rewrite Hr. intros E0. apply app_eq_nil in E0 as [_ ->]. unfold zlen in Hlen. simpl in Hlen. lia. }
  set (c2 := set_output a (socket_ops c1) (sent c1 ++ rest) c1) in *.
  assert (sent c2 = written (socket_ops c2) ++ readable (outputBuffer_ c2)) as Hstream.
  { simpl. rewrite (ci_stream _ Hc1), Hr, Ho1. by rewrite app_assoc. }
  destruct Hc1 as [H1 _ _ _ _ H6].
  destruct (is_writing c2) eqn:Ew; simpl.
  - split; [|done]. split; simpl; done.
  - split; [|done]. split; simpl; try done.
    + unfold is_writing. simpl. change (Z.lor (events c1) kWriteEvent) with (mask EnableWriting (events c1)).
      by rewrite writing_enabled.
    + intros Hd. congruence.
Qed.

Lemma sendInLoop_inv data ret c c' :
  conn_inv c -> zlen data <= max_size -> write_ok (zlen data) ret ->
  sendInLoop data ret c = Ok c' -> conn_inv c'.
Proof.
  intros Hc Hlen Hret. unfold sendInLoop. case_decide as Hs; [by intros [= <-]|].
  pose proof (write_at_once_inv data ret c Hc Hret) as Hw.
  destruct (write_at_once data ret c) as [[n ok] c1]. destruct Hw as (Hn & Hc1 & Hs1 & _ & _).
  destruct (negb ok && _) eqn:Er; [|by intros [= <-]]. intros E.
  apply andb_true_iff in Er as [_ Er%Z.ltb_lt]. unfold size_sub in Er.
  rewrite u64_small in Er by (unfold max_size, max_int64, two64 in *; lia).
  apply (buffer_rest_inv (drop (Z.to_nat n) data) c1 c'); try done; [congruence|arr].
Qed.

Lemma send_inv b data ret c c' :
  conn_inv c -> zlen data <= max_size -> write_ok (zlen data) ret ->
  send b data ret c = Ok c' -> conn_inv c'.
Proof.
  intros Hc Hlen Hret. unfold send. case_decide; [|by intros [= <-]].
  destruct b; [by apply sendInLoop_inv|]. intros [= <-]. auto with conn.
Qed.

Lemma send_buffer_inv b m ret c m' c' :
  conn_inv c -> wf m -> write_ok (readableBytes m) ret ->
  send_buffer b m ret c = Ok (m', c') -> conn_inv c' /\ wf m'.
Proof.
  intros Hc Hm Hret E. unfold send_buffer in E. case_decide; [|by simplify_eq].
  pose proof (zlen_readable m Hm) as Hz. destruct (wf_sizes m Hm) as [Hsz _].
  destruct (retrieveAll_contents m Hm) as [Hm' _].
  destruct b.
  - assert (0 <= readableBytes m) by (rewrite Hsz; unfold wf in Hm; lia).
    rewrite (read_readable m _ Hm), bind_ret_l in E by lia.
    rewrite take_ge in E by (rewrite <- Hz; unfold zlen; lia). inv_res. simplify_eq.
    split; [|done]. apply (sendInLoop_inv (readable m) ret c); try done; [|by rewrite Hz].
    rewrite Hz, Hsz. unfold wf in Hm. lia.
  - inv_res. destruct a as [d m1]. simplify_eq/=. split; [auto with conn|].
    unfold retrieveAllAsString in Hm0. inv_res. by simplify_eq.
Qed.

(** Writing [n] of the buffered bytes. *)
Lemma drain_stream n c :
  conn_inv c -> 0 < n <= readableBytes (outputBuffer_ c) ->
  let b := retrieve (outputBuffer_ c) n in
  wf b /\ readable b = drop (Z.to_nat n) (readable (outputBuffer_ c)) /\
  sent c = written (socket_ops c ++ [SWrite (take (Z.to_nat n) (readable (outputBuffer_ c)))]) ++ readable b.
Proof.
  intros Hc Hn. destruct (retrieve_contents (outputBuffer_ c) n (ci_out _ Hc)) as [Hwf Hr]; [lia|].
  cbv zeta. split_and!; try done. rewrite written_app, Hr, (ci_stream _ Hc), <- app_assoc. f_equal.
  unfold written. simpl. by rewrite app_nil_r, take_drop.
Qed.

Lemma handleWrite_inv ret stale c c' :
  conn_inv c -> write_ok (readableBytes (outputBuffer_ c)) ret ->
  handleWrite user ret stale c = Ok c' -> conn_inv c'.
Proof.
  intros Hc Hret E. unfold handleWrite in E.
  destruct (is_writing c) eqn:Ew; [|by injection E as <-].
  destruct (wf_sizes _ (ci_out _ Hc)) as [Hsz _].
  rewrite (read_readable (outputBuffer_ c) (readableBytes (outputBuffer_ c)) (ci_out _ Hc)), bind_ret_l in E
    by (split; [rewrite Hsz; pose proof (ci_out _ Hc); unfold wf in *; lia|lia]).
  rewrite take_ge in E by (rewrite <- (zlen_readable _ (ci_out _ Hc)); unfold zlen; lia).
  assert (forall e, (if negb (e =? EAGAIN) && ((e =? EPIPE) || (e =? ECONNRESET))
    then handleClose user c else Ok c) = Ok c' -> conn_inv c') as Hfail.
  { clear E. intros e. destruct (_ && _); [by apply handleClose_inv|by intros [= <-]]. }
  destruct ret as [e|n]; [by apply (Hfail e)|]. simpl in Hret.
  destruct (Z.ltb_spec 0 n) as [Hn|Hn]; [|by apply (Hfail stale)].
  destruct (drain_stream n c Hc (conj Hn (proj2 Hret))) as (Hwf & Hr & Hst). cbv zeta in E.
  set (b := retrieve (outputBuffer_ c) n) in *. set (c1 := set_output b _ _ c) in *.
  assert (is_writing c1 = true) as Ew1 by done.
  destruct Hc as [H1 _ _ _ _ H6].
  destruct (readableBytes (outputBuffer_ c1) =? 0) eqn:Ez.
  - apply (no_output_empty c1 Hwf) in Ez. simpl in Ez.
    assert (conn_inv (channel_mask DisableWriting c1)) as Hc2.
    { split; simpl; try done.
      - unfold is_writing. simpl.
        change (Z.land (events c) (Z.lnot kWriteEvent)) with (mask DisableWriting (events c)).
        by rewrite writing_disabled.
      - intros Hd. by rewrite (H6 Hd). }
    set (c2 := if writeCompleteCallback_ _ then _ else _) in E.
    assert (conn_inv c2) by (subst c2; destruct (writeCompleteCallback_ _); auto with conn).
    clearbody c2. case_decide; injection E as <-; auto with conn.
  - injection E as <-. split; simpl; try done.
    intros _. intros E0. by apply (no_output_empty c1 Hwf) in E0; congruence.
Qed.

(** *** Timers leave the stream alone *)
Lemma setConnectionTimeoutInLoop_inv s c c' :
  conn_inv c -> setConnectionTimeoutInLoop s c = Ok c' -> conn_inv c'.
Proof.
  intros Hc E. unfold setConnectionTimeoutInLoop in E.
  destruct (dltb dzero s); inv_res; [destruct a; inv_res|]; auto with conn.
Qed.

Lemma resetIdleTimerInLoop_inv c c' : conn_inv c -> resetIdleTimerInLoop c = Ok c' -> conn_inv c'.
Proof. intros Hc E. unfold resetIdleTimerInLoop in E. inv_res. destruct a; inv_res. auto with conn. Qed.

Lemma resetIdleTimer_inv b c c' : conn_inv c -> resetIdleTimer b c = Ok c' -> conn_inv c'.
Proof.
  intros Hc. unfold resetIdleTimer. destruct (dleb _ _); [by intros [= <-]|].
  destruct b; [by apply resetIdleTimerInLoop_inv|]. intros [= <-]. auto with conn.
Qed.

Lemma setIdleTimeout_inv b s c c' : conn_inv c -> setIdleTimeout b s c = Ok c' -> conn_inv c'.
Proof.
  intros Hc. unfold setIdleTimeout. destruct (dltb dzero s); [apply resetIdleTimer_inv; auto with conn|].
  destruct (isValid _); intros [= <-]; auto with conn.
Qed.

Lemma setupKeepAliveTimer_inv c c' : conn_inv c -> setupKeepAliveTimer c = Ok c' -> conn_inv c'.
Proof.
  intros Hc E. unfold setupKeepAliveTimer in E.
  destruct (negb _); inv_res; [done|]. destruct a; inv_res. auto with conn.
Qed.

Lemma enableKeepAlive_inv b en i c c' : conn_inv c -> enableKeepAlive b en i c = Ok c' -> conn_inv c'.
Proof.
  intros Hc. unfold enableKeepAlive. destruct en.
  - destruct b; [apply setupKeepAliveTimer_inv; auto with conn|]. intros [= <-]. auto with conn.
  - destruct (isValid _); intros [= <-]; auto with conn.
Qed.

Lemma onTimer_inv t ret c c' :
  conn_inv c -> write_ok (zlen HEARTBEAT) ret -> onTimer user t ret c = Ok c' -> conn_inv c'.
Proof.
  intros Hc Hret. destruct t; simpl; [by apply forceClose_inv..|].
  unfold onKeepAliveTimeout. destruct (negb _); [intros [= <-]; auto with conn|].
  by apply sendInLoop_inv.
Qed.

Lemma handleRead_inv t ret c c' :
  conn_inv c -> readv_ok (inputBuffer_ c) ret -> zlen (buffer_ (inputBuffer_ c)) + extrabuf_size <= max_size ->
  handleRead user t ret c = Ok c' -> conn_inv c'.
Proof.
  intros Hc Hret Hmax E. unfold handleRead in E.
  destruct (readFd_contents _ _ (ci_in _ Hc) Hret Hmax) as (e & b & Eb & Hwf & _).
  rewrite Eb, bind_ret_l in E.
  assert (conn_inv (set_input b c)) as Hc1 by (destruct Hc; by split).
  destruct (0 <? count ret).
  - inv_res. apply conn_inv_timing. assert (conn_inv a) as Ha by (eapply user_inv; [|exact Hm]; done).
    destruct (dltb dzero (idleTimeout_ a)); [by apply (resetIdleTimer_inv true a)|congruence].
  - destruct (count ret =? 0); [by apply (handleClose_inv (set_input b c))|by injection E as <-].
Qed.

Lemma run_task_inv t ret c c' :
  conn_inv c ->
  match t with TSendInLoop m => zlen m <= max_size /\ write_ok (zlen m) ret | _ => True end ->
  run_task user t ret c = Ok c' -> conn_inv c'.
Proof.
  intros Hc Ht. destruct t; simpl; eauto using user_inv, forceCloseInLoop_inv,
    setConnectionTimeoutInLoop_inv, resetIdleTimerInLoop_inv, setupKeepAliveTimer_inv.
  - destruct Ht. by apply sendInLoop_inv.
  - intros [= <-]. auto with conn.
Qed.

(** ** Reachable states

    Everything that can happen to a connection: events of its channel, functors
    and timers run by the loop, and calls of its interface, by the loop thread or
    another one.  A user may consume the input buffer. *)
Inductive conn_step : TcpConnection S -> TcpConnection S -> Prop :=
  | ks_established c c' :
      state_ c <> kDisconnected -> connectEstablished user c = Ok c' -> conn_step c c'
  | ks_destroyed c c' : connectDestroyed user c = Ok c' -> conn_step c c'
  | ks_read t ret c c' :
      readv_ok (inputBuffer_ c) ret -> zlen (buffer_ (inputBuffer_ c)) + extrabuf_size <= max_size ->
      handleRead user t ret c = Ok c' -> conn_step c c'
  | ks_write ret stale c c' :
      write_ok (readableBytes (outputBuffer_ c)) ret ->
      handleWrite user ret stale c = Ok c' -> conn_step c c'
  | ks_close c c' : handleClose user c = Ok c' -> conn_step c c'
  | ks_task t ret c c' :
      match t with TSendInLoop m => zlen m <= max_size /\ write_ok (zlen m) ret | _ => True end ->
      run_task user t ret c = Ok c' -> conn_step c c'
  | ks_timer t ret c c' :
      write_ok (zlen HEARTBEAT) ret -> onTimer user t ret c = Ok c' -> conn_step c c'
  | ks_send b m ret c c' :
      zlen m <= max_size -> write_ok (zlen m) ret -> send b m ret c = Ok c' -> conn_step c c'
  | ks_send_buffer b m m' ret c c' :
      wf m -> write_ok (readableBytes m) ret -> send_buffer b m ret c = Ok (m', c') -> conn_step c c'
  | ks_shutdown b c : conn_step c (shutdown b c)
  | ks_forceClose b c c' : forceClose user b c = Ok c' -> conn_step c c'
  | ks_idle b s c c' : setIdleTimeout b s c = Ok c' -> conn_step c c'
  | ks_keepalive b en i c c' : enableKeepAlive b en i c = Ok c' -> conn_step c c'
  | ks_timeout s c c' : setConnectionTimeoutInLoop s c = Ok c' -> conn_step c c'
  | ks_input b c : wf b -> conn_step c (set_input b c)
  | ks_callbacks m w h c : conn_step c (set_callbacks m w h c).

Lemma conn_step_inv c c' : conn_step c c' -> conn_inv c -> conn_inv c'.
Proof.
  intros Hstep Hc. destruct Hstep as [c c' Hs E|c c' E|t ret c c' Hr Hm E|ret stale c c' Hr E|c c' E|
    t ret c c' Ht E|t ret c c' Hr E|b m ret c c' Hl Hr E|b m m' ret c c' Hw Hr E|b c|b c c' E|b s c c' E|b en i c c' E|s c c' E|
    b c Hb|m w h c].
  - by apply (connectEstablished_inv c).
  - by apply (connectDestroyed_inv c).
  - by apply (handleRead_inv t ret c).
  - by apply (handleWrite_inv ret stale c).
  - by apply (handleClose_inv c).
  - by apply (run_task_inv t ret c).
  - by apply (onTimer_inv t ret c).
  - by apply (send_inv b m ret c).
  - by apply (send_buffer_inv b m ret c m' c').
  - by apply shutdown_inv.
  - by apply (forceClose_inv b c).
  - by apply (setIdleTimeout_inv b s c).
  - by apply (enableKeepAlive_inv b en i c).
  - by apply (setConnectionTimeoutInLoop_inv s c).
  - destruct Hc. by split.
  - by apply (conn_inv_same c).
Qed.

Lemma conn_steps_inv c c' : rtc conn_step c c' -> conn_inv c -> conn_inv c'.
Proof. induction 1; eauto using conn_step_inv. Qed.

Lemma TcpConnection_new_inv now l :
  exists c, TcpConnection_new now l = Ok c /\ conn_inv c /\ state_ c = kConnecting /\ sent c = [] /\
    loop c = l.
Proof.
  unfold TcpConnection_new.
  destruct (Buffer_new_spec kInitialSize) as (b & E & Hwf & Hr & _); [done|done|].
  rewrite E. simpl. eexists. split; [done|]. split; [|done].
  split; simpl; try done; rewrite Hr; done.
Qed.
End handlers.

(** ** Instances: a loop that records what it is asked, and users *)
Record simple_conn_loop := mkSimpleConnLoop {
  cl_tasks : list conn_task;
  cl_events : list Z;
  cl_armed : gmap (Z * Z) timer_task;
  cl_clock : Timestamp
}.

Definition max_sequence (m : gmap (Z * Z) timer_task) : Z :=
  map_fold (fun k _ n => Z.max k.2 n) 0 m.

Lemma max_sequence_spec m k : is_Some (m !! k) -> k.2 <= max_sequence m.
Proof.
  unfold max_sequence. revert k. apply (map_fold_weak_ind (fun n (m : gmap (Z * Z) timer_task) =>
    forall k, is_Some (m !! k) -> k.2 <= n)).
  - intros k [t Ht]. by rewrite lookup_empty in Ht.
  - intros k t m' n Hk IH k'. rewrite lookup_insert_is_Some'.
    intros [->|Hs]; [lia|]. specialize (IH k' Hs). lia.
Qed.

Definition arm (t : timer_task) (s : simple_conn_loop) : TimerId * simple_conn_loop :=
  let id := mkTimerId 1 (max_sequence (cl_armed s) + 1) in
  (id, mkSimpleConnLoop (cl_tasks s) (cl_events s) (<[id_key id := t]> (cl_armed s)) (cl_clock s)).

Lemma arm_fresh t s : cl_armed s !! id_key (arm t s).1 = None.
Proof.
  apply eq_None_not_Some. intros Hs. apply max_sequence_spec in Hs. simpl in Hs. lia.
Qed.

#[global] Instance simple_conn : ConnLoop simple_conn_loop := {
  post t s := mkSimpleConnLoop (cl_tasks s ++ [t]) (cl_events s) (cl_armed s) (cl_clock s);
  update_channel e s := mkSimpleConnLoop (cl_tasks s) (cl_events s ++ [e]) (cl_armed s) (cl_clock s);
  remove_channel s := s;
  run_after d t s := Ok (if dltb d dzero then (TimerId_default, s) else arm t s);
  run_every d t s := Ok (if dleb d dzero then (TimerId_default, s) else arm t s);
  cancel_timer id s :=
    mkSimpleConnLoop (cl_tasks s) (cl_events s) (delete (id_key id) (cl_armed s)) (cl_clock s);
  clock := cl_clock;
  armed := cl_armed
}.

#[global, program] Instance simple_timers : ConnTimers simple_conn_loop := { loop_ok _ := True }.
Next Obligation. done. Qed.
Next Obligation. done. Qed.
Next Obligation. done. Qed.
Next Obligation. done. Qed.
Next Obligation. done. Qed.
Next Obligation. done. Qed.
Next Obligation. done. Qed.
Next Obligation. done. Qed.
Next Obligation. done. Qed.
Next Obligation.
  intros d t s id s' _ Hd. cbn. rewrite Hd. intros [= <- <-].
  split; [done|]. split; [apply (arm_fresh t s)|done].
Qed.
Next Obligation.
  intros d t s id s' _ Hd. cbn. rewrite Hd. intros [= <- <-].
  split; [done|]. split; [apply (arm_fresh t s)|done].
Qed.
Next Obligation. done. Qed.

Definition start_loop : simple_conn_loop := mkSimpleConnLoop [] [] ∅ 1000.

(** A user that does nothing. *)
Definition quiet {S} (_ : user_call) (c : TcpConnection S) : res (TcpConnection S) := Ok c.

#[global] Instance quiet_user {S} `{!ConnLoop S} : ConnUser (@quiet S).
Proof. intros k c c' Hc [= <-]. done. Qed.

(** An echo server: it sends back what it receives; each [write] takes at most
    [quota] bytes. *)
Definition echo (quota : Z) {S} `{!ConnLoop S} (k : user_call) (c : TcpConnection S)
    : res (TcpConnection S) :=
  match k with
  | UMessage _ =>
      let m := inputBuffer_ c in
      '(m, c) ← send_buffer true m (Done (Z.max 0 (Z.min quota (readableBytes m)))) c;
      Ok (set_input m c)
  | _ => Ok c
  end.

#[global] Instance echo_user quota {S} `{!ConnLoop S} : ConnUser (echo quota (S := S)).
Proof.
  intros k c c' Hc E. destruct k; simpl in E; try (by injection E as <-).
  inv_res. destruct a as [m c1]. inv_res.
  destruct (send_buffer_inv true (inputBuffer_ c) (Done (Z.max 0 (Z.min quota (readableBytes (inputBuffer_ c)))))
    c m c1 Hc) as [Hc1 Hm1]; [apply (ci_in _ Hc)| |done|].
  - destruct (wf_sizes _ (ci_in _ Hc)) as [Hsz _]. simpl.
    pose proof (ci_in _ Hc) as Hwf. unfold wf in Hwf. lia.
  - destruct Hc1. by split.
Qed.

(** ** Properties *)

(** C8: the byte stream of a connection is intact.  From a new connection, after
    any sequence of channel events, functors, timers and calls of the interface,
    with any user code that behaves: what [sendInLoop] has taken is exactly what
    was written to the socket followed by what is still buffered, in order; the
    channel watches for writability if and only if something is buffered and the
    connection is not disconnected; a disconnected one watches for nothing. *)
Theorem conn_stream_intact {S : Type} `{!ConnLoop S}
    (user : user_call -> TcpConnection S -> res (TcpConnection S)) `{!ConnUser user}
    (now : Timestamp) (l : S) (c0 c : TcpConnection S) :
  TcpConnection_new now l = Ok c0 -> rtc (conn_step user) c0 c ->
  sent c = written (socket_ops c) ++ readable (outputBuffer_ c) /\
  (is_writing c = true <-> readable (outputBuffer_ c) <> [] /\ state_ c <> kDisconnected) /\
  (state_ c = kDisconnected -> events c = kNoneEvent).
Proof.
  intros E Hs. destruct (TcpConnection_new_inv now l) as (c1 & E1 & Hc1 & _).
  rewrite E in E1. injection E1 as <-. pose proof (conn_steps_inv user _ _ Hs Hc1) as Hc.
  split; [apply (ci_stream _ Hc)|]. split; [|apply (ci_closed _ Hc)]. split.
  - intros Hw. split; [by apply (ci_writing _ Hc)|]. intros Hd.
    unfold is_writing in Hw. by rewrite (ci_closed _ Hc Hd) in Hw.
  - intros [H1 H2]. by apply (ci_pending _ Hc).
Qed.

(** The state a computation ends in, or a fixed one. *)
Definition conn_or (d : TcpConnection simple_conn_loop) (r : res (TcpConnection simple_conn_loop)) :=
  match r with Ok c => c | Fault _ => d end.

Definition demo0 : TcpConnection simple_conn_loop :=
  mkConn kConnecting 0 false (64 * 1024 * 1024) false false TimerId_default TimerId_default
    TimerId_default dzero (double_of_int 30) false 1000
    (mkBuffer (zeros 1032) 8 8) (mkBuffer (zeros 1032) 8 8) start_loop [] [].
Definition demo1 := conn_or demo0 (connectEstablished (echo 2) demo0).
Definition demo2 := conn_or demo0 (handleRead (echo 2) 2000 (Done [x61; x62; x63; x64; x65]) demo1).
Definition demo3 := conn_or demo0 (handleWrite (echo 2) (Done 2) 0 demo2).

Lemma demo0_new : TcpConnection_new 1000 start_loop = Ok demo0.
Proof. vm_compute. reflexivity. Qed.

Lemma demo3_reachable : rtc (conn_step (echo 2)) demo0 demo3.
Proof.
  apply (rtc_l _ _ demo1); [apply ks_established; [discriminate|vm_compute; reflexivity]|].
  apply (rtc_l _ _ demo2).
  { apply (ks_read _ 2000 (Done [x61; x62; x63; x64; x65])); vm_compute; [discriminate..|reflexivity]. }
  apply rtc_once. apply (ks_write _ (Done 2) 0); [split; vm_compute; discriminate|vm_compute; reflexivity].
Qed.

Lemma conn_stream_intact_witness :
  sent demo3 = [x61; x62; x63; x64; x65] /\
  sent demo3 = written (socket_ops demo3) ++ readable (outputBuffer_ demo3) /\
  readable (outputBuffer_ demo3) = [x65].
Proof.
  destruct (conn_stream_intact (echo 2) 1000 start_loop demo0 demo3 demo0_new demo3_reachable)
    as [H _].
  split; [vm_compute; reflexivity|]. split; [exact H|vm_compute; reflexivity].
Defined.


Lemma demo0_inv : conn_inv demo0.
Proof.
  destruct (TcpConnection_new_inv 1000 start_loop) as (c & E & Hc & _).
  rewrite demo0_new in E. by injection E as <-.
Qed.



(** C22: a graceful shutdown sends everything first, as long as the connection is not closed
    meanwhile.  While it is not disconnected, [shutdownInLoop] shuts the write side exactly
    when every byte taken has been written, and leaves a connection with buffered bytes
    alone; the write event that drains the buffer of a connection being shut down then does
    it.  Once the connection is disconnected, a [shutdownInLoop] that was still queued shuts
    the write side at once, and the bytes that are buffered are never written. *)
Theorem shutdown_after_drain {S : Type} `{!ConnLoop S}
    (user : user_call -> TcpConnection S -> res (TcpConnection S)) (c : TcpConnection S) :
  conn_inv c ->
  (state_ c = kDisconnected ->
     socket_ops (shutdownInLoop c) = socket_ops c ++ [SShutdownWrite] /\
     readable (outputBuffer_ (shutdownInLoop c)) = readable (outputBuffer_ c) /\
     forall ret stale, handleWrite user ret stale (shutdownInLoop c) = Ok (shutdownInLoop c)) /\
  (state_ c <> kDisconnected -> readable (outputBuffer_ c) = [] ->
     sent c = written (socket_ops c) /\
     socket_ops (shutdownInLoop c) = socket_ops c ++ [SShutdownWrite]) /\
  (state_ c <> kDisconnected -> readable (outputBuffer_ c) <> [] ->
     shutdownInLoop c = c /\
     (state_ c = kDisconnecting ->
      forall stale, exists c', handleWrite user (Done (readableBytes (outputBuffer_ c))) stale c = Ok c' /\
       socket_ops c' = socket_ops c ++ [SWrite (readable (outputBuffer_ c)); SShutdownWrite] /\
       sent c' = written (socket_ops c') /\ is_writing c' = false)).
Proof.
  intros Hc. split_and!.
  - intros Hs. assert (is_writing c = false) as Ew by (unfold is_writing; by rewrite (ci_closed _ Hc Hs)).
    assert (shutdownInLoop c = set_output (outputBuffer_ c) (socket_ops c ++ [SShutdownWrite]) (sent c) c) as Eq
      by (unfold shutdownInLoop; by rewrite Ew).
    rewrite Eq. split_and!; try done. intros ret stale. unfold handleWrite.
    change (is_writing (set_output _ _ _ c)) with (is_writing c). by rewrite Ew.
  - intros _ He. rewrite (ci_stream _ Hc), He, app_nil_r. split; [done|]. unfold shutdownInLoop.
    destruct (is_writing c) eqn:Ew; [|done]. by destruct (ci_writing _ Hc Ew).
  - intros Hn He. assert (is_writing c = true) as Ew by (by apply (ci_pending _ Hc)).
    split; [unfold shutdownInLoop; by rewrite Ew|]. intros Hs stale.
    pose proof (ci_out _ Hc) as Hwf. destruct (wf_sizes _ Hwf) as [Hsz _].
    pose proof (zlen_readable _ Hwf) as Hz.
    assert (0 < readableBytes (outputBuffer_ c)) as Hpos.
    { rewrite <- Hz. unfold zlen. destruct (readable (outputBuffer_ c)); [done|simpl; lia]. }
    unfold handleWrite. rewrite Ew, (read_readable _ _ Hwf), bind_ret_l by lia.
    rewrite (take_ge (readable _)) by (rewrite <- Hz; unfold zlen; lia).
    destruct (Z.ltb_spec 0 (readableBytes (outputBuffer_ c))); [|lia].
    destruct (drain_stream (readableBytes (outputBuffer_ c)) c Hc ltac:(lia)) as (Hwf' & Hr & _).
    assert (readable (retrieve (outputBuffer_ c) (readableBytes (outputBuffer_ c))) = []) as Hnil
      by (rewrite Hr; apply drop_ge; rewrite <- Hz; unfold zlen; lia).
    rewrite take_ge by (rewrite <- Hz; unfold zlen; lia). cbv zeta.
    set (c1 := set_output _ _ _ c).
    rewrite (proj2 (no_output_empty c1 Hwf') Hnil).
    set (c2 := if writeCompleteCallback_ _ then _ else _).
    assert (state_ c2 = kDisconnecting /\ socket_ops c2 = socket_ops c1 /\ sent c2 = sent c /\
      is_writing c2 = false) as (G1 & G2 & G3 & G4).
    { pose proof (writing_disabled (events c)) as Hd.
      subst c2. destruct (writeCompleteCallback_ _); unfold is_writing; simpl; split_and!; done. }
    rewrite decide_True by done. eexists. split; [done|]. unfold shutdownInLoop. rewrite G4. simpl.
    rewrite G2, G3. simpl. rewrite <- !app_assoc. split; [done|].
    split; [|exact G4]. rewrite (ci_stream _ Hc), written_app. f_equal. unfold written. simpl.
    by rewrite app_nil_r.
Qed.

Definition demo_closing : TcpConnection simple_conn_loop := shutdown true demo3.

Lemma demo_closing_inv : conn_inv demo_closing.
Proof. apply shutdown_inv. apply (conn_steps_inv (echo 2) demo0); [exact demo3_reachable|exact demo0_inv]. Qed.

Lemma shutdown_after_drain_witness :
  exists c', handleWrite (echo 2) (Done 1) 0 demo_closing = Ok c' /\
    sent c' = written (socket_ops c') /\ is_writing c' = false.
Proof.
  destruct (shutdown_after_drain (echo 2) demo_closing demo_closing_inv) as (_ & _ & H).
  destruct H as [_ H]; [vm_compute; discriminate|vm_compute; discriminate|].
  destruct (H eq_refl 0) as (c' & E & _ & Hw & Hn).
  exists c'. split; [exact E|]. split; [exact Hw|exact Hn].
Defined.

(** The high-water mark is reported exactly when it is crossed.  Buffering
    [rest] queues the callback, with the new amount, if and only if the callback
    is set and the buffered amount goes from below the mark to at least it. *)
Theorem high_water_on_crossing (rest : list byte) (c c' : TcpConnection simple_conn_loop) :
  conn_inv c -> zlen (sent c) + zlen rest <= max_size -> buffer_rest rest c = Ok c' ->
  let old := zlen (readable (outputBuffer_ c)) in
  let new := old + zlen rest in
  cl_tasks (loop c')
  = cl_tasks (loop c) ++
      (if bool_decide (old < highWaterMark_ c <= new) && highWaterMarkCallback_ c
       then [THighWaterMark new] else []).
Proof.
  intros Hc Hmax E. cbv zeta. pose proof (ci_out _ Hc) as Hwf.
  rewrite (zlen_readable _ Hwf). pose proof (zlen_readable _ Hwf) as Hz.
  assert (0 <= readableBytes (outputBuffer_ c) + zlen rest < two64) as Hr.
  { rewrite (ci_stream _ Hc), zlen_app in Hmax. unfold max_size, max_int64, two64 in *. arr. }
  unfold buffer_rest, size_add in E. rewrite u64_small in E by done.
  assert ((highWaterMark_ c <=? readableBytes (outputBuffer_ c) + zlen rest) &&
    (readableBytes (outputBuffer_ c) <? highWaterMark_ c)
    = bool_decide (readableBytes (outputBuffer_ c) < highWaterMark_ c <= readableBytes (outputBuffer_ c) + zlen rest))
    as Hb.
  { apply Bool.eq_iff_eq_true. rewrite andb_true_iff, Z.leb_le, Z.ltb_lt, bool_decide_eq_true. tauto. }
  rewrite Hb in E. set (p := bool_decide _ && _) in *.
  destruct p; inv_res; destruct (negb _); inv_res; simpl; rewrite ?app_nil_r; done.
Qed.

Definition demo_marked : TcpConnection simple_conn_loop := set_callbacks 4 false true demo0.

Lemma high_water_on_crossing_witness :
  cl_tasks (loop (conn_or demo0 (buffer_rest [x61; x62; x63; x64] demo_marked))) = [THighWaterMark 4].
Proof.
  refine (high_water_on_crossing [x61; x62; x63; x64] demo_marked _ _ _ _).
  - apply (conn_inv_same demo0); try reflexivity.
    destruct (TcpConnection_new_inv 1000 start_loop) as (c & E & Hc & _).
    rewrite demo0_new in E. injection E as <-. exact Hc.
  - vm_compute. discriminate.
  - vm_compute. reflexivity.
Defined.

Section timers.
Context {S : Type} `{!ConnLoop S, !ConnTimers S}.
Implicit Types c : TcpConnection S.

Definition disarm (id : TimerId) (m : gmap (Z * Z) timer_task) : gmap (Z * Z) timer_task :=
  if isValid id then delete (id_key id) m else m.

Lemma lookup_disarm id m k :
  disarm id m !! k = if decide (isValid id = true /\ id_key id = k) then None else m !! k.
Proof.
  unfold disarm. destruct (isValid id); [|by rewrite decide_False by naive_solver].
  rewrite lookup_delete. repeat case_decide; naive_solver.
Qed.

Lemma ok_cancel_if id c : loop_ok (loop c) -> loop_ok (loop (cancel_if_valid id c)).
Proof. unfold cancel_if_valid. destruct (isValid id); [|done]. apply ok_cancel. Qed.

Lemma armed_cancel_if id c :
  loop_ok (loop c) -> armed (loop (cancel_if_valid id c)) = disarm id (armed (loop c)).
Proof. unfold cancel_if_valid, disarm. destruct (isValid id) eqn:E; [|done]. simpl. intros H. by apply armed_cancel. Qed.

Lemma cancel_if_fields id c :
  connectionTimeoutTimerId_ (cancel_if_valid id c) = connectionTimeoutTimerId_ c /\
  idleTimerId_ (cancel_if_valid id c) = idleTimerId_ c /\
  keepAliveTimerId_ (cancel_if_valid id c) = keepAliveTimerId_ c /\
  state_ (cancel_if_valid id c) = state_ c /\ idleTimeout_ (cancel_if_valid id c) = idleTimeout_ c.
Proof. unfold cancel_if_valid. by destruct (isValid id). Qed.

(** The state in which [handleClose] calls the user. *)
Definition closed_conn c : TcpConnection S :=
  let c := channel_mask DisableAll (set_state kDisconnected c) in
  let c := cancel_if_valid (connectionTimeoutTimerId_ c) c in
  let c := cancel_if_valid (idleTimerId_ c) c in
  cancel_if_valid (keepAliveTimerId_ c) c.

Lemma closed_conn_spec c :
  loop_ok (loop c) ->
  let c' := closed_conn c in
  loop_ok (loop c') /\ state_ c' = kDisconnected /\
  keepAliveTimerId_ c' = keepAliveTimerId_ c /\ idleTimeout_ c' = idleTimeout_ c /\
  armed (loop c') = disarm (keepAliveTimerId_ c) (disarm (idleTimerId_ c)
    (disarm (connectionTimeoutTimerId_ c) (armed (loop c)))).
Proof.
  intros Hl. unfold closed_conn. cbv zeta. set (c1 := channel_mask DisableAll (set_state kDisconnected c)).
  assert (loop_ok (loop c1)) as Hl1 by (by apply ok_update).
  set (c2 := cancel_if_valid (connectionTimeoutTimerId_ c1) c1).
  destruct (cancel_if_fields (connectionTimeoutTimerId_ c1) c1) as (F1 & F2 & F3 & F4 & F5). fold c2 in F1, F2, F3, F4, F5.
  set (c3 := cancel_if_valid (idleTimerId_ c2) c2).
  destruct (cancel_if_fields (idleTimerId_ c2) c2) as (G1 & G2 & G3 & G4 & G5). fold c3 in G1, G2, G3, G4, G5.
  set (c4 := cancel_if_valid (keepAliveTimerId_ c3) c3).
  destruct (cancel_if_fields (keepAliveTimerId_ c3) c3) as (K1 & K2 & K3 & K4 & K5). fold c4 in K1, K2, K3, K4, K5.
  assert (loop_ok (loop c2)) as Hl2 by (by apply ok_cancel_if).
  assert (loop_ok (loop c3)) as Hl3 by (by apply ok_cancel_if).
  split; [by apply ok_cancel_if|]. split; [by rewrite K4, G4, F4|]. split; [by rewrite K3, G3, F3|].
  split; [by rewrite K5, G5, F5|].
  subst c4. rewrite armed_cancel_if by done. subst c3. rewrite armed_cancel_if by done.
  rewrite G3, F2, F3. subst c2. rewrite armed_cancel_if by done. simpl. by rewrite armed_update.
Qed.

Lemma handleClose_quiet c : handleClose quiet c = Ok (closed_conn c).
Proof. done. Qed.
End timers.

(** C30: closing disarms the connection's timers, whatever the user's callbacks do.  On a
    loop that keeps its promises about timers ([ConnTimers]), [handleClose] hands a
    connection to the connection callback, and the result of that to the close callback, in
    which the state is [kDisconnected], no event is watched, no timer recorded in the
    connection is armed, and every other timer is as before.  (A callback may arm new
    timers then, see [idle_timer_after_close].) *)
Theorem close_disarms {S : Type} `{!ConnLoop S, !ConnTimers S}
    (user : user_call -> TcpConnection S -> res (TcpConnection S)) (c : TcpConnection S) :
  loop_ok (loop c) ->
  exists c', handleClose user c = (c2 ← user UConnection c'; user UClose c2) /\
    state_ c' = kDisconnected /\ events c' = kNoneEvent /\
    (forall id, id ∈ [connectionTimeoutTimerId_ c; idleTimerId_ c; keepAliveTimerId_ c] ->
       isValid id = true -> armed (loop c') !! id_key id = None) /\
    (forall k, (forall id, id ∈ [connectionTimeoutTimerId_ c; idleTimerId_ c; keepAliveTimerId_ c] ->
       id_key id <> k) -> armed (loop c') !! k = armed (loop c) !! k).
Proof.
  intros Hl. destruct (closed_conn_spec c Hl) as (_ & Hs & _ & _ & Ha). exists (closed_conn c). split_and!; try done.
  - unfold closed_conn, cancel_if_valid. by destruct (isValid _), (isValid _), (isValid _).
  - intros id Hin Hv. rewrite Ha, !lookup_disarm.
    rewrite !elem_of_cons, elem_of_nil in Hin. repeat case_decide; naive_solver.
  - intros k Hk. rewrite Ha, !lookup_disarm, !decide_False; [done|..];
      intros [_ E0]; revert E0; apply Hk; set_solver.
Qed.

(** The close callback of this user sets a connection timeout. *)
Lemma close_disarms_witness :
  let user k c := match k with UClose => setConnectionTimeoutInLoop (double_of_int 1) c | _ => Ok c end in
  let c := conn_or demo0 (enableKeepAlive true true 30 demo0) in
  exists c', handleClose user c = setConnectionTimeoutInLoop (double_of_int 1) c' /\ armed (loop c') !! (1, 1) = None.
Proof.
  intros user c. destruct (close_disarms user c) as (c' & E & _ & _ & H & _); [exact I|].
  exists c'. split; [exact E|].
  apply (H (mkTimerId 1 1)); [|reflexivity]. do 2 apply list_elem_of_further. vm_compute. left.
Defined.

(** Enabling the keep-alive twice leaks a timer.  [setupKeepAliveTimer] does
    not cancel the timer it replaces: after [enableKeepAlive(true, i)] twice, and
    closing the connection, the first repeating timer is still armed, and when it
    fires it disarms nothing but the second one. *)
Theorem keepalive_twice_leaks {S : Type} `{!ConnLoop S, !ConnTimers S} (i : Z) (c c1 c2 c3 : TcpConnection S)
    (ret : sysret Z) :
  loop_ok (loop c) -> dleb (double_of_int i) dzero = false -> isValid (connectionTimeoutTimerId_ c) = false ->
  isValid (idleTimerId_ c) = false ->
  enableKeepAlive true true i c = Ok c1 -> enableKeepAlive true true i c1 = Ok c2 ->
  handleClose quiet c2 = Ok c3 ->
  let leaked := id_key (keepAliveTimerId_ c1) in
  armed (loop c3) !! leaked = Some OnKeepAliveTimeout /\
  exists c4, onTimer quiet OnKeepAliveTimeout ret c3 = Ok c4 /\
    armed (loop c4) !! leaked = Some OnKeepAliveTimeout.
Proof.
  intros Hl Hi Hv1 Hv2 E1 E2 E3. cbv zeta.
  unfold enableKeepAlive, setupKeepAliveTimer in E1, E2. simpl in E1, E2. inv_res.
  destruct a as [id2 l2], a0 as [id1 l1]. inv_res. simpl in *.
  destruct (armed_every _ _ _ _ _ Hl Hi Hm0) as (V1 & _ & A1). pose proof (ok_every _ _ _ _ _ Hl Hm0) as Hl1.
  destruct (armed_every _ _ _ _ _ Hl1 Hi Hm) as (V2 & N2 & A2). pose proof (ok_every _ _ _ _ _ Hl1 Hm) as Hl2.
  assert (id_key id2 <> id_key id1) as Hne.
  { intros Ek. rewrite Ek, A1, lookup_insert_eq in N2. done. }
  set (d2 := set_timers _ _ id2 _) in E3.
  destruct (closed_conn_spec d2 Hl2) as (Hl3 & Hs & Hk & _ & Ha). rewrite handleClose_quiet in E3. injection E3 as <-.
  set (c3 := closed_conn d2) in *.
  assert (armed (loop c3) !! id_key id1 = Some OnKeepAliveTimeout) as Harm.
  { rewrite Ha. simpl. unfold disarm. rewrite Hv1, Hv2, V2, lookup_delete_ne by done.
    by rewrite A2, lookup_insert_ne, A1, lookup_insert_eq by done. }
  split; [done|]. eexists. split.
  - simpl. unfold onKeepAliveTimeout. rewrite Hs. done.
  - rewrite armed_cancel_if, Hk by done. simpl. unfold disarm. rewrite V2. by rewrite lookup_delete_ne.
Qed.

Definition demo_ka1 := conn_or demo0 (enableKeepAlive true true 30 demo0).
Definition demo_ka2 := conn_or demo0 (enableKeepAlive true true 30 demo_ka1).
Definition demo_ka3 := conn_or demo0 (handleClose quiet demo_ka2).

Lemma keepalive_twice_leaks_witness :
  state_ demo_ka3 = kDisconnected /\ armed (loop demo_ka3) !! (1, 1) = Some OnKeepAliveTimeout.
Proof.
  split; [vm_compute; reflexivity|].
  destruct (keepalive_twice_leaks 30 demo0 demo_ka1 demo_ka2 demo_ka3 (Done 0)) as [H _];
    [exact I|vm_compute; reflexivity..|exact H].
Defined.

(** A connection that its message callback closes arms a new idle timer.
    [handleRead] resets the idle timer after the callback without looking at the
    state: the connection is disconnected and still holds an armed timer, which
    keeps it (and its socket) alive until it fires. *)
Theorem idle_timer_after_close {S : Type} `{!ConnLoop S, !ConnTimers S} (t : Timestamp) (data : list byte)
    (c c' : TcpConnection S) :
  let user k c := match k with UMessage _ => forceClose quiet true c | _ => Ok c end in
  loop_ok (loop c) -> state_ c = kConnected -> data <> [] ->
  dltb dzero (idleTimeout_ c) = true -> dleb (idleTimeout_ c) dzero = false ->
  dltb (idleTimeout_ c) dzero = false ->
  handleRead user t (Done data) c = Ok c' ->
  state_ c' = kDisconnected /\ armed (loop c') !! id_key (idleTimerId_ c') = Some OnIdleTimeout.
Proof.
  intros user Hl Hs Hd Hpos Hle Hlt E. unfold handleRead in E. inv_res. destruct a as [[n e] b].
  assert (n = zlen data) as ->.
  { unfold readFd in Hm. inv_res. destruct (_ <=? _); inv_res; congruence. }
  assert (0 < zlen data) as Hn by (unfold zlen; destruct data; [done|simpl; lia]).
  destruct (Z.ltb_spec 0 (zlen data)); [|lia]. inv_res.
  assert (loop_ok (loop a) /\ state_ a = kDisconnected /\ idleTimeout_ a = idleTimeout_ c) as (Hla & Ha & Hi).
  { unfold user, forceClose, open_or_closing in Hm0. simpl in Hm0. rewrite Hs in Hm0.
    destruct (closed_conn_spec (set_state kDisconnecting (set_input b c)) Hl) as (Hl1 & Hs1 & _ & Hi1 & _).
    change (handleClose quiet (set_state kDisconnecting (set_input b c)) = Ok a) in Hm0.
    rewrite handleClose_quiet in Hm0. injection Hm0 as <-. done. }
  rewrite Hi, Hpos in Hm1. unfold resetIdleTimer in Hm1. rewrite Hi, Hle in Hm1.
  unfold resetIdleTimerInLoop in Hm1. inv_res. destruct a1 as [id l].
  injection Hm1 as <-. simpl.
  assert (idleTimeout_ (cancel_if_valid (idleTimerId_ a) a) = idleTimeout_ c) as Hit
    by (unfold cancel_if_valid; by destruct (isValid _)).
  rewrite Hit in Hm2. destruct (armed_after _ _ _ _ _ (ok_cancel_if _ _ Hla) Hlt Hm2) as (_ & _ & A).
  split; [by destruct (cancel_if_fields (idleTimerId_ a) a) as (_ & _ & _ & -> & _)|].
  rewrite A. apply lookup_insert_eq.
Qed.

Definition demo_idle : TcpConnection simple_conn_loop :=
  set_timing (double_of_int 60) (double_of_int 30) false 1000
    (conn_or demo0 (connectEstablished quiet demo0)).
Definition demo_idle_closed : TcpConnection simple_conn_loop :=
  conn_or demo0 (handleRead (fun k c => match k with UMessage _ => forceClose quiet true c | _ => Ok c end)
    2000 (Done [x61]) demo_idle).

Lemma idle_timer_after_close_witness :
  state_ demo_idle_closed = kDisconnected /\
  armed (loop demo_idle_closed) !! id_key (idleTimerId_ demo_idle_closed) = Some OnIdleTimeout.
Proof.
  apply (idle_timer_after_close 2000 [x61] demo_idle demo_idle_closed);
    [exact I|vm_compute; reflexivity|discriminate|vm_compute; reflexivity..].
Defined.

(** ** [forceClose] from another thread

    [state_] is read and then written: the two halves of [forceClose] as another
    thread executes them. *)
Section race.
Context {S : Type} `{!ConnLoop S}.
Context (user : user_call -> TcpConnection S -> res (TcpConnection S)).
Implicit Types c : TcpConnection S.

Definition forceClose_test c : bool := open_or_closing c.
Definition forceClose_commit c : TcpConnection S :=
  queue_task TForceCloseInLoop (set_state kDisconnecting c).

Lemma forceClose_halves c :
  forceClose user false c = Ok (if forceClose_test c then forceClose_commit c else c).
Proof. unfold forceClose, forceClose_test. by destruct (open_or_closing c). Qed.
End race.
