(* ===== verification/ServedConn.v ===== *)
(** * ServedConn: the life of a connection as its server sees it

    A server relies on a connection to call its close callback once, after it was
    established.  This file composes the dispatch of [Channel::handleEventWithGuard]
    ([src/base/Channel.cpp]) with the handlers a [TcpConnection] installs
    ([src/base/TcpConnection.cpp]) and shows when that holds: for every event, functor,
    timer and call of the interface, and any user code built from them.  The loop
    additionally tells how often the close callback has run and which functors were
    queued ([ServedLoop]). *)
From Stdlib Require Import Strings.Byte.
From S2P Require Import Prelude Buffer Timestamp TimerQueue Channel TcpConnection TcpSpec.

(** ** Stages *)

(** [kConnecting]; [kConnected] or [kDisconnecting]; [kDisconnected]. *)
Inductive life_stage := LConnecting | LUp | LClosed.

#[global] Instance life_stage_eq_dec : EqDecision life_stage.
Proof. solve_decision. Defined.

Definition stage_of {S} (c : TcpConnection S) : life_stage :=
  match state_ c with
  | kConnecting => LConnecting
  | kConnected | kDisconnecting => LUp
  | kDisconnected => LClosed
  end.

(** A loop that records queued functors and calls of the close callback, and tells
    whether the kernel lists the connection's channel (a mask of no events removes it
    from the list, or adds it if it is not there) and whether [connectDestroyed] is
    queued. *)
Class ServedLoop (S : Type) `{!ConnLoop S} := {
  closes : S -> nat;
  posted : S -> list conn_task;
  kernel_lists : S -> bool;
  destroy_queued : S -> bool;
  closes_post t s : closes (post t s) = closes s;
  closes_update e s : closes (update_channel e s) = closes s;
  closes_remove s : closes (remove_channel s) = closes s;
  closes_after d t s id s' : run_after d t s = Ok (id, s') -> closes s' = closes s;
  closes_every d t s id s' : run_every d t s = Ok (id, s') -> closes s' = closes s;
  closes_cancel id s : closes (cancel_timer id s) = closes s;
  posted_post t s : posted (post t s) = posted s ++ [t];
  posted_update e s : posted (update_channel e s) = posted s;
  posted_remove s : posted (remove_channel s) = posted s;
  posted_after d t s id s' : run_after d t s = Ok (id, s') -> posted s' = posted s;
  posted_every d t s id s' : run_every d t s = Ok (id, s') -> posted s' = posted s;
  posted_cancel id s : posted (cancel_timer id s) = posted s;
  lists_post t s : kernel_lists (post t s) = kernel_lists s;
  lists_update e s : kernel_lists (update_channel e s) = negb (kernel_lists s && (e =? kNoneEvent));
  lists_remove s : kernel_lists s = false -> kernel_lists (remove_channel s) = false;
  lists_after d t s id s' : run_after d t s = Ok (id, s') -> kernel_lists s' = kernel_lists s;
  lists_every d t s id s' : run_every d t s = Ok (id, s') -> kernel_lists s' = kernel_lists s;
  lists_cancel id s : kernel_lists (cancel_timer id s) = kernel_lists s;
  destroy_post t s : destroy_queued (post t s) = destroy_queued s;
  destroy_update e s : destroy_queued (update_channel e s) = destroy_queued s;
  destroy_remove s : destroy_queued (remove_channel s) = destroy_queued s;
  destroy_after d t s id s' : run_after d t s = Ok (id, s') -> destroy_queued s' = destroy_queued s;
  destroy_every d t s id s' : run_every d t s = Ok (id, s') -> destroy_queued s' = destroy_queued s;
  destroy_cancel id s : destroy_queued (cancel_timer id s) = destroy_queued s
}.

Section served.
Context {S : Type} `{!ConnLoop S, !ServedLoop S}.
Implicit Types c : TcpConnection S.

(** The callbacks the constructor installs in the channel. *)
Inductive conn_cb := CbRead | CbWrite | CbClose | CbError.

Definition conn_channel (loop fd revents : Z) : Channel conn_cb :=
  let ch := Channel_new loop fd in
  let ch := setReadCallback ch (Some CbRead) in
  let ch := setWriteCallback ch (Some CbWrite) in
  let ch := setCloseCallback ch (Some CbClose) in
  let ch := setErrorCallback ch (Some CbError) in
  setRevents ch revents.

(** [rd] is what [readv] returns, [wr] what [write] returns for the number of bytes it
    is offered, [stale] the [errno] left over when [write] returns 0. *)
Definition run_cb (user : user_call -> TcpConnection S -> res (TcpConnection S))
    (rd : sysret (list byte)) (wr : Z -> sysret Z) (stale : Z) (x : conn_cb * option Timestamp) c
    : res (TcpConnection S) :=
  match x.1 with
  | CbRead => handleRead user (default 0 x.2) rd c
  | CbWrite => handleWrite user (wr (readableBytes (outputBuffer_ c))) stale c
  | CbClose => handleClose user c
  | CbError => Ok (handleError c)
  end.

(** A reported event: the callbacks [Channel::handleEventWithGuard] selects, in order. *)
Definition conn_event (user : user_call -> TcpConnection S -> res (TcpConnection S))
    (revents : Z) (t : Timestamp) (rd : sysret (list byte)) (wr : Z -> sysret Z) (stale : Z) c
    : res (TcpConnection S) :=
  for_each (run_cb user rd wr stale) (dispatch (conn_channel 0 0 revents) t) c.

(** ** Invariant and transitions *)

(** Before it is established a connection watches nothing and nobody has sent. *)
Record served_inv c : Prop := {
  sv_conn : conn_inv c;
  sv_early : state_ c = kConnecting -> events c = kNoneEvent;
  sv_posted m : TSendInLoop m ∈ posted (loop c) -> state_ c <> kConnecting
}.

(** The kernel lists the channel, for reading, exactly while the connection is open;
    [connectDestroyed] is queued only for a closed one. *)
Record watch_inv c : Prop := {
  wi_up : stage_of c = LUp -> kernel_lists (loop c) = true /\ has (events c) kReadEvent = true;
  wi_off : stage_of c <> LUp -> kernel_lists (loop c) = false;
  wi_destroy : destroy_queued (loop c) = true -> stage_of c = LClosed
}.

(** The fields it looks at. *)
Lemma watch_same c c' :
  watch_inv c -> stage_of c' = stage_of c -> events c' = events c ->
  kernel_lists (loop c') = kernel_lists (loop c) -> destroy_queued (loop c') = destroy_queued (loop c) -> watch_inv c'.
Proof. intros [] H1 H2 H3 H4. split; rewrite ?H1, ?H2, ?H3, ?H4; done. Qed.

(** Nothing happens to the life of the connection, or it closes and says so once. *)
Definition live c c' : Prop :=
  (stage_of c' = stage_of c /\ closes (loop c') = closes (loop c)) \/
  (stage_of c = LUp /\ stage_of c' = LClosed /\ closes (loop c') = Datatypes.S (closes (loop c))).

Lemma live_refl c : live c c.
Proof. by left. Qed.

Lemma live_trans c1 c2 c3 : live c1 c2 -> live c2 c3 -> live c1 c3.
Proof.
  intros [[E1 N1]|(E1 & E2 & N1)] [[E3 N3]|(E3 & E4 & N3)]; [left|right|right|congruence];
    split_and!; congruence.
Qed.

Definition good c c' : Prop := served_inv c' /\ live c c' /\ (watch_inv c -> watch_inv c').

Lemma good_refl c : served_inv c -> good c c.
Proof. split; [done|]. by split; [apply live_refl|]. Qed.

Lemma good_trans c1 c2 c3 : good c1 c2 -> good c2 c3 -> good c1 c3.
Proof. intros (_ & L1 & W1) (H2 & L2 & W2). split; [done|]. split; [by eapply live_trans|auto]. Qed.

(** Changes that leave the state alone; before the connection is established they
    neither touch the channel nor queue data. *)
Record calm c c' : Prop := {
  calm_state : state_ c' = state_ c;
  calm_closes : closes (loop c') = closes (loop c);
  calm_events : state_ c = kConnecting -> events c' = events c;
  calm_posted m : state_ c = kConnecting -> TSendInLoop m ∈ posted (loop c') -> TSendInLoop m ∈ posted (loop c);
  calm_watch : watch_inv c -> watch_inv c'
}.

Lemma watch_calm c c' :
  state_ c' = state_ c -> events c' = events c ->
  kernel_lists (loop c') = kernel_lists (loop c) -> destroy_queued (loop c') = destroy_queued (loop c) ->
  watch_inv c -> watch_inv c'.
Proof. intros Hs He Hl Hd Hw. apply (watch_same c); try done. unfold stage_of. by rewrite Hs. Qed.

Lemma calm_refl c : calm c c.
Proof. by split. Qed.

Lemma calm_same c c' :
  state_ c' = state_ c -> events c' = events c -> loop c' = loop c -> calm c c'.
Proof. intros H1 H2 H3. split; rewrite ?H3; try done. by apply watch_calm; rewrite ?H3. Qed.

Lemma calm_trans c1 c2 c3 : calm c1 c2 -> calm c2 c3 -> calm c1 c3.
Proof.
  intros [A1 B1 C1 D1 W1] [A2 B2 C2 D2 W2]. split; [congruence|congruence| | |auto].
  - intros H. rewrite C2 by congruence. by apply C1.
  - intros m H Hm. apply D1; [done|]. apply D2; [congruence|done].
Qed.

Lemma calm_good c c' : served_inv c -> conn_inv c' -> calm c c' -> good c c'.
Proof.
  intros [H1 H2 H3] Hc' [A B C D W]. split; [split|split; [|done]].
  - done.
  - intros E. rewrite A in E. rewrite C by done. by apply H2.
  - intros m Hm. rewrite A. intros E. by apply (H3 m); [apply D|].
  - left. unfold stage_of. by rewrite A.
Qed.

Lemma calm_set_loop c l :
  closes l = closes (loop c) -> (state_ c = kConnecting -> posted l = posted (loop c)) ->
  kernel_lists l = kernel_lists (loop c) -> destroy_queued l = destroy_queued (loop c) -> calm c (set_loop l c).
Proof. intros H1 H2 H3 H4. split; simpl; try done; [intros m Hs; by rewrite H2|]. by apply watch_calm. Qed.

Lemma calm_task c t :
  (forall m, t = TSendInLoop m -> state_ c <> kConnecting) -> calm c (queue_task t c).
Proof.
  intros Ht. split; simpl; try done; [apply closes_post| |].
  - intros m Hs. rewrite posted_post, elem_of_app, list_elem_of_singleton.
    intros [H|H]; [done|]. exfalso. by eapply Ht.
  - by apply watch_calm; [..|apply lists_post|apply destroy_post].
Qed.

Lemma calm_cancel c id : calm c (cancel_if_valid id c).
Proof.
  unfold cancel_if_valid. destruct (isValid id); [|apply calm_refl].
  apply calm_set_loop; [apply closes_cancel|intros _; apply posted_cancel|apply lists_cancel|apply destroy_cancel].
Qed.

Lemma calm_timers c t1 t2 t3 : calm c (set_timers t1 t2 t3 c).
Proof. by apply calm_same. Qed.

Lemma calm_timing c a b d e : calm c (set_timing a b d e c).
Proof. by apply calm_same. Qed.

(** Writing is switched on and off while the connection is open. *)
Lemma calm_mask c o :
  stage_of c = LUp -> o = EnableWriting \/ o = DisableWriting -> calm c (channel_mask o c).
Proof.
  intros Hup Ho. assert (state_ c <> kConnecting) as Hs by (intros E; unfold stage_of in Hup; by rewrite E in Hup).
  unfold channel_mask. split; simpl; try done; [apply closes_update|].
  intros [Hu Hoff Hd]. destruct (Hu Hup) as [Hl Hr].
  assert (has (mask o (events c)) kReadEvent = true) as Hr' by (by rewrite reading_writing).
  split; simpl; rewrite ?lists_update, ?destroy_update; try done.
  - intros _. by rewrite Hl, (reading_some _ Hr').
Qed.

Lemma calm_output c b ops t : calm c (set_output b ops t c).
Proof. by apply calm_same. Qed.

Lemma calm_input c b : calm c (set_input b c).
Proof. by apply calm_same. Qed.

Lemma calm_after c d t id l f :
  run_after d t (loop c) = Ok (id, l) -> calm (set_loop l c) (f (set_loop l c)) -> calm c (f (set_loop l c)).
Proof.
  intros E Hf. eapply calm_trans; [|exact Hf].
  apply calm_set_loop; [by eapply closes_after|intros _; by eapply posted_after|by eapply lists_after|by eapply destroy_after].
Qed.

Lemma calm_every c d t id l f :
  run_every d t (loop c) = Ok (id, l) -> calm (set_loop l c) (f (set_loop l c)) -> calm c (f (set_loop l c)).
Proof.
  intros E Hf. eapply calm_trans; [|exact Hf].
  apply calm_set_loop; [by eapply closes_every|intros _; by eapply posted_every|by eapply lists_every|by eapply destroy_every].
Qed.

Lemma calm_shutdownInLoop c : calm c (shutdownInLoop c).
Proof. unfold shutdownInLoop. destruct (negb _); [apply calm_output|apply calm_refl]. Qed.
End served.
Create HintDb calm.
#[export] Hint Resolve calm_refl calm_cancel calm_timers calm_timing calm_output calm_input
  calm_shutdownInLoop live_refl good_refl : calm.

(** ** User code

    Callbacks may do anything that keeps the invariant and follows the life of the
    connection; the close callback is called on a closed connection and counted. *)
Class ServedUser {S : Type} `{!ConnLoop S, !ServedLoop S}
    (user : user_call -> TcpConnection S -> res (TcpConnection S)) : Prop := {
  su_conn :: ConnUser user;
  su_good k c c' : served_inv c -> k <> UClose -> user k c = Ok c' -> good c c';
  su_close c c' :
    served_inv c -> state_ c = kDisconnected -> user UClose c = Ok c' ->
    served_inv c' /\ state_ c' = kDisconnected /\ closes (loop c') = Datatypes.S (closes (loop c)) /\
    (watch_inv c -> watch_inv c')
}.

Section handlers.
Context {S : Type} `{!ConnLoop S, !ServedLoop S}.
Context (user : user_call -> TcpConnection S -> res (TcpConnection S)) `{!ServedUser user}.
Implicit Types c : TcpConnection S.

Lemma stage_up c : stage_of c = LUp <-> state_ c = kConnected \/ state_ c = kDisconnecting.
Proof. unfold stage_of. destruct (state_ c); naive_solver. Qed.

Lemma stage_closed c : stage_of c = LClosed <-> state_ c = kDisconnected.
Proof. unfold stage_of. destruct (state_ c); naive_solver. Qed.

Lemma open_up c : open_or_closing c = true <-> stage_of c = LUp.
Proof.
  rewrite stage_up. unfold open_or_closing. rewrite orb_true_iff, !bool_decide_eq_true. done.
Qed.

Lemma closed_inv c : conn_inv c -> state_ c = kDisconnected -> served_inv c.
Proof. intros Hc Hs. split; [done|congruence|]. intros m _. congruence. Qed.

Lemma up_inv c : conn_inv c -> stage_of c = LUp -> served_inv c.
Proof.
  intros Hc Hs. apply stage_up in Hs. split; [done| |]; [|intros m _]; destruct Hs; congruence.
Qed.

(** *** Closing *)
Lemma closing_watch c :
  watch_inv c -> stage_of c = LUp -> watch_inv (channel_mask DisableAll (set_state kDisconnected c)).
Proof.
  intros [Hu _ Hd] Hup. destruct (Hu Hup) as [Hl _].
  split; unfold channel_mask; simpl; try done; rewrite ?lists_update; simpl; by rewrite ?Hl.
Qed.

Lemma handleClose_ends c c' :
  conn_inv (channel_mask DisableAll (set_state kDisconnected c)) -> handleClose user c = Ok c' ->
  served_inv c' /\ state_ c' = kDisconnected /\ closes (loop c') = Datatypes.S (closes (loop c)) /\
  (watch_inv c -> stage_of c = LUp -> watch_inv c').
Proof.
  intros Hc E. unfold handleClose in E.
  set (c0 := channel_mask DisableAll (set_state kDisconnected c)) in E.
  set (c1 := cancel_if_valid _ (cancel_if_valid _ (cancel_if_valid _ c0))) in E.
  assert (conn_inv c1) as Hi by (unfold c1; auto with conn).
  assert (calm c0 c1) as Hcalm
    by (unfold c1; eapply calm_trans; [eapply calm_trans|]; apply calm_cancel).
  assert (state_ c1 = kDisconnected) as Hs by (rewrite (calm_state _ _ Hcalm); done).
  assert (closes (loop c1) = closes (loop c)) as Hn
    by (rewrite (calm_closes _ _ Hcalm); unfold c0, channel_mask; simpl; by rewrite closes_update).
  apply bind_Ok in E as (c2 & E2 & E3).
  destruct (su_good UConnection c1 c2 (closed_inv _ Hi Hs)) as (H2 & L2 & W2); [done|done|].
  assert (state_ c2 = kDisconnected /\ closes (loop c2) = closes (loop c1)) as [Hs2 Hn2].
  { apply stage_closed in Hs. destruct L2 as [[L2 N2]|(L2 & _)]; [|congruence].
    split; [|done]. apply stage_closed. congruence. }
  destruct (su_close c2 c' H2 Hs2 E3) as (H3 & Hs3 & Hn3 & W3). split_and!; [done|done|congruence|].
  intros Hw Hup. apply W3, W2, (calm_watch _ _ Hcalm). by apply closing_watch.
Qed.

Lemma handleClose_tells c c' :
  conn_inv c -> handleClose user c = Ok c' ->
  served_inv c' /\ state_ c' = kDisconnected /\ closes (loop c') = Datatypes.S (closes (loop c)) /\
  (watch_inv c -> stage_of c = LUp -> watch_inv c').
Proof. intros Hc. by apply handleClose_ends, conn_inv_close. Qed.

Lemma handleClose_good c c' :
  served_inv c -> stage_of c = LUp -> handleClose user c = Ok c' -> good c c'.
Proof.
  intros Hc Hup E. destruct (handleClose_tells c c' (sv_conn _ Hc) E) as (H & Hs & Hn & Hw).
  split; [done|]. split; [|auto]. right. split_and!; [done|by apply stage_closed|done].
Qed.

Lemma forceCloseInLoop_good c c' : served_inv c -> forceCloseInLoop user c = Ok c' -> good c c'.
Proof.
  intros Hc E. unfold forceCloseInLoop in E. destruct (open_or_closing c) eqn:Eo.
  - apply handleClose_good; [done| |done]. by apply open_up.
  - injection E as <-. by apply good_refl.
Qed.

(** [setState(kDisconnecting)] in an open connection. *)
Lemma disconnecting_good c : served_inv c -> stage_of c = LUp -> good c (set_state kDisconnecting c).
Proof.
  intros Hc Hup. split; [apply up_inv; [|done]|split; [by left|]].
  2:{ intros Hw. apply (watch_same c); try done. }
  apply conn_inv_state; [apply Hc| |done]. apply stage_up in Hup. destruct Hup; congruence.
Qed.

Lemma task_good c t :
  served_inv c -> (forall m, t = TSendInLoop m -> state_ c <> kConnecting) -> good c (queue_task t c).
Proof.
  intros Hc Ht. apply calm_good; [done| |by apply calm_task]. apply conn_inv_task, Hc.
Qed.

Lemma forceClose_good b c c' : served_inv c -> forceClose user b c = Ok c' -> good c c'.
Proof.
  intros Hc E. unfold forceClose in E. destruct (open_or_closing c) eqn:Eo; [|injection E as <-; by apply good_refl].
  apply open_up in Eo. pose proof (disconnecting_good c Hc Eo) as Hd. eapply good_trans; [exact Hd|].
  destruct b; [by apply forceCloseInLoop_good; [apply Hd|]|]. injection E as <-.
  apply task_good; [apply Hd|done].
Qed.

Lemma shutdown_good b c : served_inv c -> good c (shutdown b c).
Proof.
  intros Hc. unfold shutdown. destruct (decide (state_ c = kConnected)) as [Es|]; [|by apply good_refl].
  assert (stage_of c = LUp) as Hup by (apply stage_up; by left).
  pose proof (disconnecting_good c Hc Hup) as Hd. eapply good_trans; [exact Hd|]. destruct b.
  - apply calm_good; [apply Hd| |apply calm_shutdownInLoop]. apply shutdownInLoop_inv, Hd.
  - apply task_good; [apply Hd|done].
Qed.

(** *** Establishing and destroying *)
Definition established c : TcpConnection S :=
  channel_mask EnableReading (set_tied (set_state kConnected c)).

Lemma established_good c c' :
  served_inv c -> state_ c = kConnecting -> connectEstablished user c = Ok c' ->
  good (established c) c' /\ stage_of (established c) = LUp /\ closes (loop (established c)) = closes (loop c).
Proof.
  intros Hc Hs E.
  assert (closes (loop (established c)) = closes (loop c)) as Hn
    by (unfold established, channel_mask; simpl; by rewrite closes_update).
  assert (conn_inv (established c)) as Hi.
  { apply (connectEstablished_inv quiet c); [apply Hc|congruence|done]. }
  split; [|done]. apply (su_good UConnection); [by apply up_inv|done|exact E].
Qed.

Lemma established_watch c : watch_inv c -> state_ c = kConnecting -> watch_inv (established c).
Proof.
  intros [_ Hoff Hd] Hs. assert (stage_of c = LConnecting) as Hc by (unfold stage_of; by rewrite Hs).
  split; unfold established, channel_mask; simpl; try done.
  - intros _. rewrite lists_update, Hoff by (by rewrite Hc). split; [done|apply reading_enabled].
  - rewrite destroy_update. intros E. specialize (Hd E). by rewrite Hc in Hd.
Qed.

Lemma destroyed_good c c' :
  served_inv c -> state_ c = kDisconnected -> connectDestroyed user c = Ok c' -> good c c'.
Proof.
  intros Hc Hs E. unfold connectDestroyed in E. rewrite decide_False in E by congruence. simpl in E.
  injection E as <-. apply calm_good; [done|apply conn_inv_loop, Hc|].
  split; simpl; try done; [apply closes_remove|congruence|]. intros [Hu Hoff Hd].
  assert (stage_of c <> LUp) as Hup by (rewrite (proj2 (stage_closed c) Hs); done).
  split; [done| |]; simpl.
  - intros _. by apply lists_remove, Hoff.
  - rewrite destroy_remove. exact Hd.
Qed.

(** *** Sending and writing *)

Lemma write_at_once_calm data ret c :
  state_ c <> kConnecting -> calm c (write_at_once data ret c).2.
Proof.
  intros Hs. unfold write_at_once. destruct (negb (is_writing c) && _); [|apply calm_refl].
  destruct ret as [e|n]; simpl; [apply calm_refl|].
  destruct (_ && _); [|apply calm_output]. eapply calm_trans; [apply calm_output|]. by apply calm_task.
Qed.

Lemma buffer_rest_calm rest c c' :
  stage_of c = LUp -> buffer_rest rest c = Ok c' -> calm c c'.
Proof.
  intros Hup E. assert (state_ c <> kConnecting) as Hs by (intros Hs; unfold stage_of in Hup; by rewrite Hs in Hup). unfold buffer_rest in E.
  set (c1 := if _ && _ && _ then _ else c) in E.
  assert (calm c c1) as H1 by (unfold c1; destruct (_ && _); [by apply calm_task|apply calm_refl]).
  inv_res. set (c2 := set_output _ _ _ c1).
  assert (calm c c2) as H2 by (eapply calm_trans; [exact H1|apply calm_output]).
  destruct (negb (is_writing c2)); [|done]. eapply calm_trans; [exact H2|]. apply calm_mask; [|by left].
  unfold stage_of in *. by rewrite (calm_state _ _ H2).
Qed.

Lemma sendInLoop_calm data ret c c' :
  state_ c <> kConnecting -> sendInLoop data ret c = Ok c' -> calm c c'.
Proof.
  intros Hs E. unfold sendInLoop in E. case_decide; [injection E as <-; apply calm_refl|].
  pose proof (write_at_once_calm data ret c Hs) as Hw.
  destruct (write_at_once data ret c) as [[n ok] c1]. simpl in Hw.
  destruct (negb ok && _); [|by injection E as <-]. eapply calm_trans; [exact Hw|].
  eapply buffer_rest_calm; [|exact E]. apply stage_up. rewrite (calm_state _ _ Hw). destruct (state_ c); tauto.
Qed.

Lemma sendInLoop_good data ret c c' :
  served_inv c -> state_ c <> kConnecting -> zlen data <= max_size -> write_ok (zlen data) ret ->
  sendInLoop data ret c = Ok c' -> good c c'.
Proof.
  intros Hc Hs Hl Hr E. apply calm_good; [done| |by eapply sendInLoop_calm].
  eapply sendInLoop_inv; [apply Hc|done|done|done].
Qed.

Lemma send_good b data ret c c' :
  served_inv c -> zlen data <= max_size -> write_ok (zlen data) ret ->
  send b data ret c = Ok c' -> good c c'.
Proof.
  intros Hc Hl Hr E. unfold send in E. case_decide as Hs; [|injection E as <-; by apply good_refl].
  destruct b; [by apply (sendInLoop_good data ret); [done|congruence|..]|].
  injection E as <-. apply task_good; [done|]. intros m _. congruence.
Qed.

Lemma send_buffer_good b m ret c m' c' :
  served_inv c -> wf m -> write_ok (readableBytes m) ret -> send_buffer b m ret c = Ok (m', c') -> good c c'.
Proof.
  intros Hc Hm Hr E. apply calm_good; [done|by eapply send_buffer_inv; [apply Hc|..]|].
  unfold send_buffer in E. case_decide as Hs; [|simplify_eq; apply calm_refl].
  assert (state_ c <> kConnecting) as Hne by congruence. destruct b.
  - inv_res. simplify_eq. by eapply sendInLoop_calm.
  - apply bind_Ok in E as ([msg m1] & _ & E). simplify_eq. by apply calm_task.
Qed.

(** Writability is watched only in an open connection. *)
Lemma writing_up c : served_inv c -> is_writing c = true -> stage_of c = LUp.
Proof.
  intros Hc Hw. unfold is_writing in Hw. destruct (state_ c) eqn:Es.
  - by rewrite (ci_closed _ (sv_conn _ Hc) Es) in Hw.
  - by rewrite (sv_early _ Hc Es) in Hw.
  - apply stage_up. by left.
  - apply stage_up. by right.
Qed.

Lemma handleWrite_good ret stale c c' :
  served_inv c -> write_ok (readableBytes (outputBuffer_ c)) ret ->
  handleWrite user ret stale c = Ok c' -> good c c'.
Proof.
  intros Hc Hr E. pose proof (handleWrite_inv user ret stale c c' (sv_conn _ Hc) Hr E) as Hi.
  unfold handleWrite in E. destruct (is_writing c) eqn:Ew; [|injection E as <-; by apply good_refl].
  pose proof (writing_up c Hc Ew) as Hup.
  assert (state_ c <> kConnecting) as Hne by (apply stage_up in Hup; destruct Hup; congruence).
  apply bind_Ok in E as (data & Ed & E).
  assert (forall e, (if negb (e =? EAGAIN) && ((e =? EPIPE) || (e =? ECONNRESET)) then handleClose user c else Ok c) = Ok c' ->
    good c c') as Hfail.
  { intros e E'. destruct (negb (e =? EAGAIN) && _) in E'; [by apply handleClose_good|]. injection E' as <-. by apply good_refl. }
  destruct ret as [e|n]; [by eapply Hfail|]. destruct (0 <? n); [|by eapply Hfail].
  apply calm_good; [done|done|]. set (c1 := set_output _ _ _ c) in E.
  destruct (readableBytes (outputBuffer_ c1) =? 0); [|injection E as <-; apply calm_output].
  set (c2 := channel_mask DisableWriting c1) in E.
  assert (calm c c2) as H2 by (eapply calm_trans; [apply calm_output|by apply calm_mask; auto]).
  set (c3 := if writeCompleteCallback_ c2 then queue_task TWriteComplete c2 else c2) in E.
  assert (calm c c3) as H3.
  { unfold c3. destruct (writeCompleteCallback_ c2); [|done]. eapply calm_trans; [exact H2|]. by apply calm_task. }
  injection E as <-. case_decide; [|done]. eapply calm_trans; [exact H3|apply calm_shutdownInLoop].
Qed.

(** *** Timers *)
Lemma setConnectionTimeoutInLoop_calm s c c' : setConnectionTimeoutInLoop s c = Ok c' -> calm c c'.
Proof.
  intros E. unfold setConnectionTimeoutInLoop in E. set (c1 := cancel_if_valid _ c) in E.
  eapply calm_trans; [apply calm_cancel|]. fold c1. destruct (dltb dzero s); [|injection E as <-; apply calm_refl].
  apply bind_Ok in E as ([id l] & E1 & E). injection E as <-.
  by apply (calm_after c1 _ _ _ _ (fun x => set_timers id (idleTimerId_ c1) (keepAliveTimerId_ c1) x) E1), calm_timers.
Qed.

Lemma resetIdleTimerInLoop_calm c c' : resetIdleTimerInLoop c = Ok c' -> calm c c'.
Proof.
  intros E. unfold resetIdleTimerInLoop in E. set (c1 := cancel_if_valid _ c) in E.
  eapply calm_trans; [apply calm_cancel|]. fold c1. apply bind_Ok in E as ([id l] & E1 & E). injection E as <-.
  eapply (calm_trans _ (set_timers (connectionTimeoutTimerId_ c1) id (keepAliveTimerId_ c1) (set_loop l c1)));
    [|apply calm_timing].
  by apply (calm_after c1 _ _ _ _ (fun x => set_timers (connectionTimeoutTimerId_ c1) id (keepAliveTimerId_ c1) x) E1), calm_timers.
Qed.

Lemma resetIdleTimer_calm b c c' : resetIdleTimer b c = Ok c' -> calm c c'.
Proof.
  unfold resetIdleTimer. destruct (dleb _ _); [intros [= <-]; apply calm_refl|].
  destruct b; [apply resetIdleTimerInLoop_calm|]. intros [= <-]. by apply calm_task.
Qed.

Lemma setIdleTimeout_calm b s c c' : setIdleTimeout b s c = Ok c' -> calm c c'.
Proof.
  intros E. unfold setIdleTimeout in E. eapply calm_trans; [apply calm_timing|].
  destruct (dltb dzero s); [by eapply resetIdleTimer_calm|]. destruct (isValid _); injection E as <-; [|apply calm_refl].
  eapply calm_trans; [apply calm_cancel|apply calm_timers].
Qed.

Lemma setupKeepAliveTimer_calm c c' : setupKeepAliveTimer c = Ok c' -> calm c c'.
Proof.
  intros E. unfold setupKeepAliveTimer in E. destruct (negb _); [injection E as <-; apply calm_refl|].
  apply bind_Ok in E as ([id l] & E1 & E). injection E as <-.
  by apply (calm_every c _ _ _ _ (fun x => set_timers (connectionTimeoutTimerId_ c) (idleTimerId_ c) id x) E1), calm_timers.
Qed.

Lemma enableKeepAlive_calm b en i c c' : enableKeepAlive b en i c = Ok c' -> calm c c'.
Proof.
  intros E. unfold enableKeepAlive in E. eapply calm_trans; [apply calm_timing|]. destruct en.
  - destruct b; [by eapply setupKeepAliveTimer_calm|]. injection E as <-. by apply calm_task.
  - destruct (isValid _); injection E as <-; [|apply calm_refl].
    eapply calm_trans; [apply calm_cancel|apply calm_timers].
Qed.

Lemma onTimer_good t ret c c' :
  served_inv c -> write_ok (zlen HEARTBEAT) ret -> onTimer user t ret c = Ok c' -> good c c'.
Proof.
  intros Hc Hr E. destruct t; simpl in E; [by eapply forceClose_good..|].
  unfold onKeepAliveTimeout in E. destruct (bool_decide_reflect (state_ c = kConnected)) as [Hs|]; simpl in E.
  - by apply (sendInLoop_good HEARTBEAT ret); [done|congruence|..].
  - injection E as <-. apply calm_good; [done|apply conn_inv_cancel, Hc|apply calm_cancel].
Qed.

(** *** Reading, functors, events *)
Lemma handleRead_good t ret c c' :
  served_inv c -> stage_of c = LUp -> readv_ok (inputBuffer_ c) ret ->
  handleRead user t ret c = Ok c' -> good c c'.
Proof.
  intros Hc Hup Hr E. unfold handleRead in E. apply bind_Ok in E as ([[n e] b] & Eb & E).
  pose proof (wp_Ok _ _ _ (readFd_wp _ _ (ci_in _ (sv_conn _ Hc)) Hr) Eb) as Hwf. simpl in Hwf.
  assert (good c (set_input b c)) as Hin.
  { apply calm_good; [done| |apply calm_input]. destruct (sv_conn _ Hc). by split. }
  eapply good_trans; [exact Hin|]. destruct (0 <? _).
  - apply bind_Ok in E as (c1 & E1 & E). apply bind_Ok in E as (c2 & E2 & E). injection E as <-.
    pose proof (su_good (UMessage t) _ _ (proj1 Hin) ltac:(done) E1) as Hu.
    eapply good_trans; [exact Hu|].
    assert (good c1 c2) as H2.
    { destruct (dltb _ _); [|injection E2 as <-; apply good_refl, Hu].
      apply calm_good; [apply Hu| |by eapply resetIdleTimer_calm].
      eapply resetIdleTimer_inv; [apply Hu|exact E2]. }
    eapply good_trans; [exact H2|]. apply calm_good; [apply H2| |apply calm_timing].
    apply conn_inv_timing, H2.
  - destruct (_ =? 0); [|injection E as <-; apply good_refl, Hin].
    apply handleClose_good; [apply Hin|done|done].
Qed.

(** No data is sent before the connection is established. *)
Lemma task_runs_good t ret c c' :
  served_inv c -> (forall m, t = TSendInLoop m -> state_ c <> kConnecting) ->
  match t with TSendInLoop m => zlen m <= max_size /\ write_ok (zlen m) ret | _ => True end ->
  run_task user t ret c = Ok c' -> good c c'.
Proof.
  intros Hc Ht Hok E. pose proof (run_task_inv user t ret c c' (sv_conn _ Hc) Hok E) as Hi.
  destruct t as [|?|msg| | |?| |]; simpl in E; try (eapply su_good; [exact Hc| |exact E]; done).
  - apply (sendInLoop_good msg ret); [done| |tauto..]. by apply (Ht msg).
  - injection E as <-. apply calm_good; [done|done|apply calm_shutdownInLoop].
  - by eapply forceCloseInLoop_good.
  - apply calm_good; [done|done|by eapply setConnectionTimeoutInLoop_calm].
  - apply calm_good; [done|done|by eapply resetIdleTimerInLoop_calm].
  - apply calm_good; [done|done|by eapply setupKeepAliveTimer_calm].
Qed.

(** Only functors that were queued are run. *)
Lemma run_task_good t ret c c' :
  served_inv c -> t ∈ posted (loop c) ->
  match t with TSendInLoop m => zlen m <= max_size /\ write_ok (zlen m) ret | _ => True end ->
  run_task user t ret c = Ok c' -> good c c'.
Proof.
  intros Hc Ht. apply task_runs_good; [done|]. intros m ->. by apply (sv_posted _ Hc m).
Qed.

(** The kernel reports a hang-up of a socket with input, or with neither priority data
    nor a half-close. *)
Definition hup_ok (revents : Z) : bool :=
  negb (has revents EPOLLHUP && negb (has revents EPOLLIN)) ||
  negb (has revents (Z.lor (Z.lor EPOLLIN EPOLLPRI) EPOLLRDHUP)).

Lemma when_cb b x t rd wr stale c :
  for_each (run_cb user rd wr stale) (when b (Some x) t) c = if b then run_cb user rd wr stale (x, t) c else Ok c.
Proof. destruct b; simpl; [|done]. by destruct (run_cb _ _ _ _ _ _). Qed.

(** After a read the close branch has not run, so the connection is still up there. *)
Lemma conn_event_good revents t rd wr stale c c' :
  served_inv c -> stage_of c = LUp -> hup_ok revents = true ->
  readv_ok (inputBuffer_ c) rd -> (forall n, 0 <= n -> write_ok n (wr n)) ->
  conn_event user revents t rd wr stale c = Ok c' -> good c c'.
Proof.
  intros Hc Hup Hh Hrd Hwr E. unfold conn_event, dispatch in E. simpl in E.
  rewrite for_each_app, when_cb in E. apply bind_Ok in E as (c1 & E1 & E).
  rewrite for_each_app, when_cb in E. apply bind_Ok in E as (c2 & E2 & E).
  rewrite for_each_app, when_cb in E. apply bind_Ok in E as (c3 & E3 & E). rewrite when_cb in E.
  assert (c2 = c1) as -> by (destruct (has revents EPOLLERR); by injection E2 as <-).
  assert (good c c3) as H3.
  { unfold hup_ok in Hh. destruct (has revents EPOLLHUP && _); simpl in E1.
    - destruct (has revents (Z.lor _ _)); [done|]. injection E3 as <-. by apply handleClose_good.
    - injection E1 as <-. destruct (has revents (Z.lor _ _)); simpl in E3.
      + by eapply (handleRead_good t rd).
      + injection E3 as <-. by apply good_refl. }
  destruct (has revents EPOLLOUT); simpl in E; [|by injection E as <-].
  eapply good_trans; [exact H3|]. eapply (handleWrite_good _ stale); [apply H3| |exact E].
  apply Hwr. rewrite <- (zlen_readable _ (ci_out _ (sv_conn _ (proj1 H3)))). apply zlen_nonneg.
Qed.

(** The event concerns a channel that still watches something. *)
Definition in_order (revents : Z) c : bool := negb (events c =? kNoneEvent) && hup_ok revents.

(** ** Steps

    Everything that can happen to a connection a server holds, at any time: a reported
    event with any bits, a functor that was queued, a timer, a call of the interface in
    the connection's thread ([b] is [true]) or in another one.  A call in another thread
    may also be interrupted: the assignment of [shutdown] and [forceClose], the queueing
    that ends them and [send], and the accesses of the calls about timers are steps of
    their own too.

    A step is in order, its first argument, unless it is one of two: an event dispatched
    to a channel that watches nothing any more (it was reported in the same round of
    polling as what closed the connection) or carrying bits [hup_ok] excludes; and the
    assignment of [kDisconnecting] to a connection that was closed after the test. *)
Inductive own_step : bool -> TcpConnection S -> TcpConnection S -> Prop :=
  | os_event revents t rd wr stale c c' :
      readv_ok (inputBuffer_ c) rd -> zlen (buffer_ (inputBuffer_ c)) + extrabuf_size <= max_size ->
      (forall n, 0 <= n -> write_ok n (wr n)) ->
      conn_event user revents t rd wr stale c = Ok c' ->
      own_step (in_order revents c) c c'
  | os_task t ret c c' :
      t ∈ posted (loop c) ->
      match t with TSendInLoop m => zlen m <= max_size /\ write_ok (zlen m) ret | _ => True end ->
      run_task user t ret c = Ok c' -> own_step true c c'
  | os_timer t ret c c' :
      write_ok (zlen HEARTBEAT) ret -> onTimer user t ret c = Ok c' -> own_step true c c'
  | os_send b m ret c c' :
      zlen m <= max_size -> write_ok (zlen m) ret -> send b m ret c = Ok c' -> own_step true c c'
  | os_send_buffer b m m' ret c c' :
      wf m -> write_ok (readableBytes m) ret -> send_buffer b m ret c = Ok (m', c') -> own_step true c c'
  | os_shutdown b c : own_step true c (shutdown b c)
  | os_forceClose b c c' : forceClose user b c = Ok c' -> own_step true c c'
  | os_idle b s c c' : setIdleTimeout b s c = Ok c' -> own_step true c c'
  | os_keepalive b en i c c' : enableKeepAlive b en i c = Ok c' -> own_step true c c'
  | os_timeout b s c c' : setConnectionTimeout b s c = Ok c' -> own_step true c c'
  | os_input b c : wf b -> own_step true c (set_input b c)
  | os_callbacks m w h c : own_step true c (set_callbacks m w h c)
  | os_assign c : state_ c <> kConnecting -> own_step (open_or_closing c) c (set_state kDisconnecting c)
  | os_queue t c : state_ c <> kConnecting -> own_step true c (queue_task t c)
  | os_cancel id c : own_step true c (cancel_if_valid id c)
  | os_timers x y z c : own_step true c (set_timers x y z c)
  | os_timing x y z u c : own_step true c (set_timing x y z u c).

(** And the server establishes a new connection and destroys it, which is in order once
    it is closed. *)
Inductive served_step : bool -> TcpConnection S -> TcpConnection S -> Prop :=
  | vs_established c c' :
      state_ c = kConnecting -> connectEstablished user c = Ok c' -> served_step true c c'
  | vs_destroyed c c' :
      connectDestroyed user c = Ok c' -> served_step (bool_decide (state_ c = kDisconnected)) c c'
  | vs_own o c c' : own_step o c c' -> served_step o c c'.

Lemma os_event_in_order revents t rd wr stale c c' :
  in_order revents c = true ->
  readv_ok (inputBuffer_ c) rd -> zlen (buffer_ (inputBuffer_ c)) + extrabuf_size <= max_size ->
  (forall n, 0 <= n -> write_ok n (wr n)) ->
  conn_event user revents t rd wr stale c = Ok c' -> own_step true c c'.
Proof. intros <-. apply os_event. Qed.

Lemma watching_up c : served_inv c -> events c <> kNoneEvent -> stage_of c = LUp.
Proof.
  intros Hc He. unfold stage_of. destruct (state_ c) eqn:Es; try done; exfalso; apply He.
  - by apply (ci_closed _ (sv_conn _ Hc)).
  - by apply (sv_early _ Hc).
Qed.

Lemma setConnectionTimeout_calm b s c c' : setConnectionTimeout b s c = Ok c' -> calm c c'.
Proof.
  unfold setConnectionTimeout. destruct b; [apply setConnectionTimeoutInLoop_calm|].
  intros [= <-]. by apply calm_task.
Qed.

Lemma setConnectionTimeout_inv b s c c' : conn_inv c -> setConnectionTimeout b s c = Ok c' -> conn_inv c'.
Proof.
  intros Hc. unfold setConnectionTimeout. destruct b; [by apply setConnectionTimeoutInLoop_inv|].
  intros [= <-]. by apply conn_inv_task.
Qed.

Lemma own_step_good o c c' : served_inv c -> own_step o c c' -> o = true -> good c c'.
Proof.
  intros Hc Hst Ho. destruct Hst as [rev t rd wr stale c c' Hr Hm Hw E|t ret c c' Ht Hok E|
    t ret c c' Hr E|b m ret c c' Hl Hr E|b m m' ret c c' Hw Hr E|b c|b c c' E|b s c c' E|b en i c c' E|b s c c' E|
    b c Hb|m w h c|c Hs|t c Hs|id c|x y z c|x y z u c].
  - apply andb_true_iff in Ho as [He Hh].
    eapply conn_event_good; [done|apply watching_up; [done|]|done..]. intros E0. by rewrite E0 in He.
  - by eapply run_task_good.
  - by eapply onTimer_good.
  - by eapply send_good.
  - by eapply send_buffer_good.
  - by apply shutdown_good.
  - by eapply forceClose_good.
  - apply calm_good; [done|by eapply setIdleTimeout_inv; [apply Hc|]|by eapply setIdleTimeout_calm].
  - apply calm_good; [done|by eapply enableKeepAlive_inv; [apply Hc|]|by eapply enableKeepAlive_calm].
  - apply calm_good; [done|by eapply setConnectionTimeout_inv; [apply Hc|]|by eapply setConnectionTimeout_calm].
  - apply calm_good; [done| |apply calm_input]. destruct (sv_conn _ Hc). by split.
  - apply calm_good; [done| |by apply calm_same]. by apply (conn_inv_same c); [apply Hc|..].
  - apply disconnecting_good; [done|]. by apply open_up.
  - by apply task_good.
  - apply calm_good; [done|apply conn_inv_cancel, Hc|apply calm_cancel].
  - apply calm_good; [done|apply conn_inv_timers, Hc|apply calm_timers].
  - apply calm_good; [done|apply conn_inv_timing, Hc|apply calm_timing].
Qed.

Lemma own_steps_good c c' : rtc (own_step true) c c' -> served_inv c -> good c c'.
Proof.
  induction 1 as [|c c1 c' Hst _ IH]; intros Hc; [by apply good_refl|].
  pose proof (own_step_good true c c1 Hc Hst eq_refl) as H1. eapply good_trans; [exact H1|]. apply IH, H1.
Qed.

(** Establishing starts the life of the connection; every other step follows it. *)
Lemma served_step_good c c' :
  served_inv c -> served_step true c c' ->
  good c c' \/ state_ c = kConnecting /\ connectEstablished user c = Ok c'.
Proof.
  intros Hc Hst. remember true as o eqn:Ho. destruct Hst as [c c' Hs E|c c' E|o c c' Hst]; [by right|left|left].
  - apply bool_decide_eq_true in Ho. by eapply destroyed_good.
  - by eapply own_step_good.
Qed.

(** The close callback has run exactly if the connection is closed. *)
Definition told c : Prop := closes (loop c) = if decide (stage_of c = LClosed) then 1%nat else 0%nat.

Lemma live_told c c' : live c c' -> told c -> told c'.
Proof.
  unfold told. intros [[E N]|(E1 & E2 & N)]; rewrite N.
  - by rewrite E.
  - rewrite E1, E2. rewrite decide_False by done. rewrite decide_True by done. by intros ->.
Qed.

Lemma served_step_told c c' : served_inv c -> told c -> served_step true c c' -> served_inv c' /\ told c'.
Proof.
  intros Hc Ht Hst. destruct (served_step_good c c' Hc Hst) as [(H & L & _)|[Hs E]].
  - split; [done|]. by eapply live_told.
  - destruct (established_good c c' Hc Hs E) as ((H & L & _) & Hup & Hn). split; [done|].
    eapply live_told; [exact L|]. unfold told in *. rewrite Hn, Hup, Ht. unfold stage_of. by rewrite Hs.
Qed.

Lemma served_steps_told c c' : rtc (served_step true) c c' -> served_inv c -> told c -> served_inv c' /\ told c'.
Proof.
  induction 1 as [|c c1 c' Hst _ IH]; [done|]. intros Hc Ht.
  destruct (served_step_told c c1 Hc Ht Hst) as [H1 T1]. by apply IH.
Qed.

(** A closed connection stays closed and tells nothing more. *)
Lemma closed_forever c c' :
  rtc (served_step true) c c' -> served_inv c -> state_ c = kDisconnected ->
  state_ c' = kDisconnected /\ closes (loop c') = closes (loop c).
Proof.
  induction 1 as [|c c1 c' Hst _ IH]; [done|]. intros Hc Hs. apply stage_closed in Hs.
  destruct (served_step_good c c1 Hc Hst) as [(H & [[L N]|(L & _)] & _)|[Hs' _]].
  - destruct IH as [I1 I2]; [done|apply stage_closed; congruence|]. split; congruence.
  - congruence.
  - apply stage_closed in Hs. congruence.
Qed.

Lemma served_new now l :
  closes l = 0%nat -> posted l = [] ->
  exists c, TcpConnection_new now l = Ok c /\ served_inv c /\ told c /\ loop c = l /\ state_ c = kConnecting.
Proof.
  intros Hl Hp. destruct (TcpConnection_new_inv now l) as (c & E & Hc & Hs & _ & El).
  exists c. split_and!; try done.
  - split; [done| |].
    + unfold TcpConnection_new in E. by inv_res.
    + intros m. rewrite El, Hp. by intros Hm%elem_of_nil.
  - unfold told. rewrite El, Hl. unfold stage_of. by rewrite Hs.
Qed.
End handlers.

(** ** Instances: a loop that counts, and an echo server on it *)
Record counted_loop := mkCounted { ct_loop : simple_conn_loop; ct_closes : nat; ct_lists : bool }.

Definition ct_map (f : simple_conn_loop -> simple_conn_loop) s : counted_loop :=
  mkCounted (f (ct_loop s)) (ct_closes s) (ct_lists s).
Definition ct_update (e : Z) s : counted_loop :=
  mkCounted (update_channel e (ct_loop s)) (ct_closes s) (negb (ct_lists s && (e =? kNoneEvent))).
Definition ct_remove s : counted_loop := mkCounted (remove_channel (ct_loop s)) (ct_closes s) false.
Definition ct_timer s (x : TimerId * simple_conn_loop) : TimerId * counted_loop :=
  (x.1, mkCounted x.2 (ct_closes s) (ct_lists s)).

#[global] Instance counted_conn : ConnLoop counted_loop := {
  post t := ct_map (post t);
  update_channel := ct_update;
  remove_channel := ct_remove;
  run_after d t s := ct_timer s <$> run_after d t (ct_loop s);
  run_every d t s := ct_timer s <$> run_every d t (ct_loop s);
  cancel_timer id := ct_map (cancel_timer id);
  clock s := clock (ct_loop s);
  armed s := armed (ct_loop s)
}.
#[global, program] Instance counted_served : ServedLoop counted_loop := {
  closes := ct_closes;
  posted s := cl_tasks (ct_loop s);
  kernel_lists := ct_lists;
  destroy_queued _ := false
}.
Solve Obligations with by intros; simplify_eq/=; repeat case_match.

(** The echo server, whose close callback is counted. *)
Definition counted_echo (quota : Z) (k : user_call) (c : TcpConnection counted_loop)
    : res (TcpConnection counted_loop) :=
  c ← echo quota k c;
  Ok (match k with
      | UClose => set_loop (mkCounted (ct_loop (loop c)) (Datatypes.S (ct_closes (loop c))) (ct_lists (loop c))) c
      | _ => c
      end).

Lemma quota_ok quota m : wf m -> write_ok (readableBytes m) (Done (Z.max 0 (Z.min quota (readableBytes m)))).
Proof. intros Hw. destruct (wf_sizes _ Hw) as [Hsz _]. simpl. unfold wf in Hw. lia. Qed.

#[global] Instance counted_echo_user quota : ServedUser (counted_echo quota).
Proof.
  split.
  - intros k c c' Hc E. apply bind_Ok in E as (c1 & E1 & E). injection E as <-.
    pose proof (echo_user quota k c c1 Hc E1). destruct k; try done. by apply conn_inv_loop.
  - intros k c c' Hc Hk E. apply bind_Ok in E as (c1 & E1 & E).
    assert (c1 = c') as -> by (destruct k; congruence). clear E Hk.
    destruct k; simpl in E1; try (injection E1 as <-; by apply good_refl).
    apply bind_Ok in E1 as ([m c1] & E1 & E). injection E as <-.
    set (m0 := inputBuffer_ c) in E1. pose proof (ci_in _ (sv_conn _ Hc)) as Hw.
    pose proof (quota_ok quota m0 Hw) as Hq.
    assert (good c c1) as Hg by (by eapply (send_buffer_good true m0); [..|exact E1]).
    destruct (send_buffer_inv true m0 _ c m c1 (sv_conn _ Hc) Hw Hq E1) as [_ Hm].
    eapply good_trans; [exact Hg|]. apply calm_good; [apply Hg| |apply calm_input].
    destruct (sv_conn _ (proj1 Hg)). by split.
  - intros c c' Hc Hs [= <-]. split; [apply closed_inv; [apply conn_inv_loop, Hc|done]|].
    split_and!; try done. intros Hw. by apply (watch_same c).
Qed.

(** ** Properties *)

(** C11: the close callback of a connection runs once, as long as every step is in order.
    Let events of its channel, functors, timers and calls of its interface, also
    interrupted ones of other threads, happen to a new connection, with any user code that
    follows the same rules, in every history of steps that are in order: no event is
    dispatched once the channel watches nothing or with a hang-up next to priority data or
    a half-close but no input, no other thread assigns [kDisconnecting] to a connection
    that was closed after its test, and the server destroys the connection only after it
    was closed.  Then until the connection is disconnected the close callback has not run,
    and from then on it has run exactly once and the connection stays disconnected.  That
    each of these conditions is needed is shown below. *)
Theorem closes_once {S : Type} `{!ConnLoop S, !ServedLoop S}
    (user : user_call -> TcpConnection S -> res (TcpConnection S)) `{!ServedUser user}
    (now : Timestamp) (l : S) (c0 c c' : TcpConnection S) :
  closes l = 0%nat -> posted l = [] -> TcpConnection_new now l = Ok c0 ->
  rtc (served_step user true) c0 c -> rtc (served_step user true) c c' ->
  closes (loop c) = (if decide (state_ c = kDisconnected) then 1 else 0)%nat /\
  (state_ c = kDisconnected -> state_ c' = kDisconnected /\ closes (loop c') = 1%nat).
Proof.
  intros Hl Hp E H1 H2. destruct (served_new now l Hl Hp) as (d & E' & Hc & Ht & _ & _).
  assert (d = c0) as -> by congruence.
  destruct (served_steps_told user c0 c H1 Hc Ht) as [Hc1 Ht1]. unfold told in Ht1.
  assert (closes (loop c) = (if decide (state_ c = kDisconnected) then 1 else 0)%nat) as Hn.
  { rewrite Ht1. pose proof (stage_closed c). do 2 case_decide; tauto. }
  split; [done|]. intros Hs. destruct (closed_forever user c c' H2 Hc1 Hs) as [I1 I2].
  split; [done|]. rewrite I2, Hn. by rewrite decide_True.
Qed.

(** A connection that receives five bytes, echoes them and is hung up. *)
Definition cconn_or (d : TcpConnection counted_loop) (r : res (TcpConnection counted_loop)) :=
  match r with Ok c => c | Fault _ => d end.
Definition cloop0 : counted_loop := mkCounted start_loop 0 false.
Definition cdemo0 : TcpConnection counted_loop :=
  match TcpConnection_new 1000 cloop0 with
  | Ok c => c
  | Fault _ => mkConn kDisconnected 0 false 0 false false TimerId_default TimerId_default TimerId_default
                 dzero dzero false 0 (mkBuffer [] 0 0) (mkBuffer [] 0 0) cloop0 [] []
  end.
Definition take_up (n : Z) : sysret Z := Done (Z.max 0 n).
Definition cdemo1 := cconn_or cdemo0 (connectEstablished (counted_echo 2) cdemo0).
Definition cdemo2 := cconn_or cdemo0
  (conn_event (counted_echo 2) EPOLLIN 2000 (Done [x61; x62; x63; x64; x65]) take_up 0 cdemo1).
Definition cdemo3 := cconn_or cdemo0
  (conn_event (counted_echo 2) (Z.lor EPOLLHUP EPOLLOUT) 2001 (Done []) take_up 0 cdemo2).

Lemma cdemo_steps : rtc (served_step (counted_echo 2) true) cdemo0 cdemo2 /\ rtc (served_step (counted_echo 2) true) cdemo2 cdemo3.
Proof.
  split; [eapply rtc_l; [|apply rtc_once]|apply rtc_once].
  - apply vs_established; vm_compute; reflexivity.
  - apply vs_own, (os_event_in_order _ EPOLLIN 2000 (Done [x61; x62; x63; x64; x65]) take_up 0);
      [vm_compute; reflexivity| |vm_compute; discriminate|intros n Hn; simpl; lia|vm_compute; reflexivity].
    vm_compute. discriminate.
  - apply vs_own, (os_event_in_order _ (Z.lor EPOLLHUP EPOLLOUT) 2001 (Done []) take_up 0);
      [vm_compute; reflexivity| |vm_compute; discriminate|intros n Hn; simpl; lia|vm_compute; reflexivity].
    vm_compute. discriminate.
Qed.

Lemma closes_once_witness :
  closes (loop cdemo2) = 0%nat /\ state_ cdemo3 = kDisconnected /\ closes (loop cdemo3) = 1%nat.
Proof.
  destruct cdemo_steps as [H1 H2].
  destruct (closes_once (counted_echo 2) 1000 cloop0 cdemo0 cdemo2 cdemo3) as [E _]; [reflexivity|reflexivity|reflexivity|exact H1|exact H2|].
  destruct (closes_once (counted_echo 2) 1000 cloop0 cdemo0 cdemo3 cdemo3) as [_ E']; [reflexivity|reflexivity|reflexivity| |apply rtc_refl|].
  - exact (rtc_trans _ _ _ H1 H2).
  - split; [exact E|]. apply E'. vm_compute. reflexivity.
Defined.

(** A report that arrives after the close.  The events of one round of polling are
    collected before any of them is handled; if an earlier callback of the round closes
    the connection, a hang-up, or an input event whose [readv] returns 0, still reaches
    it and runs the close callback a second time. *)
Theorem stale_event_closes_again {S : Type} `{!ConnLoop S, !ServedLoop S}
    (user : user_call -> TcpConnection S -> res (TcpConnection S)) `{!ServedUser user}
    (revents : Z) (t : Timestamp) (rd : sysret (list byte)) (wr : Z -> sysret Z) (stale : Z)
    (c c' : TcpConnection S) :
  served_inv c -> state_ c = kDisconnected ->
  zlen (buffer_ (inputBuffer_ c)) + extrabuf_size <= max_size ->
  revents = EPOLLHUP \/ revents = EPOLLIN /\ rd = Done [] ->
  conn_event user revents t rd wr stale c = Ok c' ->
  closes (loop c') = Datatypes.S (closes (loop c)).
Proof.
  intros Hc Hs Hm [->|[-> ->]] E; apply bind_Ok in E as (c1 & E & [= <-]); simpl in E.
  - by apply (handleClose_tells user c c1 (sv_conn _ Hc)).
  - pose proof (ci_in _ (sv_conn _ Hc)) as Hw. destruct (wf_sizes _ Hw) as [_ Hws].
    destruct (readFd_contents (inputBuffer_ c) (Done []) Hw) as (e & b & Eb & Hwf & _);
      [simpl; rewrite Hws; unfold wf, zlen, extrabuf_size in *; simpl; lia|done|].
    unfold run_cb, handleRead in E. rewrite Eb, bind_ret_l in E. simpl in E.
    apply (handleClose_tells user (set_input b c)); [|done]. destruct (sv_conn _ Hc). by split.
Qed.

Definition cdemo4 := cconn_or cdemo0
  (conn_event (counted_echo 2) EPOLLHUP 2002 (Done []) take_up 0 cdemo3).

Lemma stale_event_closes_again_witness :
  closes (loop cdemo3) = 1%nat /\ closes (loop cdemo4) = Datatypes.S (closes (loop cdemo3)).
Proof.
  split; [vm_compute; reflexivity|].
  apply (stale_event_closes_again (counted_echo 2) EPOLLHUP 2002 (Done []) take_up 0 cdemo3 cdemo4).
  - destruct cdemo_steps as [H1 H2]. destruct (served_new 1000 cloop0) as (c & E & Hc & Ht & _); [done|done|].
    assert (c = cdemo0) as -> by (change (Ok cdemo0 = Ok c) in E; congruence).
    by apply (served_steps_told (counted_echo 2) cdemo0 cdemo3 (rtc_trans _ _ _ H1 H2) Hc Ht).
  - vm_compute. reflexivity.
  - vm_compute. discriminate.
  - by left.
  - vm_compute. reflexivity.
Defined.

(** C36: an overtaken [forceClose] closes twice.  Another thread's [forceClose] finds the
    connection open; before its assignment the connection, by any steps in order, is
    closed.  The assignment takes it out of [kDisconnected] again and the functor that is
    queued closes it once more: the close callback has run twice since the test.  Called
    after the close, [forceClose] does nothing. *)
Theorem forceClose_race {S : Type} `{!ConnLoop S, !ServedLoop S}
    (user : user_call -> TcpConnection S -> res (TcpConnection S)) `{!ServedUser user}
    (ret : sysret Z) (c c1 c2 : TcpConnection S) :
  served_inv c -> forceClose_test c = true ->
  rtc (own_step user true) c c1 -> state_ c1 = kDisconnected ->
  run_task user TForceCloseInLoop ret (forceClose_commit c1) = Ok c2 ->
  forceClose user false c1 = Ok c1 /\
  state_ c2 = kDisconnected /\ closes (loop c2) = (closes (loop c) + 2)%nat.
Proof.
  intros Hc Ho Hst Hs E. apply open_up in Ho. destruct (own_steps_good user c c1 Hst Hc) as (H1 & L & _).
  pose proof (proj2 (stage_closed c1) Hs) as Hcl.
  destruct L as [[L _]|(_ & _ & N)]; [congruence|]. split.
  { rewrite forceClose_halves. unfold forceClose_test, open_or_closing. by rewrite Hs. }
  destruct (handleClose_ends user (forceClose_commit c1) c2) as (_ & Hs2 & N2 & _); [|exact E|].
  - by apply (conn_inv_same (channel_mask DisableAll (set_state kDisconnected c1))); [apply conn_inv_close, H1|..].
  - split; [done|]. rewrite N2. simpl. rewrite closes_post. lia.
Qed.

Definition cdemo5 := cconn_or cdemo0 (run_task (counted_echo 2) TForceCloseInLoop (Done 0) (forceClose_commit cdemo3)).

Lemma cdemo2_inv : served_inv cdemo2.
Proof.
  destruct cdemo_steps as [H1 _]. destruct (served_new 1000 cloop0) as (c & E & Hc & Ht & _); [done|done|].
  assert (c = cdemo0) as -> by (change (Ok cdemo0 = Ok c) in E; congruence).
  by apply (served_steps_told (counted_echo 2) cdemo0 cdemo2 H1 Hc Ht).
Qed.

Lemma cdemo_hup : own_step (counted_echo 2) true cdemo2 cdemo3.
Proof.
  apply (os_event_in_order _ (Z.lor EPOLLHUP EPOLLOUT) 2001 (Done []) take_up 0);
    [vm_compute; reflexivity|vm_compute; discriminate|vm_compute; discriminate|intros n Hn; simpl; lia|vm_compute; reflexivity].
Qed.

Lemma forceClose_race_witness :
  closes (loop cdemo2) = 0%nat /\ closes (loop cdemo5) = 2%nat.
Proof.
  split; [vm_compute; reflexivity|].
  assert (closes (loop cdemo5) = closes (loop cdemo2) + 2)%nat as E; [|rewrite E; vm_compute; reflexivity].
  apply (forceClose_race (counted_echo 2) (Done 0) cdemo2 cdemo3 cdemo5).
  - exact cdemo2_inv.
  - vm_compute. reflexivity.
  - exact (rtc_once _ _ cdemo_hup).
  - vm_compute. reflexivity.
  - vm_compute. reflexivity.
Defined.

(** The server's destructor: a connected connection that is destroyed is disconnected
    without its close callback. *)
Theorem destroyed_silently :
  match connectDestroyed (counted_echo 2) cdemo2 with
  | Ok c => state_ c = kDisconnected /\ closes (loop c) = 0%nat
  | Fault _ => False
  end.
Proof. vm_compute. split; reflexivity. Qed.
