(* ===== verification/HostedConn.v ===== *)
(** * HostedConn: a connection in a loop that keeps its promises

    [TcpSpec.v] says what a connection does to its buffers when an operation returns.
    This file is about the other side: under the promises of a loop about channels and
    timers ([ConnTimers], [ConnHost]) every operation of a connection
    ([src/base/TcpConnection.cpp]) returns, or gives up for want of memory or of room in a
    time value; it leaves the loop consistent; and the events the connection's channel
    asks for are those the loop watches. *)
From Stdlib Require Import Strings.Byte.
From S2P Require Import Prelude Buffer Timestamp TimerQueue Channel TcpConnection TcpSpec.

(** [watched s] is the mask the loop holds for the connection's channel. *)
Class ConnHost (S : Type) `{!ConnLoop S, !ConnTimers S} := {
  watched : S -> Z;
  watched_post t s : loop_ok s -> watched (post t s) = watched s;
  watched_update e s : loop_ok s -> watched (update_channel e s) = e;
  watched_remove s : loop_ok s -> watched (remove_channel s) = watched s;
  watched_after d t s id s' : loop_ok s -> run_after d t s = Ok (id, s') -> watched s' = watched s;
  watched_every d t s id s' : loop_ok s -> run_every d t s = Ok (id, s') -> watched s' = watched s;
  watched_cancel id s : loop_ok s -> watched (cancel_timer id s) = watched s;
  after_wp d t s : loop_ok s -> wp (run_after d t s) (fun _ => True);
  every_wp d t s : loop_ok s -> wp (run_every d t s) (fun _ => True)
}.

Section home.
Context {S : Type} `{!ConnLoop S, !ConnTimers S, !ConnHost S}.
Implicit Types c : TcpConnection S.

Definition at_home c : Prop := loop_ok (loop c) /\ events c = watched (loop c).
Definition hosted c : Prop := conn_inv c /\ at_home c.

(** The members the two look at. *)
Lemma at_home_same c c' : at_home c -> loop c' = loop c -> events c' = events c -> at_home c'.
Proof. unfold at_home. by intros ? -> ->. Qed.

Lemma home_state c s : at_home c -> at_home (set_state s c).
Proof. intros H. by apply (at_home_same c). Qed.
Lemma home_tied c : at_home c -> at_home (set_tied c).
Proof. intros H. by apply (at_home_same c). Qed.
Lemma home_input c b : at_home c -> at_home (set_input b c).
Proof. intros H. by apply (at_home_same c). Qed.
Lemma home_output c b ops t : at_home c -> at_home (set_output b ops t c).
Proof. intros H. by apply (at_home_same c). Qed.
Lemma home_timers c t1 t2 t3 : at_home c -> at_home (set_timers t1 t2 t3 c).
Proof. intros H. by apply (at_home_same c). Qed.
Lemma home_timing c a b d e : at_home c -> at_home (set_timing a b d e c).
Proof. intros H. by apply (at_home_same c). Qed.
Lemma home_shutdown c : at_home c -> at_home (shutdownInLoop c).
Proof. intros H. unfold shutdownInLoop. destruct (negb _); [by apply home_output|done]. Qed.

Lemma home_task c t : at_home c -> task_ok t -> at_home (queue_task t c).
Proof. intros [Hl He] Ht. split; simpl; [by apply ok_post|by rewrite watched_post]. Qed.
Lemma home_mask c o : at_home c -> at_home (channel_mask o c).
Proof. intros [Hl He]. split; simpl; [by apply ok_update|by rewrite watched_update]. Qed.
Lemma home_remove c : at_home c -> at_home (set_loop (remove_channel (loop c)) c).
Proof. intros [Hl He]. split; simpl; [by apply ok_remove|by rewrite watched_remove]. Qed.
Lemma home_cancel c id : at_home c -> at_home (cancel_if_valid id c).
Proof.
  intros [Hl He]. unfold cancel_if_valid. destruct (isValid id); [|by split].
  split; simpl; [by apply ok_cancel|by rewrite watched_cancel].
Qed.

(** A new timer. *)
Lemma after_home d t c :
  at_home c -> wp (run_after d t (loop c)) (fun x => at_home (set_loop x.2 c)).
Proof.
  intros [Hl He]. eapply wp_mono; [apply (wp_and _ _ (fun x => at_home (set_loop x.2 c)) (after_wp d t _ Hl))|].
  - intros [id s] E. split; simpl; [by eapply ok_after|by rewrite (watched_after _ _ _ _ _ Hl E)].
  - by intros x [_ H].
Qed.

Lemma every_home d t c :
  at_home c -> wp (run_every d t (loop c)) (fun x => at_home (set_loop x.2 c)).
Proof.
  intros [Hl He]. eapply wp_mono; [apply (wp_and _ _ (fun x => at_home (set_loop x.2 c)) (every_wp d t _ Hl))|].
  - intros [id s] E. split; simpl; [by eapply ok_every|by rewrite (watched_every _ _ _ _ _ Hl E)].
  - by intros x [_ H].
Qed.
End home.

Create HintDb home.
#[export] Hint Resolve home_state home_tied home_input home_output home_timers home_timing home_shutdown
  home_mask home_remove home_cancel : home.

(** User code that keeps the invariant of the connection and its loop, and returns. *)
Class HostUser {S : Type} `{!ConnLoop S, !ConnTimers S, !ConnHost S}
    (user : user_call -> TcpConnection S -> res (TcpConnection S)) : Prop := {
  hu_conn :: ConnUser user;
  hu_home k c : hosted c -> wp (user k c) at_home
}.

Section operations.
Context {S : Type} `{!ConnLoop S, !ConnTimers S, !ConnHost S}.
Context (user : user_call -> TcpConnection S -> res (TcpConnection S)) `{!HostUser user}.
Implicit Types c : TcpConnection S.

(** Two halves make a whole. *)
Lemma wp_hosted r : wp r at_home -> (forall c, r = Ok c -> conn_inv c) -> wp r hosted.
Proof. intros H Hc. eapply wp_mono; [apply (wp_and _ _ _ H Hc)|]. intros c [? ?]. by split. Qed.

Lemma user_hosted k c : hosted c -> wp (user k c) hosted.
Proof. intros H. apply wp_hosted; [by apply hu_home|]. intros c'. exact (user_inv k c c' (proj1 H)). Qed.

Lemma handleClose_hosted c : hosted c -> wp (handleClose user c) hosted.
Proof.
  intros [Hc Hh]. unfold handleClose. eapply wp_bind; [apply user_hosted|by apply user_hosted].
  split; auto with conn home.
Qed.

Lemma forceCloseInLoop_hosted c : hosted c -> wp (forceCloseInLoop user c) hosted.
Proof. intros H. unfold forceCloseInLoop. destruct (open_or_closing c); [by apply handleClose_hosted|done]. Qed.

Lemma forceClose_hosted b c : hosted c -> wp (forceClose user b c) hosted.
Proof.
  intros H. apply wp_hosted; [|intros c'; exact (forceClose_inv user b c c' (proj1 H))].
  unfold forceClose. destruct (open_or_closing c) eqn:Eo; [|apply H]. destruct b.
  - eapply wp_mono; [apply forceCloseInLoop_hosted|by intros c' []].
    split; [apply conn_inv_state; [apply H|by apply open_not_closed|done]|apply home_state, H].
  - simpl. apply home_task; [apply home_state, H|done].
Qed.

Lemma shutdown_hosted b c : hosted c -> hosted (shutdown b c).
Proof.
  intros H. split; [apply shutdown_inv, H|]. unfold shutdown. case_decide; [|apply H].
  destruct b; [apply home_shutdown, home_state, H|apply home_task; [apply home_state, H|done]].
Qed.

Lemma connectEstablished_hosted c :
  hosted c -> state_ c <> kDisconnected -> wp (connectEstablished user c) hosted.
Proof.
  intros H Hs. apply wp_hosted; [|intros c'; exact (connectEstablished_inv user c c' (proj1 H) Hs)].
  unfold connectEstablished. eapply wp_mono; [apply user_hosted|by intros c' []].
  split; [|apply home_mask, home_tied, home_state, H].
  destruct (connectEstablished_inv quiet c (channel_mask EnableReading (set_tied (set_state kConnected c)))
    (proj1 H) Hs eq_refl). by split.
Qed.

Lemma connectDestroyed_hosted c : hosted c -> wp (connectDestroyed user c) hosted.
Proof.
  intros H. apply wp_hosted; [|intros c'; exact (connectDestroyed_inv user c c' (proj1 H))].
  unfold connectDestroyed. eapply (wp_bind _ _ hosted).
  - case_decide; [apply user_hosted|done]. destruct H. split; auto with conn home.
  - intros c1 H1. apply home_remove, H1.
Qed.

(** *** Sending *)
Lemma write_at_once_home data ret c : at_home c -> at_home (write_at_once data ret c).2.
Proof.
  intros H. unfold write_at_once. destruct (_ && _); [|done]. destruct ret; [done|].
  simpl. destruct (_ && _); [apply home_task; [|done]|]; auto with home.
Qed.

Lemma buffer_rest_home rest c :
  hosted c -> zlen rest <= max_size -> wp (buffer_rest rest c) at_home.
Proof.
  intros [Hc Hh] Hr. unfold buffer_rest. cbv zeta. set (c1 := if (_ : bool) then queue_task _ c else c).
  assert (at_home c1 /\ outputBuffer_ c1 = outputBuffer_ c) as [Hh1 Ho].
  { subst c1. destruct (_ && _); [split; [by apply home_task|done]|done]. }
  eapply wp_bind; [apply append_wp; [rewrite Ho; apply (ci_out _ Hc)|done]|].
  intros b _. simpl. destruct (negb _); auto with home.
Qed.

Lemma sendInLoop_hosted data ret c :
  hosted c -> zlen data <= max_size -> write_ok (zlen data) ret -> wp (sendInLoop data ret c) hosted.
Proof.
  intros H Hd Hr. apply wp_hosted; [|intros c'; by apply sendInLoop_inv; [apply H|..]].
  unfold sendInLoop. case_decide; [apply H|].
  pose proof (write_at_once_inv data ret c (proj1 H) Hr) as Hw.
  pose proof (write_at_once_home data ret c (proj2 H)) as Hw'.
  destruct (write_at_once data ret c) as [[n fault] c1]. destruct Hw as (Hn & Hc1 & _).
  destruct (_ && _); [|done]. apply buffer_rest_home; [by split|].
  unfold zlen in *. rewrite length_drop. lia.
Qed.

Lemma send_hosted b data ret c :
  hosted c -> zlen data <= max_size -> write_ok (zlen data) ret -> wp (send b data ret c) hosted.
Proof.
  intros H Hd Hr. unfold send. case_decide; [|done]. destruct b; [by apply sendInLoop_hosted|].
  split; [apply conn_inv_task, H|by apply home_task; [apply H|]].
Qed.

Lemma send_buffer_hosted b m ret c :
  hosted c -> wf m -> write_ok (readableBytes m) ret ->
  wp (send_buffer b m ret c) (fun x => wf x.1 /\ hosted x.2).
Proof.
  intros H Hm Hr. pose proof (zlen_readable m Hm) as Hz. pose proof (zlen_nonneg (readable m)).
  assert (zlen (readable m) <= max_size) as Hmax.
  { rewrite Hz. destruct (wf_sizes m Hm) as [-> _]. unfold wf in Hm. lia. }
  unfold send_buffer. case_decide; [|done]. destruct b.
  - rewrite read_readable by (done || lia). rewrite bind_ret_l, take_ge by (unfold zlen in *; lia).
    eapply wp_bind; [apply sendInLoop_hosted; [done|done|by rewrite Hz]|].
    intros c1 Hc1. split; [by apply retrieveAll_contents|done].
  - destruct (retrieveAllAsString_contents m Hm) as (m' & -> & Hm' & _). rewrite bind_ret_l.
    split; [done|]. split; [apply conn_inv_task, H|by apply home_task; [apply H|]].
Qed.

(** *** Timers *)
Lemma setConnectionTimeoutInLoop_hosted s c : hosted c -> wp (setConnectionTimeoutInLoop s c) hosted.
Proof.
  intros H. apply wp_hosted; [|intros c'; apply setConnectionTimeoutInLoop_inv, H].
  unfold setConnectionTimeoutInLoop. destruct (dltb dzero s); [|apply home_cancel, H].
  eapply wp_bind; [apply after_home, home_cancel, H|]. intros [id l] Hl. by apply home_timers.
Qed.

Lemma resetIdleTimerInLoop_hosted c : hosted c -> wp (resetIdleTimerInLoop c) hosted.
Proof.
  intros H. apply wp_hosted; [|intros c'; apply resetIdleTimerInLoop_inv, H].
  unfold resetIdleTimerInLoop. eapply wp_bind; [apply after_home, home_cancel, H|].
  intros [id l] Hl. by apply home_timing, home_timers.
Qed.

Lemma resetIdleTimer_hosted b c : hosted c -> wp (resetIdleTimer b c) hosted.
Proof.
  intros H. unfold resetIdleTimer. destruct (dleb _ _); [done|].
  destruct b; [by apply resetIdleTimerInLoop_hosted|].
  split; [apply conn_inv_task, H|by apply home_task; [apply H|]].
Qed.

Lemma setIdleTimeout_hosted b s c : hosted c -> wp (setIdleTimeout b s c) hosted.
Proof.
  intros [Hc Hh]. unfold setIdleTimeout. destruct (dltb dzero s).
  - apply resetIdleTimer_hosted. split; auto with conn home.
  - destruct (isValid _); split; auto with conn home.
Qed.

Lemma setupKeepAliveTimer_hosted c : hosted c -> wp (setupKeepAliveTimer c) hosted.
Proof.
  intros H. apply wp_hosted; [|intros c'; apply setupKeepAliveTimer_inv, H].
  unfold setupKeepAliveTimer. destruct (negb _); [apply H|].
  eapply wp_bind; [apply every_home, H|]. intros [id l] Hl. by apply home_timers.
Qed.

Lemma enableKeepAlive_hosted b en i c : hosted c -> wp (enableKeepAlive b en i c) hosted.
Proof.
  intros [Hc Hh]. unfold enableKeepAlive. destruct en; [destruct b|destruct (isValid _)].
  - apply setupKeepAliveTimer_hosted. split; auto with conn home.
  - split; [auto with conn|apply home_task; [auto with home|done]].
  - split; auto with conn home.
  - split; auto with conn home.
Qed.

Lemma onTimer_hosted t ret c :
  hosted c -> write_ok (zlen HEARTBEAT) ret -> wp (onTimer user t ret c) hosted.
Proof.
  intros H Hr. destruct t; simpl; [by apply forceClose_hosted..|].
  unfold onKeepAliveTimeout. destruct (negb _); [|by apply sendInLoop_hosted].
  destruct H. split; auto with conn home.
Qed.

(** *** Events *)
Lemma handleRead_hosted t ret c :
  hosted c -> readv_ok (inputBuffer_ c) ret -> wp (handleRead user t ret c) hosted.
Proof.
  intros [Hc Hh] Hr. unfold handleRead. eapply wp_bind; [apply readFd_wp; [apply (ci_in _ Hc)|done]|].
  intros [[n e] b] Hb. simpl in Hb.
  assert (hosted (set_input b c)) as H1 by (split; [destruct Hc; by split|by apply home_input]).
  destruct (0 <? n); [|destruct (n =? 0); [by apply handleClose_hosted|done]].
  eapply wp_bind; [by apply user_hosted|]. intros c1 Hc1. eapply (wp_bind _ _ hosted).
  - destruct (dltb _ _); [by apply resetIdleTimer_hosted|done].
  - intros c2 [? ?]. split; auto with conn home.
Qed.

Lemma handleWrite_hosted ret stale c :
  hosted c -> write_ok (readableBytes (outputBuffer_ c)) ret -> wp (handleWrite user ret stale c) hosted.
Proof.
  intros H Hr. apply wp_hosted; [|intros c'; exact (handleWrite_inv user ret stale c c' (proj1 H) Hr)].
  unfold handleWrite. destruct (is_writing c); [|apply H].
  pose proof (ci_out _ (proj1 H)) as Ho. pose proof (zlen_readable _ Ho). pose proof (zlen_nonneg (readable (outputBuffer_ c))).
  rewrite read_readable by (done || lia). rewrite bind_ret_l.
  assert (forall e : Z, wp (if negb (e =? EAGAIN) && ((e =? EPIPE) || (e =? ECONNRESET)) then handleClose user c else Ok c)
    at_home) as Hfail.
  { intros e. destruct (_ && _); [|apply H]. eapply wp_mono; [by apply handleClose_hosted|by intros c' []]. }
  destruct ret as [e|n]; [apply Hfail|]. destruct (0 <? n); [|apply Hfail].
  pose proof (proj2 H) as Hh. simpl. destruct (_ =? 0); [|by apply home_output].
  assert (forall c2, at_home c2 -> at_home (if decide (state_ c2 = kDisconnecting) then shutdownInLoop c2 else c2)) as Hsd
    by (intros c2 H2; case_decide; auto with home).
  apply Hsd. destruct (writeCompleteCallback_ c); [apply home_task; [|done]|]; auto with home.
Qed.

Lemma run_task_hosted t ret c :
  hosted c -> task_ok t -> (forall m, t = TSendInLoop m -> write_ok (zlen m) ret) ->
  wp (run_task user t ret c) hosted.
Proof.
  intros H Ht Hr. destruct t as [|n|m| | |s| |]; simpl.
  - by apply user_hosted.
  - by apply user_hosted.
  - apply sendInLoop_hosted; auto.
  - split; [apply shutdownInLoop_inv, H|apply home_shutdown, H].
  - by apply forceCloseInLoop_hosted.
  - by apply setConnectionTimeoutInLoop_hosted.
  - by apply resetIdleTimerInLoop_hosted.
  - by apply setupKeepAliveTimer_hosted.
Qed.
End operations.
