(* ===== verification/LoopHost.v ===== *)
(** * LoopHost: the event loop under a connection

    [TcpConnection.v] states what a connection asks of its loop as an interface
    ([ConnLoop], [ConnTimers], [ConnHost], [ServedLoop]).  This file implements the interface by the
    loop itself: [EventLoop::queueInLoop], [updateChannel], [removeChannel], [runAfter],
    [runEvery] and [cancel] of [src/base/Eventloop.cpp] over the real poller and the real
    timer queue, called by the loop thread.  Functors and timers are those a connection
    binds ([job]).  What the system answers is a script ([environment]). *)
From Stdlib Require Import Strings.Byte.
From S2P Require Import Prelude Buffer Timestamp StdSet TimerQueue TimerSafe Channel EpollPoller EventLoop.
From S2P Require Import TcpConnection TcpSpec ServedConn HostedConn.

(** ** What the loop runs for a connection *)
Inductive job :=
  | JTask (t : conn_task)
  | JTimer (t : timer_task)
  | JEvent (x : conn_cb)
  | JDestroyed.

Definition job_ok (j : job) : Prop := match j with JTask t => task_ok t | _ => True end.
Definition pending_ok (f : Functor job) : Prop :=
  match f with FUser (JTask t) => task_ok t | FUser JDestroyed | FCancelInLoop _ => True | _ => False end.
Definition timer_job (j : job) : Prop := match j with JTimer _ => True | _ => False end.

(** ** What the system answers

    Clock readings and results of system calls, numbered in the order in which they are
    asked for; [e_new] is the address [new Timer] returns, [e_erased] what [cancelInLoop]
    reads from the node it has freed, about which nothing is assumed. *)
Record environment (K : Type) := mkEnvironment {
  e_clock : nat -> Timestamp;
  e_settime : nat -> option Z;
  e_new : gmap Z (Timer job) -> Z;
  e_erased : Z -> Z;
  e_timer : nat -> read_env;
  e_wait : nat -> K -> sysret (list epoll_event);
  e_readv : nat -> Buffer -> sysret (list byte);
  e_write : nat -> Z -> sysret Z;
  e_stale : nat -> Z
}.
Arguments mkEnvironment {K}.
Arguments e_clock {K}. Arguments e_settime {K}. Arguments e_new {K}. Arguments e_erased {K}.
Arguments e_timer {K}. Arguments e_wait {K}. Arguments e_readv {K}. Arguments e_write {K}.
Arguments e_stale {K}.

(** Answers within the documented behaviour of the calls, none of them fatal. *)
Record env_ok {K} `{!Epoll K} (e : environment K) : Prop := {
  eo_clock n : valid (e_clock e n) = true;
  eo_settime n : settime_ok (e_settime e n);
  eo_timer n : read_env_ok (e_timer e n);
  eo_wait n k evs : e_wait e n k = Done evs -> wait_ok k evs;
  eo_readv n b : readv_ok b (e_readv e n b);
  eo_write n len : 0 <= len -> write_ok len (e_write e n len)
}.

(** A descriptor that is open stays acceptable to the kernel whatever is done with it. *)
Class EpollOpen (K : Type) `{!Epoll K} : Prop :=
  accepts_keeps op fd ev k : accepts k fd = true -> accepts (epoll_ctl op fd ev k).2 fd = true.

#[global] Instance simple_epoll_open : EpollOpen simple_epoll.
Proof.
  intros op fd ev k H. simpl in *. unfold simple_ctl. destruct op, (se_list k !! fd); try done.
  by destruct (decide _).
Qed.

(** ** The loop with one connection *)

(** [h_channel] is the address of [channel_], [h_created] is [s_numCreated_].  The last
    four are not in the code: the functors queued so far, how often the close callback
    has run, whether the kernel lists the channel, as far as the calls of [update] and
    [remove] tell, and the first fault of a call of the loop in the callback that is being
    run.  A fault ends the run: [Reactor.v] ends each callback with the fault it has met. *)
Record host (K E : Type) := mkHost {
  h_loop : EventLoop job K E;
  h_channel : Z;
  h_env : environment K;
  h_tick : nat;
  h_created : Z;
  h_posted : list conn_task;
  h_closes : nat;
  h_listed : bool;
  h_fault : option fault
}.
Arguments mkHost {K E}.
Arguments h_loop {K E}. Arguments h_channel {K E}. Arguments h_env {K E}. Arguments h_tick {K E}.
Arguments h_created {K E}. Arguments h_posted {K E}. Arguments h_closes {K E}. Arguments h_listed {K E}.
Arguments h_fault {K E}.

(** The channel a connection creates, tied to its owner. *)
Definition conn_object (loop fd owner : Z) : Channel (Callback job) :=
  let ch := Channel_new loop fd in
  let ch := setReadCallback ch (Some (CbUser (JEvent CbRead))) in
  let ch := setWriteCallback ch (Some (CbUser (JEvent CbWrite))) in
  let ch := setCloseCallback ch (Some (CbUser (JEvent CbClose))) in
  let ch := setErrorCallback ch (Some (CbUser (JEvent CbError))) in
  tie ch owner.

(** What stays the same: the address of the timer queue's channel, that of the
    connection's, and the system. *)
Record site (K : Type) := mkSite { s_timer : Z; s_channel : Z; s_env : environment K }.
Arguments mkSite {K}. Arguments s_timer {K}. Arguments s_channel {K}. Arguments s_env {K}.

(** What a round of polling reported: the channels, and the events of the connection's;
    and functors that are first in the queue and stay there. *)
Record round := mkRound { r_live : gset Z; r_revents : Z; r_keep : list (Functor job) }.

Definition keeping (fs : list (Functor job)) (r : round) : round := mkRound (r_live r) (r_revents r) fs.

Section host.
Context {K E : Type} `{!Epoll K} `{!EventFd E}.
Implicit Types (h : host K E) (l : EventLoop job K E).

Definition put_loop l h : host K E :=
  mkHost l (h_channel h) (h_env h) (h_tick h) (h_created h) (h_posted h) (h_closes h) (h_listed h) (h_fault h).
Definition tick h : host K E :=
  mkHost (h_loop h) (h_channel h) (h_env h) (S (h_tick h)) (h_created h) (h_posted h) (h_closes h) (h_listed h) (h_fault h).
Definition with_created n h : host K E :=
  mkHost (h_loop h) (h_channel h) (h_env h) (h_tick h) n (h_posted h) (h_closes h) (h_listed h) (h_fault h).
Definition with_posted ts h : host K E :=
  mkHost (h_loop h) (h_channel h) (h_env h) (h_tick h) (h_created h) ts (h_closes h) (h_listed h) (h_fault h).
Definition with_closes n h : host K E :=
  mkHost (h_loop h) (h_channel h) (h_env h) (h_tick h) (h_created h) (h_posted h) n (h_listed h) (h_fault h).

Definition with_listed b h : host K E :=
  mkHost (h_loop h) (h_channel h) (h_env h) (h_tick h) (h_created h) (h_posted h) (h_closes h) b (h_fault h).

(** The thread that runs the loop. *)
Definition h_tid h : Z := threadId_ (h_loop h).
Definition h_timers h : TimerQueue job := timerQueue_ (h_loop h).
Definition h_poller h : EpollPoller (Callback job) K := poller_ (h_loop h).

(** The loop as its member functions see it.  They run no functor of the user: that is
    left to [loop()], see [Reactor.v]. *)
#[global] Instance host_world : LoopWorld job K E (host K E) := {
  loop_ := h_loop;
  EventLoop.set_loop := put_loop;
  loop_set h l := eq_refl;
  run_user _ _ _ := Fault UncaughtException;
  lock_object _ h := Some h;
  unlock_object _ h := Ok h;
  read_clock h := (e_clock (h_env h) (h_tick h), tick h);
  settime h := (e_settime (h_env h) (h_tick h), tick h);
  new_timer h := (e_new (h_env h) (heap (h_timers h)), h_created h, with_created (h_created h + 1) h);
  timer_env h := (e_timer (h_env h) (h_tick h), tick h);
  wait h := (e_wait (h_env h) (h_tick h) (epollFd_ (h_poller h)), tick h);
  clock_loop h := eq_refl;
  settime_loop h := eq_refl;
  new_timer_loop h := eq_refl;
  timer_env_loop h := eq_refl;
  wait_loop h := eq_refl
}.

(** *** The operations *)

(** The fault is recorded; what is left of the callback goes on with [h]. *)
Definition fail (x : fault) h : host K E :=
  mkHost (h_loop h) (h_channel h) (h_env h) (h_tick h) (h_created h) (h_posted h) (h_closes h) (h_listed h)
    (match h_fault h with None => Some x | y => y end).
Definition settle h (r : res (host K E)) : host K E := match r with Ok h' => h' | Fault x => fail x h end.

Definition h_post (t : conn_task) h : res (host K E) :=
  l ← queueInLoop (h_tid h) (FUser (JTask t)) (h_loop h);
  Ok (with_posted (h_posted h ++ [t]) (put_loop l h)).

(** [Events = e; Loop->updateChannel(this)] *)
Definition h_update (e : Z) h : res (host K E) :=
  h ← try_loop (fun l => po ← modify (h_channel h) (fun c => with_events c e) (poller_ l);
                          Ok (with_poller po l)) h;
  h ← EventLoop.updateChannel (e_erased (h_env h)) (h_tid h) (h_channel h) h;
  Ok (with_listed (negb (h_listed h && (e =? kNoneEvent))) h).

Definition h_remove h : res (host K E) :=
  h ← EventLoop.removeChannel (e_erased (h_env h)) (h_tid h) (h_channel h) h;
  Ok (with_listed (h_listed h && (currentActiveChannel_ (h_loop h) =? h_channel h)) h).

(** Whether [new Timer] succeeds: it returns memory nobody uses. *)
Definition can_new h : bool :=
  let p := e_new (h_env h) (heap (h_timers h)) in
  bool_decide (heap (h_timers h) !! p = None) && (0 <? p) && (p <? UINTPTR_MAX).

Definition h_run_after (d : double) (t : timer_task) h : res (TimerId * host K E) :=
  if dltb d dzero || can_new h then
    '(h, id) ← runAfter (e_erased (h_env h)) (h_tid h) d (Some (JTimer t)) h; Ok (id, h)
  else Fault BadAlloc.

Definition h_run_every (d : double) (t : timer_task) h : res (TimerId * host K E) :=
  if dleb d dzero || can_new h then
    '(h, id) ← runEvery (e_erased (h_env h)) (h_tid h) d (Some (JTimer t)) h; Ok (id, h)
  else Fault BadAlloc.

Definition h_cancel (id : TimerId) h : res (host K E) :=
  EventLoop.cancel (e_erased (h_env h)) (h_tid h) id h.

(** The state with which the callback goes on after a fault of [cancel]: that of a node
    that still holds the pointer. *)
Definition cancelled (id : TimerId) h : host K E :=
  match EventLoop.cancel (fun p => p) (h_tid h) id h with Ok h' => h' | Fault _ => h end.

(** The timers in the queue that run a function of the connection. *)
Definition timer_of (t : Timer job) : option timer_task :=
  match callback_ t with Some (JTimer x) => Some x | _ => None end.
Definition armed_timers (q : TimerQueue job) : gmap (Z * Z) timer_task :=
  map_imap (fun k (_ : unit) => heap q !! k.1 ≫= timer_of) (gset_to_gmap tt (activeTimers_ q)).

(** In a consistent loop no operation fails but [cancel], and that only at the freed node;
    see [event_loop_implements]. *)
#[global] Instance host_conn : ConnLoop (host K E) := {
  post t h := settle (with_posted (h_posted h ++ [t]) h) (h_post t h);
  update_channel e h := settle (with_listed (negb (h_listed h && (e =? kNoneEvent))) h) (h_update e h);
  remove_channel h := settle h (h_remove h);
  run_after := h_run_after;
  run_every := h_run_every;
  cancel_timer id h := settle (cancelled id h) (h_cancel id h);
  clock h := e_clock (h_env h) (h_tick h);
  armed h := armed_timers (h_timers h)
}.

(** ** What the calls leave alone

    Called by the loop thread they queue nothing and run nothing, whatever state the loop
    is in. *)
(** Writing to the eventfd never fails for good. *)
Lemma wakeup_eq l : exists e, wakeup l = Ok (with_wakeup e l).
Proof.
  unfold wakeup. pose proof (counter_range (wakeupFd_ l)).
  destruct (efd_write (wakeupFd_ l)) as [n e] eqn:Ew. exists e.
  destruct (decide (counter (wakeupFd_ l) = two64 - 2)) as [Hf|Hf].
  - destruct (efd_write_full _ Hf) as [H1 _]. rewrite Ew in H1. simpl in H1. by subst n.
  - destruct (efd_write_ok (wakeupFd_ l)) as [H1 _]; [lia|]. rewrite Ew in H1. simpl in H1. by subst n.
Qed.

Lemma queueInLoop_frame l i f :
  exists l', queueInLoop i f l = Ok l' /\ this_ l' = this_ l /\ poller_ l' = poller_ l /\
    timerQueue_ l' = timerQueue_ l /\ threadId_ l' = threadId_ l /\
    pendingFunctors_ l' = pendingFunctors_ l ++ [f].
Proof.
  unfold queueInLoop. set (l1 := with_pending _ l). destruct (_ || _); [|by exists l1].
  destruct (wakeup_eq l1) as [e ->]. by eexists.
Qed.

Definition is_destroy (f : Functor job) : bool := match f with FUser JDestroyed => true | _ => false end.
Definition h_destroy h : bool := existsb is_destroy (pendingFunctors_ (h_loop h)).

Record kept h h' : Prop := {
  kp_posted : h_posted h' = h_posted h;
  kp_closes : h_closes h' = h_closes h;
  kp_listed : h_listed h' = h_listed h;
  kp_pending : pendingFunctors_ (h_loop h') = pendingFunctors_ (h_loop h)
}.

Lemma kept_destroy h h' : kept h h' -> h_destroy h' = h_destroy h.
Proof. intros [_ _ _ H]. unfold h_destroy. by rewrite H. Qed.

Lemma addTimer_kept ef i x when interval h h' id :
  isInLoopThread i (h_loop h) = true -> addTimer ef i (Some (JTimer x)) when interval h = Ok (h', id) -> kept h h'.
Proof.
  intros Hi E1. unfold addTimer in E1. simpl in E1. inv_res. destruct a as [h1 threw]. inv_res.
  unfold runInLoop, isInLoopThread in Hm. simpl in Hm. unfold isInLoopThread in Hi. rewrite Hi in Hm. simpl in Hm.
  inv_res. done.
Qed.

Lemma run_after_kept d t h id h' : h_run_after d t h = Ok (id, h') -> kept h h'.
Proof.
  unfold h_run_after, runAfter. intros E1. destruct (_ || _); [|done]. inv_res. destruct a as [h1 id1]. inv_res.
  destruct (dltb d dzero); [by injection Hm as <- _|].
  apply bind_Ok in Hm as (time & _ & Hm). unfold runAt in Hm. destruct (negb _); [by injection Hm as <- _|].
  apply addTimer_kept in Hm; [by destruct Hm|apply Z.eqb_refl].
Qed.

Lemma run_every_kept d t h id h' : h_run_every d t h = Ok (id, h') -> kept h h'.
Proof.
  unfold h_run_every, runEvery. intros E1. destruct (_ || _); [|done]. inv_res. destruct a as [h1 id1]. inv_res.
  destruct (dleb d dzero); [by injection Hm as <- _|].
  apply bind_Ok in Hm as (time & _ & Hm). apply addTimer_kept in Hm; [by destruct Hm|apply Z.eqb_refl].
Qed.

Lemma kept_refl h : kept h h.
Proof. done. Qed.

Lemma kept_fail x h h' : kept h h' -> kept h (fail x h').
Proof. intros []. by split. Qed.

Lemma cancel_kept_as ef id h h' : EventLoop.cancel ef (h_tid h) id h = Ok h' -> kept h h'.
Proof.
  unfold EventLoop.cancel. intros E1. destruct (negb _); [by injection E1 as <-|]. unfold queue_cancel, runInLoop, isInLoopThread, h_tid in E1.
  simpl in E1. rewrite Z.eqb_refl in E1. inv_res. done.
Qed.

Lemma cancel_kept id h : kept h (cancel_timer id h).
Proof.
  simpl. destruct (h_cancel id h) as [h'|] eqn:E1; [by eapply cancel_kept_as|]. simpl. apply kept_fail. unfold cancelled.
  destruct (EventLoop.cancel _ _ _ _) eqn:E2; [by eapply cancel_kept_as|apply kept_refl].
Qed.

Lemma update_kept e h :
  h_listed (update_channel e h) = negb (h_listed h && (e =? kNoneEvent)) /\
  kept h (with_listed (h_listed h) (update_channel e h)).
Proof.
  simpl. destruct (h_update e h) as [h'|] eqn:E1; [|done]. simpl. unfold h_update, try_loop in E1. inv_res.
  unfold EventLoop.updateChannel, h_tid, isInLoopThread, try_loop in Hm0. simpl in Hm0. inv_res.
  rewrite Z.eqb_refl in Hm0. inv_res. done.
Qed.

Lemma remove_kept h :
  (h_listed h = false -> h_listed (remove_channel h) = false) /\ kept h (with_listed (h_listed h) (remove_channel h)).
Proof.
  simpl. destruct (h_remove h) as [h'|] eqn:E1; [|done]. simpl. unfold h_remove in E1. inv_res.
  unfold EventLoop.removeChannel, h_tid, isInLoopThread, try_loop in Hm. inv_res.
  rewrite Z.eqb_refl in Hm. inv_res. simpl.
  assert (pendingFunctors_ a2 = pendingFunctors_ (h_loop h)) as Hp; [|split; [by intros ->|done]].
  unfold remove_unless_current in Hm2. destruct (currentActiveChannel_ (h_loop h) =? _); inv_res; done.
Qed.

Lemma post_kept t h :
  h_closes (post t h) = h_closes h /\ h_posted (post t h) = h_posted h ++ [t] /\
  h_listed (post t h) = h_listed h /\ h_destroy (post t h) = h_destroy h.
Proof.
  destruct (queueInLoop_frame (h_loop h) (h_tid h) (FUser (JTask t))) as (l & E1 & _ & _ & _ & _ & Hf).
  simpl. unfold h_post. rewrite E1. simpl. split_and!; try done. unfold h_destroy. simpl.
  rewrite Hf, existsb_app. simpl. apply orb_false_r.
Qed.

#[global, program] Instance host_served : ServedLoop (host K E) := {
  closes := h_closes;
  posted := h_posted;
  kernel_lists := h_listed;
  destroy_queued := h_destroy
}.
Solve Obligations with
  (intros; first [ by apply post_kept | by apply update_kept | by apply remove_kept | by apply cancel_kept
                 | by eapply run_after_kept | by eapply run_every_kept
                 | by eapply kept_destroy, run_after_kept | by eapply kept_destroy, run_every_kept
                 | by eapply kept_destroy, cancel_kept
                 | by apply (kept_destroy _ _ (proj2 (update_kept _ _)))
                 | by apply (kept_destroy _ _ (proj2 (remove_kept _))) ]).

(** ** Armed timers *)
Lemma lookup_armed (q : TimerQueue job) k :
  armed_timers q !! k = if decide (k ∈ activeTimers_ q) then heap q !! k.1 ≫= timer_of else None.
Proof.
  unfold armed_timers. rewrite map_lookup_imap, lookup_gset_to_gmap.
  case_decide; [by rewrite option_guard_True|by rewrite option_guard_False].
Qed.

Lemma armed_spec loose (q : TimerQueue job) k x :
  queue_ok loose q ->
  armed_timers q !! k = Some x <->
  (k.1 ∉ loose) /\ exists t, heap q !! k.1 = Some t /\ sequence_ t = k.2 /\ timer_of t = Some x.
Proof.
  intros Hok. destruct k as [p s]. rewrite lookup_armed. simpl.
  pose proof (queue_ok_active _ _ p s Hok) as Ha. case_decide as Hin.
  - apply Ha in Hin as (Hl & t & Ht & Hs). rewrite Ht. simpl. split.
    + intros Hx. split; [done|]. by exists t.
    + intros (_ & t' & Ht' & _ & Hx). congruence.
  - split; [done|]. intros (Hl & t & Ht & Hs & _). destruct Hin. apply Ha. eauto.
Qed.

Lemma armed_same loose (q q' : TimerQueue job) :
  queue_ok loose q -> queue_ok loose q' -> heap q' = heap q -> armed_timers q' = armed_timers q.
Proof.
  intros Hok Hok' Hh. apply map_eq. intros k. apply option_eq. intros x.
  by rewrite (armed_spec loose q' k x Hok'), (armed_spec loose q k x Hok), Hh.
Qed.

Lemma armed_add loose (q q' : TimerQueue job) p t x :
  queue_ok loose q -> queue_ok loose q' -> heap q !! p = None -> heap q' = <[p := t]> (heap q) ->
  timer_of t = Some x ->
  armed_timers q !! (p, sequence_ t) = None /\ armed_timers q' = <[(p, sequence_ t) := x]> (armed_timers q).
Proof.
  intros Hok Hok' Hp Hh Hx.
  assert (p ∉ loose) as Hl.
  { intros Hin. assert (is_Some (heap q !! p)) as [? ?] by (apply (ok_dom _ _ Hok); auto). congruence. }
  assert (forall s, armed_timers q !! (p, s) = None) as Hn.
  { intros s. rewrite lookup_armed. simpl. rewrite Hp. by case_decide. }
  split; [done|]. apply map_eq. intros [p' s']. apply option_eq. intros y.
  rewrite (armed_spec loose q' _ y Hok'), lookup_insert, Hh. simpl. rewrite lookup_insert.
  destruct (decide (p = p')) as [<-|Hne].
  - destruct (decide ((p, sequence_ t) = (p, s'))) as [[= <-]|Hs].
    + split; [intros (_ & t' & [= <-] & _ & Ey); congruence|intros [= <-]; split; [done|by exists t]].
    + rewrite Hn. split; [|done]. intros (_ & t' & [= <-] & Es & _). congruence.
  - rewrite decide_False by congruence. by rewrite (armed_spec loose q _ y Hok).
Qed.

Lemma armed_del loose (q q' : TimerQueue job) k :
  queue_ok loose q -> queue_ok loose q' ->
  heap q' = (if decide (k ∈ activeTimers_ q) then delete k.1 (heap q) else heap q) ->
  armed_timers q' = delete k (armed_timers q).
Proof.
  intros Hok Hok' Hh. case_decide as Hin.
  - destruct k as [p s]. apply (queue_ok_active _ _ _ _ Hok) in Hin as (Hl & t & Ht & Hs). simpl in *.
    apply map_eq. intros [p' s']. apply option_eq. intros y.
    rewrite (armed_spec loose q' _ y Hok'), lookup_delete, Hh. simpl. rewrite lookup_delete.
    destruct (decide (p = p')) as [<-|Hne].
    + split; [by intros (_ & t' & ? & _)|]. case_decide as E1; [done|].
      intros (_ & t' & Ht' & Hs' & _)%(armed_spec loose q _ y Hok). simpl in *. congruence.
    + rewrite decide_False by congruence. by rewrite (armed_spec loose q _ y Hok).
  - rewrite (armed_same loose q q' Hok Hok' Hh), delete_id; [done|]. by rewrite lookup_armed, decide_False.
Qed.

(** ** Consistency

    The loop belongs to thread [tid]; poller and timers satisfy their invariants; the
    connection's channel is an object of the poller whose descriptor nobody else uses; it
    runs the handlers of the connection, other channels are the loop's own, the one of the
    timer queue at its address; only functors of the connection and cancelled
    timers are pending, and timers run nothing else.  In a round of polling the objects that were reported exist, and the
    connection's channel holds the events reported for it; the functors [r_keep] are still
    first in the queue. *)
Context (tid : Z) (st : site K) (live : round).

Definition own_channel (c : Channel (Callback job)) : Prop :=
  ReadCallback c = Some (CbUser (JEvent CbRead)) /\ WriteCallback c = Some (CbUser (JEvent CbWrite)) /\
  CloseCallback c = Some (CbUser (JEvent CbClose)) /\ ErrorCallback c = Some (CbUser (JEvent CbError)).
Definition loop_channel (q : Z) (c : Channel (Callback job)) : Prop :=
  (ReadCallback c = Some CbWakeup \/ ReadCallback c = Some CbTimer /\ q = s_timer st) /\
  WriteCallback c = None /\ CloseCallback c = None /\ ErrorCallback c = None.
Definition channel_ok (p q : Z) (c : Channel (Callback job)) : Prop :=
  if decide (q = p) then own_channel c else loop_channel q c.

Record core_ok (loose : gset Z) (p : Z) l : Prop := {
  co_thread : threadId_ l = tid;
  co_live q : q ∈ r_live live -> is_Some (objects (poller_ l) !! q);
  co_channels q c : objects (poller_ l) !! q = Some c -> channel_ok p q c;
  co_poller : poller_ok (poller_ l);
  co_channel : exists c, objects (poller_ l) !! p = Some c /\ Loop c = this_ l /\
    accepts (epollFd_ (poller_ l)) (Fd c) = true /\ (Index c = kNew -> channels_ (poller_ l) !! Fd c = None) /\
    (Index c = kDeleted -> Events c = kNoneEvent) /\ Revents c = r_revents live;
  co_timers : queue_ok loose (timerQueue_ l);
  co_callbacks : callbacks_ok timer_job (heap (timerQueue_ l));
  co_pending : Forall pending_ok (pendingFunctors_ l);
  co_keep : r_keep live `prefix_of` pendingFunctors_ l
}.

(** The only fault a call has met is the read of the freed node. *)
Definition fault_ok h : Prop := h_fault h = None \/ h_fault h = Some FreedNode.

(** [h_listed] is right. *)
Definition listed_ok h : Prop :=
  forall c, objects (h_poller h) !! h_channel h = Some c -> h_listed h = (Index c =? kAdded).

Definition at_site h : Prop :=
  env_ok (s_env st) /\ h_env h = s_env st /\ h_channel h = s_channel st /\ fault_ok h.

Definition host_ok (loose : gset Z) h : Prop :=
  (at_site h /\ listed_ok h) /\ core_ok loose (h_channel h) (h_loop h).

Lemma site_env h : at_site h -> env_ok (h_env h).
Proof. by intros (H & -> & _). Qed.

(** The mask the channel object holds. *)
Definition h_mask h : Z :=
  match objects (h_poller h) !! h_channel h with Some c => Events c | None => kNoneEvent end.

Lemma core_same loose p l l' :
  core_ok loose p l -> threadId_ l' = threadId_ l -> this_ l' = this_ l -> poller_ l' = poller_ l -> timerQueue_ l' = timerQueue_ l ->
  pendingFunctors_ l' = pendingFunctors_ l -> core_ok loose p l'.
Proof. intros [] Hi Ht Hp Hq Hf. split; rewrite ?Hi, ?Ht, ?Hp, ?Hq, ?Hf; done. Qed.

Lemma core_timers loose loose' p l q :
  core_ok loose p l -> queue_ok loose' q -> callbacks_ok timer_job (heap q) -> core_ok loose' p (with_timers q l).
Proof. intros [] Hq Hc. by split. Qed.

Lemma core_pending loose p l fs :
  core_ok loose p l -> Forall pending_ok fs -> r_keep live `prefix_of` fs -> core_ok loose p (with_pending fs l).
Proof. intros [] Hf Hk. by split. Qed.

Lemma queueInLoop_core loose p l l' i f :
  core_ok loose p l -> pending_ok f -> queueInLoop i f l = Ok l' -> core_ok loose p l'.
Proof.
  intros Hc Hf E1. destruct (queueInLoop_frame l i f) as (l2 & E2 & Ht & Hp & Hq & Hi & Hfs).
  rewrite E1 in E2. injection E2 as <-.
  apply (core_same _ _ (with_pending (pendingFunctors_ l ++ [f]) l)); try done.
  apply core_pending; [done|apply Forall_app; split; [apply (co_pending _ _ _ Hc)|by constructor]|].
  apply prefix_app_r, (co_keep _ _ _ Hc).
Qed.

(** *** Channels *)
Definition is_registered h : Prop :=
  exists c, objects (h_poller h) !! h_channel h = Some c /\ Index c <> kNew.

Lemma core_channel loose p l po c c' :
  core_ok loose p l -> objects (poller_ l) !! p = Some c -> poller_ok po ->
  objects po = <[p := c']> (objects (poller_ l)) -> Loop c' = Loop c -> Revents c' = Revents c -> own_channel c' ->
  accepts (epollFd_ po) (Fd c') = true -> (Index c' = kNew -> channels_ po !! Fd c' = None) ->
  (Index c' = kDeleted -> Events c' = kNoneEvent) -> core_ok loose p (with_poller po l).
Proof.
  intros [Ht Hlive Hcbs _ (c0 & Hp0 & Hl & _ & _ & _ & Hrev) H3 H4 H5 H6] Hp Hok Ho Hl' Hr Hcb Ha Hn Hd.
  assert (c0 = c) as -> by congruence. split; simpl; try done; rewrite Ho.
  - intros p' Hin. rewrite lookup_insert. case_decide; [by eexists|]. by apply Hlive.
  - intros p' c1. rewrite lookup_insert. case_decide as E1; [|apply Hcbs]. intros [= <-]. unfold channel_ok.
    by rewrite decide_True.
  - exists c'. rewrite lookup_insert_eq. split_and!; try done; congruence.
Qed.

(** The callbacks of the connection's channel. *)
Lemma core_own loose p l c : core_ok loose p l -> objects (poller_ l) !! p = Some c -> own_channel c.
Proof. intros Hc Hp. pose proof (co_channels _ _ _ Hc p c Hp) as H. unfold channel_ok in H. by rewrite decide_True in H. Qed.

Lemma store_mask_accepts `{!EpollOpen K} e p (s s' : EpollPoller (Callback job) K) c :
  objects s !! p = Some c -> store_mask e p s = Ok s' -> accepts (epollFd_ s) (Fd c) = true ->
  accepts (epollFd_ s') (Fd c) = true.
Proof.
  intros Hp E1 Ha. rewrite (store_mask_eq _ _ _ _ Hp) in E1. set (c1 := with_events c e) in *.
  set (s1 := set_objects _ s) in *. assert (objects s1 !! p = Some c1) as Hp1 by apply lookup_insert_eq.
  destruct (decide (Index c = kNew \/ Index c = kDeleted)) as [Hi|Hi].
  - rewrite (updateChannel_add p s1 c1 Hp1 Hi) in E1. injection E1 as <-. simpl. by apply accepts_keeps.
  - unfold EpollPoller.updateChannel in E1. rewrite (channel_Some _ _ _ Hp1), bind_ret_l in E1.
    destruct (_ || _) eqn:Eb; [rewrite orb_true_iff, !Z.eqb_eq in Eb; done|].
    destruct (isNoneEvent c1); rewrite (update_eq _ p s1 c1 Hp1) in E1.
    + rewrite bind_ret_l, (modify_eq p _ _ c1) in E1 by done. injection E1 as <-. simpl. by apply accepts_keeps.
    + injection E1 as <-. simpl. by apply accepts_keeps.
Qed.

Lemma h_update_core `{!EpollOpen K} loose e h :
  core_ok loose (h_channel h) (h_loop h) -> listed_ok h ->
  exists po, let h' := with_listed (negb (h_listed h && (e =? kNoneEvent))) (put_loop (with_poller po (h_loop h)) h) in
    h_update e h = Ok h' /\ core_ok loose (h_channel h) (with_poller po (h_loop h)) /\
    h_mask h' = e /\ is_registered h' /\ listed_ok h'.
Proof.
  intros Hc Hlo. pose proof Hc as [_ Hlive Hcbs H1 (c & Hp & Hl & Ha & Hn & Hd & Hr) H3 H4 H5 H6].
  destruct (store_mask_ok e (h_channel h) _ c H1 Hp) as (po & Es & Hok & Ho); [by split|].
  pose proof (store_mask_accepts e _ _ po c Hp Es Ha) as Ha'.
  assert (objects po !! h_channel h = Some (masked_to e c)) as Hp' by (rewrite Ho; apply lookup_insert_eq).
  exists po. cbv zeta. split_and!.
  - unfold h_update, try_loop. simpl. rewrite (modify_eq _ _ _ _ Hp). simpl.
    unfold EventLoop.updateChannel, channel_of. simpl.
    rewrite (channel_Some _ _ (with_events c e)) by apply lookup_insert_eq. simpl.
    rewrite Hl, Z.eqb_refl. simpl. unfold h_tid, isInLoopThread. simpl. rewrite Z.eqb_refl.
    unfold try_loop. simpl. rewrite <- (store_mask_eq e _ _ c Hp), Es. done.
  - apply (core_channel _ _ _ _ c (masked_to e c)); try done; [exact (core_own _ _ _ _ Hc Hp)|..]; unfold masked_to; simpl.
    + by destruct (_ && _).
    + destruct (Z.eqb_spec e kNoneEvent); [done|]. by rewrite andb_false_r.
  - unfold h_mask, h_poller. simpl. by rewrite Hp'.
  - exists (masked_to e c). split; [done|]. unfold masked_to. simpl. by destruct (_ && _).
  - intros c1 Hc1. unfold h_poller in Hc1. simpl in Hc1. rewrite Hp' in Hc1. injection Hc1 as <-.
    simpl. rewrite (Hlo c Hp). unfold masked_to. simpl. by destruct (_ && _).
Qed.

(** As long as the channel is registered, the kernel watches for what it asks for. *)
Definition kernel_mask h : Z :=
  match objects (h_poller h) !! h_channel h with
  | Some c => match interest (epollFd_ (h_poller h)) !! Fd c with Some ev => ev_events ev | None => 0 end
  | None => 0
  end.

Lemma kernel_watches loose h :
  core_ok loose (h_channel h) (h_loop h) -> is_registered h -> kernel_mask h = u32 (h_mask h).
Proof.
  intros [_ _ _ Hok (c & Hp & _ & _ & _ & Hd & _) _ _ _ _] (c' & Hp' & Hi). unfold kernel_mask, h_mask, h_poller in *.
  rewrite Hp in *. injection Hp' as <-. rewrite (kernel_at _ _ _ Hok Hp Hi). unfold listed.
  case_decide as Ha; [done|]. destruct (ok_index _ Hok _ _ Hp) as [|[|Hdel]]; try done. by rewrite (Hd Hdel).
Qed.

(** Removing a channel that may already have been removed. *)
Lemma removeChannel_any p (s : EpollPoller (Callback job) K) c :
  poller_ok s -> objects s !! p = Some c -> (Index c = kNew -> channels_ s !! Fd c = None) ->
  exists s', EpollPoller.removeChannel p s = Ok s' /\ poller_ok s' /\
    objects s' = <[p := setIndex c kNew]> (objects s) /\ channels_ s' !! Fd c = None.
Proof.
  intros Hok Hp Hn. destruct (decide (Index c = kNew)) as [Hi|Hi].
  - unfold EpollPoller.removeChannel. rewrite (channel_Some _ _ _ Hp), bind_ret_l, Hi. simpl.
    rewrite (modify_eq p _ _ c) by done. eexists. split; [done|]. simpl.
    split; [|split; [done|apply lookup_delete_eq]].
    apply (poller_ok_same_keys s); simpl; try done; [by apply delete_id, Hn|].
    intros p'. rewrite lookup_insert. case_decide as E1; [|done]. subst p'. rewrite Hp. simpl.
    unfold key. simpl. by rewrite Hi.
  - destruct (removeChannel_ok p s c Hok Hp Hi) as (s' & E1 & Hok' & Ho). exists s'. split_and!; try done.
    destruct (channels_ s' !! Fd c) as [p'|] eqn:Ec; [|done]. exfalso.
    apply (ok_map _ Hok') in Ec as (c' & Hc' & Hf & Hi'). rewrite Ho, lookup_insert in Hc'.
    case_decide as Ep; [by injection Hc' as <-|].
    apply Ep. by apply (registered_unique s p p' c c' Hok Hp Hc').
Qed.

Lemma remove_accepts `{!EpollOpen K} p (s s' : EpollPoller (Callback job) K) c :
  objects s !! p = Some c -> EpollPoller.removeChannel p s = Ok s' -> accepts (epollFd_ s) (Fd c) = true ->
  accepts (epollFd_ s') (Fd c) = true.
Proof.
  intros Hp E1 Ha. unfold EpollPoller.removeChannel in E1. rewrite (channel_Some _ _ _ Hp), bind_ret_l in E1.
  destruct (Index c =? kAdded).
  - rewrite (update_eq _ p _ c) in E1 by done. rewrite bind_ret_l, (modify_eq p _ _ c) in E1 by done.
    injection E1 as <-. simpl. by apply accepts_keeps.
  - rewrite bind_ret_l, (modify_eq p _ _ c) in E1 by done. by injection E1 as <-.
Qed.

Lemma h_remove_core `{!EpollOpen K} loose h :
  core_ok loose (h_channel h) (h_loop h) -> listed_ok h ->
  exists l, let h' := with_listed (h_listed h && (currentActiveChannel_ l =? h_channel h)) (put_loop l h) in
    h_remove h = Ok h' /\ core_ok loose (h_channel h) l /\ timerQueue_ l = h_timers h /\
    h_mask h' = h_mask h /\ listed_ok h'.
Proof.
  intros Hc Hlo. pose proof Hc as [_ Hlive Hcbs H1 (c & Hp & Hl & Ha & Hn & Hd & Hr) H3 H4 H5 H6].
  unfold h_remove, EventLoop.removeChannel, channel_of. simpl. rewrite (channel_Some _ _ _ Hp). simpl.
  rewrite Hl, Z.eqb_refl. simpl. unfold h_tid, isInLoopThread. rewrite Z.eqb_refl.
  unfold try_loop, remove_unless_current. simpl. destruct (currentActiveChannel_ (h_loop h) =? h_channel h) eqn:Ec; simpl.
  - exists (log_error (h_loop h)). split; [simpl; by rewrite Ec|]. split; [by apply (core_same _ _ (h_loop h))|].
    split_and!; try done. intros c1 Hc1. simpl. rewrite Ec, andb_true_r. by apply Hlo.
  - destruct (removeChannel_any _ _ c H1 Hp Hn) as (po & E1 & Hok & Ho & Hm). rewrite E1. simpl.
    pose proof (remove_accepts _ _ po c Hp E1 Ha) as Ha'.
    assert (objects po !! h_channel h = Some (setIndex c kNew)) as Hp' by (rewrite Ho; apply lookup_insert_eq).
    exists (with_poller po (h_loop h)). split; [simpl; by rewrite Ec|]. split; [|split; [done|split]].
    + apply (core_channel _ _ _ _ c (setIndex c kNew)); try done. exact (core_own _ _ _ _ Hc Hp).
    + unfold h_mask, h_poller. simpl. by rewrite Hp', Hp.
    + intros c1 Hc1. unfold h_poller in Hc1. simpl in Hc1. rewrite Hp' in Hc1. injection Hc1 as <-.
      simpl. by rewrite Ec, andb_false_r.
Qed.

(** *** Timers *)
Lemma can_new_spec h :
  can_new h = true ->
  let p := e_new (h_env h) (heap (h_timers h)) in heap (h_timers h) !! p = None /\ 0 < p < UINTPTR_MAX.
Proof.
  unfold can_new. cbv zeta. rewrite !andb_true_iff, bool_decide_eq_true, !Z.ltb_lt. tauto.
Qed.

(** What a successful [addTimer] leaves. *)
Definition added loose (x : timer_task) h h' (id : TimerId) : Prop :=
  host_ok loose h' /\ h_mask h' = h_mask h /\ h_posted h' = h_posted h /\ h_closes h' = h_closes h /\
  isValid id = true /\ armed_timers (h_timers h) !! id_key id = None /\
  armed_timers (h_timers h') = <[id_key id := x]> (armed_timers (h_timers h)).

Lemma addTimer_wp loose x when interval h :
  host_ok loose h -> can_new h = true ->
  wp (addTimer (e_erased (h_env h)) (h_tid h) (Some (JTimer x)) when interval h)
     (fun y => added loose x h y.1 y.2).
Proof.
  intros [He Hc] Hnew. destruct (can_new_spec h Hnew) as [Hp Hpr].
  unfold addTimer. cbn [new_timer host_world]. set (p := e_new _ _) in *.
  set (t := (Timer_new _ _ _ _).1). unfold runInLoop, isInLoopThread, h_tid. simpl. rewrite Z.eqb_refl.
  pose proof (queue_ok_new loose _ p t (co_timers _ _ _ Hc) Hp Hpr) as Hok1.
  assert (p ∉ loose) as Hl.
  { intros Hin. assert (is_Some (heap (h_timers h) !! p)) as [? Hs]
      by (apply (ok_dom _ _ (co_timers _ _ _ Hc)); auto). by rewrite Hp in Hs. }
  eapply (wp_bind _ _ (fun y => wp (t ← deref (timerQueue_ (h_loop y.1)) p; Ok (y.1, mkTimerId p (sequence_ t)))
    (fun y => added loose x h y.1 y.2))); [|by intros [h' threw]].
  assert (forall q, isInLoopThread (threadId_ (h_loop h)) (with_timers q (h_loop h)) = true) as Hthread
    by (intros q; apply Z.eqb_refl).
  rewrite Hthread. eapply wp_bind; [apply (addTimerInLoop_wp ({[p]} ∪ loose) _ p t); [exact Hok1|set_solver|apply lookup_insert_eq|apply (eo_settime _ (site_env _ (proj1 He)))]|].
  intros q [Hokq Hh]. rewrite gset_pop in Hokq by done. simpl in Hh |- *.
  rewrite (deref_Some q p t) by (rewrite Hh; apply lookup_insert_eq). simpl.
  destruct (armed_add loose (h_timers h) q p t x (co_timers _ _ _ Hc) Hokq Hp Hh eq_refl) as [Ha1 Ha2].
  split; [split; [done|]|split_and!; try done].
  - simpl. apply (core_same _ _ (with_timers q (h_loop h))); try done. apply (core_timers loose); try done.
    rewrite Hh. apply callbacks_insert; [apply (co_callbacks _ _ _ Hc)|]. by intros cb [= <-].
  - unfold isValid. simpl. destruct (Z.eqb_spec p nullptr); [unfold nullptr in *; lia|done].
Qed.

Lemma addTime_valid (now : Timestamp) d t :
  valid now = true -> dltb d dzero = false -> addTime now d = Ok t -> valid t = true.
Proof.
  unfold valid. rewrite !Z.ltb_lt. intros Hn Hd E1.
  destruct (dltb dzero d) eqn:Hp; [pose proof (addTime_later now d t Hp E1); lia|].
  unfold addTime in E1. inv_res. apply int64_Ok in E1 as [-> _].
  destruct d as [s|[]| |[] m e]; try done; unfold dmul in Hm; simpl in Hm; try done.
  injection Hm as <-. lia.
Qed.

(** What a call for a timer leaves, whether the loop accepts the delay or not. *)
Definition timed loose (accepted : bool) (x : timer_task) h (y : TimerId * host K E) : Prop :=
  host_ok loose y.2 /\ h_mask y.2 = h_mask h /\ h_posted y.2 = h_posted h /\ h_closes y.2 = h_closes h /\
  (accepted = true -> isValid y.1 = true /\ armed_timers (h_timers h) !! id_key y.1 = None /\
     armed_timers (h_timers y.2) = <[id_key y.1 := x]> (armed_timers (h_timers h))).

Lemma host_logged loose h : host_ok loose h -> host_ok loose (put_loop (log_error (h_loop h)) h).
Proof. intros [He Hc]. split; [done|]. by apply (core_same _ _ (h_loop h)). Qed.

Lemma h_run_after_wp loose d x h :
  host_ok loose h -> wp (h_run_after d x h) (timed loose (negb (dltb d dzero)) x h).
Proof.
  intros Hok. unfold h_run_after, runAfter. destruct (dltb d dzero) eqn:Hd; simpl.
  { split; [by apply host_logged|done]. }
  destruct (can_new h) eqn:Hnew; [|done]. simpl.
  pose proof (addTime_wp (e_clock (h_env h) (h_tick h)) d) as Ht.
  destruct (addTime (e_clock (h_env h) (h_tick h)) d) as [time|err] eqn:Ea; [|done]. rewrite bind_ret_l.
  unfold runAt. rewrite (addTime_valid _ d time (eo_clock _ (site_env _ (proj1 (proj1 Hok))) _) Hd Ea). cbn [negb].
  eapply wp_bind; [exact (addTimer_wp loose x time dzero (tick h) Hok Hnew)|].
  intros [h' id] (H1 & H2 & H3 & H4 & H5). by split_and!.
Qed.

Lemma h_run_every_wp loose d x h :
  host_ok loose h -> wp (h_run_every d x h) (timed loose (negb (dleb d dzero)) x h).
Proof.
  intros Hok. unfold h_run_every, runEvery. destruct (dleb d dzero) eqn:Hd; simpl.
  { split; [by apply host_logged|done]. }
  destruct (can_new h) eqn:Hnew; [|done]. simpl.
  pose proof (addTime_wp (e_clock (h_env h) (h_tick h)) d) as Ht.
  destruct (addTime (e_clock (h_env h) (h_tick h)) d) as [time|err] eqn:Ea; [|done]. rewrite bind_ret_l.
  eapply wp_bind; [exact (addTimer_wp loose x time d (tick h) Hok Hnew)|].
  intros [h' id] (H1 & H2 & H3 & H4 & H5). by split_and!.
Qed.

Lemma h_cancel_core loose id h :
  host_ok loose h ->
  (h_cancel id h = Ok (cancelled id h) \/ id_key id ∈ activeTimers_ (h_timers h) /\ h_cancel id h = Fault FreedNode) /\
  host_ok loose (cancelled id h) /\ h_mask (cancelled id h) = h_mask h /\
    (isValid id = true -> armed_timers (h_timers (cancelled id h)) = delete (id_key id) (armed_timers (h_timers h))).
Proof.
  intros [He Hc]. unfold cancelled, h_cancel, EventLoop.cancel. destruct (isValid id); simpl.
  2:{ split; [by left|]. split; [by apply host_logged|done]. }
  unfold queue_cancel, runInLoop, isInLoopThread, h_tid. simpl. rewrite Z.eqb_refl. simpl.
  unfold isInLoopThread. rewrite Z.eqb_refl.
  destruct (cancelInLoop_cases loose (h_timers h) (e_erased (h_env h)) id (co_timers _ _ _ Hc))
    as (q & Eq & Eid & Hokq & Hh). unfold h_timers in Eq, Eid. rewrite Eid. simpl.
  split; [destruct Eq as [->|[Ha ->]]; [by left|by right]|].
  split; [split; [done|]|split_and!; try done].
  - apply (core_timers loose); try done. rewrite Hh.
    case_decide; [apply callbacks_delete|]; apply (co_callbacks _ _ _ Hc).
  - intros _. apply (armed_del loose); [apply (co_timers _ _ _ Hc)|done|exact Hh].
Qed.

(** ** The interface *)
Section interface.
Context `{!EpollOpen K} (loose : gset Z).

Lemma post_eq t h : exists l, queueInLoop (h_tid h) (FUser (JTask t)) (h_loop h) = Ok l /\
  post t h = with_posted (h_posted h ++ [t]) (put_loop l h) /\ poller_ l = h_poller h /\ timerQueue_ l = h_timers h.
Proof.
  destruct (queueInLoop_frame (h_loop h) (h_tid h) (FUser (JTask t))) as (l & E1 & _ & Hp & Hq & _).
  exists l. split; [done|]. simpl. unfold h_post. rewrite E1. done.
Qed.

Lemma update_eq' e h :
  host_ok loose h -> h_update e h = Ok (update_channel e h) /\ host_ok loose (update_channel e h) /\
    h_mask (update_channel e h) = e /\ is_registered (update_channel e h) /\ h_timers (update_channel e h) = h_timers h /\
    h_posted (update_channel e h) = h_posted h /\ h_closes (update_channel e h) = h_closes h.
Proof.
  intros [[He Hlo] Hc]. destruct (h_update_core loose e h Hc Hlo) as (po & E1 & Hc' & Hm & Hr & Hlo'). simpl.
  rewrite E1. simpl. by split_and!.
Qed.

Lemma remove_eq h :
  host_ok loose h -> h_remove h = Ok (remove_channel h) /\ host_ok loose (remove_channel h) /\
    h_mask (remove_channel h) = h_mask h /\ h_timers (remove_channel h) = h_timers h /\
    h_posted (remove_channel h) = h_posted h /\ h_closes (remove_channel h) = h_closes h.
Proof.
  intros [[He Hlo] Hc]. destruct (h_remove_core loose h Hc Hlo) as (l & E1 & Hc' & Ht & Hm & Hlo'). simpl.
  rewrite E1. simpl. by split_and!.
Qed.

Lemma host_fail h : host_ok loose h -> host_ok loose (fail FreedNode h).
Proof.
  intros [[(H1 & H2 & H3 & H4) H5] H6]. split; [|done]. split; [|done]. split_and!; try done.
  unfold fault_ok. simpl. destruct H4 as [->| ->]; by right.
Qed.

Lemma cancel_eq id h :
  host_ok loose h -> host_ok loose (cancel_timer id h) /\ h_mask (cancel_timer id h) = h_mask h /\
    (isValid id = true -> armed (cancel_timer id h) = delete (id_key id) (armed h)) /\
    (h_cancel id h = Ok (cancel_timer id h) \/ id_key id ∈ activeTimers_ (h_timers h) /\ h_cancel id h = Fault FreedNode).
Proof.
  intros Hok. destruct (h_cancel_core loose id h Hok) as (Hr & Hok' & Hm & Ha). simpl. destruct Hr as [E1|[Hk E1]]; rewrite E1; simpl.
  - split_and!; try done. by left.
  - split_and!; try done; [by apply host_fail|by right].
Qed.

#[program] Definition host_timers : ConnTimers (host K E) := {| loop_ok := host_ok loose |}.
Next Obligation.
  intros t h [[He Hlo] Hc] Ht. destruct (post_eq t h) as (l & E1 & E2 & Hp & _). rewrite E2.
  split; [split; [done|]|].
  { intros c. unfold h_poller. simpl. rewrite Hp. apply Hlo. }
  by apply (queueInLoop_core loose _ _ l (h_tid h) (FUser (JTask t)) Hc Ht E1).
Qed.
Next Obligation. intros e h Hok. by apply update_eq'. Qed.
Next Obligation. intros h Hok. by apply remove_eq. Qed.
Next Obligation. intros d t h id h' Hok E1. by apply (wp_Ok _ _ _ (h_run_after_wp loose d t h Hok) E1). Qed.
Next Obligation. intros d t h id h' Hok E1. by apply (wp_Ok _ _ _ (h_run_every_wp loose d t h Hok) E1). Qed.
Next Obligation. intros id h Hok. by apply cancel_eq. Qed.
Next Obligation.
  intros t h _. destruct (post_eq t h) as (l & _ & E2 & _ & Hq). rewrite E2. simpl. unfold h_timers at 1. simpl. by rewrite Hq.
Qed.
Next Obligation.
  intros e h Hok. destruct (update_eq' e h Hok) as (_ & _ & _ & _ & H & _).
  change (armed_timers (h_timers (update_channel e h)) = armed_timers (h_timers h)). by rewrite H.
Qed.
Next Obligation.
  intros h Hok. destruct (remove_eq h Hok) as (_ & _ & _ & H & _).
  change (armed_timers (h_timers (remove_channel h)) = armed_timers (h_timers h)). by rewrite H.
Qed.
Next Obligation.
  intros d t h id h' Hok Hd E1. apply (wp_Ok _ _ _ (h_run_after_wp loose d t h Hok) E1). by rewrite Hd.
Qed.
Next Obligation.
  intros d t h id h' Hok Hd E1. apply (wp_Ok _ _ _ (h_run_every_wp loose d t h Hok) E1). by rewrite Hd.
Qed.
Next Obligation. intros id h Hok. by apply cancel_eq. Qed.

#[local] Existing Instance host_timers.

#[program] Definition host_hosts : ConnHost (host K E) := {| watched := h_mask |}.
Next Obligation.
  intros t h _. destruct (post_eq t h) as (l & _ & E2 & Hp & _). rewrite E2. unfold h_mask, h_poller. simpl. by rewrite Hp.
Qed.
Next Obligation. intros e h Hok. by apply update_eq'. Qed.
Next Obligation. intros h Hok. by apply remove_eq. Qed.
Next Obligation. intros d t h id h' Hok E1. by apply (wp_Ok _ _ _ (h_run_after_wp loose d t h Hok) E1). Qed.
Next Obligation. intros d t h id h' Hok E1. by apply (wp_Ok _ _ _ (h_run_every_wp loose d t h Hok) E1). Qed.
Next Obligation. intros id h Hok. by apply cancel_eq. Qed.
Next Obligation. intros d t h Hok. eapply wp_mono; [by apply (h_run_after_wp loose)|done]. Qed.
Next Obligation. intros d t h Hok. eapply wp_mono; [by apply (h_run_every_wp loose)|done]. Qed.
End interface.
End host.

(** ** Properties *)

(** C12: the event loop keeps the promises a connection relies on.  In a consistent state
    and called by the loop thread: [queueInLoop] appends the functor; storing a mask and
    [updateChannel] leaves the kernel watching the descriptor for exactly that mask;
    [removeChannel] returns; [cancel] returns and disarms the timer of that id and no
    other, or the timer is armed and the run ends at the read of the freed node;
    [runAfter] and [runEvery] with a delay the loop accepts arm a timer under a fresh id,
    unless memory or the time type is exhausted.  None of them fails an assertion or uses
    a dangling pointer, and the loop stays consistent. *)
Theorem event_loop_implements {K E : Type} `{!Epoll K, !EpollOpen K} `{!EventFd E} (tid : Z) (st : site K) (live : round)
    (loose : gset Z) (h : host K E) :
  host_ok tid st live loose h ->
  (forall t, task_ok t ->
     queueInLoop tid (FUser (JTask t)) (h_loop h) = Ok (h_loop (post t h)) /\
     pendingFunctors_ (h_loop (post t h)) = pendingFunctors_ (h_loop h) ++ [FUser (JTask t)] /\
     host_ok tid st live loose (post t h)) /\
  (forall e, h_update e h = Ok (update_channel e h) /\ host_ok tid st live loose (update_channel e h) /\
     kernel_mask (update_channel e h) = u32 e) /\
  h_remove h = Ok (remove_channel h) /\ host_ok tid st live loose (remove_channel h) /\
  (forall id,
     h_cancel id h = Ok (cancel_timer id h) /\ host_ok tid st live loose (cancel_timer id h) /\
       (isValid id = true -> armed (cancel_timer id h) = delete (id_key id) (armed h)) \/
     id_key id ∈ activeTimers_ (h_timers h) /\ h_cancel id h = Fault FreedNode) /\
  (forall d x, dltb d dzero = false -> wp (run_after d x h) (fun y => host_ok tid st live loose y.2 /\
     isValid y.1 = true /\ armed h !! id_key y.1 = None /\ armed y.2 = <[id_key y.1 := x]> (armed h))) /\
  (forall d x, dleb d dzero = false -> wp (run_every d x h) (fun y => host_ok tid st live loose y.2 /\
     isValid y.1 = true /\ armed h !! id_key y.1 = None /\ armed y.2 = <[id_key y.1 := x]> (armed h))).
Proof.
  intros Hok. pose proof (co_thread _ _ _ _ _ _ (proj2 Hok)) as Htid. split_and!.
  - intros t Ht. destruct (queueInLoop_frame (h_loop h) tid (FUser (JTask t))) as (l & E1 & _ & _ & _ & _ & Hf).
    destruct (post_eq t h) as (l' & E2 & E3 & _). unfold h_tid in E2. rewrite Htid, E1 in E2. injection E2 as <-.
    rewrite E3. split_and!; try done. rewrite <- E3. by apply (ok_post (ConnTimers := host_timers tid st live loose)).
  - intros e. destruct (update_eq' tid st live loose e h Hok) as (E1 & Hok' & Hm & Hr & _). split_and!; try done.
    rewrite <- Hm at 2. by apply (kernel_watches tid st live loose); [apply Hok'|].
  - by apply (remove_eq tid st live loose).
  - by apply (remove_eq tid st live loose).
  - intros id. destruct (cancel_eq tid st live loose id h Hok) as (H1 & _ & H2 & [H3|H3]); [by left|by right].
  - intros d x Hd. eapply wp_mono; [by apply (h_run_after_wp tid st live loose)|]. intros y (H1 & _ & _ & _ & H5).
    split; [done|]. apply H5. by rewrite Hd.
  - intros d x Hd. eapply wp_mono; [by apply (h_run_every_wp tid st live loose)|]. intros y (H1 & _ & _ & _ & H5).
    split; [done|]. apply H5. by rewrite Hd.
Qed.

(** A loop with one channel, 13 on descriptor 7, and an armed timer. *)
Definition demo_answers : environment simple_epoll :=
  mkEnvironment (fun n => 1000 + Z.of_nat n) (fun _ => None) (fun m => 1 + map_fold (fun k _ x => Z.max k x) 1000 m)
    (fun p => p) (fun _ => mkReadEnv 1000 (8, 0) 1000 None) (fun _ _ => Done []) (fun _ _ => Done [])
    (fun _ len => Done (Z.max 0 len)) (fun _ => 0).
Definition demo_host : host simple_epoll Z :=
  mkHost (mkEventLoop 1 true false false 100 0 (set_objects {[13 := conn_object 1 7 50]} EpollPoller_new) 0 11 12 [] 0 []
            TimerQueue_new None 0) 13 demo_answers 0 0 [] 0 false None.

Lemma demo_host_ok : host_ok 100 (mkSite 12 13 demo_answers) (mkRound ∅ 0 []) ∅ demo_host.
Proof.
  assert (poller_ok (F := Callback job) (K := simple_epoll) (set_objects {[13 := conn_object 1 7 50]} EpollPoller_new)) as Hok
    by (apply (poller_ok_new EpollPoller_new 13); [apply EpollPoller_new_ok|done|done]).
  split; [split|].
  - split; [|split_and!; try done; by left]. split; simpl; try done.
    + intros n. unfold valid. apply Z.ltb_lt. lia.
    + intros n. split; [by left|done].
    + intros n k evs [= <-]. split; [done|]. exists []. split; constructor.
    + intros n b. pose proof (u64_bound (zlen (buffer_ b) - writerIndex_ b)).
      unfold writableBytes, size_sub, extrabuf_size, zlen in *. simpl. lia.
    + intros n len Hl. lia.
  - intros c Hc. cbn in Hc. by apply lookup_singleton_Some in Hc as [_ <-].
  - split; try done.
    + intros p c Hp. cbn in Hp. by apply lookup_singleton_Some in Hp as [<- <-].
    + by exists (conn_object 1 7 50).
    + apply TimerQueue_new_ok.
Qed.

Lemma event_loop_implements_witness :
  kernel_mask (update_channel kReadEvent demo_host) = 3 /\
  pendingFunctors_ (h_loop (post TShutdownInLoop demo_host)) = [FUser (JTask TShutdownInLoop)] /\
  (armed <$> (snd <$> run_after (double_of_int 1) OnIdleTimeout demo_host)) = Ok {[(1001, 0) := OnIdleTimeout]}.
Proof.
  destruct (event_loop_implements 100 (mkSite 12 13 demo_answers) (mkRound ∅ 0 []) ∅ demo_host demo_host_ok) as (H1 & H2 & _).
  split; [destruct (H2 kReadEvent) as (_ & _ & H); exact H|].
  split; [destruct (H1 TShutdownInLoop I) as (_ & H & _); exact H|]. vm_compute. reflexivity.
Defined.
