(* ===== verification/Reactor.v ===== *)
(** * Reactor: an event loop that serves a connection

    [LoopHost.v] puts a connection on the interface of its loop; this file closes the
    circle.  The loop of [src/base/Eventloop.cpp] polls, dispatches what was reported to
    the handlers of [src/base/TcpConnection.cpp] through [src/base/Channel.cpp], lets
    [src/base/TimerQueue.cpp] fire the connection's timers and runs the functors it has
    queued; each of these calls back into the loop.  Nothing in between is assumed: the
    poller, the timer queue, the loop and the connection are the definitions of their
    files. *)
From Stdlib Require Import Strings.Byte.
From S2P Require Import Prelude Buffer Timestamp StdSet TimerQueue TimerSafe Channel EpollPoller EventLoop LoopRun.
From S2P Require Import TcpConnection TcpSpec ServedConn HostedConn LoopHost.

(** ** The world of the loop *)
Section world.
Context {K E : Type} `{!Epoll K} `{!EventFd E}.
Context (user : user_call -> TcpConnection (host K E) -> res (TcpConnection (host K E))).
Implicit Types (c : TcpConnection (host K E)) (h : host K E).

Definition on_host (f : host K E -> host K E) c : TcpConnection (host K E) := set_loop (f (loop c)) c.

(** A fault that a call of the loop has met ends the run. *)
Definition raise c : res (TcpConnection (host K E)) :=
  match h_fault (loop c) with None => Ok c | Some e => Fault e end.

Lemma raise_Ok c c' : raise c = Ok c' -> c = c'.
Proof. unfold raise. destruct (h_fault _); congruence. Qed.

(** A function of the connection that the loop calls: a functor, a timer, an event of the
    channel, [connectDestroyed].  System calls are answered by the script. *)
Definition job_body (j : job) (t : option Timestamp) c : res (TcpConnection (host K E)) :=
  let e := h_env (loop c) in
  let n := h_tick (loop c) in
  let c := on_host tick c in
  match j with
  | JTask x => run_task user x (e_write e n (match x with TSendInLoop m => zlen m | _ => 0 end)) c
  | JTimer x => onTimer user x (e_write e n (zlen HEARTBEAT)) c
  | JEvent x => run_cb user (e_readv e n (inputBuffer_ c)) (e_write e n) (e_stale e n) (x, t) c
  | JDestroyed => connectDestroyed user c
  end.

Definition run_job (j : job) (t : option Timestamp) c : res (TcpConnection (host K E)) :=
  c ← job_body j t c; raise c.

(** The connection stays allocated while the loop runs here: [lock] succeeds.  When its
    last owner lets go of it, and that it is not used afterwards, is in
    [ReactorThreads.v]. *)
#[local] Instance reactor_world : LoopWorld job K E (TcpConnection (host K E)) := {
  loop_ c := h_loop (loop c);
  EventLoop.set_loop l c := on_host (put_loop l) c;
  loop_set c l := eq_refl;
  run_user j t c := c ← run_job j t c; Ok (c, false);
  lock_object _ c := Some c;
  unlock_object _ c := Ok c;
  read_clock c := let '(x, h) := read_clock (loop c) in (x, set_loop h c);
  settime c := let '(x, h) := settime (loop c) in (x, set_loop h c);
  new_timer c := let '(x, h) := new_timer (loop c) in (x, set_loop h c);
  timer_env c := let '(x, h) := timer_env (loop c) in (x, set_loop h c);
  wait c := let '(x, h) := wait (loop c) in (x, set_loop h c);
  clock_loop c := eq_refl;
  settime_loop c := eq_refl;
  new_timer_loop c := eq_refl;
  timer_env_loop c := eq_refl;
  wait_loop c := eq_refl
}.

(** A thread creates its loop and accepts a connection: [p] is the address of the
    connection's channel, [fd] its socket, [owner] the connection. *)
Definition start (env : new_env) (p fd owner : Z) (e : environment K) : res (TcpConnection (host K E)) :=
  l ← EventLoop_new false nullptr env;
  let po := poller_ l in
  let l := with_poller (set_objects (<[p := conn_object (this_ l) fd owner]> (objects po)) po) l in
  let h := mkHost l p e 0 0 [] 0 false None in
  c ← TcpConnection_new (clock h) (tick h);
  c ← connectEstablished user c;
  raise c.

(** [n] turns of the loop. *)
Definition reactor_turn c : res (TcpConnection (host K E)) :=
  iteration (e_erased (h_env (loop c))) (h_tid (loop c)) c.
Fixpoint turns (n : nat) c : res (TcpConnection (host K E)) :=
  match n with O => Ok c | S n => c ← reactor_turn c; turns n c end.
End world.

(** ** Safety of one turn *)
Section safety.
Context {K E : Type} `{!Epoll K, !EpollOpen K} `{!EventFd E} (tid : Z) (st : site K).
Context (user : user_call -> TcpConnection (host K E) -> res (TcpConnection (host K E))).
Implicit Types (c : TcpConnection (host K E)) (h : host K E) (l : EventLoop job K E) (live : round) (loose : gset Z).
#[local] Instance the_world : LoopWorld job K E (TcpConnection (host K E)) := reactor_world user.

(** Loop and connection agree; [hosted] for this loop. *)
Definition safe live loose c : Prop :=
  conn_inv c /\ host_ok tid st live loose (loop c) /\ events c = h_mask (loop c).

(** User code that keeps it so. *)
Class ReactorUser : Prop :=
  reactor_user live loose : HostUser (ConnTimers0 := host_timers tid st live loose) (ConnHost0 := host_hosts tid st live loose) user.

Lemma safe_env live loose c : safe live loose c -> env_ok (h_env (loop c)).
Proof. intros (_ & [[H _] _] & _). by eapply site_env. Qed.
Lemma safe_core live loose c : safe live loose c -> core_ok tid st live loose (h_channel (loop c)) (h_loop (loop c)).
Proof. intros (_ & [_ H] & _). exact H. Qed.
Lemma safe_in_loop live loose c : safe live loose c -> isInLoopThread tid (h_loop (loop c)) = true.
Proof. intros H. apply Z.eqb_eq, (co_thread _ _ _ _ _ _ (safe_core _ _ _ H)). Qed.

Lemma safe_tick live loose c : safe live loose c -> safe live loose (on_host tick c).
Proof. intros (H1 & H2 & H3). split; [by apply conn_inv_loop|]. by split. Qed.

(** Another state of the loop. *)
Lemma safe_put live live' loose loose' c l :
  safe live loose c -> core_ok tid st live' loose' (h_channel (loop c)) l ->
  (key <$> objects (poller_ l) !! h_channel (loop c)) = (key <$> objects (h_poller (loop c)) !! h_channel (loop c)) ->
  safe live' loose' (on_host (put_loop l) c).
Proof.
  intros (H1 & [[He Hlo] Hc0] & H3) Hc Hm. destruct (co_channel _ _ _ _ _ _ Hc0) as (ch & Hp & _).
  unfold h_poller in *. rewrite Hp in Hm. destruct (objects (poller_ l) !! h_channel (loop c)) as [ch'|] eqn:Hp'; [|done].
  simpl in Hm. assert (Events ch' = Events ch /\ Index ch' = Index ch) as [Ee Ei] by (unfold key in Hm; split; congruence).
  split; [by apply conn_inv_loop|]. split; [split; [split; [done|]|done]|].
  - intros ch1. unfold h_poller. simpl. rewrite Hp'. intros [= <-]. rewrite Ei. by apply Hlo.
  - simpl. rewrite H3. unfold h_mask, h_poller. simpl. by rewrite Hp, Hp'.
Qed.

Lemma safe_pending live loose c : safe live loose c -> Forall pending_ok (pendingFunctors_ (h_loop (loop c))).
Proof. intros H. apply (co_pending _ _ _ _ _ _ (safe_core _ _ _ H)). Qed.

(** Another queue of functors. *)
Lemma safe_queue live fs loose c l :
  safe live loose c -> threadId_ l = threadId_ (h_loop (loop c)) -> this_ l = this_ (h_loop (loop c)) ->
  poller_ l = poller_ (h_loop (loop c)) -> timerQueue_ l = timerQueue_ (h_loop (loop c)) ->
  Forall pending_ok (pendingFunctors_ l) -> fs `prefix_of` pendingFunctors_ l ->
  safe (keeping fs live) loose (on_host (put_loop l) c).
Proof.
  intros H H1 H2 H3 H4 H5 H6. pose proof (safe_core _ _ _ H) as [].
  apply (safe_put live _ loose _ _ _ H).
  - split; rewrite ?H1, ?H2, ?H3, ?H4; done.
  - unfold h_poller. by rewrite H3.
Qed.

Lemma safe_same live loose c l :
  safe live loose c -> threadId_ l = threadId_ (h_loop (loop c)) -> this_ l = this_ (h_loop (loop c)) ->
  poller_ l = poller_ (h_loop (loop c)) -> timerQueue_ l = timerQueue_ (h_loop (loop c)) ->
  pendingFunctors_ l = pendingFunctors_ (h_loop (loop c)) -> safe live loose (on_host (put_loop l) c).
Proof.
  intros H H1 H2 H3 H4 H5. destruct live as [lv rv ks].
  apply (safe_queue _ ks _ _ _ H); try done; rewrite H5; [by eapply safe_pending|].
  apply (co_keep _ _ _ _ _ _ (safe_core _ _ _ H)).
Qed.

Context {Huser : ReactorUser}.

(** *** What the loop calls *)
Section stage.
Context (live : round) (loose : gset Z).
#[local] Instance stage_timers : ConnTimers (host K E) := host_timers tid st live loose.
#[local] Instance stage_hosts : ConnHost (host K E) := host_hosts tid st live loose.
#[local] Instance stage_user : HostUser user := reactor_user live loose.

Lemma wp_safe r : wp r hosted -> wp r (safe live loose).
Proof. by destruct r. Qed.

(** The only fault is the read of the freed node. *)
Lemma raise_safe c : safe live loose c -> wp (raise c) (safe live loose).
Proof.
  intros Hs. pose proof Hs as (_ & [[(_ & _ & _ & Hf) _] _] & _). unfold raise. by destruct Hf as [->| ->].
Qed.

Lemma job_body_safe j t c : safe live loose c -> job_ok j -> wp (job_body user j t c) (safe live loose).
Proof.
  intros Hs Hj. pose proof (safe_env _ _ _ Hs) as He. unfold job_body. set (n := h_tick _).
  apply safe_tick in Hs. set (c1 := on_host tick c) in *.
  apply wp_safe. destruct j as [x|x|[| | |]|]; cbv iota beta; unfold run_cb; cbn [fst snd].
  - apply (run_task_hosted user x); [exact Hs|exact Hj|]. intros m ->. apply (eo_write _ He), zlen_nonneg.
  - apply (onTimer_hosted user x); [exact Hs|]. apply (eo_write _ He). vm_compute. discriminate.
  - apply (handleRead_hosted user); [exact Hs|apply (eo_readv _ He)].
  - apply (handleWrite_hosted user); [exact Hs|]. apply (eo_write _ He), u64_bound.
  - apply (handleClose_hosted user), Hs.
  - exact Hs.
  - apply (connectDestroyed_hosted user), Hs.
Qed.

Lemma run_job_safe j t c : safe live loose c -> job_ok j -> wp (run_job user j t c) (safe live loose).
Proof. intros Hs Hj. eapply wp_bind; [by apply job_body_safe|]. apply raise_safe. Qed.

Lemma established_safe c :
  safe live loose c -> state_ c <> kDisconnected ->
  wp (c ← connectEstablished user c; raise c) (safe live loose).
Proof.
  intros Hs Hst. eapply wp_bind; [|apply raise_safe]. apply wp_safe. by apply (connectEstablished_hosted user).
Qed.

Lemma run_user_safe j t c :
  safe live loose c -> job_ok j -> wp (run_user j t c) (fun x => safe live loose x.1 /\ x.2 = false).
Proof. intros Hs Hj. eapply wp_bind; [by apply run_job_safe|]. by intros c1 H1. Qed.
End stage.

(** [EventLoop::handleRead] on the eventfd. *)
Lemma wakeup_read_eq l : exists e, EventLoop.handleRead l = Ok (with_wakeup e l).
Proof.
  unfold EventLoop.handleRead. pose proof (counter_range (wakeupFd_ l)) as Hr.
  destruct (efd_read (wakeupFd_ l)) as [n e] eqn:Ew. exists e.
  destruct (decide (counter (wakeupFd_ l) = 0)) as [Hz|Hz].
  - destruct (efd_read_zero _ Hz) as [H1 _]. rewrite Ew in H1. simpl in H1. by subst n.
  - destruct (efd_read_ok (wakeupFd_ l)) as [H1 _]; [lia|]. rewrite Ew in H1. simpl in H1. by subst n.
Qed.

(** Firing timers. *)
Lemma timers_safe live loose env c :
  safe live loose c -> read_env_ok env ->
  wp (TimerQueue.handleRead (TimerWorld0 := loop_timer_world) true env c) (safe live loose).
Proof.
  intros Hs He. apply (handleRead_wp (TimerWorld0 := loop_timer_world) timer_job (safe live)); try done.
  - intros lo w Hw. pose proof (safe_core _ _ _ Hw) as []. done.
  - intros lo lo' w q Hw Hq Hcb. simpl. apply (safe_put live live lo); [done| |done].
    apply (core_timers tid st live lo); [by apply safe_core|done|done].
  - intros lo w j Hw Hj. eapply wp_mono; [by apply (run_user_safe live lo j None); [|destruct j]|]. by intros x [H _].
Qed.

Definition callback_ok (f : option (Callback job)) : Prop :=
  match f with Some (CbUser j) => job_ok j | _ => True end.

Lemma callback_safe live loose f t c :
  safe live loose c -> callback_ok (Some f) ->
  wp (run_channel_callback tid f t c) (fun x => safe live loose x.1 /\ x.2 = false).
Proof.
  intros Hs Hf. destruct f as [j| |]; simpl.
  - by apply run_user_safe.
  - unfold try_loop. simpl. destruct (wakeup_read_eq (h_loop (loop c))) as [e ->]. simpl. split; [|done].
    by apply safe_same.
  - eapply wp_bind; [|by intros c1 H1]. rewrite (safe_in_loop live loose) by done.
    apply timers_safe; [by apply safe_tick|]. apply (eo_timer _ (safe_env _ _ _ Hs)).
Qed.

(** *** Dispatch *)
#[local] Instance reactor_channels : ChannelWorld (Callback job) (TcpConnection (host K E)) := loop_channel_world tid.

Lemma call_safe live loose (f : option (Callback job)) t c :
  safe live loose c -> callback_ok f -> wp (call f t c) (safe live loose).
Proof.
  intros Hs Hf. destruct f as [f|]; [|done]. simpl.
  eapply wp_bind; [by apply callback_safe|]. intros [c1 threw] [H1 H2]. simpl in *. by subst threw.
Qed.

Lemma channel_callbacks p q ch :
  channel_ok st p q ch ->
  callback_ok (ReadCallback ch) /\ callback_ok (WriteCallback ch) /\
  callback_ok (CloseCallback ch) /\ callback_ok (ErrorCallback ch).
Proof.
  unfold channel_ok. case_decide.
  - intros (-> & -> & -> & ->). done.
  - intros ([->|[-> _]] & -> & -> & ->); done.
Qed.

Lemma this_safe live loose q c :
  safe live loose c -> q ∈ r_live live -> exists ch, this c q = Ok ch /\ channel_ok st (h_channel (loop c)) q ch.
Proof.
  intros Hs Hp. pose proof (safe_core _ _ _ Hs) as Hc. destruct (co_live _ _ _ _ _ _ Hc q Hp) as [ch Hch].
  exists ch. unfold this. simpl. rewrite Hch. split; [done|]. exact (co_channels _ _ _ _ _ _ Hc _ _ Hch).
Qed.

(** One of the four tests of [handleEventWithGuard]. *)
Lemma guard_step live loose p (b : Channel (Callback job) -> bool) f t c (k : TcpConnection (host K E) -> res (TcpConnection (host K E))) :
  safe live loose c -> p ∈ r_live live -> (forall p q ch, channel_ok st p q ch -> callback_ok (f ch)) ->
  (forall c1, safe live loose c1 -> wp (k c1) (safe live loose)) ->
  wp (ch ← this c p; c ← (if b ch then call (f ch) t c else Ok c); k c) (safe live loose).
Proof.
  intros Hs Hp Hf Hk. destruct (this_safe live loose p c Hs Hp) as (ch & -> & Hch). rewrite bind_ret_l.
  eapply wp_bind; [|exact Hk]. destruct (b ch); [|done]. by apply call_safe; [|eapply Hf].
Qed.

Lemma guard_safe live loose p t c :
  safe live loose c -> p ∈ r_live live -> wp (handleEventWithGuard p t c) (safe live loose).
Proof.
  intros Hs Hp. unfold handleEventWithGuard.
  apply guard_step with (b := fun ch => has (Revents ch) EPOLLHUP && negb (has (Revents ch) EPOLLIN)) (f := CloseCallback);
    [done|done|by intros q1 q2 ch (_ & _ & ? & _)%channel_callbacks|]. intros c1 H1.
  apply guard_step with (b := fun ch => has (Revents ch) EPOLLERR) (f := ErrorCallback);
    [done|done|by intros q1 q2 ch (_ & _ & _ & ?)%channel_callbacks|]. intros c2 H2.
  apply guard_step with (b := fun ch => has (Revents ch) _) (f := ReadCallback);
    [done|done|by intros q1 q2 ch (? & _)%channel_callbacks|]. intros c3 H3.
  destruct (this_safe live loose p c3 H3 Hp) as (ch & -> & (_ & Hw & _)%channel_callbacks). rewrite bind_ret_l.
  destruct (has _ _); [by apply call_safe|done].
Qed.

(** The handlers of a connection leave its channel as [handleEvent_dispatch] needs it,
    whatever they do to its events and its index. *)
Lemma dispatched_own ch t x : own_channel ch -> x ∈ dispatch ch t -> callback_ok (Some x.1).
Proof.
  intros (H1 & H2 & H3 & H4). unfold dispatch. rewrite H1, H2, H3, H4, !elem_of_app.
  destruct (has _ EPOLLHUP && _), (has _ EPOLLERR), (has _ (Z.lor _ _)), (has _ EPOLLOUT); simpl;
    rewrite ?elem_of_nil, ?list_elem_of_singleton; naive_solver.
Qed.

Lemma own_survives live loose ch t c :
  safe live loose c -> objects (h_poller (loop c)) !! s_channel st = Some ch ->
  survives (s_channel st) ch (dispatch ch t) c.
Proof.
  assert (forall c1, safe live loose c1 -> exists ch1, objects (h_poller (loop c1)) !! s_channel st = Some ch1 /\
    own_channel ch1 /\ Revents ch1 = r_revents live) as Hown.
  { intros c1 H1. pose proof (safe_core _ _ _ H1) as Hc. pose proof H1 as (_ & [[(_ & _ & Hch & _) _] _] & _).
    rewrite Hch in Hc. destruct (co_channel _ _ _ _ _ _ Hc) as (ch1 & Hp & _ & _ & _ & _ & Hr).
    exists ch1. split_and!; try done. by eapply core_own. }
  intros Hs Hch l1 c1 Hl E1. destruct (Hown c Hs) as (ch0 & Hch0 & Ho & Hr). assert (ch0 = ch) as -> by congruence.
  assert (wp (for_each run_call l1 c) (safe live loose)) as H1.
  { apply wp_for_each; [done|]. intros x c2 Hx H2. apply (call_safe live loose (Some x.1) x.2 c2 H2).
    apply (dispatched_own ch t); [done|]. destruct Hl as [l2 ->]. apply elem_of_app. by left. }
  rewrite E1 in H1. destruct (Hown c1 H1) as (ch1 & Hch1 & (A1 & A2 & A3 & A4) & Hr1). exists ch1. split; [exact Hch1|].
  destruct Ho as (B1 & B2 & B3 & B4). unfold calls_of. congruence.
Qed.

Lemma handleEvent_safe live loose p t c :
  safe live loose c -> p ∈ r_live live -> wp (handleEvent p t c) (safe live loose).
Proof.
  intros Hs Hp. unfold handleEvent. destruct (this_safe live loose p c Hs Hp) as (ch & -> & _). rewrite bind_ret_l.
  destruct (Tied ch); [|by apply guard_safe]. simpl. eapply wp_bind; [by apply guard_safe|done].
Qed.

(** *** Polling *)
Definition blank (ch : Channel (Callback job)) : Channel (Callback job) := setRevents ch 0.

Lemma blank_eq ch ch' :
  blank ch' = blank ch ->
  Loop ch' = Loop ch /\ key ch' = key ch /\ (forall p q, channel_ok st p q ch -> channel_ok st p q ch').
Proof.
  destruct ch, ch'. unfold blank, setRevents, channel_ok, key. simpl. intros Hb. injection Hb. intros. by subst.
Qed.

Lemma blank_lookup (o o' : gmap Z (Channel (Callback job))) p ch :
  blank <$> o' !! p = blank <$> o !! p -> o !! p = Some ch ->
  exists ch', o' !! p = Some ch' /\ blank ch' = blank ch.
Proof.
  intros Hb Hp. rewrite Hp in Hb. destruct (o' !! p) as [ch'|]; [|done]. exists ch'. split; [done|]. by apply (inj Some).
Qed.

Lemma key_blank (o o' : gmap Z (Channel (Callback job))) p :
  blank <$> o !! p = blank <$> o' !! p -> (key <$> o !! p) = (key <$> o' !! p).
Proof.
  intros Hb. destruct (o !! p) as [ch|], (o' !! p) as [ch'|]; try done. simpl in *.
  f_equal. apply blank_eq. by apply (inj Some).
Qed.

(** What polling leaves, whatever [epoll_wait] answers. *)
Lemma poll_safe ret (s : EpollPoller (Callback job) K) :
  poller_ok s -> (forall evs, ret = Done evs -> wait_ok (epollFd_ s) evs) ->
  exists po active, poll ret s [] = Ok (po, active) /\ poller_ok po /\ channels_ po = channels_ s /\
    epollFd_ po = epollFd_ s /\ (forall p, blank <$> objects po !! p = blank <$> objects s !! p) /\
    (forall p, p ∈ active -> is_Some (objects po !! p)).
Proof.
  intros Hok Hw. destruct ret as [e|evs].
  - simpl. destruct (negb _); do 2 eexists; (split; [done|]); split_and!; try done;
      [by apply (poller_ok_same_keys s)|set_solver|set_solver].
  - destruct (poll_ok evs s [] Hok (Hw _ eq_refl)) as [E1 Hok'].
    exists (set_objects (with_revents evs (objects s)) s), (ev_ptr <$> evs).
    assert (forall p, blank <$> with_revents evs (objects s) !! p = blank <$> objects s !! p) as Hb
      by (intros p; by apply with_revents_frame).
    split; [exact E1|]. split_and!; try done. simpl.
    intros p (ev & -> & Hev)%list_elem_of_fmap. destruct (wait_ok_live s evs Hok (Hw _ eq_refl) ev Hev) as (ch & Hch & _).
    destruct (blank_lookup _ _ _ _ (Hb (ev_ptr ev)) Hch) as (ch' & -> & _). by eexists.
Qed.

Lemma core_polled live live' loose p l po :
  core_ok tid st live loose p l -> poller_ok po -> channels_ po = channels_ (poller_ l) ->
  epollFd_ po = epollFd_ (poller_ l) -> (forall q, blank <$> objects po !! q = blank <$> objects (poller_ l) !! q) ->
  (forall q, q ∈ r_live live' -> is_Some (objects po !! q)) ->
  (Revents <$> objects po !! p) = Some (r_revents live') -> r_keep live' = r_keep live -> core_ok tid st live' loose p (with_poller po l).
Proof.
  intros [H1 H2 H3 H4 (ch & Hp & Hl & Ha & Hn & Hd & _) H6 H7 H8 H9] Hok Hm Hk Hb Hlive Hrev Hkeep. split; simpl; try done; [| |by rewrite Hkeep].
  - intros q ch' Hq. destruct (blank_lookup _ _ q ch' (eq_sym (Hb q)) Hq) as (ch0 & Hq0 & Eb).
    destruct (blank_eq _ _ (eq_sym Eb)) as (_ & _ & Hc). exact (Hc _ _ (H3 _ _ Hq0)).
  - destruct (blank_lookup _ _ p ch (Hb p) Hp) as (ch' & Hp' & Eb).
    destruct (blank_eq _ _ Eb) as (E1 & E2 & _). unfold key in E2. injection E2 as E2 E3 E4. exists ch'.
    rewrite Hp' in Hrev. injection Hrev as Hrev. rewrite Hm, Hk, E1, E2, E3, E4. done.
Qed.

(** *** Functors *)
Lemma pending_job f : pending_ok f -> (exists j, f = FUser j /\ job_ok j) \/ exists id, f = FCancelInLoop id.
Proof. destruct f as [[]| | | |]; intros H; try done; [left; by eexists|left; by eexists|right; by eexists]. Qed.

(** [ef]: what [cancelInLoop] reads from the node it has erased. *)
Section turn.
Context (ef : Z -> Z).

(** [cancelInLoop], queued by another thread. *)
Lemma cancel_core live loose id c :
  safe live loose c ->
  wp (TimerQueue.cancelInLoop ef true id (h_timers (loop c)))
     (fun q => core_ok tid st live loose (h_channel (loop c)) (with_timers q (h_loop (loop c)))).
Proof.
  intros Hs. pose proof (safe_core _ _ _ Hs) as Hc.
  destruct (cancelInLoop_cases loose (h_timers (loop c)) ef id (co_timers _ _ _ _ _ _ Hc)) as (q & E1 & _ & Hq & Hh).
  destruct E1 as [-> |[_ ->]]; [|done]. simpl. apply (core_timers tid st live loose); try done. rewrite Hh.
  case_decide; [apply callbacks_delete|]; apply (co_callbacks _ _ _ _ _ _ Hc).
Qed.

Lemma functor_safe live loose f c :
  safe live loose c -> pending_ok f -> wp (run_pending ef tid f c) (safe live loose).
Proof.
  intros Hs Hf. unfold run_pending. destruct (pending_job f Hf) as [(j & -> & Hj)|[id ->]]; simpl run_functor.
  - eapply wp_bind; [by apply run_user_safe|]. intros [c2 threw] [H2 H3]. simpl in *. by subst threw.
  - rewrite (safe_in_loop live loose c Hs). pose proof (cancel_core live loose id c Hs) as Hq.
    unfold h_timers in Hq. simpl. destruct (TimerQueue.cancelInLoop _ _ _ _) as [q|e]; [|done]. by apply (safe_put live _ loose).
Qed.

Lemma pending_safe live loose c :
  safe live loose c -> wp (doPendingFunctors ef tid c) (safe (keeping [] live) loose).
Proof.
  intros Hs. unfold doPendingFunctors. cbv zeta. pose proof (safe_pending _ _ _ Hs) as Hp.
  eapply (wp_bind _ _ (safe (keeping [] live) loose)).
  - apply wp_for_each.
    + simpl. by apply (safe_queue live [] loose c).
    + intros f c1 Hf H1. apply (proj1 (Forall_forall _ _) Hp) in Hf. by apply functor_safe.
  - intros c1 H1. simpl. by apply safe_same.
Qed.

(** *** A turn *)

(** Polling, with the round it begins. *)
Definition polled (active : list Z) (now : Timestamp) po c : TcpConnection (host K E) :=
  on_host (put_loop (with_active now active (currentActiveChannel_ (h_loop (loop c))) (with_poller po (h_loop (loop c))))) c.

Lemma polled_safe live loose ret now c :
  safe live loose c -> (forall evs, ret = Done evs -> wait_ok (epollFd_ (h_poller (loop c))) evs) ->
  exists po active rev, poll ret (h_poller (loop c)) [] = Ok (po, active) /\
    (Revents <$> objects po !! h_channel (loop c)) = Some rev /\
    safe (mkRound (list_to_set active) rev (r_keep live)) loose (polled active now po c).
Proof.
  intros Hs Hw. pose proof (safe_core _ _ _ Hs) as Hc.
  destruct (poll_safe ret (h_poller (loop c)) (co_poller _ _ _ _ _ _ Hc) Hw)
    as (po & active & E1 & Hok & Hm & Hk & Hb & Hact).
  destruct (co_channel _ _ _ _ _ _ Hc) as (ch & Hp & _).
  destruct (blank_lookup _ _ _ _ (Hb (h_channel (loop c))) Hp) as (ch' & Hp' & _).
  exists po, active, (Revents ch'). split; [done|]. split; [by rewrite Hp'|].
  apply (safe_put live _ loose _ c); [done| |by apply key_blank, Hb].
  eapply core_same; [eapply (core_polled live _ loose _ (h_loop (loop c)) po); try done|done..].
  - intros q Hq. by apply elem_of_list_to_set, Hact in Hq.
  - by rewrite Hp'.
Qed.

(** One turn after polling. *)
Definition turn_rest (now : Timestamp) (active : list Z) c : res (TcpConnection (host K E)) :=
  c ← for_each (handle_active tid now) active c;
  let c := on_loop (fun l => with_active (pollReturnTime_ l) (activeChannels_ l) nullptr l) c in
  doPendingFunctors ef tid c.

Lemma iteration_eq c po active :
  let e := h_env (loop c) in
  let n := h_tick (loop c) in
  let c1 := on_host tick (on_host tick c) in
  poll (e_wait e n (epollFd_ (h_poller (loop c)))) (h_poller (loop c)) [] = Ok (po, active) ->
  iteration ef tid c = turn_rest (e_clock e (S n)) active (polled active (e_clock e (S n)) po c1).
Proof.
  cbv zeta. intros E1. unfold iteration.
  change (wait c) with (e_wait (h_env (loop c)) (h_tick (loop c)) (epollFd_ (h_poller (loop c))), on_host tick c).
  cbv beta iota zeta.
  change (read_clock (on_host tick c)) with (e_clock (h_env (loop c)) (S (h_tick (loop c))), on_host tick (on_host tick c)).
  cbv beta iota zeta. change (poller_ (loop_ (on_host tick (on_host tick c)))) with (h_poller (loop c)).
  by rewrite E1, bind_ret_l.
Qed.

Lemma handle_active_safe live loose now q c :
  safe live loose c -> q ∈ r_live live -> wp (handle_active tid now q c) (safe live loose).
Proof.
  intros Hs Hq. unfold handle_active. apply handleEvent_safe; [|done].
  by apply safe_same.
Qed.

Lemma iteration_safe live loose c :
  safe live loose c -> wp (iteration ef tid c) (fun c' => exists live', safe live' loose c').
Proof.
  intros Hs. set (c1 := on_host tick (on_host tick c)).
  assert (safe live loose c1) as H1 by (by apply safe_tick, safe_tick).
  destruct (polled_safe live loose (e_wait (h_env (loop c)) (h_tick (loop c)) (epollFd_ (h_poller (loop c))))
    (e_clock (h_env (loop c)) (S (h_tick (loop c)))) c1 H1) as (po & active & rev & E1 & _ & H2).
  { intros evs Hr. exact (eo_wait _ (safe_env _ _ _ Hs) _ _ _ Hr). }
  rewrite (iteration_eq c po active E1). unfold turn_rest.
  eapply (wp_bind _ _ (safe (mkRound (list_to_set active) rev (r_keep live)) loose)).
  - apply wp_for_each; [done|]. intros q c2 Hq H3. apply handle_active_safe; [done|]. by apply elem_of_list_to_set.
  - intros c2 H3. eapply wp_mono; [apply (pending_safe (mkRound (list_to_set active) rev (r_keep live)) loose)|by eauto].
    by apply safe_same.
Qed.

End turn.

Lemma turns_safe live loose n c :
  safe live loose c -> wp (turns user n c) (fun c' => exists live', safe live' loose c').
Proof.
  revert live c. induction n as [|n IH]; intros live c Hs; simpl; [by exists live|].
  eapply (wp_bind _ _ (fun c' => exists live', safe live' loose c')); [|intros c1 [live' H1]; exact (IH live' c1 H1)].
  unfold reactor_turn, h_tid. rewrite (co_thread _ _ _ _ _ _ (safe_core _ _ _ Hs)). apply (iteration_safe _ live), Hs.
Qed.

(** ** Construction *)

(** What the addresses and descriptors of loop and connection have to be: distinct, and
    the descriptors acceptable to the kernel. *)
Record start_ok (env : new_env) (fd : Z) : Prop := {
  so_thread : ne_tid env = tid;
  so_site : s_timer st = ne_timer env;
  so_env : env_ok (s_env st);
  so_addr : ne_wakeup env <> ne_timer env;
  so_fds : ne_wakeupFd env <> ne_timerFd env;
  so_timer : accepts (K := K) epoll_create1 (ne_timerFd env) = true;
  so_wakeup ev : accepts (epoll_ctl (K := K) EPOLL_CTL_ADD (ne_timerFd env) ev epoll_create1).2 (ne_wakeupFd env) = true;
  so_channel : s_channel st <> ne_wakeup env /\ s_channel st <> ne_timer env;
  so_fd : fd <> ne_wakeupFd env /\ fd <> ne_timerFd env;
  so_conn (l : EventLoop job K E) :
    EventLoop_new false nullptr env = Ok l -> accepts (epollFd_ (poller_ l)) fd = true
}.

Lemma start_core env fd owner (p := s_channel st) :
  start_ok env fd ->
  exists l, EventLoop_new false nullptr env = Ok l /\
    core_ok tid st (mkRound ∅ 0 []) ∅ p (with_poller (set_objects (<[p := conn_object (this_ l) fd owner]> (objects (poller_ l))) (poller_ l)) l).
Proof.
  intros [H0 H0' _ H1 H2 H3 H4 [H5 H6] [H7 H8] H9]. fold p in H5, H6.
  destruct (EventLoop_new_ok (U := job) (E := E) env H1 H2 H3 H4)
    as (l & cw & ct & E1 & Hok & Hw & Fw & Iw & Ew & Cw & Ht & Ft & It & Et & Ct & Hall & Hcb).
  destruct (EventLoop_new_fields env l E1) as (E2 & E3 & _ & E5 & E6 & _).
  exists l. split; [done|].
  assert (objects (poller_ l) !! p = None) as Hp.
  { destruct (objects (poller_ l) !! p) as [c|] eqn:E7; [|done]. by destruct (Hall p c E7) as [[]|[]]. }
  split; simpl; try done.
  - congruence.
  - intros q c. rewrite lookup_insert. unfold channel_ok. case_decide as Eq.
    + intros [= <-]. by rewrite decide_True.
    + intros Hq. rewrite decide_False by done. unfold loop_channel.
      destruct (Hall q c Hq) as [[-> ->]|[-> ->]];
        [destruct (Hcb cw (or_introl eq_refl)) as (-> & -> & ->)|destruct (Hcb ct (or_intror eq_refl)) as (-> & -> & ->)];
        split_and!; auto.
  - by apply poller_ok_new.
  - eexists. split; [apply lookup_insert_eq|]. split_and!; try done; [by apply H9|].
    intros _. simpl. destruct (channels_ (poller_ l) !! fd) as [q|] eqn:E7; [|done].
    apply (ok_map _ Hok) in E7 as (c & Hq & Hf & _). destruct (Hall q c Hq) as [[_ ->]|[_ ->]]; congruence.
  - rewrite E6. apply TimerQueue_new_ok.
  - rewrite E6. intros q t cb Hq. simpl in Hq. by rewrite lookup_empty in Hq.
  - by rewrite E5.
  - apply prefix_nil.
Qed.

(** The connection when it has been constructed. *)
Lemma start_new env fd owner :
  start_ok env fd ->
  exists c, start user env (s_channel st) fd owner (s_env st) = (c ← connectEstablished user c; raise c) /\
    safe (mkRound ∅ 0 []) ∅ c /\
    (exists now, TcpConnection_new now (loop c) = Ok c) /\ h_closes (loop c) = 0%nat /\ h_posted (loop c) = [] /\
    h_listed (loop c) = false /\ pendingFunctors_ (h_loop (loop c)) = [].
Proof.
  intros Hs. destruct (start_core env fd owner Hs) as (l & E1 & Hc). unfold start. rewrite E1, bind_ret_l.
  set (l1 := with_poller _ _) in *. cbv zeta. set (h := mkHost l1 (s_channel st) (s_env st) 0 0 [] 0 false None).
  destruct (TcpConnection_new_inv (clock h) (tick h)) as (c & E2 & Hi & Hst & _ & Hl). rewrite E2, bind_ret_l.
  assert (events c = kNoneEvent) as Hev by (unfold TcpConnection_new in E2; inv_res; done).
  exists c. split; [done|]. rewrite Hl. split_and!; try done.
  - split; [done|]. rewrite Hl, Hev. unfold h_mask, h_poller. simpl. rewrite lookup_insert_eq. split; [|done].
    split; [split; [split_and!; [apply (so_env _ _ Hs)|done|done|by left]|]|done].
    intros ch. unfold h_poller. simpl. rewrite lookup_insert_eq. by intros [= <-].
  - eauto.
  - simpl. destruct (EventLoop_new_fields env l E1) as (_ & _ & _ & -> & _). done.
Qed.

Lemma start_safe env fd owner :
  start_ok env fd -> wp (start user env (s_channel st) fd owner (s_env st)) (safe (mkRound ∅ 0 []) ∅).
Proof.
  intros Hs. destruct (start_new env fd owner Hs) as (c & -> & Hc & (now & E1) & _).
  apply established_safe; [done|]. unfold TcpConnection_new in E1. inv_res. by rewrite <- E1.
Qed.
End safety.

(** ** An echo server

    The user of the examples sends back what it receives.  Its close callback is the
    server's, in the loop's own thread ([TcpServer::removeConnection]): count, and queue
    [connectDestroyed]; [strict] also asserts, as [removeConnectionInLoop] does, that the
    connection was still in the table. *)
Section echo.
Context {K E : Type} `{!Epoll K} `{!EventFd E} (strict : bool).
Implicit Types (c : TcpConnection (host K E)).

Definition remove_connection c : res (TcpConnection (host K E)) :=
  let h := loop c in
  _ ← assert (negb strict || (h_closes h =? 0)%nat);
  l ← queueInLoop (h_tid h) (FUser JDestroyed) (h_loop h);
  Ok (set_loop (with_closes (S (h_closes h)) (put_loop l h)) c).

(** An answer of [write] for [len] bytes: never more than [len]. *)
Definition at_most (len : Z) (r : sysret Z) : sysret Z :=
  match r with Errno e => Errno e | Done n => Done (Z.max 0 (Z.min n len)) end.

Definition echo_back c : res (TcpConnection (host K E)) :=
  let m := inputBuffer_ c in
  let ret := at_most (readableBytes m) (e_write (h_env (loop c)) (h_tick (loop c)) (readableBytes m)) in
  '(m, c) ← send_buffer true m ret (on_host tick c);
  Ok (set_input m c).

Definition echo_server (k : user_call) c : res (TcpConnection (host K E)) :=
  match k with UMessage _ => echo_back c | UClose => remove_connection c | _ => Ok c end.
End echo.

Lemma at_most_ok len r : 0 <= len -> write_ok len (at_most len r).
Proof. intros Hl. destruct r; simpl; lia. Qed.

#[global] Instance echo_conn {K E} `{!Epoll K} `{!EventFd E} strict : ConnUser (echo_server (K := K) (E := E) strict).
Proof.
  intros k c c' Hc E1. destruct k; simpl in E1; try (by injection E1 as <-).
  - unfold echo_back in E1. inv_res. destruct a as [m c1]. inv_res.
    eapply send_buffer_inv in Hm as [[] Hw]; [by split|by apply conn_inv_loop|apply (ci_in _ Hc)|].
    apply at_most_ok, u64_bound.
  - unfold remove_connection in E1. inv_res. by apply conn_inv_loop.
Qed.

#[global] Instance echo_reactor {K E} `{!Epoll K, !EpollOpen K} `{!EventFd E} tid st :
  ReactorUser (K := K) (E := E) tid st (echo_server false).
Proof.
  intros live loose. split; [apply _|]. intros k c Hs. change (safe tid st live loose c) in Hs.
  destruct k; try apply Hs; simpl.
  - unfold echo_back. set (m := inputBuffer_ c).
    eapply wp_bind; [apply (send_buffer_hosted (ConnTimers0 := host_timers tid st live loose)
      (ConnHost0 := host_hosts tid st live loose) true m _ (on_host tick c))|].
    + by apply safe_tick.
    + apply (ci_in _ (proj1 Hs)).
    + apply at_most_ok, u64_bound.
    + intros [m' c1] [_ [_ Hh]]. exact Hh.
  - unfold remove_connection. simpl. pose proof (safe_core _ _ _ _ _ Hs) as Hc.
    destruct (queueInLoop_frame (h_loop (loop c)) (h_tid (loop c)) (FUser JDestroyed)) as (l & E1 & H1 & H2 & H3 & H4 & H5).
    rewrite E1. simpl. destruct Hs as (_ & [[He Hlo] _] & Hm). split.
    + split; [split; [done|]|].
      { intros ch. unfold h_poller. simpl. rewrite H2. apply Hlo. }
      exact (queueInLoop_core tid st live loose _ _ l _ (FUser JDestroyed) Hc I E1).
    + simpl. rewrite Hm. unfold h_mask, h_poller. simpl. by rewrite H2.
Qed.

(** ** Scripts

    A round names the descriptors that are ready, with their events; what is not in the
    interest list, or not for these events, is not reported. *)
Definition report_one (k : simple_epoll) (x : Z * Z) : list epoll_event :=
  match interest k !! x.1 with
  | Some ev => let e := Z.land x.2 (Z.lor (ev_events ev) (Z.lor EPOLLERR EPOLLHUP)) in
               if e =? 0 then [] else [mkEpollEvent e (ev_ptr ev)]
  | None => []
  end.
Definition report (k : simple_epoll) (round : list (Z * Z)) : list epoll_event := concat (report_one k <$> round).

Lemma report_one_cases k fd e :
  report_one k (fd, e) = [] \/ exists ev, report_one k (fd, e) = [ev] /\ reports k fd ev.
Proof.
  unfold report_one. cbn [fst snd]. destruct (interest k !! fd) as [ev|] eqn:Ei; [|by left]. cbv zeta.
  destruct (_ =? 0); [by left|]. right. eexists. split; [done|]. exists ev. split_and!; try done.
  simpl ev_events. by rewrite <- Z.land_assoc, Z.land_diag.
Qed.

Lemma report_ok k round :
  NoDup round.*1 -> zlen round <= kInitEventListSize -> wait_ok k (report k round).
Proof.
  intros Hnd Hlen.
  assert (zlen (report k round) <= zlen round /\
    exists fds, NoDup fds /\ fds ⊆ round.*1 /\ Forall2 (reports k) fds (report k round))
    as (H1 & fds & H2 & _ & H3); [|split; [lia|eauto]].
  clear Hlen. induction round as [|[fd e] round IH].
  { split; [done|]. exists []. split; [constructor|]. split; [set_solver|constructor]. }
  simpl in Hnd. apply NoDup_cons in Hnd as [Hfd Hnd]. destruct (IH Hnd) as (H1 & fds & H2 & H3 & H4).
  change (report k ((fd, e) :: round)) with (report_one k (fd, e) ++ report k round).
  rewrite zlen_app. assert (zlen ((fd, e) :: round) = 1 + zlen round) as -> by (unfold zlen; simpl; lia).
  destruct (report_one_cases k fd e) as [->|(ev & -> & Hr)].
  - split; [unfold zlen in *; simpl; lia|]. exists fds. split_and!; [done|set_solver|done].
  - split; [unfold zlen in *; simpl; lia|]. exists (fd :: fds).
    split_and!; [apply NoDup_cons; split; [set_solver|done]|set_solver|by constructor].
Qed.

(** The n-th answer of the system: rounds and input by number, a [write] takes at most
    [quota] bytes, the clock shows [1000 + n] and the timerfd is read at time [late]. *)
Definition script_env (rounds : nat -> list (Z * Z)) (input : nat -> list byte) (quota : Z) (late : Timestamp)
    : environment simple_epoll := {|
  e_clock n := 1000 + Z.of_nat n;
  e_settime _ := None;
  e_new m := 1 + map_fold (fun k _ x => Z.max k x) 1000 m;
  e_erased p := p;
  e_timer _ := mkReadEnv late (8, 0) late None;
  e_wait n k := Done (report k (rounds n));
  e_readv n b := Done (take (Z.to_nat (writableBytes b + extrabuf_size)) (input n));
  e_write _ len := Done (Z.max 0 (Z.min quota len));
  e_stale _ := 0
|}.

Lemma script_env_ok rounds input quota late :
  (forall n, NoDup (rounds n).*1 /\ zlen (rounds n) <= kInitEventListSize) -> env_ok (script_env rounds input quota late).
Proof.
  intros Hr. split; simpl; try done.
  - intros n. unfold valid. apply Z.ltb_lt. lia.
  - intros n. split; [by left|]. done.
  - intros n k evs [= <-]. destruct (Hr n). by apply report_ok.
  - intros n b. unfold zlen. rewrite length_take. pose proof (u64_bound (zlen (buffer_ b) - writerIndex_ b)).
    unfold writableBytes, size_sub, extrabuf_size in *. lia.
  - intros n len Hl. lia.
Qed.

(** ** Properties *)

(** The reactor is safe.  A thread constructs its loop, a connection is accepted into
    it, and the loop takes any number of turns, whatever the kernel reports and the system
    calls answer within their documentation, and whatever the user's callbacks do as long
    as they keep the loop and the connection consistent.  No turn fails an assertion, uses
    a dangling pointer or ends the process (memory, the size of a buffer or the range of a
    time may run out); afterwards the bytes sent are those written followed by those
    buffered, poller and timer queue satisfy their invariants, and while the channel is
    registered the kernel watches exactly the events the connection asks for. *)
Theorem reactor_safe {K E : Type} `{!Epoll K, !EpollOpen K} `{!EventFd E} (tid : Z) (st : site K)
    (user : user_call -> TcpConnection (host K E) -> res (TcpConnection (host K E))) `{!ReactorUser tid st user}
    (env : new_env) (fd owner : Z) (n : nat) :
  start_ok (K := K) (E := E) tid st env fd ->
  wp (c ← start user env (s_channel st) fd owner (s_env st); turns user n c) (fun c =>
    sent c = written (socket_ops c) ++ readable (outputBuffer_ c) /\
    poller_ok (h_poller (loop c)) /\ queue_ok ∅ (h_timers (loop c)) /\
    (is_registered (loop c) -> kernel_mask (loop c) = u32 (events c)) /\
    (state_ c = kDisconnected -> events c = kNoneEvent)).
Proof.
  intros Hs. eapply wp_bind; [exact (start_safe tid st user env fd owner Hs)|].
  intros c Hc. eapply wp_mono; [exact (turns_safe tid st user (mkRound ∅ 0 []) ∅ n c Hc)|].
  intros c1 (live & Hi & Hh & Hm). pose proof (proj2 Hh) as Hcore. split_and!.
  - apply (ci_stream _ Hi).
  - apply (co_poller _ _ _ _ _ _ Hcore).
  - apply (co_timers _ _ _ _ _ _ Hcore).
  - intros Hr. rewrite Hm. by apply (kernel_watches tid st live ∅).
  - apply (ci_closed _ Hi).
Qed.

(** Loop and connection of the examples: five bytes arrive, [write] takes two at a time,
    then the peer hangs up. *)
Definition demo_rounds (n : nat) : list (Z * Z) :=
  match n with
  | 1%nat => [(7, EPOLLIN)]
  | 5%nat | 8%nat => [(7, EPOLLOUT)]
  | 11%nat => [(7, EPOLLHUP)]
  | _ => []
  end.
Definition hello : list byte := [x68; x65; x6c; x6c; x6f].
Definition demo_system : environment simple_epoll := script_env demo_rounds (fun _ => hello) 2 2000.
Definition demo_site : site simple_epoll := mkSite 12 13 demo_system.

Lemma demo_start : start_ok (K := simple_epoll) (E := Z) 100 demo_site demo_env 7.
Proof.
  split; try done.
  - apply script_env_ok. intros n. do 12 (destruct n as [|n]; [split; [|done]; repeat constructor; set_solver|]).
    split; [constructor|done].
  - intros l E1. vm_compute in E1. injection E1 as <-. reflexivity.
Qed.

Definition demo_serve (n : nat) : res (TcpConnection (host simple_epoll Z)) :=
  c ← start (echo_server false) demo_env 13 7 50 demo_system; turns (echo_server false) n c.

Lemma demo_serves :
  exists c, demo_serve 4 = Ok c /\ state_ c = kDisconnected /\ written (socket_ops c) = hello /\
    h_closes (loop c) = 1%nat /\ kernel_mask (loop c) = 0.
Proof.
  assert (match demo_serve 4 with
    | Ok c => bool_decide (state_ c = kDisconnected) && bool_decide (written (socket_ops c) = hello)
                && (h_closes (loop c) =? 1)%nat && (kernel_mask (loop c) =? 0)
    | Fault _ => false end = true) as H by (vm_compute; reflexivity).
  destruct (demo_serve 4) as [c|]; [|done]. exists c. rewrite !andb_true_iff in H.
  destruct H as [[[H1%bool_decide_eq_true H2%bool_decide_eq_true] H3%Nat.eqb_eq] H4%Z.eqb_eq]. done.
Qed.

Lemma reactor_safe_witness :
  exists c, demo_serve 4 = Ok c /\ written (socket_ops c) = hello /\ h_closes (loop c) = 1%nat /\
    sent c = hello ++ readable (outputBuffer_ c) /\ poller_ok (h_poller (loop c)).
Proof.
  destruct demo_serves as (c & E1 & _ & H1 & H2 & _). exists c. split; [exact E1|]. split; [exact H1|]. split; [exact H2|].
  pose proof (reactor_safe 100 demo_site (echo_server false) demo_env 7 50 4 demo_start) as H.
  apply (wp_Ok _ _ _ H) in E1 as (H3 & H4 & _). rewrite <- H1. split; [exact H3|exact H4].
Defined.

(** A server with an idle timeout; the user is the server of [echo_server]. *)
Definition idle_server (strict : bool) (k : user_call) (c : TcpConnection (host simple_epoll Z))
    : res (TcpConnection (host simple_epoll Z)) :=
  match k with
  | UConnection => if decide (state_ c = kConnected) then setIdleTimeout true (double_of_int 1) c else Ok c
  | _ => echo_server strict k c
  end.
Definition late_system : environment simple_epoll :=
  script_env (fun n => match n with 4%nat => [(5, EPOLLIN); (7, EPOLLHUP)] | _ => [] end) (fun _ => []) 2 2000000.
Definition late_serve (strict : bool) (n : nat) : res (TcpConnection (host simple_epoll Z)) :=
  c ← start (idle_server strict) demo_env 13 7 50 late_system; turns (idle_server strict) n c.

(** An idle timeout and a hang-up in one round.  The idle timer expires in the round of
    polling in which the kernel also reports that the peer is gone, the timerfd first: the
    timer closes the connection, and the report, which was collected before, closes it
    again.  The close callback runs twice, and where the callback is that of [TcpServer],
    its [assert(n == 1)] ends the process. *)
Theorem timeout_and_hangup :
  (exists c, late_serve false 1 = Ok c /\ h_closes (loop c) = 2%nat) /\
  late_serve true 1 = Fault AssertionFailed.
Proof.
  split; [|vm_compute; reflexivity].
  assert (match late_serve false 1 with Ok c => (h_closes (loop c) =? 2)%nat | Fault _ => false end = true) as H
    by (vm_compute; reflexivity).
  destruct (late_serve false 1) as [c|]; [|done]. exists c. split; [done|]. by apply Nat.eqb_eq.
Qed.
