(* ===== verification/QueuedConn.v ===== *)
(** * QueuedConn: what a connection leaves in the queue of its loop

    [send], [shutdown] and [forceClose] of [src/base/TcpConnection.cpp] bind the plain
    pointer [this] in the functor they queue; the other functors hold a [shared_ptr].
    [connectDestroyed] is the last functor that keeps a removed connection alive, so a
    functor with a plain pointer must not stand behind it.  This file shows, for every
    function the loop of [Reactor.v] runs for a connection, that the queue grows at its end
    in that order: a closed connection queues nothing with a plain pointer, and
    [connectDestroyed] is queued for a closed connection. *)
From Stdlib Require Import Strings.Byte.
From S2P Require Import Prelude Buffer Timestamp StdSet TimerQueue TimerSafe Channel EpollPoller EventLoop.
From S2P Require Import TcpConnection TcpSpec ServedConn HostedConn LoopHost Reactor.

(** Functors bound to [this]. *)
Definition plain_this (f : Functor job) : bool :=
  match f with
  | FUser (JTask (TSendInLoop _)) | FUser (JTask TShutdownInLoop) | FUser (JTask TForceCloseInLoop) => true
  | _ => false
  end.

Definition destroy : Functor job := FUser JDestroyed.

(** Nothing with a plain pointer is queued. *)
Definition counted (fs : list (Functor job)) : Prop := Forall (fun f => plain_this f = false) fs.

(** No plain pointer stands behind [connectDestroyed]. *)
Definition orderly (fs : list (Functor job)) : Prop := forall l1 l2, fs = l1 ++ destroy :: l2 -> counted l2.

Lemma orderly_counted fs : counted fs -> orderly fs.
Proof. intros H l1 l2 ->. unfold counted in *. by apply Forall_app in H as [_ [_ H]%Forall_cons]. Qed.

Lemma orderly_app fs gs : orderly fs -> orderly gs -> (destroy ∈ fs -> counted gs) -> orderly (fs ++ gs).
Proof.
  intros Hf Hg Hd l1 l2 E1. apply app_eq_inv in E1 as [(k & -> & E1)|(k & -> & E1)].
  - destruct k as [|x k]; simpl in E1; [by eapply (Hg [])|]. injection E1 as <- ->.
    unfold counted in *. apply Forall_app. split; [by eapply Hf|]. apply Hd. set_solver.
  - by eapply (Hg k).
Qed.

Section queued.
Context {K E : Type} `{!Epoll K} `{!EventFd E}.
Implicit Types (c : TcpConnection (host K E)) (h : host K E).

Definition c_pending c : list (Functor job) := pendingFunctors_ (h_loop (loop c)).

(** What a function does to the queue and to the life of the connection. *)
Record fills c c' : Prop := {
  qs_closed : stage_of c = LClosed -> stage_of c' = LClosed;
  qs_new : exists fs, c_pending c' = c_pending c ++ fs /\ orderly fs /\
    (stage_of c = LClosed -> counted fs) /\ (destroy ∈ fs -> stage_of c' = LClosed)
}.

(** Most functions leave the stage alone and queue nothing of either kind. *)
Definition mild (f : Functor job) : Prop := plain_this f = false /\ f <> destroy.
Definition grew c c' : Prop :=
  stage_of c' = stage_of c /\ exists fs, c_pending c' = c_pending c ++ fs /\ Forall mild fs.

Lemma grew_same c c' : stage_of c' = stage_of c -> c_pending c' = c_pending c -> grew c c'.
Proof. intros Hs H. split; [done|]. exists []. by rewrite app_nil_r. Qed.

Lemma grew_refl c : grew c c.
Proof. by apply grew_same. Qed.

Lemma grew_trans c1 c2 c3 : grew c1 c2 -> grew c2 c3 -> grew c1 c3.
Proof.
  intros (S1 & f1 & E1 & H1) (S2 & f2 & E2 & H2). split; [congruence|]. exists (f1 ++ f2).
  by rewrite E2, E1, (assoc_L (++)), Forall_app.
Qed.

Lemma grew_fills c c' : grew c c' -> fills c c'.
Proof.
  intros (Hs & fs & Eq & Hf). assert (counted fs) as Hc by (eapply Forall_impl; [exact Hf|by intros f []]).
  split; [congruence|]. exists fs. split_and!; [done|by apply orderly_counted|done|].
  intros Hd. rewrite Forall_forall in Hf. by destruct (Hf _ Hd).
Qed.

Lemma fills_refl c : fills c c.
Proof. apply grew_fills, grew_refl. Qed.

Lemma fills_trans c1 c2 c3 : fills c1 c2 -> fills c2 c3 -> fills c1 c3.
Proof.
  intros [C1 (f1 & E1 & O1 & P1 & D1)] [C2 (f2 & E2 & O2 & P2 & D2)]. split; [auto|]. exists (f1 ++ f2).
  split_and!; [by rewrite E2, E1, (assoc_L (++))|apply orderly_app; auto|..].
  - intros Hc. unfold counted in *. rewrite Forall_app. auto.
  - intros [Hd|Hd]%elem_of_app; auto.
Qed.

Lemma fills_grew c1 c2 c3 : fills c1 c2 -> grew c2 c3 -> fills c1 c3.
Proof. intros H1 H2. eapply fills_trans; [exact H1|]. by apply grew_fills. Qed.

(** The order of what is queued, and that [connectDestroyed] waits for a closed connection. *)
Definition keeps_order (fs : list (Functor job)) c : Prop := orderly fs /\ (destroy ∈ fs -> stage_of c = LClosed).

Lemma fills_order fs c c' :
  fills c c' -> keeps_order (fs ++ c_pending c) c -> keeps_order (fs ++ c_pending c') c'.
Proof.
  intros [Hc (gs & -> & Ho & Hg & Hd)] [H1 H2]. rewrite (assoc_L (++)). split.
  - apply orderly_app; auto.
  - intros [H|H]%elem_of_app; auto.
Qed.

Lemma nothing_ordered c : keeps_order [] c.
Proof. split; [by apply orderly_counted; constructor|by intros H%elem_of_nil]. Qed.

(** A change of the state, never back from [kDisconnected]. *)
Lemma fills_state s c : (stage_of c = LClosed -> s = kDisconnected) -> fills c (set_state s c).
Proof.
  intros Hs. split; [intros H; by rewrite (Hs H)|]. exists []. rewrite app_nil_r. split_and!; [done|by apply orderly_counted; constructor|constructor|].
  by intros H%elem_of_nil.
Qed.

(** *** The loop's operations *)
Lemma grew_task t c : plain_this (FUser (JTask t)) = false -> grew c (queue_task t c).
Proof.
  intros Ht. destruct (queueInLoop_frame (h_loop (loop c)) (h_tid (loop c)) (FUser (JTask t))) as (l & E1 & _ & _ & _ & _ & Hf).
  split; [done|]. exists [FUser (JTask t)]. split; [|by constructor]. unfold c_pending, queue_task. simpl. unfold h_post. by rewrite E1.
Qed.

Lemma grew_mask o c : grew c (channel_mask o c).
Proof. apply grew_same; [done|]. exact (kp_pending _ _ (proj2 (update_kept _ _))). Qed.

Lemma grew_remove c : grew c (set_loop (remove_channel (loop c)) c).
Proof. apply grew_same; [done|]. exact (kp_pending _ _ (proj2 (remove_kept _))). Qed.

Lemma grew_cancel id c : grew c (cancel_if_valid id c).
Proof.
  unfold cancel_if_valid. destruct (isValid id); [|apply grew_refl].
  apply grew_same; [done|]. exact (kp_pending _ _ (cancel_kept _ _)).
Qed.

Lemma grew_after d t c id l f :
  run_after d t (loop c) = Ok (id, l) -> grew (set_loop l c) (f (set_loop l c)) -> grew c (f (set_loop l c)).
Proof.
  intros E1. apply grew_trans, grew_same; [done|]. exact (kp_pending _ _ (run_after_kept _ _ _ _ _ E1)).
Qed.

Lemma grew_every d t c id l f :
  run_every d t (loop c) = Ok (id, l) -> grew (set_loop l c) (f (set_loop l c)) -> grew c (f (set_loop l c)).
Proof.
  intros E1. apply grew_trans, grew_same; [done|]. exact (kp_pending _ _ (run_every_kept _ _ _ _ _ E1)).
Qed.

(** *** Sending and timers *)
Lemma shutdownInLoop_grew c : grew c (shutdownInLoop c).
Proof. unfold shutdownInLoop. destruct (negb _); by apply grew_same. Qed.

Lemma write_at_once_grew data ret c : grew c (write_at_once data ret c).2.
Proof.
  unfold write_at_once. destruct (_ && _); [|apply grew_refl]. destruct ret; [apply grew_refl|]. simpl.
  destruct (_ && _); [|by apply grew_same]. eapply grew_trans; [|by apply grew_task]. by apply grew_same.
Qed.

Lemma buffer_rest_grew rest c c' : buffer_rest rest c = Ok c' -> grew c c'.
Proof.
  unfold buffer_rest. intros E1. set (c1 := if (_ : bool) then queue_task _ c else c) in E1.
  assert (grew c c1) as H1 by (subst c1; destruct (_ && _); [by apply grew_task|apply grew_refl]).
  apply bind_Ok in E1 as (b & _ & [= <-]). eapply grew_trans; [exact H1|].
  destruct (negb _); [|by apply grew_same]. eapply grew_trans; [|apply grew_mask]. by apply grew_same.
Qed.

Lemma sendInLoop_grew data ret c c' : sendInLoop data ret c = Ok c' -> grew c c'.
Proof.
  unfold sendInLoop. case_decide; [intros [= <-]; apply grew_refl|].
  pose proof (write_at_once_grew data ret c) as H1. destruct (write_at_once data ret c) as [[n b] c1]. simpl in H1.
  destruct (_ && _); [|by intros [= <-]]. intros E1. eapply grew_trans; [exact H1|]. by eapply buffer_rest_grew.
Qed.

Lemma setConnectionTimeoutInLoop_grew s c c' : setConnectionTimeoutInLoop s c = Ok c' -> grew c c'.
Proof.
  unfold setConnectionTimeoutInLoop. intros E1. eapply grew_trans; [apply grew_cancel|].
  destruct (dltb dzero s); [|injection E1 as <-; apply grew_refl]. apply bind_Ok in E1 as ([id l] & E1 & [= <-]).
  eapply (grew_after _ _ _ _ _ (fun x => set_timers id _ _ x) E1). by apply grew_same.
Qed.

Lemma resetIdleTimerInLoop_grew c c' : resetIdleTimerInLoop c = Ok c' -> grew c c'.
Proof.
  unfold resetIdleTimerInLoop. intros E1. eapply grew_trans; [apply grew_cancel|].
  apply bind_Ok in E1 as ([id l] & E1 & [= <-]).
  eapply (grew_after _ _ _ _ _ (fun x => set_timing _ _ _ _ (set_timers _ id _ x)) E1). by apply grew_same.
Qed.

Lemma setupKeepAliveTimer_grew c c' : setupKeepAliveTimer c = Ok c' -> grew c c'.
Proof.
  unfold setupKeepAliveTimer. destruct (negb _); [intros [= <-]; apply grew_refl|].
  intros ([id l] & E1 & [= <-])%bind_Ok. eapply (grew_every _ _ _ _ _ (fun x => set_timers _ _ id x) E1). by apply grew_same.
Qed.

(** The end of [handleWrite]. *)
Lemma completed_grew (b : bool) c : grew c (if b then queue_task TWriteComplete c else c).
Proof. destruct b; [by apply grew_task|apply grew_refl]. Qed.
Lemma drained_grew c : grew c (if decide (state_ c = kDisconnecting) then shutdownInLoop c else c).
Proof. case_decide; [apply shutdownInLoop_grew|apply grew_refl]. Qed.

(** ** The user's callbacks

    They keep the order as well; the close callback, which queues [connectDestroyed], is
    called on a closed connection. *)
Context (user : user_call -> TcpConnection (host K E) -> res (TcpConnection (host K E))).

Class QueueUser : Prop :=
  queue_user k c c' : user k c = Ok c' -> (k = UClose -> stage_of c = LClosed) -> fills c c'.
Context {Hqueue : QueueUser}.

Lemma handleClose_fills c c' : handleClose user c = Ok c' -> fills c c'.
Proof.
  unfold handleClose. cbv zeta. set (c1 := channel_mask DisableAll _).
  set (c2 := cancel_if_valid (connectionTimeoutTimerId_ c1) c1). set (c3 := cancel_if_valid (idleTimerId_ c2) c2).
  set (c4 := cancel_if_valid (keepAliveTimerId_ c3) c3). intros (c5 & E5 & E6)%bind_Ok.
  assert (fills c c4) as H4.
  { repeat (eapply fills_grew; [|apply grew_cancel]). eapply fills_grew; [|apply grew_mask]. by apply fills_state. }
  assert (fills c4 c5) as H5 by (by eapply queue_user). assert (stage_of c4 = LClosed) as Hs.
  { transitivity (stage_of c3); [apply grew_cancel|]. transitivity (stage_of c2); [apply grew_cancel|].
    transitivity (stage_of c1); [apply grew_cancel|done]. }
  eapply fills_trans; [exact H4|]. eapply fills_trans; [exact H5|]. eapply queue_user; [exact E6|]. intros _. by apply H5.
Qed.

Lemma forceCloseInLoop_fills c c' : forceCloseInLoop user c = Ok c' -> fills c c'.
Proof.
  unfold forceCloseInLoop. destruct (open_or_closing c); [apply handleClose_fills|]. intros [= <-]. apply fills_refl.
Qed.

Lemma onTimer_fills t ret c c' : onTimer user t ret c = Ok c' -> fills c c'.
Proof.
  assert (forceClose user true c = Ok c' -> fills c c') as Hf.
  { unfold forceClose. destruct (open_or_closing c) eqn:Eo; [|intros [= <-]; apply fills_refl]. intros E1.
    eapply fills_trans; [|by eapply forceCloseInLoop_fills]. apply fills_state. intros Hs.
    apply open_up in Eo. congruence. }
  destruct t; simpl; [done|done|]. unfold onKeepAliveTimeout.
  destruct (negb _); [intros [= <-]; apply grew_fills, grew_cancel|]. intros E1. by eapply grew_fills, sendInLoop_grew.
Qed.

Lemma handleRead_fills t ret c c' : handleRead user t ret c = Ok c' -> fills c c'.
Proof.
  unfold handleRead. intros ([[n e] b] & _ & E1)%bind_Ok.
  assert (grew c (set_input b c)) as H0 by (by apply grew_same). apply grew_fills in H0.
  eapply fills_trans; [exact H0|]. destruct (0 <? n); [|destruct (n =? 0); [by apply handleClose_fills|injection E1 as <-; apply fills_refl]].
  apply bind_Ok in E1 as (c1 & E1 & E2). eapply fills_trans; [by eapply queue_user|].
  apply bind_Ok in E2 as (c2 & E2 & [= <-]). apply grew_fills, (grew_trans _ c2); [|by apply grew_same].
  destruct (dltb _ _); [|injection E2 as <-; apply grew_refl]. unfold resetIdleTimer in E2.
  destruct (dleb _ _); [injection E2 as <-; apply grew_refl|by apply resetIdleTimerInLoop_grew].
Qed.

Lemma handleWrite_fills ret stale c c' : handleWrite user ret stale c = Ok c' -> fills c c'.
Proof.
  unfold handleWrite. destruct (is_writing c); [|intros [= <-]; apply fills_refl].
  intros (data & _ & E1)%bind_Ok.
  assert (forall b : bool, (if b then handleClose user c else Ok c) = Ok c' -> fills c c') as Hf.
  { intros []; [apply handleClose_fills|]. intros [= <-]. apply fills_refl. }
  destruct ret as [e|n]; [by eapply Hf|]. destruct (0 <? n); [|by eapply Hf]. apply grew_fills. cbv zeta in E1.
  destruct (_ =? 0); injection E1 as <-; [|by apply grew_same].
  eapply grew_trans; [|apply drained_grew]. eapply grew_trans; [|apply completed_grew].
  eapply grew_trans; [|apply grew_mask]. by apply grew_same.
Qed.

Lemma connectDestroyed_fills c c' : connectDestroyed user c = Ok c' -> fills c c'.
Proof.
  unfold connectDestroyed. intros (c1 & E1 & [= <-])%bind_Ok. eapply fills_grew; [|apply grew_remove].
  case_decide; [|injection E1 as <-; apply fills_refl].
  eapply fills_trans; [|by eapply queue_user]. eapply fills_grew; [|apply grew_mask]. by apply fills_state.
Qed.

Lemma connectEstablished_fills c c' : state_ c = kConnecting -> connectEstablished user c = Ok c' -> fills c c'.
Proof.
  intros Hs E1. apply (fills_trans _ (channel_mask EnableReading (set_tied (set_state kConnected c)))); [|by eapply queue_user].
  eapply fills_grew; [|apply grew_mask]. apply (fills_grew _ (set_state kConnected c)); [|by apply grew_same].
  apply fills_state. unfold stage_of. by rewrite Hs.
Qed.

Lemma run_task_fills t ret c c' : run_task user t ret c = Ok c' -> fills c c'.
Proof.
  destruct t; simpl; try (intros E1; by eapply queue_user).
  - intros E1. by eapply grew_fills, sendInLoop_grew.
  - intros [= <-]. apply grew_fills, shutdownInLoop_grew.
  - apply forceCloseInLoop_fills.
  - intros E1. by eapply grew_fills, setConnectionTimeoutInLoop_grew.
  - intros E1. by eapply grew_fills, resetIdleTimerInLoop_grew.
  - intros E1. by eapply grew_fills, setupKeepAliveTimer_grew.
Qed.
End queued.

(** The echo server keeps the order. *)
#[global] Instance echo_queue {K E} `{!Epoll K} `{!EventFd E} strict : QueueUser (echo_server (K := K) (E := E) strict).
Proof.
  intros k c c' E1 Hk. destruct k; simpl in E1; try (injection E1 as <-; apply fills_refl).
  - unfold echo_back in E1. apply bind_Ok in E1 as ([m c1] & E1 & [= <-]).
    apply grew_fills, (grew_trans _ (on_host tick c)), (grew_trans _ c1); [by apply grew_same| |by apply grew_same].
    unfold send_buffer in E1. case_decide; [|injection E1 as _ <-; apply grew_refl].
    apply bind_Ok in E1 as (data & _ & E1). apply bind_Ok in E1 as (c2 & E1 & [= _ <-]). by eapply sendInLoop_grew.
  - unfold remove_connection in E1. inv_res.
    destruct (queueInLoop_frame (h_loop (loop c)) (h_tid (loop c)) destroy) as (l & El & _ & _ & _ & _ & Hf).
    assert (a0 = l) as -> by (unfold destroy in El; congruence). split; [done|]. exists [destroy].
    split_and!; [exact Hf|by apply orderly_counted; repeat constructor|by repeat constructor|]. intros _. by apply Hk.
Qed.
