(* ===== verification/ReactorLife.v ===== *)
(** * ReactorLife: the close callback on the real loop

    [ServedConn.v] shows that the close callback of a connection runs once if events reach
    it only while it watches for something.  Here the events come from the loop of
    [src/base/Eventloop.cpp] itself, which collects the reports of a round before it
    handles the first of them.  What was shown of the reactor in [Reactor.v] is extended by
    the life of the connection: the callback runs exactly once, as long as no round reports
    the timer queue ahead of the connection. *)
From Stdlib Require Import Strings.Byte.
From S2P Require Import Prelude Buffer Timestamp StdSet TimerQueue TimerSafe Channel EpollPoller EventLoop LoopRun.
From S2P Require Import TcpConnection TcpSpec ServedConn HostedConn LoopHost Reactor QueuedConn.

(** ** What a round may report

    The connection ahead of the timers, and a hang-up with input or alone ([hup_ok]). *)
Definition timers_last (timer conn : Z) (active : list Z) : Prop :=
  forall l1 l2, active = l1 ++ conn :: l2 -> timer ∉ l1.

Definition rounds_ok {K} (st : site K) : Prop :=
  forall n k evs, e_wait (s_env st) n k = Done evs ->
    timers_last (s_timer st) (s_channel st) (ev_ptr <$> evs) /\
    forall ev, ev ∈ evs -> ev_ptr ev = s_channel st -> hup_ok (s32 (ev_events ev)) = true.

Section life.
Context {K E : Type} `{!Epoll K, !EpollOpen K} `{!EventFd E} (tid : Z) (st : site K).
Context (user : user_call -> TcpConnection (host K E) -> res (TcpConnection (host K E))).
Context {Huser : ReactorUser tid st user} {Hserved : ServedUser user}.
#[local] Instance life_world : LoopWorld job K E (TcpConnection (host K E)) := reactor_world user.
Implicit Types (c : TcpConnection (host K E)) (l : EventLoop job K E) (live : round) (loose : gset Z).

(** The reactor is consistent and the connection, once established, follows its life. *)
Definition held live loose c : Prop :=
  safe tid st live loose c /\ served_inv c /\ told c /\ watch_inv c /\ stage_of c <> LConnecting.

(** [held], and a closed connection stays closed; if the user's callbacks keep the order of
    the queue, so does the connection ([QueuedConn.v]). *)
Definition held_from c live loose c' : Prop :=
  held live loose c' /\ (stage_of c = LClosed -> stage_of c' = LClosed) /\ (QueueUser user -> fills c c').

Lemma held_same live loose c c' :
  held live loose c' -> stage_of c' = stage_of c -> c_pending c' = c_pending c -> held_from c live loose c'.
Proof. intros H Hs Hq. split; [done|]. split; [by rewrite Hs|]. intros _. by apply grew_fills, grew_same. Qed.

Lemma held_refl live loose c : held live loose c -> held_from c live loose c.
Proof. intros H. by apply held_same. Qed.

Lemma held_trans live loose c1 c2 c3 :
  held_from c1 live loose c2 -> held_from c2 live loose c3 -> held_from c1 live loose c3.
Proof.
  intros (_ & H1 & G1) (H2 & H3 & G2). split; [done|]. split; [auto|]. intros Hu. eapply fills_trans; auto.
Qed.

(** A change before the function that neither the life nor the queue sees. *)
Lemma held_via live loose c c1 c' :
  stage_of c1 = stage_of c -> c_pending c1 = c_pending c -> held_from c1 live loose c' -> held_from c live loose c'.
Proof.
  intros Hs Hp (H1 & H2 & H3). split; [done|]. split; [by rewrite <- Hs|].
  intros Hu. eapply fills_trans; [by apply grew_fills, grew_same|by apply H3].
Qed.

Lemma held_after live loose c c1 r :
  stage_of c1 = stage_of c -> c_pending c1 = c_pending c -> wp r (held_from c1 live loose) -> wp r (held_from c live loose).
Proof. intros Hs Hp Hr. eapply wp_mono; [exact Hr|]. intros c'. by apply held_via. Qed.

Lemma held_step live loose c r :
  held live loose c -> wp r (safe tid st live loose) ->
  (forall c', r = Ok c' -> good c c' /\ (QueueUser user -> fills c c')) -> wp r (held_from c live loose).
Proof.
  intros (_ & _ & Ht & Hw & Hst) Hr Hg. eapply wp_mono; [apply (wp_and _ _ _ Hr Hg)|].
  intros c' (Hs & (Hc' & Hl & Hw') & Hq). split; [|split; [|done]].
  - split_and!; try done; [by eapply live_told|by apply Hw'|].
    destruct Hl as [[-> _]|(_ & -> & _)]; done.
  - intros Hcl. destruct Hl as [[-> _]|(Hup & _)]; congruence.
Qed.

(** A change of the loop the connection does not see. *)
Lemma held_on f live live' loose loose' c :
  held live loose c -> safe tid st live' loose' (on_host f c) ->
  h_posted (f (loop c)) = h_posted (loop c) -> h_closes (f (loop c)) = h_closes (loop c) ->
  h_listed (f (loop c)) = h_listed (loop c) ->
  (h_destroy (f (loop c)) = true -> h_destroy (loop c) = true) -> held live' loose' (on_host f c).
Proof.
  intros (_ & [H1 H2 H3] & Ht & [W1 W2 W3] & Hst) Hs Hp Hc Hl Hd. split; [done|]. split_and!.
  - split; [apply Hs|done|]. intros m. simpl. rewrite Hp. apply H3.
  - unfold told. simpl. by rewrite Hc.
  - split; simpl; rewrite ?Hl; auto.
  - done.
Qed.

Lemma held_tick live loose c : held live loose c -> held live loose (on_host tick c).
Proof. intros H. apply (held_on tick live live loose loose c); try done. apply safe_tick, H. Qed.

Lemma held_put live loose c l :
  held live loose c -> safe tid st live loose (on_host (put_loop l) c) ->
  pendingFunctors_ l = pendingFunctors_ (h_loop (loop c)) -> held live loose (on_host (put_loop l) c).
Proof.
  intros H Hs Hp. apply (held_on (put_loop l) live live loose loose c); try done.
  unfold h_destroy. simpl. by rewrite Hp.
Qed.

(** ** What the loop calls *)

(** A read or a hang-up needs an open connection, [connectDestroyed] a closed one. *)
Definition job_timely (j : job) c : Prop :=
  match j with
  | JEvent CbRead | JEvent CbClose => stage_of c = LUp
  | JDestroyed => stage_of c = LClosed
  | _ => True
  end.

Lemma run_job_held live loose j t c :
  held live loose c -> job_ok j -> job_timely j c -> wp (run_job user j t c) (held_from c live loose).
Proof.
  intros Hh Hj Ht. pose proof (held_tick live loose c Hh) as Hh1. pose proof Hh as (Hs & _).
  pose proof (safe_env tid st _ _ _ Hs) as He.
  apply (held_after _ _ _ (on_host tick c)); try done. apply (held_step live loose (on_host tick c)); [done|exact (run_job_safe tid st user live loose j t c Hs Hj)|].
  intros c' (c2 & E2 & <-%raise_Ok)%bind_Ok. revert c2 E2. intros c'. unfold job_body. set (n := h_tick _). set (c1 := on_host tick c) in *. destruct Hh1 as (_ & Hc & _ & _ & Hst).
  destruct j as [x|x|[| | |]|]; cbv iota beta; unfold run_cb; cbn [fst snd]; intros E1; split; try intros Hq; revert E1.
  - apply (task_runs_good user); [done| |].
    + intros m _ Es. apply Hst. unfold stage_of. by rewrite Es.
    + destruct x; try done. split; [exact Hj|]. apply (eo_write _ He), zlen_nonneg.
  - apply (run_task_fills user).
  - apply (onTimer_good user); [done|]. apply (eo_write _ He). vm_compute. discriminate.
  - apply (onTimer_fills user).
  - apply (handleRead_good user); [done|done|apply (eo_readv _ He)].
  - apply (handleRead_fills user).
  - apply (handleWrite_good user); [done|]. apply (eo_write _ He), u64_bound.
  - apply (handleWrite_fills user).
  - by apply (handleClose_good user).
  - apply (handleClose_fills user).
  - intros [= <-]. by apply good_refl.
  - intros [= <-]. apply fills_refl.
  - apply (destroyed_good user); [done|]. by apply stage_closed.
  - apply (connectDestroyed_fills user).
Qed.

Lemma run_user_held live loose j t c :
  held live loose c -> job_ok j -> job_timely j c ->
  wp (run_user j t c) (fun x => held_from c live loose x.1 /\ x.2 = false).
Proof. intros Hh Hj Ht. eapply wp_bind; [by apply run_job_held|]. by intros c1 H1. Qed.

Lemma timers_held live loose env c :
  held live loose c -> read_env_ok env ->
  wp (TimerQueue.handleRead (TimerWorld0 := loop_timer_world) true env c) (held_from c live loose).
Proof.
  intros Hh He.
  apply (handleRead_wp (TimerWorld0 := loop_timer_world) timer_job (held_from c live)); try done.
  - intros lo w [[Hw _] _]. pose proof (safe_core _ _ _ _ _ Hw) as []. done.
  - intros lo lo' w q [Hw Hcl] Hq Hcb. simpl. split; [|split; [exact (proj1 Hcl)|intros Hu; by eapply fills_grew; [exact (proj2 Hcl Hu)|apply grew_same]]].
    apply (held_on _ live live lo lo' w); try done.
    apply (safe_put tid st live live lo); [apply Hw| |done].
    apply (core_timers tid st live lo); [apply (safe_core _ _ _ _ _ (proj1 Hw))|done|done].
  - intros lo w j Hw Hj. eapply wp_mono; [apply (run_user_held live lo j None w (proj1 Hw)); by destruct j|].
    intros x [H _]. by eapply held_trans.
  - by apply held_refl.
Qed.

(** ** Dispatch *)
#[local] Instance life_channels : ChannelWorld (Callback job) (TcpConnection (host K E)) := loop_channel_world tid.

Lemma held_channel live loose c : held live loose c -> h_channel (loop c) = s_channel st.
Proof. intros ((_ & [[(_ & _ & H & _) _] _] & _) & _). exact H. Qed.

Lemma call_job_held live loose j t c :
  held live loose c -> job_ok j -> job_timely j c -> wp (call (Some (CbUser j)) t c) (held_from c live loose).
Proof.
  intros Hh Hj Ht. eapply wp_bind; [by apply run_user_held|]. intros [c1 threw] [H1 H2]. simpl in *. by subst threw.
Qed.

Lemma call_error_held live loose t c :
  held live loose c ->
  wp (call (Some (CbUser (JEvent CbError))) t c) (fun c' => held_from c live loose c' /\ stage_of c' = stage_of c).
Proof.
  intros Hh. apply (wp_and _ (held_from c live loose)); [by apply call_job_held|].
  intros c' E1. simpl in E1. unfold run_job, job_body in E1. simpl in E1.
  destruct (raise _) as [c1|] eqn:Er; [|done]. apply raise_Ok in Er as <-. by injection E1 as <-.
Qed.

Lemma call_wakeup_held live loose t c :
  held live loose c ->
  wp (call (Some CbWakeup) t c) (fun c' => held_from c live loose c' /\ stage_of c' = stage_of c).
Proof.
  intros Hh. simpl. unfold try_loop. simpl. destruct (wakeup_read_eq (h_loop (loop c))) as [e ->]. simpl.
  split; [|done]. apply held_same; try done. apply held_put; try done. apply safe_same; try done. apply Hh.
Qed.

Lemma call_timer_held live loose t c : held live loose c -> wp (call (Some CbTimer) t c) (held_from c live loose).
Proof.
  intros Hh. simpl. eapply (wp_bind _ _ (fun x => held_from c live loose x.1 /\ x.2 = false)).
  - eapply wp_bind; [|by intros c1 H1]. rewrite (safe_in_loop tid st live loose) by apply Hh.
    apply (held_after _ _ _ (on_host tick c)); try done. apply (timers_held live loose _ (on_host tick c)); [by apply held_tick|]. apply (eo_timer _ (safe_env _ _ _ _ _ (proj1 Hh))).
  - intros [c1 threw] [H1 H2]. simpl in *. by subst threw.
Qed.

(** *** The loop's own channels *)
Lemma other_channel live loose q c :
  held live loose c -> q ∈ r_live live -> q <> s_channel st -> exists ch, this c q = Ok ch /\ loop_channel st q ch.
Proof.
  intros Hh Hq Hne. destruct (this_safe tid st user live loose q c (proj1 Hh) Hq) as (ch & E1 & Hch).
  exists ch. split; [exact E1|]. unfold channel_ok in Hch. by rewrite (held_channel _ _ _ Hh), decide_False in Hch.
Qed.

Lemma guard_other live loose q t c :
  held live loose c -> q ∈ r_live live -> q <> s_channel st ->
  wp (handleEventWithGuard q t c) (fun c' => held_from c live loose c' /\ (q <> s_timer st -> stage_of c' = stage_of c)).
Proof.
  intros Hh Hq Hne. destruct (other_channel live loose q c Hh Hq Hne) as (ch & E1 & Hr & Hw & Hc & He).
  unfold handleEventWithGuard. rewrite !E1, !bind_ret_l, Hc. simpl call.
  assert (forall b : bool, (if b then Ok c else Ok c) = Ok c) as Hid by (by intros []).
  rewrite Hid, bind_ret_l, E1, bind_ret_l, He. simpl call. rewrite Hid, bind_ret_l, E1, bind_ret_l.
  eapply (wp_bind _ _ (fun c' => held_from c live loose c' /\ (q <> s_timer st -> stage_of c' = stage_of c))).
  - destruct (has _ _); [|split; [by apply held_refl|done]]. destruct Hr as [->|[-> Htp]].
    + eapply wp_mono; [by apply call_wakeup_held|]. by intros c1 [H1 H2].
    + eapply wp_mono; [by apply call_timer_held|]. by intros c1 H1.
  - intros c1 [H1 H2]. destruct (other_channel live loose q c1 (proj1 H1) Hq Hne) as (ch1 & -> & _ & Hw1 & _).
    rewrite bind_ret_l, Hw1. by destruct (has _ _).
Qed.

(** *** The connection's *)
Lemma own_this live loose c :
  held live loose c ->
  exists ch, this c (s_channel st) = Ok ch /\ own_channel ch /\ Revents ch = r_revents live.
Proof.
  intros Hh. pose proof (safe_core _ _ _ _ _ (proj1 Hh)) as Hc.
  destruct (co_channel _ _ _ _ _ _ Hc) as (ch & Hp & _ & _ & _ & _ & Hr).
  exists ch. unfold this. simpl. rewrite <- (held_channel _ _ _ Hh), Hp. split_and!; try done.
  by apply (core_own tid st live loose _ _ _ Hc).
Qed.

Lemma guard_own live loose t c :
  held live loose c -> stage_of c = LUp -> hup_ok (r_revents live) = true ->
  wp (handleEventWithGuard (s_channel st) t c) (held_from c live loose).
Proof.
  intros Hh Hup Hhup. pose proof (held_refl _ _ _ Hh) as H0. set (r := r_revents live) in *. unfold hup_ok in Hhup.
  destruct (own_this live loose c Hh) as (ch & E1 & (_ & _ & Hc & _) & Hr). fold r in Hr.
  unfold handleEventWithGuard. rewrite E1, bind_ret_l, Hr, Hc.
  set (b1 := has r EPOLLHUP && negb (has r EPOLLIN)) in *.
  eapply (wp_bind _ _ (fun c1 => held_from c live loose c1 /\ (b1 = false -> stage_of c1 = LUp))).
  { destruct b1; [|done]. eapply wp_mono; [by apply call_job_held|done]. }
  intros c1 [H1 U1]. destruct (own_this live loose c1 (proj1 H1)) as (ch1 & -> & (_ & _ & _ & He) & Hr1). fold r in Hr1.
  rewrite bind_ret_l, Hr1, He.
  eapply (wp_bind _ _ (fun c2 => held_from c live loose c2 /\ (b1 = false -> stage_of c2 = LUp))).
  { destruct (has r EPOLLERR); [|done]. eapply wp_mono; [apply call_error_held, H1|]. intros c2 [H2 E2].
    split; [by eapply held_trans|]. by rewrite E2. }
  intros c2 [H2 U2]. destruct (own_this live loose c2 (proj1 H2)) as (ch2 & -> & (Hrd & _) & Hr2). fold r in Hr2.
  rewrite bind_ret_l, Hr2, Hrd.
  assert (forall c' j u, held_from c live loose c' -> job_ok j -> job_timely j c' ->
    wp (call (Some (CbUser j)) u c') (held_from c live loose)) as Hcall.
  { intros c' j u H' Hj Ht. eapply wp_mono; [apply call_job_held; [apply H'|done|done]|]. intros x Hx. by eapply held_trans. }
  eapply (wp_bind _ _ (held_from c live loose)).
  { destruct (has r (Z.lor _ _)); [|done]. apply Hcall; try done. simpl. apply U2. by destruct b1. }
  intros c3 H3. destruct (own_this live loose c3 (proj1 H3)) as (ch3 & -> & (_ & Hwr & _) & Hr3).
  rewrite bind_ret_l, Hwr. destruct (has _ EPOLLOUT); [by apply Hcall|done].
Qed.

(** [handleEvent]: the owner of a tied channel is alive. *)
Lemma handleEvent_guard q t c ch Q :
  this c q = Ok ch -> wp (handleEventWithGuard q t c) Q -> wp (handleEvent q t c) Q.
Proof.
  intros E1 H. unfold handleEvent. rewrite E1, bind_ret_l. destruct (Tied ch); [|done]. simpl.
  eapply wp_bind; [exact H|done].
Qed.

(** ** A round *)
Lemma held_frame live loose c l :
  held live loose c -> threadId_ l = threadId_ (h_loop (loop c)) -> this_ l = this_ (h_loop (loop c)) ->
  poller_ l = poller_ (h_loop (loop c)) -> timerQueue_ l = timerQueue_ (h_loop (loop c)) ->
  pendingFunctors_ l = pendingFunctors_ (h_loop (loop c)) -> held live loose (on_host (put_loop l) c).
Proof.
  intros Hh H1 H2 H3 H4 H5. apply held_put; try done. apply safe_same; try done. apply Hh.
Qed.

Lemma active_other live loose now q c :
  held live loose c -> q ∈ r_live live -> q <> s_channel st ->
  wp (handle_active tid now q c) (fun c' => held_from c live loose c' /\ (q <> s_timer st -> stage_of c' = stage_of c)).
Proof.
  intros Hh Hq Hne. unfold handle_active. set (c1 := on_loop _ c).
  assert (held live loose c1) as H1 by (by apply held_frame).
  destruct (other_channel live loose q c1 H1 Hq Hne) as (ch & E1 & _).
  apply (handleEvent_guard q now c1 ch); [done|].
  eapply wp_mono; [by apply (guard_other live loose q now c1)|]. intros c' [H2 H3]. split; [|done]. by apply (held_via _ _ _ c1).
Qed.

Lemma active_own live loose now c :
  held live loose c -> stage_of c = LUp -> hup_ok (r_revents live) = true ->
  wp (handle_active tid now (s_channel st) c) (held_from c live loose).
Proof.
  intros Hh Hup Hhup. unfold handle_active. set (c1 := on_loop _ c).
  assert (held live loose c1) as H1 by (by apply held_frame).
  destruct (own_this live loose c1 H1) as (ch & E1 & _).
  apply (handleEvent_guard _ now c1 ch); [done|]. apply (held_after _ _ _ c1); try done. by apply (guard_own live loose now c1).
Qed.

Lemma timers_last_tail tp p q active : timers_last tp p (q :: active) -> timers_last tp p active.
Proof. intros H l1 l2 ->. specialize (H (q :: l1) l2 eq_refl). set_solver. Qed.

(** What is left of a round: the objects exist, the connection is not behind the timers,
    and while it waits for its turn it stays open. *)
Record round_left live (active : list Z) c : Prop := {
  rl_live q : q ∈ active -> q ∈ r_live live;
  rl_once : NoDup active;
  rl_last : timers_last (s_timer st) (s_channel st) active;
  rl_own : s_channel st ∈ active -> stage_of c = LUp /\ hup_ok (r_revents live) = true
}.

Lemma round_step live loose now q active c :
  held live loose c -> round_left live (q :: active) c ->
  wp (handle_active tid now q c) (fun c' => held_from c live loose c' /\ round_left live active c').
Proof.
  intros Hh [Hin Hnd Hlast Hown]. apply NoDup_cons in Hnd as [Hq Hnd].
  pose proof (timers_last_tail _ _ _ _ Hlast) as Hlast'.
  assert (forall c', (s_channel st ∈ active -> stage_of c' = LUp) -> round_left live active c') as Hleft.
  { intros c' Hup. split; try done; [intros q' H; apply Hin; by right|].
    intros H. split; [by apply Hup|]. apply Hown. by right. }
  destruct (decide (q = s_channel st)) as [->|Hne].
  - destruct Hown as [Hup Hhup]; [by left|]. eapply wp_mono; [by apply active_own|].
    intros c1 H1. split; [done|]. by apply Hleft.
  - eapply wp_mono; [apply (active_other live loose now q c); [done|apply Hin; by left|done]|].
    intros c1 [H1 H2]. split; [done|]. apply Hleft. intros Hp. rewrite H2; [apply Hown; by right|]. intros ->.
    apply list_elem_of_split in Hp as (l1 & l2 & ->).
    specialize (Hlast (s_timer st :: l1) l2 eq_refl). set_solver.
Qed.

Lemma round_held live loose now active c :
  held live loose c -> round_left live active c -> wp (for_each (handle_active tid now) active c) (held live loose).
Proof.
  revert c. induction active as [|q active IH]; intros c Hh Hl; simpl; [done|].
  eapply wp_bind; [by apply round_step|]. intros c1 [[H1 _] H2]. by apply IH.
Qed.

(** ** Functors *)
Lemma pending_timely f c j :
  f = FUser j -> pending_ok f -> (is_destroy f = true -> stage_of c = LClosed) -> job_timely j c.
Proof. intros -> Hp Hd. destruct j; try done. by apply Hd. Qed.

(** [ef]: what [cancelInLoop] reads from the node it has erased. *)
Section turn.
Context (ef : Z -> Z).

(** What is left of a batch: functors of the connection and cancelled timers;
    [connectDestroyed] finds the connection closed. *)
Definition batch_left (fs : list (Functor job)) c : Prop :=
  Forall pending_ok fs /\ (existsb is_destroy fs = true -> stage_of c = LClosed).

Lemma functor_step live loose f fs c :
  held live loose c -> batch_left (f :: fs) c ->
  wp (run_pending ef tid f c) (fun c' => held_from c live loose c' /\ batch_left fs c').
Proof.
  intros Hh [[Hf Hfs]%Forall_cons Hd]. simpl existsb in Hd.
  assert (forall c', held_from c live loose c' -> batch_left fs c') as Hb.
  { intros c' H1. split; [done|]. intros Ed. apply (proj1 (proj2 H1)), Hd. rewrite Ed. apply orb_true_r. }
  unfold run_pending. destruct (pending_job f Hf) as [(j & Ef & Hj)|[id ->]]; simpl run_functor.
  - assert (job_timely j c) as Ht by (eapply pending_timely; [done|done|]; intros Ed; apply Hd; by rewrite Ed).
    subst f. simpl run_functor. eapply wp_bind; [by apply run_user_held|].
    intros [c1 threw] [H1 H2]. simpl in *. subst threw. auto.
  - rewrite (safe_in_loop tid st live loose c) by apply Hh.
    pose proof (cancel_core tid st ef live loose id c (proj1 Hh)) as Hq.
    unfold h_timers in Hq. simpl. destruct (TimerQueue.cancelInLoop _ _ _ _) as [q|e]; [|done]. simpl.
    enough (held_from c live loose (on_loop (with_timers q) c)) by auto. apply held_same; try done. apply held_put; try done.
    apply (safe_put tid st live live loose); [apply Hh|done|done].
Qed.

Lemma functors_held live loose fs c :
  held live loose c -> batch_left fs c -> wp (for_each (run_pending ef tid) fs c) (held live loose).
Proof.
  revert c. induction fs as [|f fs IH]; intros c Hh Hb; cbn [for_each]; [done|].
  eapply wp_bind; [by apply functor_step|]. intros c1 [[H1 _] H2]. by apply IH.
Qed.

(** The functors that are pending can be run, and are taken out of the queue. *)
Lemma batch_taken live loose c : held live loose c -> batch_left (pendingFunctors_ (h_loop (loop c))) c.
Proof. intros (Hs & _ & _ & Hw & _). split; [exact (safe_pending _ _ _ _ _ Hs)|exact (wi_destroy _ Hw)]. Qed.

Definition take_batch c : TcpConnection (host K E) :=
  on_loop (with_pending []) (on_loop (fun l => with_flags (looping_ l) (quit_ l) true l) c).

Lemma take_batch_held live loose c : held live loose c -> held (keeping [] live) loose (take_batch c).
Proof.
  intros Hh. set (l := h_loop (loop c)).
  apply (held_on (put_loop (with_pending [] (with_flags (looping_ l) (quit_ l) true l))) live _ loose loose c); try done.
  apply (safe_queue tid st live [] loose c); try done. apply Hh.
Qed.

Lemma pending_held live loose c :
  held live loose c -> wp (doPendingFunctors ef tid c) (held (keeping [] live) loose).
Proof.
  intros Hh. unfold doPendingFunctors. cbv zeta. eapply (wp_bind _ _ (held (keeping [] live) loose)).
  - apply functors_held; [by apply take_batch_held|]. exact (batch_taken live loose c Hh).
  - intros c1 H1. by apply held_frame.
Qed.

(** ** A turn *)

(** What is reported of the connection: it is open, and the events are kept in its channel. *)
Lemma reported_own live loose evs c :
  held live loose c -> wait_ok (epollFd_ (h_poller (loop c))) evs -> s_channel st ∈ ev_ptr <$> evs ->
  stage_of c = LUp /\ exists ev, ev ∈ evs /\ ev_ptr ev = s_channel st /\
    (Revents <$> with_revents evs (objects (h_poller (loop c))) !! s_channel st) = Some (s32 (ev_events ev)).
Proof.
  intros Hh Hw Hin. pose proof Hh as (Hs & _ & _ & Hwi & _).
  pose proof (co_poller _ _ _ _ _ _ (safe_core _ _ _ _ _ Hs)) as Hok. pose proof Hw as (_ & fds & Hnd & Hall).
  apply list_elem_of_fmap in Hin as (ev0 & Hp & Hev). destruct (wait_ok_live _ _ Hok Hw ev0 Hev) as (ch & Hch & Hi).
  rewrite <- Hp in Hch. split.
  - destruct Hs as (_ & [[_ Hlo] _] & _). unfold listed_ok in Hlo. rewrite (held_channel _ _ _ Hh) in Hlo.
    specialize (Hlo ch Hch). rewrite Hi in Hlo. destruct (decide (stage_of c = LUp)) as [|Hn]; [done|].
    pose proof (wi_off _ Hwi Hn) as Hl. simpl in Hl. rewrite Hl in Hlo. done.
  - unfold h_poller. rewrite (with_revents_lookup _ _ _ (reported_nodup _ _ _ Hok Hnd Hall)), Hch.
    destruct (list_find _ evs) as [[i ev]|] eqn:Ef.
    + apply list_find_Some in Ef as (Hiv & Hpv & _). exists ev. by apply list_elem_of_lookup_2 in Hiv.
    + exfalso. apply list_find_None in Ef. rewrite Forall_forall in Ef. by apply (Ef ev0 Hev).
Qed.

Lemma polled_held live loose n now c :
  held live loose c -> rounds_ok st ->
  let ret := e_wait (s_env st) n (epollFd_ (h_poller (loop c))) in
  exists po active rev, poll ret (h_poller (loop c)) [] = Ok (po, active) /\
    let live' := mkRound (list_to_set active) rev (r_keep live) in
    held live' loose (polled active now po c) /\ round_left live' active (polled active now po c).
Proof.
  intros Hh Hro ret. pose proof Hh as (Hs & _). pose proof (co_poller _ _ _ _ _ _ (safe_core _ _ _ _ _ Hs)) as Hok.
  assert (env_ok (s_env st)) as He by (destruct Hs as (_ & [[(He & _) _] _] & _); exact He).
  assert (forall evs, ret = Done evs -> wait_ok (epollFd_ (h_poller (loop c))) evs) as Hw
    by (intros evs; apply (eo_wait _ He)).
  destruct (polled_safe tid st user live loose ret now c Hs Hw) as (po & active & rev & E1 & Hrev & Hs').
  exists po, active, rev. split; [done|]. split; [by apply (held_on _ live _ loose loose c)|].
  destruct ret as [err|evs] eqn:Eret.
  - assert (active = []) as -> by (simpl in E1; destruct (negb _); congruence).
    split; [by intros q ?%elem_of_nil|constructor|intros [] l2; done|by intros ?%elem_of_nil].
  - specialize (Hw evs eq_refl). destruct (poll_ok evs (h_poller (loop c)) [] Hok Hw) as [E2 _]. rewrite E1 in E2.
    injection E2 as -> ->. simpl app. destruct (Hro n _ evs Eret) as [Hlast Hhup].
    pose proof Hw as (_ & fds & Hnd & Hall).
    split; [intros q Hq; by apply elem_of_list_to_set|by apply (reported_nodup _ _ _ Hok Hnd Hall)|done|].
    intros Hin. destruct (reported_own live loose evs c Hh Hw Hin) as (Hup & ev & Hev & Hp & Hr). split; [done|].
    rewrite (held_channel _ _ _ Hh) in Hrev. simpl objects in Hrev. rewrite Hr in Hrev. injection Hrev as <-. by apply Hhup.
Qed.

Lemma iteration_held live loose c :
  held live loose c -> rounds_ok st -> wp (iteration ef tid c) (fun c' => exists live', held live' loose c').
Proof.
  intros Hh Hro. set (n := h_tick (loop c)). set (now := e_clock (h_env (loop c)) (S n)).
  set (c1 := on_host tick (on_host tick c)).
  assert (held live loose c1) as H1 by (by apply held_tick, held_tick).
  assert (h_env (loop c) = s_env st) as He by (destruct Hh as ((_ & [[(_ & He & _) _] _] & _) & _); exact He).
  destruct (polled_held live loose n now c1 H1 Hro) as (po & active & rev & E1 & H2 & Hleft).
  rewrite <- He in E1. change (h_poller (loop c1)) with (h_poller (loop c)) in E1.
  pose proof (iteration_eq tid user ef c po active E1) as Eq. fold c1 n now in Eq.
  change (iteration (LoopWorld0 := life_world) ef tid c = turn_rest tid user ef now active (polled active now po c1)) in Eq.
  rewrite Eq. unfold turn_rest.
  eapply (wp_bind _ _ (held (mkRound (list_to_set active) rev (r_keep live)) loose)).
  - by apply round_held.
  - intros c2 H3. eapply wp_mono; [apply (pending_held (mkRound (list_to_set active) rev (r_keep live)) loose)|by eauto].
    by apply held_frame.
Qed.

End turn.

Lemma turns_held live loose n c :
  held live loose c -> rounds_ok st -> wp (turns user n c) (fun c' => exists live', held live' loose c').
Proof.
  intros Hh Hro. revert live c Hh. induction n as [|n IH]; intros live c Hh; simpl; [by exists live|].
  eapply (wp_bind _ _ (fun c' => exists live', held live' loose c')); [|intros c1 [live' H1]; exact (IH live' c1 H1)].
  unfold reactor_turn, h_tid. rewrite (co_thread _ _ _ _ _ _ (safe_core _ _ _ _ _ (proj1 Hh))).
  apply (iteration_held _ live); done.
Qed.

(** ** From construction on *)
Lemma start_held env fd owner :
  start_ok (E := E) tid st env fd -> wp (start user env (s_channel st) fd owner (s_env st)) (held (mkRound ∅ 0 []) ∅).
Proof.
  intros Hs. destruct (start_new tid st user env fd owner Hs) as (c & -> & Hc & (now & E1) & Hcl & Hp & Hl & Hd).
  destruct (served_new (S := host K E) now (loop c)) as (c' & E2 & Hc' & Ht & _ & Hst); [exact Hcl|exact Hp|]. rewrite E1 in E2. injection E2 as <-.
  assert (stage_of c = LConnecting) as Hstage by (unfold stage_of; by rewrite Hst).
  assert (watch_inv c) as Hw.
  { split; simpl; [by rewrite Hstage|done|]. unfold h_destroy. by rewrite Hd. }
  eapply wp_mono; [apply (wp_and _ (safe tid st (mkRound ∅ 0 []) ∅) (fun c1 => good (established c) c1 /\ told (established c)))|].
  - apply (established_safe tid st user); [done|by rewrite Hst].
  - intros c1 (c2 & Ec1 & ->%raise_Ok)%bind_Ok. destruct (established_good user c c1 Hc' Hst Ec1) as (Hg & _ & Hn). split; [done|].
    unfold told in *. rewrite Hn, Ht, Hstage. done.
  - intros c1 (H1 & (H2 & H3 & H4) & H5). split; [done|]. split_and!; [done|by eapply live_told| |].
    + apply H4. by apply established_watch.
    + destruct H3 as [[-> _]|(_ & -> & _)]; done.
Qed.

Lemma start_order env fd owner c :
  start_ok (E := E) tid st env fd -> start user env (s_channel st) fd owner (s_env st) = Ok c -> QueueUser user ->
  keeps_order (c_pending c) c.
Proof.
  intros Hs E1 Hq. destruct (start_new tid st user env fd owner Hs) as (c0 & Eq & _ & (now & E2) & _ & _ & _ & Hp).
  rewrite Eq in E1. apply bind_Ok in E1 as (c2 & E1 & ->%raise_Ok). assert (state_ c0 = kConnecting) as Hst by (unfold TcpConnection_new in E2; inv_res; by rewrite <- E2).
  apply (fills_order [] c0); [by apply (connectEstablished_fills user)|]. unfold c_pending. rewrite Hp. apply nothing_ordered.
Qed.
End life.

(** The echo server follows the life of the connection. *)
#[global] Instance echo_served {K E} `{!Epoll K} `{!EventFd E} strict : ServedUser (echo_server (K := K) (E := E) strict).
Proof.
  split; [apply _| |].
  - intros k c c' Hc Hk E1. destruct k; simpl in E1; try (injection E1 as <-; by apply good_refl); [|done].
    unfold echo_back in E1. apply bind_Ok in E1 as ([m c1] & E1 & E2). injection E2 as <-.
    assert (good c (on_host tick c)) as H0 by (apply calm_good; [done|apply conn_inv_loop, Hc|by apply calm_set_loop]).
    pose proof (ci_in _ (sv_conn _ Hc)) as Hw.
    assert (good (on_host tick c) c1) as H1
      by (eapply (send_buffer_good true); [apply H0|exact Hw|apply at_most_ok, u64_bound|exact E1]).
    eapply good_trans; [exact H0|]. eapply good_trans; [exact H1|]. apply calm_good; [apply H1| |apply calm_input].
    eapply send_buffer_inv in E1 as [[] Hm]; [by split|by apply conn_inv_loop, Hc|exact Hw|apply at_most_ok, u64_bound].
  - intros c c' Hc Hs E1. simpl in E1. unfold remove_connection in E1. inv_res.
    destruct (queueInLoop_frame (h_loop (loop c)) (h_tid (loop c)) (FUser JDestroyed)) as (l & El & _ & _ & _ & _ & Hf).
    assert (a0 = l) as -> by congruence.
    split_and!; try done; [apply closed_inv; [apply conn_inv_loop, Hc|done]|].
    assert (stage_of c = LClosed) as Hst by (by apply stage_closed).
    intros [W1 W2 W3]. split; simpl; auto.
Qed.

(** ** Properties *)

(** On the real loop the close callback runs exactly once.  A thread constructs its
    loop and accepts a connection, and the loop takes any number of turns, whatever is
    reported, read and written and whichever timers fire; the user's callbacks keep the
    loop consistent and follow the life of the connection.  If no round reports the timer
    queue ahead of the connection, then after any number of turns the close callback has
    run once if the connection is disconnected and not at all before. *)
Theorem reactor_closes_once {K E : Type} `{!Epoll K, !EpollOpen K} `{!EventFd E} (tid : Z) (st : site K)
    (user : user_call -> TcpConnection (host K E) -> res (TcpConnection (host K E)))
    `{!ReactorUser tid st user} `{!ServedUser user} (env : new_env) (fd owner : Z) (n : nat) :
  start_ok (K := K) (E := E) tid st env fd -> rounds_ok st ->
  wp (c ← start user env (s_channel st) fd owner (s_env st); turns user n c) (fun c =>
    h_closes (loop c) = (if decide (state_ c = kDisconnected) then 1 else 0)%nat /\
    (state_ c = kConnected \/ state_ c = kDisconnecting \/ state_ c = kDisconnected)).
Proof.
  intros Hs Hro. eapply wp_bind; [exact (start_held tid st user env fd owner Hs)|].
  intros c Hc. eapply wp_mono; [exact (turns_held tid st user (mkRound ∅ 0 []) ∅ n c Hc Hro)|].
  intros c1 (live & _ & _ & Ht & _ & Hst). split.
  - unfold told in Ht. simpl in Ht. rewrite Ht. pose proof (stage_closed c1). do 2 case_decide; tauto.
  - unfold stage_of in Hst. destruct (state_ c1); naive_solver.
Qed.

(** The run of [Reactor.v]: five bytes are echoed, then the peer hangs up. *)
Lemma one_bit k m : 0 <= k -> Z.land (2 ^ k) m = 0 \/ Z.land (2 ^ k) m = 2 ^ k.
Proof.
  intros Hk. destruct (Z.testbit m k) eqn:Eb; [right|left]; apply Z.bits_inj'; intros i Hi;
    rewrite Z.land_spec, Z.pow2_bits_eqb, ?Z.bits_0 by done; destruct (Z.eqb_spec k i) as [<-|]; by rewrite ?Eb.
Qed.

Lemma single_round k fd b p :
  0 <= b -> hup_ok (s32 (2 ^ b)) = true ->
  (forall tp, timers_last tp p (ev_ptr <$> report k [(fd, 2 ^ b)])) /\
  (forall ev, ev ∈ report k [(fd, 2 ^ b)] -> hup_ok (s32 (ev_events ev)) = true).
Proof.
  intros Hb Hh. unfold report, report_one. simpl. destruct (se_list k !! fd) as [ev|]; simpl.
  2:{ split; [intros tp [] l2; done|intros ev H%elem_of_nil; done]. }
  set (m := Z.lor (ev_events ev) _). destruct (one_bit b m Hb) as [E1|E1]; rewrite E1; simpl.
  - split; [intros tp [] l2; done|intros ev' H%elem_of_nil; done].
  - destruct (_ =? 0); simpl; [split; [intros tp [] l2; done|intros ev' H%elem_of_nil; done]|]. split.
    + intros tp l1 l2 Hl. destruct l1 as [|x [|]]; [set_solver|done..].
    + intros ev' H%list_elem_of_singleton. by rewrite H.
Qed.

Lemma demo_rounds_ok : rounds_ok demo_site.
Proof.
  intros n k evs [= <-].
  assert (demo_rounds n = [] \/ exists b, demo_rounds n = [(7, 2 ^ b)] /\ 0 <= b /\ hup_ok (s32 (2 ^ b)) = true) as [->|(b & -> & Hb & Hh)].
  { do 12 (destruct n as [|n]; [first [by left | right; first [by exists 0 | by exists 2 | by exists 4]]|]). by left. }
  - split; [intros [] l2; done|intros ev H%elem_of_nil; done].
  - destruct (single_round k 7 b 13 Hb Hh) as [H1 H2]. split; [apply H1|intros ev Hev _; by apply H2].
Qed.

Lemma reactor_closes_once_witness :
  exists c, demo_serve 4 = Ok c /\ state_ c = kDisconnected /\ h_closes (loop c) = 1%nat.
Proof.
  destruct demo_serves as (c & E1 & Hs & _). exists c. split; [exact E1|]. split; [exact Hs|].
  pose proof (reactor_closes_once 100 demo_site (echo_server false) demo_env 7 50 4 demo_start demo_rounds_ok) as H.
  apply (wp_Ok _ _ _ H) in E1 as [E1 _]. rewrite Hs in E1. exact E1.
Defined.
