(* ===== verification/ReactorThreads.v ===== *)
(** * ReactorThreads: the reactor used by several threads

    In [Reactor.v] nobody but the loop thread touches the connection.  Here other threads
    call its interface ([send], [shutdown], [forceClose] and the timer functions of
    [src/base/TcpConnection.cpp]) while the loop of [src/base/Eventloop.cpp] runs.  The
    loop takes a step from polling, the handling of each reported channel, taking the
    pending functors and each functor to the next; a call takes a step from each access to
    a member of the connection, and each call of the loop, to the next.  Steps of all
    threads follow each other in any order: a call may be interrupted anywhere, also
    between the test of [state_] and what depends on it.  (A callback of the loop is one
    step, and accesses take effect in the order of the steps.)

    Most of what is shown needs that no call is overtaken by the close of the connection,
    [never_overtaken]; what happens otherwise is shown at the end of the file. *)
From Stdlib Require Import Strings.Byte.
From S2P Require Import Prelude Buffer Timestamp StdSet TimerQueue TimerSafe Channel EpollPoller EventLoop LoopRun.
From S2P Require Import TcpConnection TcpSpec ServedConn HostedConn LoopHost Reactor QueuedConn ReactorLife.

(** ** Calls of other threads *)

Inductive thread_call :=
  | CallSend (message : list byte)
  | CallShutdown
  | CallForceClose
  | CallConnectionTimeout (seconds : double)
  | CallIdleTimeout (seconds : double)
  | CallKeepAlive (enable : bool) (interval : Z).

Definition call_ok (x : thread_call) : Prop :=
  match x with CallSend m => zlen m <= max_size | _ => True end.

(** Where a thread is in its call: the access it does next. *)
Inductive access :=
  | TestSend (message : list byte)
  | TestShutdown
  | TestForceClose
  | Assign (t : conn_task)
  | Enqueue (t : conn_task)
  | StoreIdle (seconds : double)
  | TestIdle
  | TestIdleTimer
  | CopyIdleTimer
  | ClearIdleTimer
  | StoreEnabled (enable : bool) (interval : Z)
  | StoreInterval (enable : bool) (interval : Z)
  | TestKeepAliveTimer
  | CopyKeepAliveTimer
  | ClearKeepAliveTimer
  | Cancel (id : TimerId) (idle : bool).

Definition first_access (x : thread_call) : access :=
  match x with
  | CallSend m => TestSend m
  | CallShutdown => TestShutdown
  | CallForceClose => TestForceClose
  | CallConnectionTimeout s => Enqueue (TSetConnectionTimeoutInLoop s)
  | CallIdleTimeout s => StoreIdle s
  | CallKeepAlive en n => StoreEnabled en n
  end.

Section calls.
Context {K E : Type} `{!Epoll K} `{!EventFd E} (i : Z).
Implicit Types (c : TcpConnection (host K E)) (h : host K E).

(** [loop_->queueInLoop(t)] in thread [i]: [h_post] for any caller. *)
Definition h_post_from (t : conn_task) h : res (host K E) :=
  l ← queueInLoop i (FUser (JTask t)) (h_loop h);
  Ok (with_posted (h_posted h ++ [t]) (put_loop l h)).

(** One access of a thread other than the loop's, and the next one of the call.
    [setState(kDisconnecting)] is [Assign], [loop_->runInLoop] is [Enqueue] and
    [loop_->cancel] is [Cancel]. *)
Definition do_access (p : access) c : res (TcpConnection (host K E) * option access) :=
  match p with
  | TestSend m => Ok (c, if decide (state_ c = kConnected) then Some (Enqueue (TSendInLoop m)) else None)
  | TestShutdown => Ok (c, if decide (state_ c = kConnected) then Some (Assign TShutdownInLoop) else None)
  | TestForceClose => Ok (c, if open_or_closing c then Some (Assign TForceCloseInLoop) else None)
  | Assign t => Ok (set_state kDisconnecting c, Some (Enqueue t))
  | Enqueue t => h ← h_post_from t (loop c); Ok (set_loop h c, None)
  | StoreIdle s =>
      Ok (set_timing s (keepAliveInterval_ c) (keepAliveEnabled_ c) (lastActivityTime_ c) c,
          Some (if dltb dzero s then TestIdle else TestIdleTimer))
  | TestIdle => Ok (c, if dleb (idleTimeout_ c) dzero then None else Some (Enqueue TResetIdleTimerInLoop))
  | TestIdleTimer => Ok (c, if isValid (idleTimerId_ c) then Some CopyIdleTimer else None)
  | CopyIdleTimer => Ok (c, Some (Cancel (idleTimerId_ c) true))
  | ClearIdleTimer =>
      Ok (set_timers (connectionTimeoutTimerId_ c) TimerId_default (keepAliveTimerId_ c) c, None)
  | StoreEnabled en n =>
      Ok (set_timing (idleTimeout_ c) (keepAliveInterval_ c) en (lastActivityTime_ c) c, Some (StoreInterval en n))
  | StoreInterval en n =>
      Ok (set_timing (idleTimeout_ c) (double_of_int n) (keepAliveEnabled_ c) (lastActivityTime_ c) c,
          Some (if en then Enqueue TSetupKeepAliveTimer else TestKeepAliveTimer))
  | TestKeepAliveTimer => Ok (c, if isValid (keepAliveTimerId_ c) then Some CopyKeepAliveTimer else None)
  | CopyKeepAliveTimer => Ok (c, Some (Cancel (keepAliveTimerId_ c) false))
  | ClearKeepAliveTimer =>
      Ok (set_timers (connectionTimeoutTimerId_ c) (idleTimerId_ c) TimerId_default c, None)
  | Cancel id idle =>
      h ← EventLoop.cancel (e_erased (h_env (loop c))) i id (loop c);
      Ok (set_loop h c, Some (if idle then ClearIdleTimer else ClearKeepAliveTimer))
  end.

(** The connection has been closed since the test on which the access depends. *)
Definition overtaken (p : access) c : bool :=
  match p with
  | Assign _ => negb (open_or_closing c)
  | Enqueue t => plain_this (FUser (JTask t)) && negb (open_or_closing c)
  | _ => false
  end.

(** *** The call in one piece

    The loop as thread [i] sees it.  Only [post] and [cancel_timer] are used from outside
    the loop thread. *)
Definition calls_from : ConnLoop (host K E) := {|
  post t h := settle (with_posted (h_posted h ++ [t]) h) (h_post_from t h);
  update_channel := update_channel;
  remove_channel := remove_channel;
  run_after := run_after;
  run_every := run_every;
  cancel_timer id h := settle h (EventLoop.cancel (e_erased (h_env h)) i id h);
  clock := clock;
  armed := armed
|}.
#[local] Existing Instance calls_from.

(** The member functions of [TcpConnection.v]; what [isInLoopThread] answers decides. *)
Definition call_from (user : user_call -> TcpConnection (host K E) -> res (TcpConnection (host K E)))
    (x : thread_call) c : res (TcpConnection (host K E)) :=
  let b := isInLoopThread i (h_loop (loop c)) in
  match x with
  | CallSend m => send b m (Done 0) c
  | CallShutdown => Ok (shutdown b c)
  | CallForceClose => forceClose user b c
  | CallConnectionTimeout s => setConnectionTimeout b s c
  | CallIdleTimeout s => setIdleTimeout b s c
  | CallKeepAlive en n => enableKeepAlive b en n c
  end.
End calls.

(** ** A turn in steps *)

(** Where the loop thread is: about to poll; handling what was reported at [now], the
    channels [active] to go; running functors, the rest of the batch to go. *)
Inductive phase :=
  | AtPoll
  | Handling (now : Timestamp) (active : list Z)
  | Running (functors : list (Functor job)).

(** [rc_turns] counts the turns completed, [rc_ran] lists the functors run; [rc_calls] are
    the calls of other threads in progress. *)
Record reactor (K E : Type) := mkReactor {
  rc_phase : phase;
  rc_conn : TcpConnection (host K E);
  rc_turns : nat;
  rc_ran : list (Functor job);
  rc_calls : gmap Z access
}.
Arguments mkReactor {K E}. Arguments rc_phase {K E}. Arguments rc_conn {K E}. Arguments rc_turns {K E}.
Arguments rc_ran {K E}. Arguments rc_calls {K E}.

(** A step of the loop; thread [i], if it is not in a call, enters one; it does the next
    access of its call. *)
Inductive event := LoopStep | Begin (i : Z) (x : thread_call) | Continue (i : Z).

Section steps.
Context {K E : Type} `{!Epoll K} `{!EventFd E}.
Context (user : user_call -> TcpConnection (host K E) -> res (TcpConnection (host K E))) (ef : Z -> Z) (tid : Z).
Implicit Types (c : TcpConnection (host K E)) (s : reactor K E).
#[local] Hint Extern 0 (LoopWorld _ _ _ _) => exact (the_world user) : typeclass_instances.

(** [poller_->poll(...)] and what [loop()] stores of it. *)
Definition poll_channels c : res (Timestamp * list Z * TcpConnection (host K E)) :=
  let '(ret, c) := wait c in
  let '(now, c) := read_clock c in
  '(po, active) ← poll ret (poller_ (loop_ c)) [];
  Ok (now, active, on_loop (fun l => with_active now active (currentActiveChannel_ l) (with_poller po l)) c).

Definition reactor_step s : res (reactor K E) :=
  let c := rc_conn s in
  let n := rc_turns s in
  let ran := rc_ran s in
  let m := rc_calls s in
  match rc_phase s with
  | AtPoll =>
      '(now, active, c) ← poll_channels c; Ok (mkReactor (Handling now active) c n ran m)
  | Handling now (q :: active) =>
      c ← handle_active tid now q c; Ok (mkReactor (Handling now active) c n ran m)
  | Handling now [] =>
      let c := on_loop (fun l => with_active (pollReturnTime_ l) (activeChannels_ l) nullptr l) c in
      Ok (mkReactor (Running (pendingFunctors_ (h_loop (loop c)))) (take_batch user c) n ran m)
  | Running (f :: fs) =>
      c ← run_pending ef tid f c; Ok (mkReactor (Running fs) c n (ran ++ [f]) m)
  | Running [] =>
      Ok (mkReactor AtPoll (on_loop (fun l => with_flags (looping_ l) (quit_ l) false l) c) (S n) ran m)
  end.

(** Thread [i] is left at [next], or out of its call. *)
Definition with_call (i : Z) (next : option access) c s : reactor K E :=
  mkReactor (rc_phase s) c (rc_turns s) (rc_ran s) (partial_alter (fun _ => next) i (rc_calls s)).

Definition perform (ev : event) s : res (reactor K E) :=
  match ev with
  | LoopStep => reactor_step s
  | Begin i x =>
      match rc_calls s !! i with
      | Some _ => Ok s
      | None => Ok (with_call i (Some (first_access x)) (rc_conn s) s)
      end
  | Continue i =>
      match rc_calls s !! i with
      | Some p => '(c, next) ← do_access i p (rc_conn s); Ok (with_call i next c s)
      | None => Ok s
      end
  end.
Definition performs : list event -> reactor K E -> res (reactor K E) := for_each perform.

(** No access of [es] comes too late. *)
Definition overtakes (ev : event) s : bool :=
  match ev with
  | Continue i => match rc_calls s !! i with Some p => overtaken p (rc_conn s) | None => false end
  | _ => false
  end.
Fixpoint never_overtaken (es : list event) s : bool :=
  match es with
  | [] => true
  | ev :: es =>
      negb (overtakes ev s) && match perform ev s with Ok s => never_overtaken es s | Fault _ => true end
  end.

Lemma never_overtaken_app es1 es2 s :
  never_overtaken (es1 ++ es2) s = true ->
  never_overtaken es1 s = true /\ forall s1, performs es1 s = Ok s1 -> never_overtaken es2 s1 = true.
Proof.
  revert s. induction es1 as [|ev es1 IH]; intros s H; [split; [done|]; by intros s1 [= <-]|].
  simpl in H |- *. apply andb_true_iff in H as [H1 H2]. rewrite H1. simpl.
  destruct (perform ev s) as [s'|e] eqn:E1; [|split; [done|]; intros s1 E2; unfold performs in E2; simpl in E2; by rewrite E1 in E2].
  destruct (IH s' H2) as [H3 H4]. split; [done|].
  intros s1 E2. apply H4. unfold performs in *. simpl in E2. by rewrite E1 in E2.
Qed.

(** *** The lifetime of the connection

    The server, or the functor [connectDestroyed] it queues, owns the connection until that
    functor has been run.  Then the connection exists only as long as a timer, a functor or
    a thread in one of its calls holds it: to run a functor that holds it by a plain
    pointer, or to handle an event of its channel, is a use of freed memory. *)
Definition released s : bool := existsb is_destroy (rc_ran s).

Definition uses_freed (channel : Z) (ev : event) s : bool :=
  released s &&
  match ev, rc_phase s with
  | LoopStep, Handling _ (q :: _) => q =? channel
  | LoopStep, Running (f :: _) => plain_this f
  | _, _ => false
  end.

Definition perform_alive (channel : Z) (ev : event) s : res (reactor K E) :=
  if uses_freed channel ev s then Fault DanglingPointer else perform ev s.
Definition performs_alive (channel : Z) : list event -> reactor K E -> res (reactor K E) :=
  for_each (perform_alive channel).

(** [k] steps of the loop alone. *)
Definition alone (k : nat) : reactor K E -> res (reactor K E) := performs (replicate k LoopStep).

Lemma alone_S k s : alone (S k) s = (s' ← reactor_step s; alone k s').
Proof. done. Qed.

(** *** The steps of the loop alone are the turn of [EventLoop.v] *)
Ltac one_step := rewrite alone_S; unfold reactor_step; cbn [rc_phase rc_conn rc_turns rc_ran rc_calls]; cbv zeta.

Lemma running_alone fs c n ran m : exists k,
  alone k (mkReactor (Running fs) c n ran m) =
  (c' ← for_each (run_pending ef tid) fs c;
   Ok (mkReactor AtPoll (on_loop (fun l => with_flags (looping_ l) (quit_ l) false l) c') (S n) (ran ++ fs) m)).
Proof.
  revert c ran. induction fs as [|f fs IH]; intros c ran; [exists 1%nat; by rewrite app_nil_r|]. cbn [for_each].
  destruct (run_pending ef tid f c) as [c1|e] eqn:E1.
  - destruct (IH c1 (ran ++ [f])) as [k Hk]. exists (S k). one_step. by rewrite E1, !bind_ret_l, Hk, <- (assoc_L (++)).
  - exists 1%nat. one_step. by rewrite E1.
Qed.

Lemma handling_alone now active c n ran m : exists k fs,
  alone k (mkReactor (Handling now active) c n ran m) =
  (c' ← turn_rest tid user ef now active c; Ok (mkReactor AtPoll c' (S n) (ran ++ fs) m)).
Proof.
  revert c. unfold turn_rest. induction active as [|q active IH]; intros c; cbn [for_each].
  - set (c1 := on_loop (fun l => with_active (pollReturnTime_ l) (activeChannels_ l) nullptr l) c).
    set (fs := pendingFunctors_ (h_loop (loop c1))).
    destruct (running_alone fs (take_batch user c1) n ran m) as [k Hk]. exists (S k), fs. one_step.
    fold c1 fs. rewrite bind_ret_l, Hk. rewrite bind_ret_l. unfold doPendingFunctors, take_batch. cbv zeta. fold c1.
    change (pendingFunctors_ (loop_ (on_loop _ c1))) with fs.
    by destruct (for_each _ _ _).
  - destruct (handle_active tid now q c) as [c1|e] eqn:E1.
    + destruct (IH c1) as (k & fs & Hk). exists (S k), fs. one_step. by rewrite E1.
    + exists 1%nat, []. one_step. by rewrite E1.
Qed.

Lemma turn_alone c n ran m : exists k fs,
  alone k (mkReactor AtPoll c n ran m) = (c' ← iteration ef tid c; Ok (mkReactor AtPoll c' (S n) (ran ++ fs) m)).
Proof.
  assert (iteration ef tid c = ('(now, active, c1) ← poll_channels c; turn_rest tid user ef now active c1)) as ->.
  { unfold iteration, poll_channels. destruct (wait c) as [ret c2]. destruct (read_clock c2) as [now' c3].
    by destruct (poll _ _ _) as [[po act]|]. }
  destruct (poll_channels c) as [[[now active] c1]|e] eqn:E1.
  - destruct (handling_alone now active c1 n ran m) as (k & fs & Hk). exists (S k), fs. one_step. by rewrite E1.
  - exists 1%nat, []. one_step. by rewrite E1.
Qed.

(** *** The steps of a call alone are the call of [TcpConnection.v] *)

(** Thread [i], at [p] and not interrupted, ends its call with [c']. *)
Definition ends_call (i : Z) (p : access) c c' : Prop :=
  exists k, forall s, rc_conn s = c -> rc_calls s !! i = Some p ->
    performs (replicate k (Continue i)) s = Ok (with_call i None c' s).

Lemma ends_now i p c c' : do_access i p c = Ok (c', None) -> ends_call i p c c'.
Proof. intros E1. exists 1%nat. intros s <- Hp. unfold performs. simpl. by rewrite Hp, E1. Qed.

Lemma ends_later i p q c c1 c' : do_access i p c = Ok (c1, Some q) -> ends_call i q c1 c' -> ends_call i p c c'.
Proof.
  intros E1 [k Hk]. exists (S k). intros s <- Hp.
  change (performs _ s) with (s ← perform (Continue i) s; performs (replicate k (Continue i)) s).
  simpl perform. rewrite Hp, E1, !bind_ret_l.
  rewrite (Hk (with_call i (Some q) c1 s)); [|done|simpl; apply lookup_partial_alter_eq].
  unfold with_call. simpl. by rewrite partial_alter_partial_alter_eq.
Qed.

(** [queueInLoop] does not fail. *)
Lemma enqueue_eq i t c : do_access i (Enqueue t) c = Ok (queue_task (ConnLoop0 := calls_from i) t c, None).
Proof.
  destruct (queueInLoop_frame (h_loop (loop c)) i (FUser (JTask t))) as (l & E1 & _).
  unfold do_access, queue_task, post. simpl. unfold h_post_from. by rewrite E1.
Qed.

Lemma cancel_eq_from i id c b :
  isInLoopThread i (h_loop (loop c)) = false -> isValid id = true ->
  do_access i (Cancel id b) c =
    Ok (cancel_if_valid (ConnLoop0 := calls_from i) id c, Some (if b then ClearIdleTimer else ClearKeepAliveTimer)).
Proof.
  intros Hi Hv. destruct (queueInLoop_frame (h_loop (loop c)) i (FCancelInLoop id)) as (l & E1 & _).
  unfold do_access, cancel_if_valid. rewrite Hv. simpl. unfold EventLoop.cancel, queue_cancel, runInLoop.
  rewrite Hv. simpl. rewrite Hi. unfold try_loop. simpl. by rewrite E1.
Qed.

Ltac call_step := eapply ends_later; [cbn [do_access]; try done|].

Lemma call_ends i x c c' :
  isInLoopThread i (h_loop (loop c)) = false -> call_from i user x c = Ok c' -> ends_call i (first_access x) c c'.
Proof.
  intros Hi. unfold call_from. rewrite Hi. destruct x as [m| | |s|s|en n]; cbn [first_access]; cbv zeta iota beta.
  - unfold send. case_decide as Hs; intros [= <-].
    + call_step; [by rewrite decide_True|]. apply ends_now, enqueue_eq.
    + apply ends_now. simpl. by rewrite decide_False.
  - unfold shutdown. intros [= <-]. case_decide as Hs.
    + call_step; [by rewrite decide_True|]. call_step. apply ends_now, enqueue_eq.
    + apply ends_now. simpl. by rewrite decide_False.
  - unfold forceClose. destruct (open_or_closing c) eqn:Eo; intros [= <-].
    + call_step; [by rewrite Eo|]. call_step. apply ends_now, enqueue_eq.
    + apply ends_now. simpl. by rewrite Eo.
  - intros [= <-]. apply ends_now, enqueue_eq.
  - unfold setIdleTimeout. cbv zeta. set (c1 := set_timing _ _ _ _ c). intros E1. call_step. fold c1.
    destruct (dltb dzero s).
    + unfold resetIdleTimer in E1. destruct (dleb (idleTimeout_ c1) dzero) eqn:El; injection E1 as <-.
      * apply ends_now. cbn [do_access]. by rewrite El.
      * call_step; [by rewrite El|]. apply ends_now, enqueue_eq.
    + destruct (isValid (idleTimerId_ c1)) eqn:Ev; injection E1 as <-.
      * call_step; [by rewrite Ev|]. call_step. eapply ends_later; [by apply cancel_eq_from|]. by apply ends_now.
      * apply ends_now. cbn [do_access]. by rewrite Ev.
  - unfold enableKeepAlive. cbv zeta. set (c1 := set_timing _ _ _ _ c). intros E1. call_step. call_step.
    change (set_timing _ (double_of_int n) _ _ _) with c1. destruct en.
    + injection E1 as <-. apply ends_now, enqueue_eq.
    + destruct (isValid (keepAliveTimerId_ c1)) eqn:Ev; injection E1 as <-.
      * call_step; [by rewrite Ev|]. call_step. eapply ends_later; [by apply cancel_eq_from|]. by apply ends_now.
      * apply ends_now. cbn [do_access]. by rewrite Ev.
Qed.
End steps.

(** ** Safety *)
Section threads.
Context {K E : Type} `{!Epoll K, !EpollOpen K} `{!EventFd E} (tid : Z) (st : site K).
Context (user : user_call -> TcpConnection (host K E) -> res (TcpConnection (host K E))).
Context {Huser : ReactorUser tid st user}.
Implicit Types (c : TcpConnection (host K E)) (s : reactor K E) (live : round) (loose : gset Z).
#[local] Hint Extern 0 (LoopWorld _ _ _ _) => exact (the_world user) : typeclass_instances.

(** The system in which [s_env st] answers. *)
Definition ef : Z -> Z := e_erased (s_env st).

Definition event_ok (ev : event) : Prop :=
  match ev with Begin i x => i <> tid /\ call_ok x | _ => True end.

(** What a thread does next can be done: it is not the loop thread, and its data fits. *)
Definition access_ok (p : access) : Prop :=
  match p with TestSend m => zlen m <= max_size | Assign t | Enqueue t => task_ok t | _ => True end.
Definition calls_ok (m : gmap Z access) : Prop := forall i p, m !! i = Some p -> i <> tid /\ access_ok p.

(** *** What another thread's access does *)

(** It may set members that the loop's state does not depend on, and queues functors. *)
Definition queue_from (i : Z) (t : conn_task) c : TcpConnection (host K E) :=
  queue_task (ConnLoop0 := calls_from i) t c.

Lemma queue_from_eq i t c :
  exists l, queueInLoop i (FUser (JTask t)) (h_loop (loop c)) = Ok l /\
    queue_from i t c = set_loop (with_posted (h_posted (loop c) ++ [t]) (put_loop l (loop c))) c.
Proof.
  destruct (queueInLoop_frame (h_loop (loop c)) i (FUser (JTask t))) as (l & E1 & _). exists l. split; [done|].
  unfold queue_from, queue_task, post. simpl. unfold h_post_from. by rewrite E1.
Qed.

Lemma queue_from_safe live loose i t c :
  safe tid st live loose c -> task_ok t -> safe tid st live loose (queue_from i t c).
Proof.
  intros Hs Ht. pose proof (safe_core _ _ _ _ _ Hs) as Hc. destruct (queue_from_eq i t c) as (l & E1 & ->).
  destruct (queueInLoop_frame (h_loop (loop c)) i (FUser (JTask t))) as (l' & E2 & H1 & H2 & H3 & H4 & H5).
  rewrite E1 in E2. injection E2 as <-. destruct Hs as (Hi & [[He Hlo] _] & Hm).
  split; [by apply conn_inv_loop|]. split; [split; [split; [done|]|]|].
  - intros ch. unfold h_poller. simpl. rewrite H2. apply Hlo.
  - exact (queueInLoop_core tid st live loose _ _ l i (FUser (JTask t)) Hc Ht E1).
  - simpl. rewrite Hm. unfold h_mask, h_poller. simpl. by rewrite H2.
Qed.

(** A change of members only. *)
Lemma safe_members live loose c c' :
  safe tid st live loose c -> conn_inv c' -> loop c' = loop c -> events c' = events c -> safe tid st live loose c'.
Proof. intros (_ & H2 & H3) Hi Hl He. split; [done|]. by rewrite Hl, He. Qed.

(** The two together, with what the life of the connection is told. *)
Inductive called (i : Z) c : TcpConnection (host K E) -> Prop :=
  | called_members c' :
      conn_inv c' -> loop c' = loop c -> events c' = events c -> stage_of c' = stage_of c -> called i c c'
  | called_queued c' t :
      conn_inv c' -> loop c' = loop c -> events c' = events c -> stage_of c' = stage_of c -> task_ok t ->
      (plain_this (FUser (JTask t)) = true -> stage_of c = LUp) -> called i c (queue_from i t c')
  | called_cancel c' id l :
      queueInLoop i (FCancelInLoop id) (h_loop (loop c)) = Ok l -> conn_inv c' -> loop c' = put_loop l (loop c) ->
      events c' = events c -> stage_of c' = stage_of c -> called i c c'
  | called_log : conn_inv c -> called i c (on_host (put_loop (log_error (h_loop (loop c)))) c).

Lemma cancel_queued_safe live loose i id c l :
  safe tid st live loose c -> queueInLoop i (FCancelInLoop id) (h_loop (loop c)) = Ok l ->
  safe tid st live loose (on_host (put_loop l) c) /\
  pendingFunctors_ l = pendingFunctors_ (h_loop (loop c)) ++ [FCancelInLoop id].
Proof.
  intros Hs E1. destruct (queueInLoop_frame (h_loop (loop c)) i (FCancelInLoop id)) as (l' & E2 & H1 & H2 & H3 & H4 & H5).
  rewrite E1 in E2. injection E2 as <-. split; [|done]. apply (safe_put tid st live live loose loose c l Hs).
  - by apply (queueInLoop_core tid st live loose _ _ l i (FCancelInLoop id) (safe_core _ _ _ _ _ Hs)).
  - unfold h_poller. by rewrite H2.
Qed.

Lemma called_safe live loose i c c' : safe tid st live loose c -> called i c c' -> safe tid st live loose c'.
Proof.
  intros Hs [c1 H1 H2 H3|c1 t H1 H2 H3 _ H4 _|c1 id l E1 H1 H2 H3 H4|_].
  - by eapply safe_members.
  - apply queue_from_safe; [by eapply safe_members|done].
  - apply (safe_members live loose (on_host (put_loop l) c)); try done. by eapply cancel_queued_safe.
  - by apply safe_same.
Qed.

Lemma conn_disconnecting c : conn_inv c -> stage_of c = LUp -> conn_inv (set_state kDisconnecting c).
Proof. intros Hc Hs. apply conn_inv_state; [done| |done]. apply stage_up in Hs. destruct Hs; congruence. Qed.

(** Every access that is not too late is of that kind. *)
Lemma access_called i p c :
  conn_inv c -> isInLoopThread i (h_loop (loop c)) = false -> access_ok p -> overtaken p c = false ->
  exists c' next, do_access i p c = Ok (c', next) /\ called i c c' /\ (forall q, next = Some q -> access_ok q).
Proof.
  intros Hc Hi Hp Ho. assert (forall a b d e, conn_inv (set_timing a b d e c)) as Ht by auto with conn.
  assert (forall a b d, conn_inv (set_timers a b d c)) as Ht' by auto with conn.
  destruct p as [m| | |t|t|s| | | | |en n|en n| | | |id b].
  6-15: (eexists _, _; split; [done|]; split; [by apply called_members|]; intros q Hq; by repeat case_match; simplify_eq).
  - eexists _, _. split; [done|]. split; [by apply called_members|]. intros q Hq. by case_decide; simplify_eq.
  - eexists _, _. split; [done|]. split; [by apply called_members|]. intros q Hq. by case_decide; simplify_eq.
  - eexists _, _. split; [done|]. split; [by apply called_members|]. intros q Hq. by case_match; simplify_eq.
  - apply negb_false_iff, open_up in Ho. eexists _, _. split; [done|]. split; [|by intros q [= <-]].
    apply called_members; try done. by apply conn_disconnecting.
  - eexists _, _. split; [apply enqueue_eq|]. split; [|done]. apply (called_queued i c c); try done.
    intros Hpl. unfold overtaken in Ho. rewrite Hpl in Ho. by apply negb_false_iff, open_up in Ho.
  - destruct (isValid id) eqn:Ev.
    + destruct (queueInLoop_frame (h_loop (loop c)) i (FCancelInLoop id)) as (l & E1 & _).
      exists (set_loop (put_loop l (loop c)) c), (Some (if b then ClearIdleTimer else ClearKeepAliveTimer)).
      split; [|split; [|by intros q [= <-]; destruct b]].
      * simpl. unfold EventLoop.cancel, queue_cancel, runInLoop. rewrite Ev. simpl. rewrite Hi. unfold try_loop. simpl. by rewrite E1.
      * apply (called_cancel i c _ id l E1); try done. by apply conn_inv_loop.
    + exists (set_loop (put_loop (log_error (h_loop (loop c))) (loop c)) c), (Some (if b then ClearIdleTimer else ClearKeepAliveTimer)).
      split; [simpl; unfold EventLoop.cancel; by rewrite Ev|]. split; [|by intros q [= <-]; destruct b].
      by apply called_log.
Qed.

(** *** The loop's steps *)
Lemma poll_channels_eq c po active :
  let e := h_env (loop c) in
  let n := h_tick (loop c) in
  poll (e_wait e n (epollFd_ (h_poller (loop c)))) (h_poller (loop c)) [] = Ok (po, active) ->
  poll_channels user c =
    Ok (e_clock e (S n), active, polled active (e_clock e (S n)) po (on_host tick (on_host tick c))).
Proof.
  cbv zeta. intros E1. unfold poll_channels.
  change (wait c) with (e_wait (h_env (loop c)) (h_tick (loop c)) (epollFd_ (h_poller (loop c))), on_host tick c).
  cbv beta iota zeta.
  change (read_clock (on_host tick c)) with (e_clock (h_env (loop c)) (S (h_tick (loop c))), on_host tick (on_host tick c)).
  cbv beta iota zeta. change (poller_ (loop_ (on_host tick (on_host tick c)))) with (h_poller (loop c)).
  by rewrite E1, bind_ret_l.
Qed.

Definition phase_safe live (ph : phase) : Prop :=
  match ph with
  | AtPoll => True
  | Handling _ active => forall q, q ∈ active -> q ∈ r_live live
  | Running fs => Forall pending_ok fs
  end.

(** Loop and connection agree wherever the loop thread is. *)
Definition sound s : Prop :=
  exists live, safe tid st live ∅ (rc_conn s) /\ phase_safe live (rc_phase s) /\ calls_ok (rc_calls s).

(** *** What has been queued *)
Definition rc_pending s : list (Functor job) := pendingFunctors_ (h_loop (loop (rc_conn s))).
Definition rc_batch s : list (Functor job) := match rc_phase s with Running fs => fs | _ => [] end.

(** Run, being run, pending: everything anyone has queued, in order. *)
Definition queued s : list (Functor job) := rc_ran s ++ rc_batch s ++ rc_pending s.

(** [fs] has been queued, and has been run when the loop has completed [d] turns. *)
Record runs_by (fs : list (Functor job)) (d : nat) s : Prop := {
  rb_queued : fs `prefix_of` queued s;
  rb_batch gs : rc_phase s = Running gs -> (d <= S (rc_turns s))%nat -> fs `prefix_of` rc_ran s ++ gs;
  rb_ran : (d <= rc_turns s)%nat -> fs `prefix_of` rc_ran s
}.

(** A step of the loop, or a call. *)
Definition in_order s s' : Prop := forall fs d, runs_by fs d s -> runs_by fs d s'.

Lemma in_order_pending s s' :
  rc_phase s = rc_phase s' \/ rc_batch s = [] /\ (forall fs, rc_phase s' <> Running fs) ->
  rc_turns s' = rc_turns s -> rc_ran s' = rc_ran s -> rc_pending s `prefix_of` rc_pending s' -> in_order s s'.
Proof.
  intros Hp Ht Hr [gs Hq] fs d [H1 H2 H3]. unfold queued in *.
  assert (rc_batch s' = rc_batch s) as Hb.
  { unfold rc_batch in *. destruct Hp as [<-|[-> Hn]]; [done|]. by destruct (rc_phase s') eqn:Ep; [..|destruct (Hn functors)]. }
  split; rewrite ?Ht, ?Hr.
  - unfold queued. rewrite Hr, Hb, Hq, !(assoc_L (++)). apply prefix_app_r. by rewrite <- (assoc_L (++)).
  - intros hs Ep. destruct Hp as [Hp|[_ Hn]]; [|by destruct (Hn hs)]. apply H2. congruence.
  - done.
Qed.

(** The batch is taken, run, and over. *)
Lemma in_order_take now c c' n ran m :
  pendingFunctors_ (h_loop (loop c')) = [] ->
  in_order (mkReactor (Handling now []) c n ran m) (mkReactor (Running (pendingFunctors_ (h_loop (loop c)))) c' n ran m).
Proof.
  intros Hq fs d [H1 _ H3]. unfold queued, rc_batch, rc_pending in H1. simpl in *.
  split; unfold queued, rc_batch, rc_pending; simpl; rewrite ?Hq, ?app_nil_r; try done. by intros gs [= <-].
Qed.

Lemma in_order_ran f gs c c' n ran m :
  pendingFunctors_ (h_loop (loop c)) `prefix_of` pendingFunctors_ (h_loop (loop c')) ->
  in_order (mkReactor (Running (f :: gs)) c n ran m) (mkReactor (Running gs) c' n (ran ++ [f]) m).
Proof.
  intros [hs Hq] fs d [H1 H2 H3]. unfold queued, rc_batch, rc_pending in H1. simpl in *.
  split; unfold queued, rc_batch, rc_pending; simpl.
  - apply (prefix_app_r _ _ hs) in H1. rewrite Hq. rewrite <- !(assoc_L (++)) in H1 |- *.
    simpl in H1 |- *. by rewrite <- (assoc_L (++)) in H1.
  - intros gs' [= <-] Hd. rewrite <- (assoc_L (++)). by apply H2.
  - intros Hd. by apply prefix_app_r, H3.
Qed.

Lemma in_order_over c c' n ran m :
  pendingFunctors_ (h_loop (loop c')) = pendingFunctors_ (h_loop (loop c)) ->
  in_order (mkReactor (Running []) c n ran m) (mkReactor AtPoll c' (S n) ran m).
Proof.
  intros Hq fs d [H1 H2 H3]. unfold queued, rc_batch, rc_pending in H1. simpl in *.
  split; unfold queued, rc_batch, rc_pending; simpl; [by rewrite Hq|done|].
  intros Hd. specialize (H2 [] eq_refl Hd). by rewrite app_nil_r in H2.
Qed.

(** The functors of the moment stay where they are. *)
Lemma safe_keep live loose c :
  safe tid st live loose c -> safe tid st (keeping (pendingFunctors_ (h_loop (loop c))) live) loose c.
Proof. intros (H1 & [H2 []] & H3). split; [done|]. split; [split; [done|]|done]. by split. Qed.

Lemma safe_kept live loose fs c :
  safe tid st (keeping fs live) loose c -> fs `prefix_of` pendingFunctors_ (h_loop (loop c)).
Proof. intros Hs. exact (co_keep _ _ _ _ _ _ (safe_core _ _ _ _ _ Hs)). Qed.

Lemma poll_sound live c n ran m :
  safe tid st live ∅ c -> calls_ok m ->
  wp (reactor_step user ef tid (mkReactor AtPoll c n ran m)) (fun s' => sound s' /\ in_order (mkReactor AtPoll c n ran m) s').
Proof.
  intros Hs%safe_keep Hcalls. set (c1 := on_host tick (on_host tick c)).
  assert (safe tid st (keeping (pendingFunctors_ (h_loop (loop c))) live) ∅ c1) as H1 by (by apply safe_tick, safe_tick).
  destruct (polled_safe tid st user _ ∅ (e_wait (h_env (loop c)) (h_tick (loop c)) (epollFd_ (h_poller (loop c))))
    (e_clock (h_env (loop c)) (S (h_tick (loop c)))) c1 H1) as (po & active & rev & E1 & _ & H2).
  { intros evs Hr. exact (eo_wait _ (safe_env _ _ _ _ _ Hs) _ _ _ Hr). }
  unfold reactor_step. cbn [rc_phase rc_conn]. rewrite (poll_channels_eq c po active E1), bind_ret_l. split.
  - eexists. split; [exact H2|]. split; [|done]. intros q Hq. by apply elem_of_list_to_set.
  - apply in_order_pending; try done. by right.
Qed.

Lemma reactor_step_sound s : sound s -> wp (reactor_step user ef tid s) (fun s' => sound s' /\ in_order s s').
Proof.
  destruct s as [ph c n ran m]. intros (live & Hs & Hp & Hcalls). cbn [rc_phase rc_conn rc_calls] in *.
  destruct ph as [|now [|q active]|[|f fs]]; [by eapply poll_sound|..]; unfold reactor_step;
    cbn [rc_phase rc_conn rc_turns rc_ran rc_calls].
  - split.
    + exists (keeping [] live). split; [|split; [exact (safe_pending _ _ _ _ _ Hs)|done]]. by apply (safe_queue tid st live [] ∅ c).
    + by apply (in_order_take now c).
  - apply safe_keep in Hs. eapply wp_bind; [apply (handle_active_safe tid st user _ ∅ now q c Hs); apply Hp; by left|].
    intros c1 H1. split; [eexists; split; [exact H1|split; [intros q' Hq'; apply Hp; by right|done]]|].
    apply in_order_pending; try done; [by right|]. exact (safe_kept _ _ _ _ H1).
  - split; [exists live; split; [by apply safe_same|done]|by apply in_order_over].
  - apply Forall_cons in Hp as [Hf Hfs]. apply safe_keep in Hs.
    eapply wp_bind; [by apply (functor_safe tid st user ef)|]. intros c1 H1.
    split; [by eexists|]. apply in_order_ran. exact (safe_kept _ _ _ _ H1).
Qed.

Lemma other_thread live loose i c : safe tid st live loose c -> i <> tid -> isInLoopThread i (h_loop (loop c)) = false.
Proof.
  intros Hs Hi. apply Z.eqb_neq. rewrite (co_thread _ _ _ _ _ _ (safe_core _ _ _ _ _ Hs)). congruence.
Qed.

Lemma queue_from_pending i t c :
  pendingFunctors_ (h_loop (loop (queue_from i t c))) = pendingFunctors_ (h_loop (loop c)) ++ [FUser (JTask t)].
Proof.
  destruct (queue_from_eq i t c) as (l & E1 & ->).
  destruct (queueInLoop_frame (h_loop (loop c)) i (FUser (JTask t))) as (l' & E2 & _ & _ & _ & _ & H5).
  rewrite E1 in E2. by injection E2 as <-.
Qed.

Lemma called_pending i c c' :
  called i c c' -> pendingFunctors_ (h_loop (loop c)) `prefix_of` pendingFunctors_ (h_loop (loop c')).
Proof.
  intros [c1 H1 H2 H3|c1 t H1 H2 H3 _ H4 _|c1 id l E1 H1 H2 H3 H4|_]; [by rewrite H2|..|done].
  - rewrite queue_from_pending, H2. by apply prefix_app_r.
  - destruct (queueInLoop_frame (h_loop (loop c)) i (FCancelInLoop id)) as (l' & E2 & _ & _ & _ & _ & H5).
    rewrite E1 in E2. injection E2 as <-. rewrite H2. simpl. rewrite H5. by apply prefix_app_r.
Qed.

(** An access in any state of the loop. *)
Lemma calls_ok_next m i next :
  calls_ok m -> i <> tid -> (forall q, next = Some q -> access_ok q) -> calls_ok (partial_alter (fun _ => next) i m).
Proof.
  intros Hm Hi Hn j p. destruct (decide (i = j)) as [<-|Hne].
  - rewrite lookup_partial_alter_eq. intros E1. split; [done|]. by apply Hn.
  - rewrite lookup_partial_alter_ne by done. apply Hm.
Qed.

Lemma first_ok x : call_ok x -> access_ok (first_access x).
Proof. by destruct x. Qed.

(** What the events of other threads do to the state. *)
Lemma perform_call live ev s :
  safe tid st live ∅ (rc_conn s) -> calls_ok (rc_calls s) -> event_ok ev -> overtakes ev s = false -> ev <> LoopStep ->
  exists s' i, perform user ef tid ev s = Ok s' /\ calls_ok (rc_calls s') /\ called i (rc_conn s) (rc_conn s') /\
    rc_phase s' = rc_phase s /\ rc_turns s' = rc_turns s /\ rc_ran s' = rc_ran s.
Proof.
  intros Hs Hm He Ho Hev. pose proof (proj1 Hs) as Hc.
  assert (exists i, called i (rc_conn s) (rc_conn s)) as [i0 Hsame] by (exists 0; by apply called_members).
  destruct ev as [|i x|i]; [done|..]; simpl.
  - destruct He as [Hi Hx]. destruct (rc_calls s !! i) as [p|] eqn:Ep; [by exists s, i0|].
    eexists _, i0. split; [done|]. split_and!; try done. apply calls_ok_next; [done..|]. intros q [= <-]. by apply first_ok.
  - simpl in Ho. destruct (rc_calls s !! i) as [p|] eqn:Ep; [|by exists s, i0]. destruct (Hm i p Ep) as [Hi Hp].
    destruct (access_called i p (rc_conn s) Hc (other_thread _ _ _ _ Hs Hi) Hp Ho) as (c & next & E1 & Hcd & Hn).
    rewrite E1. eexists _, i. split; [done|]. split_and!; try done. by apply calls_ok_next.
Qed.

Lemma event_cases ev : ev = LoopStep \/ ev <> LoopStep.
Proof. destruct ev; [by left|by right..]. Qed.

Lemma perform_sound ev s :
  sound s -> event_ok ev -> overtakes ev s = false ->
  wp (perform user ef tid ev s) (fun s' => sound s' /\ in_order s s').
Proof.
  intros Hs He Ho. destruct (event_cases ev) as [->|Hev]; [by apply reactor_step_sound|].
  destruct Hs as (live & Hs & Hp & Hm).
  destruct (perform_call live ev s Hs Hm He Ho Hev) as (s' & i & -> & Hm' & Hcd & E1 & E2 & E3).
  split; [exists live; split; [by eapply called_safe|by rewrite E1]|].
  apply in_order_pending; [by left|done|done|]. by eapply called_pending.
Qed.

Lemma performs_sound es s :
  sound s -> Forall event_ok es -> never_overtaken user ef tid es s = true ->
  wp (performs user ef tid es s) (fun s' => sound s' /\ in_order s s').
Proof.
  intros Hs He. revert s Hs. induction He as [|ev es Hev He IH]; intros s Hs Ho; [by split; [|intros fs d]|].
  simpl in Ho. apply andb_true_iff in Ho as [Ho1%negb_true_iff Ho2].
  pose proof (perform_sound ev s Hs Hev Ho1) as H0. unfold performs. cbn [for_each].
  destruct (perform user ef tid ev s) as [s1|]; [|done]. destruct H0 as [H1 H2]. rewrite bind_ret_l.
  eapply wp_mono; [by apply IH|]. intros s2 [H3 H4]. split; [done|]. intros fs d Hr. by apply H4, H2.
Qed.

(** ** The life of the connection *)
Context {Hserved : ServedUser user}.

Lemma held_members live loose c c' :
  held tid st live loose c -> conn_inv c' -> loop c' = loop c -> events c' = events c -> stage_of c' = stage_of c ->
  held tid st live loose c'.
Proof.
  intros (Hs & [_ _ Hp] & Ht & Hw & Hst) Hi Hl He Hsg. split; [by apply (safe_members live loose c)|]. split_and!.
  - assert (state_ c' <> kConnecting) as Hn by (rewrite <- Hsg in Hst; unfold stage_of in Hst; by destruct (state_ c')).
    by split.
  - unfold told in *. by rewrite Hl, Hsg.
  - by apply (watch_same c); rewrite ?Hl.
  - by rewrite Hsg.
Qed.

Lemma queue_from_held live loose i t c :
  held tid st live loose c -> task_ok t -> held tid st live loose (queue_from i t c).
Proof.
  intros (Hs & [Hi He Hp] & Ht & Hw & Hst) Htk. pose proof (queue_from_safe live loose i t c Hs Htk) as Hs'.
  destruct (queue_from_eq i t c) as (l & E1 & Eq). rewrite Eq in *.
  destruct (queueInLoop_frame (h_loop (loop c)) i (FUser (JTask t))) as (l' & E2 & _ & _ & _ & _ & H5).
  rewrite E1 in E2. injection E2 as <-. split; [done|]. split_and!; try done.
  - split; [apply Hs'|done|]. intros m _ Es. apply Hst. unfold stage_of. simpl in Es. by rewrite Es.
  - apply (watch_same c); try done. simpl. unfold h_destroy. simpl. rewrite H5, existsb_app. simpl. apply orb_false_r.
Qed.

Lemma called_held live loose i c c' :
  held tid st live loose c -> called i c c' ->
  held tid st live loose c' /\ stage_of c' = stage_of c.
Proof.
  intros Hh [c1 H1 H2 H3 H4|c1 t H1 H2 H3 H4 H5 _|c1 id l E1 H1 H2 H3 H4|_]; [split; [|exact H4]..|split; [by apply held_frame|done]].
  - by eapply held_members.
  - apply queue_from_held; [by eapply held_members|done].
  - destruct (cancel_queued_safe live loose i id c l (proj1 Hh) E1) as [Hs Hp].
    apply (held_members live loose (on_host (put_loop l) c)); try done.
    apply (held_on tid st (put_loop l) live live loose loose c); try done.
    unfold h_destroy. simpl. by rewrite Hp, existsb_app, orb_false_r.
Qed.

(** *** The loop's steps *)
Definition phase_held live (ph : phase) c : Prop :=
  match ph with
  | AtPoll => True
  | Handling _ active => round_left st live active c
  | Running fs => batch_left fs c
  end.

Definition in_life s : Prop :=
  exists live, held tid st live ∅ (rc_conn s) /\ phase_held live (rc_phase s) (rc_conn s) /\ calls_ok (rc_calls s).

Lemma phase_stage live ph c c' : phase_held live ph c -> stage_of c' = stage_of c -> phase_held live ph c'.
Proof.
  destruct ph as [|now active|fs]; simpl; [done| |].
  - intros [] Hs. split; try done. by rewrite Hs.
  - intros [] Hs. split; [done|]. by rewrite Hs.
Qed.

Lemma held_keep live loose c :
  held tid st live loose c -> held tid st (keeping (pendingFunctors_ (h_loop (loop c))) live) loose c.
Proof. intros [Hs Hrest]. split; [by apply safe_keep|done]. Qed.

Lemma phase_keep live fs ph c : phase_held live ph c -> phase_held (keeping fs live) ph c.
Proof. destruct ph as [|now active|gs]; simpl; [done| |done]. intros []. by split. Qed.

Lemma kept_queue live loose fs c : held tid st (keeping fs live) loose c -> fs ⊆ pendingFunctors_ (h_loop (loop c)).
Proof. intros [Hs _]. destruct (safe_kept _ _ _ _ Hs) as [gs ->]. set_solver. Qed.

(** [f] has its turn before the loop has completed [d] turns. *)
Definition due_by (f : Functor job) (d : nat) s : Prop :=
  match rc_phase s with
  | Running fs => f ∈ fs /\ (rc_turns s < d)%nat \/ f ∈ rc_pending s /\ (S (rc_turns s) < d)%nat
  | _ => f ∈ rc_pending s /\ (rc_turns s < d)%nat
  end.

Definition force_close : Functor job := FUser (JTask TForceCloseInLoop).
Definition is_force_close (f : Functor job) : bool := match f with FUser (JTask TForceCloseInLoop) => true | _ => false end.
Definition is_closed s : Prop := stage_of (rc_conn s) = LClosed.

(** No functor bound to a plain pointer stands behind [connectDestroyed]. *)
Definition ordered s : Prop := keeps_order (queued s) (rc_conn s).

Lemma ordered_fills s s' :
  rc_ran s' ++ rc_batch s' = rc_ran s ++ rc_batch s -> fills (rc_conn s) (rc_conn s') -> ordered s -> ordered s'.
Proof.
  unfold ordered, queued. intros Hb Hq. rewrite !(assoc_L (++)), Hb. exact (fills_order _ _ _ Hq).
Qed.

Lemma called_fills i c c' : called i c c' -> fills c c'.
Proof.
  intros [c1 H1 H2 H3 H4|c1 t H1 H2 H3 H4 H5 H6|c1 id l E1 H1 H2 H3 H4|_];
    [apply grew_fills, grew_same; [done|]; unfold c_pending; by rewrite H2|..|by apply grew_fills, grew_same].
  - split; [intros Hs; change (stage_of c1 = LClosed); congruence|]. exists [FUser (JTask t)].
    split_and!; [unfold c_pending; by rewrite queue_from_pending, H2| | |by intros ?%list_elem_of_singleton].
    + intros [|x [|]] l2 E1; done.
    + intros Hs. constructor; [|constructor]. destruct (plain_this _); [|done]. by rewrite H6 in Hs.
  - apply grew_fills. split; [done|]. exists [FCancelInLoop id]. split; [|by repeat constructor].
    destruct (queueInLoop_frame (h_loop (loop c)) i (FCancelInLoop id)) as (l' & E2 & _ & _ & _ & _ & H5).
    rewrite E1 in E2. injection E2 as <-. unfold c_pending. by rewrite H2.
Qed.

(** What a step does to a connection that somebody has asked to close. *)
Definition closing s s' : Prop :=
  (is_closed s -> is_closed s') /\
  forall d, due_by force_close d s -> is_closed s' \/ due_by force_close d s'.

(** And to the order of the queue, if the user's callbacks keep it. *)
Definition moved s s' : Prop := closing s s' /\ (QueueUser user -> ordered s -> ordered s').

Lemma closing_trans s1 s2 s3 : closing s1 s2 -> closing s2 s3 -> closing s1 s3.
Proof. intros [H1 H2] [H3 H4]. split; [auto|]. intros d Hd. destruct (H2 d Hd); [left; auto|by apply H4]. Qed.

(** Polling or handling: the queue of functors only grows. *)
Lemma closing_outside ph ph' c c' n ran ran' m m' :
  (forall fs, ph <> Running fs) -> (forall fs, ph' <> Running fs) -> (stage_of c = LClosed -> stage_of c' = LClosed) ->
  pendingFunctors_ (h_loop (loop c)) ⊆ pendingFunctors_ (h_loop (loop c')) ->
  closing (mkReactor ph c n ran m) (mkReactor ph' c' n ran' m').
Proof.
  intros Hp Hp' Hc Hq. split; [done|]. intros d Hd. right. unfold due_by, rc_pending in *. cbn [rc_phase rc_conn rc_turns] in *.
  destruct ph, ph'; naive_solver.
Qed.

Lemma poll_in_life live c n ran m :
  held tid st live ∅ c -> calls_ok m -> rounds_ok st ->
  wp (reactor_step user ef tid (mkReactor AtPoll c n ran m)) (fun s' => in_life s' /\ moved (mkReactor AtPoll c n ran m) s').
Proof.
  intros Hh Hcalls Hro. apply held_keep in Hh. set (now := e_clock (h_env (loop c)) (S (h_tick (loop c)))).
  assert (h_env (loop c) = s_env st) as He by (destruct Hh as ((_ & [[(_ & He & _) _] _] & _) & _); exact He).
  destruct (polled_held tid st user _ ∅ (h_tick (loop c)) now _ (held_tick _ _ _ _ _ (held_tick _ _ _ _ _ Hh)) Hro)
    as (po & active & rev & E1 & H2 & Hleft).
  rewrite <- He in E1. unfold reactor_step. cbn [rc_phase rc_conn rc_turns].
  rewrite (poll_channels_eq c po active E1), bind_ret_l. split; [by eexists|]. split; [by apply closing_outside|].
  intros _. apply ordered_fills; [done|]. by apply grew_fills, grew_same.
Qed.

(** [forceCloseInLoop] closes. *)
Lemma force_close_closes live loose c :
  held tid st live loose c -> forall c', run_pending ef tid force_close c = Ok c' -> stage_of c' = LClosed.
Proof.
  intros Hh c' E1. pose proof (held_tick _ _ _ _ _ Hh) as (_ & Hc & _ & _ & Hst).
  unfold run_pending in E1. simpl run_functor in E1. apply bind_Ok in E1 as ([c1 threw] & E1 & E2).
  apply bind_Ok in E1 as (c2 & E1 & E3). injection E3 as <- <-. injection E2 as <-.
  apply bind_Ok in E1 as (c1 & E1 & <-%raise_Ok). unfold job_body in E1. simpl in E1. unfold forceCloseInLoop in E1. destruct (open_or_closing _) eqn:Eo.
  - apply stage_closed. exact (proj1 (proj2 (handleClose_tells user _ _ (sv_conn _ Hc) E1))).
  - injection E1 as <-. destruct (stage_of (on_host tick c)) eqn:Es; [done| |done].
    by apply open_up in Es; rewrite Es in Eo.
Qed.

Lemma running_in_life live f fs c n ran m :
  held tid st live ∅ c -> batch_left (f :: fs) c -> calls_ok m ->
  wp (reactor_step user ef tid (mkReactor (Running (f :: fs)) c n ran m))
     (fun s' => in_life s' /\ moved (mkReactor (Running (f :: fs)) c n ran m) s').
Proof.
  intros Hh Hb Hcalls. apply held_keep in Hh. unfold reactor_step. cbn [rc_phase rc_conn rc_turns].
  pose proof (functor_step tid st user ef _ _ f fs c Hh Hb) as Hf.
  eapply wp_bind; [apply (wp_and _ _ (fun c' => f = force_close -> stage_of c' = LClosed) Hf)|].
  - intros c' E1 ->. by eapply force_close_closes.
  - intros c' [[(H1 & H2 & Hq) H3] H4]. split; [by eexists|]. split.
    2:{ intros Hu. apply ordered_fills; [|by apply Hq]. unfold rc_batch. simpl. by rewrite <- (assoc_L (++)). }
    split; [done|]. intros d Hd. unfold due_by, rc_pending in *. cbn [rc_phase rc_conn rc_turns] in *. destruct Hd as [[[<-|Hin]%elem_of_cons Hd]|[Hin Hd]]; [left; by apply H4|right..].
    + by left.
    + right. split; [|done]. by apply (kept_queue _ _ _ _ H1).
Qed.

Lemma reactor_step_in_life s :
  in_life s -> rounds_ok st -> wp (reactor_step user ef tid s) (fun s' => in_life s' /\ moved s s').
Proof.
  destruct s as [ph c n ran m]. intros (live & Hh & Hp & Hcalls) Hro. cbn [rc_phase rc_conn rc_calls phase_held] in *.
  destruct ph as [|now [|q active]|[|f fs]]; [by eapply poll_in_life| | | |by eapply running_in_life];
    unfold reactor_step; cbn [rc_phase rc_conn rc_turns].
  - set (c1 := on_loop _ c). assert (held tid st live ∅ c1) as H1 by (by apply held_frame). split.
    + exists (keeping [] live). split; [by apply take_batch_held|]. split; [exact (batch_taken tid st live ∅ c1 H1)|done].
    + split; [split; [done|]; intros d [Hd Hn]; right; left; done|]. intros _. unfold ordered, queued. simpl. by rewrite app_nil_r.
  - apply held_keep in Hh. apply (phase_keep live (pendingFunctors_ (h_loop (loop c)))) in Hp.
    eapply wp_bind; [by apply (round_step tid st user)|].
    intros c1 [(H1 & H2 & Hq) H3]. split; [by eexists|]. split.
    + apply closing_outside; try done. by apply (kept_queue _ _ _ _ H1).
    + intros Hu. apply ordered_fills; [done|by apply Hq].
  - split; [exists live; split; [by apply held_frame|done]|]. split; [split; [done|]|].
    + intros d [[Hd _]|Hd]; [by apply elem_of_nil in Hd|]. by right.
    + intros _. apply ordered_fills; [done|]. by apply grew_fills, grew_same.
Qed.

Lemma perform_in_life ev s :
  in_life s -> rounds_ok st -> event_ok ev -> overtakes ev s = false ->
  wp (perform user ef tid ev s) (fun s' => in_life s' /\ moved s s').
Proof.
  intros Hs Hro He Ho. destruct (event_cases ev) as [->|Hev]; [by apply reactor_step_in_life|].
  destruct Hs as (live & Hh & Hp & Hm).
  destruct (perform_call live ev s (proj1 Hh) Hm He Ho Hev) as (s' & i & -> & Hm' & Hcd & E1 & E2 & E3).
  destruct (called_held _ _ _ _ _ Hh Hcd) as [H1 H2]. destruct (called_pending _ _ _ Hcd) as [gs Hgs]. split.
  - exists live. split; [done|]. split; [|done]. rewrite E1. by eapply phase_stage.
  - split; [|intros _; apply ordered_fills; [unfold rc_batch; by rewrite E1, E3|by eapply called_fills]].
    split; [unfold is_closed; congruence|]. intros d Hd. right. unfold due_by, rc_pending in *.
    rewrite E1, E2, Hgs. destruct (rc_phase s); set_solver.
Qed.

Lemma performs_in_life es s :
  in_life s -> rounds_ok st -> Forall event_ok es -> never_overtaken user ef tid es s = true ->
  wp (performs user ef tid es s) (fun s' => in_life s' /\ moved s s').
Proof.
  intros Hs Hro He. revert s Hs. induction He as [|ev es Hev He IH]; intros s Hs Ho.
  - split; [done|]. split; [|done]. split; [done|]. by right.
  - simpl in Ho. apply andb_true_iff in Ho as [Ho1%negb_true_iff Ho2].
    pose proof (perform_in_life ev s Hs Hro Hev Ho1) as H0. unfold performs. cbn [for_each].
    destruct (perform user ef tid ev s) as [s1|]; [|done]. destruct H0 as [H1 H2]. rewrite bind_ret_l.
    eapply wp_mono; [by apply IH|]. intros s2 [H3 H4]. split; [done|].
    split; [by eapply closing_trans; [apply H2|apply H4]|]. intros Hu Hor. by apply H4, H2.
Qed.

(** *** The connection is not used after it was released *)
Lemma alive_step ev s : in_life s -> ordered s -> uses_freed (s_channel st) ev s = false.
Proof.
  intros (live & _ & Hp & _) [Ho Hd]. unfold uses_freed. destruct (released s) eqn:Er; [|done]. simpl.
  apply existsb_exists in Er as (f & Hf & Ef). apply list_elem_of_In in Hf.
  assert (f = destroy) as -> by (by destruct f as [[| | |]| | | |]).
  destruct ev; try done. unfold queued, rc_batch in *. destruct (rc_phase s) as [|now [|q active]|[|g fs]]; try done.
  - apply Z.eqb_neq. intros ->. simpl in Hp. destruct (rl_own _ _ _ _ Hp) as [Hup _]; [by left|].
    rewrite Hd in Hup; [done|]. apply elem_of_app. by left.
  - apply list_elem_of_split in Hf as (k1 & k2 & Ek). rewrite Ek, <- (assoc_L (++)) in Ho.
    specialize (Ho _ _ eq_refl). unfold counted in Ho. rewrite !Forall_app, Forall_cons in Ho. tauto.
Qed.

Lemma performs_alive_eq es s :
  in_life s -> ordered s -> QueueUser user -> rounds_ok st -> Forall event_ok es ->
  never_overtaken user ef tid es s = true -> performs_alive user ef tid (s_channel st) es s = performs user ef tid es s.
Proof.
  intros Hs Hor Hu Hro He. revert s Hs Hor. induction He as [|ev es Hev He IH]; intros s Hs Hor Ho; [done|].
  simpl in Ho. apply andb_true_iff in Ho as [Ho1%negb_true_iff Ho2].
  pose proof (perform_in_life ev s Hs Hro Hev Ho1) as H0. unfold performs_alive, performs, perform_alive. cbn [for_each].
  rewrite alive_step by done. destruct (perform user ef tid ev s) as [s1|]; [|done]. rewrite !bind_ret_l.
  destruct H0 as (H1 & _ & H2). apply IH; auto.
Qed.

(** *** [forceClose] on its way *)
Lemma due_mono f d d' s : due_by f d s -> (d <= d')%nat -> due_by f d' s.
Proof. unfold due_by. destruct (rc_phase s); naive_solver lia. Qed.

(** Thread [i] is in its call of [forceClose], or has queued the functor, or there is
    nothing left to close. *)
Definition force_closing (i : Z) s : Prop :=
  is_closed s \/ due_by force_close (2 + rc_turns s) s \/
  exists p, rc_calls s !! i = Some p /\
    (p = TestForceClose \/ p = Assign TForceCloseInLoop \/ p = Enqueue TForceCloseInLoop).

Lemma turns_grow ev s s' : perform user ef tid ev s = Ok s' -> (rc_turns s <= rc_turns s')%nat.
Proof.
  intros E1. destruct ev as [|i x|i]; simpl in E1.
  - unfold reactor_step in E1. destruct (rc_phase s) as [|now [|q active]|[|f fs]].
    + apply bind_Ok in E1 as ([[now active] c] & _ & [= <-]). done.
    + by injection E1 as <-.
    + apply bind_Ok in E1 as (c & _ & [= <-]). done.
    + injection E1 as <-. simpl. lia.
    + apply bind_Ok in E1 as (c & _ & [= <-]). done.
  - destruct (rc_calls s !! i); by injection E1 as <-.
  - destruct (rc_calls s !! i) as [p|]; [|by injection E1 as <-].
    apply bind_Ok in E1 as ([c next] & _ & [= <-]). done.
Qed.

Lemma enqueue_due i s s' :
  rc_calls s !! i = Some (Enqueue TForceCloseInLoop) -> perform user ef tid (Continue i) s = Ok s' ->
  due_by force_close (2 + rc_turns s') s'.
Proof.
  intros Hp E1. simpl in E1. rewrite Hp, enqueue_eq, bind_ret_l in E1. injection E1 as <-.
  unfold due_by, rc_pending, with_call. cbn [rc_phase rc_conn rc_turns].
  change (queue_task TForceCloseInLoop ?c) with (queue_from i TForceCloseInLoop c). rewrite queue_from_pending.
  assert (force_close ∈ pendingFunctors_ (h_loop (loop (rc_conn s))) ++ [force_close]) by set_solver.
  destruct (rc_phase s); [split; [done|lia]|split; [done|lia]|right; split; [done|lia]].
Qed.

(** Other events leave the call of thread [i] where it is. *)
Lemma others_leave_call ev i p s s' :
  rc_calls s !! i = Some p -> ev <> Continue i -> perform user ef tid ev s = Ok s' -> rc_calls s' !! i = Some p.
Proof.
  intros Hp Hev E1. destruct ev as [|j x|j]; simpl in E1.
  - unfold reactor_step in E1. destruct (rc_phase s) as [|now [|q active]|[|f fs]].
    + apply bind_Ok in E1 as ([[now active] c] & _ & [= <-]). done.
    + by injection E1 as <-.
    + apply bind_Ok in E1 as (c & _ & [= <-]). done.
    + by injection E1 as <-.
    + apply bind_Ok in E1 as (c & _ & [= <-]). done.
  - destruct (decide (j = i)) as [->|Hne]; [rewrite Hp in E1; by injection E1 as <-|].
    destruct (rc_calls s !! j); injection E1 as <-; [done|]. simpl. by rewrite lookup_partial_alter_ne.
  - destruct (decide (j = i)) as [->|Hne]; [done|]. destruct (rc_calls s !! j) as [q|]; [|by injection E1 as <-].
    apply bind_Ok in E1 as ([c next] & _ & [= <-]). simpl. by rewrite lookup_partial_alter_ne.
Qed.

Lemma not_open_closed s : in_life s -> open_or_closing (rc_conn s) = false -> is_closed s.
Proof.
  intros (live & (_ & _ & _ & _ & Hst) & _) Eo. unfold is_closed. destruct (stage_of (rc_conn s)) eqn:Es; [done| |done].
  by apply open_up in Es; rewrite Es in Eo.
Qed.

Lemma force_closing_step i ev s s' :
  in_life s -> closing s s' -> perform user ef tid ev s = Ok s' -> force_closing i s -> force_closing i s'.
Proof.
  intros Hs [Hc Hd] E1 [H|[H|(p & Hp & Hx)]]; [left; by apply Hc|..].
  - destruct (Hd _ H) as [H1|H1]; [by left|right; left]. eapply due_mono; [exact H1|].
    apply turns_grow in E1. lia.
  - assert (ev = Continue i \/ ev <> Continue i) as [->|Hev].
    { destruct ev as [|j x|j]; [by right..|]. destruct (decide (j = i)) as [->|]; [by left|right; congruence]. }
    2:{ right. right. exists p. split; [|done]. by eapply others_leave_call. }
    destruct Hx as [->|[->| ->]].
    + simpl in E1. rewrite Hp in E1. simpl in E1. injection E1 as <-. destruct (open_or_closing (rc_conn s)) eqn:Eo.
      * right. right. exists (Assign TForceCloseInLoop). simpl. rewrite lookup_partial_alter_eq. auto.
      * left. exact (not_open_closed s Hs Eo).
    + simpl in E1. rewrite Hp in E1. simpl in E1. injection E1 as <-. right. right. exists (Enqueue TForceCloseInLoop).
      simpl. rewrite lookup_partial_alter_eq. auto.
    + right. left. by eapply enqueue_due.
Qed.

Lemma performs_force_closing i es s :
  in_life s -> rounds_ok st -> Forall event_ok es -> never_overtaken user ef tid es s = true -> force_closing i s ->
  wp (performs user ef tid es s) (fun s' => in_life s' /\ force_closing i s').
Proof.
  intros Hs Hro He. revert s Hs. induction He as [|ev es Hev He IH]; intros s Hs Ho Hf; [by split|].
  simpl in Ho. apply andb_true_iff in Ho as [Ho1%negb_true_iff Ho2].
  pose proof (perform_in_life ev s Hs Hro Hev Ho1) as H0. unfold performs. cbn [for_each].
  destruct (perform user ef tid ev s) as [s1|] eqn:E1; [|done]. destruct H0 as [H1 [H2 _]]. rewrite bind_ret_l.
  apply IH; [done..|]. exact (force_closing_step i ev s s1 Hs H2 E1 Hf).
Qed.

Lemma forced_performs i es s :
  in_life s -> rounds_ok st -> Forall event_ok (Begin i CallForceClose :: es) ->
  never_overtaken user ef tid (Begin i CallForceClose :: es) s = true ->
  wp (performs user ef tid (Begin i CallForceClose :: es) s)
     (fun s' => in_life s' /\ (rc_calls s !! i = None -> force_closing i s')).
Proof.
  intros Hs Hro [Hev He]%Forall_cons Ho. simpl in Ho. pose proof (perform_in_life (Begin i CallForceClose) s Hs Hro Hev eq_refl) as H0.
  change (performs user ef tid (Begin i CallForceClose :: es) s)
    with (s ← perform user ef tid (Begin i CallForceClose) s; performs user ef tid es s).
  simpl perform in *. destruct (rc_calls s !! i) as [p|] eqn:Ep; rewrite bind_ret_l; destruct H0 as [H0 _].
  - eapply wp_mono; [by apply performs_in_life|]. by intros s' [H _].
  - eapply wp_mono; [apply (performs_force_closing i es); [done..|]|by intros s' []].
    right. right. exists TestForceClose. simpl. rewrite lookup_partial_alter_eq. auto.
Qed.
End threads.

(** ** Properties *)

(** A connection accepted into the loop of a new thread, and then the events [es];
    [serve_alive] stops where the connection is used after its last owner let go of it. *)
Section serve.
Context {K E : Type} `{!Epoll K} `{!EventFd E}.
Context (user : user_call -> TcpConnection (host K E) -> res (TcpConnection (host K E))).
Context (st : site K) (env : new_env) (fd owner tid : Z) (es : list event).

Definition at_start (c : TcpConnection (host K E)) : reactor K E := mkReactor AtPoll c 0 [] ∅.

Definition serve : res (reactor K E) :=
  c ← start user env (s_channel st) fd owner (s_env st); performs user (ef st) tid es (at_start c).
Definition serve_alive : res (reactor K E) :=
  c ← start user env (s_channel st) fd owner (s_env st);
  performs_alive user (ef st) tid (s_channel st) es (at_start c).

(** No call of [es] is overtaken by the close of the connection. *)
Definition undisturbed : bool :=
  match start user env (s_channel st) fd owner (s_env st) with
  | Ok c => never_overtaken user (ef st) tid es (at_start c)
  | Fault _ => true
  end.
End serve.

(** The steps are those of the code.  Left alone, the loop thread takes the steps of
    this file from one poll to the next exactly as a turn of [EventLoop::loop] does: with
    the same result, or the same failure. *)
Theorem steps_are_turns {K E : Type} `{!Epoll K} `{!EventFd E}
    (user : user_call -> TcpConnection (host K E) -> res (TcpConnection (host K E)))
    (ef : Z -> Z) (tid : Z) (c : TcpConnection (host K E)) (n : nat) (ran : list (Functor job)) (m : gmap Z access) :
  exists k fs, performs user ef tid (replicate k LoopStep) (mkReactor AtPoll c n ran m) =
    (c' ← iteration (LoopWorld0 := reactor_world user) ef tid c; Ok (mkReactor AtPoll c' (S n) (ran ++ fs) m)).
Proof. apply turn_alone. Qed.

(** And a call that is not interrupted does what the member function does. *)
Theorem calls_are_steps {K E : Type} `{!Epoll K} `{!EventFd E}
    (user : user_call -> TcpConnection (host K E) -> res (TcpConnection (host K E)))
    (ef : Z -> Z) (tid i : Z) (x : thread_call) (s : reactor K E) (c : TcpConnection (host K E)) :
  rc_calls s !! i = None -> isInLoopThread i (h_loop (loop (rc_conn s))) = false ->
  call_from i user x (rc_conn s) = Ok c ->
  exists k, performs user ef tid (Begin i x :: replicate k (Continue i)) s =
    Ok (mkReactor (rc_phase s) c (rc_turns s) (rc_ran s) (rc_calls s)).
Proof.
  intros Hn Hi E1. destruct (call_ends user ef tid i x (rc_conn s) c Hi E1) as [k Hk]. exists k.
  change (performs user ef tid _ s) with (s ← perform user ef tid (Begin i x) s; performs user ef tid (replicate k (Continue i)) s).
  simpl perform. rewrite Hn, bind_ret_l, Hk; [|done|simpl; apply lookup_partial_alter_eq].
  unfold with_call. simpl. do 2 f_equal. rewrite partial_alter_partial_alter_eq. by apply partial_alter_id.
Qed.

(** The echo server of [Reactor.v], while threads 200 and 201 use the connection; [whole]
    is a call without interruption. *)
Definition demo_threads (es : list event) : res (reactor simple_epoll Z) :=
  serve (echo_server false) demo_site demo_env 7 50 100 es.
Definition demo_alive (es : list event) : res (reactor simple_epoll Z) :=
  serve_alive (echo_server false) demo_site demo_env 7 50 100 es.
Definition whole (i : Z) (x : thread_call) : list event := Begin i x :: replicate 5 (Continue i).
Definition demo_events : list event :=
  LoopStep :: Begin 201 (CallSend [x3f]) :: whole 200 (CallSend [x21]) ++
  [Continue 201; LoopStep; Continue 201; LoopStep; LoopStep; LoopStep; LoopStep].
Definition demo_end : list event := LoopStep :: whole 201 CallShutdown ++ replicate 7 LoopStep.
Definition demo_close : list event := whole 200 CallForceClose.

Section runs.
Context {K E : Type} `{!Epoll K, !EpollOpen K} `{!EventFd E} (tid : Z) (st : site K).
Context (user : user_call -> TcpConnection (host K E) -> res (TcpConnection (host K E))).
Context `{!ReactorUser tid st user} (env : new_env) (fd owner : Z).
Context (Hstart : start_ok (K := K) (E := E) tid st env fd).

Lemma serve_sound es :
  Forall (event_ok tid) es -> undisturbed user st env fd owner tid es = true ->
  wp (serve user st env fd owner tid es) (sound tid st).
Proof.
  intros He Ho. unfold undisturbed, serve in *. pose proof (start_safe tid st user env fd owner Hstart) as H0.
  destruct (start user env _ fd owner _) as [c|]; [|done]. rewrite bind_ret_l.
  eapply wp_mono; [apply (performs_sound tid st user es); [by eexists|done|done]|]. by intros s [H _].
Qed.

Lemma undisturbed_app es es' :
  undisturbed user st env fd owner tid (es ++ es') = true ->
  undisturbed user st env fd owner tid es = true /\
  forall s, serve user st env fd owner tid es = Ok s -> never_overtaken user (ef st) tid es' s = true.
Proof.
  unfold undisturbed, serve. destruct (start user env _ fd owner _) as [c|]; [|done]. apply never_overtaken_app.
Qed.

Context `{!ServedUser user} (Hrounds : rounds_ok st).

(** Every reachable state follows the life of the connection, *)
Lemma serve_in_life es :
  Forall (event_ok tid) es -> undisturbed user st env fd owner tid es = true ->
  wp (serve user st env fd owner tid es) (in_life tid st).
Proof.
  intros He Ho. unfold undisturbed, serve in *. pose proof (start_held tid st user env fd owner Hstart) as H0.
  destruct (start user env _ fd owner _) as [c|]; [|done]. rewrite bind_ret_l.
  eapply wp_mono; [apply (performs_in_life tid st user es); [by eexists|done..]|]. by intros s [H _].
Qed.

(** keeps the order of the queue, and uses the connection only while it is there. *)
Lemma serve_ordered es :
  QueueUser user -> Forall (event_ok tid) es -> undisturbed user st env fd owner tid es = true ->
  wp (serve user st env fd owner tid es) ordered /\
  serve_alive user st env fd owner tid es = serve user st env fd owner tid es.
Proof.
  intros Hu He Ho. unfold undisturbed, serve, serve_alive in *. pose proof (start_held tid st user env fd owner Hstart) as H0.
  destruct (start user env _ fd owner _) as [c|] eqn:E1; [|done]. rewrite !bind_ret_l.
  assert (ordered (at_start c)) as Hor by exact (start_order tid st user env fd owner c Hstart E1 Hu).
  assert (in_life tid st (at_start c)) as Hl by (by eexists). split.
  - eapply wp_mono; [apply (performs_in_life tid st user es); done|]. intros s [_ [_ H]]. by apply H.
  - by apply (performs_alive_eq tid st user).
Qed.
End runs.

Lemma in_life_told {K E : Type} `{!Epoll K, !EpollOpen K} `{!EventFd E} (tid : Z) (st : site K) (s : reactor K E) :
  in_life tid st s -> h_closes (loop (rc_conn s)) = (if decide (state_ (rc_conn s) = kDisconnected) then 1 else 0)%nat.
Proof.
  intros (live & (_ & _ & Ht & _) & _). unfold told in Ht. simpl in Ht. rewrite Ht.
  pose proof (stage_closed (rc_conn s)). do 2 case_decide; tauto.
Qed.

(** C3: the reactor is safe while other threads use the connection.  A thread constructs
    its loop and accepts a connection; from then on steps of the loop (polling, one
    channel, one functor) and single accesses of [send], [shutdown], [forceClose],
    [setConnectionTimeout], [setIdleTimeout] and [enableKeepAlive] in any number of other
    threads follow each other in any order, the user's callbacks keeping their side
    ([ReactorUser], [ServedUser], [QueueUser]) and the system calls answering as documented,
    none of them fatally, with descriptors the kernel agrees to watch ([start_ok]).  On
    three conditions: no call is overtaken by the close of the connection ([undisturbed]),
    no round of polling reports the timer queue ahead of the connection, and none reports a
    hang-up next to priority data or a half-close but no input.  Then no assertion fails,
    nothing ends the process, and no functor with a plain pointer is run and no event of
    the connection's channel handled after [connectDestroyed], when the connection may be
    freed; memory, the size of a buffer or the range of a time may run out, and
    [cancelInLoop] may stop at the freed node it reads.  At every moment the bytes sent are
    those written followed by those buffered, poller and timer queue satisfy their
    invariants, the kernel watches exactly what the connection asks for, and only functors
    that can be run are queued. *)
Theorem threads_safe {K E : Type} `{!Epoll K, !EpollOpen K} `{!EventFd E} (tid : Z) (st : site K)
    (user : user_call -> TcpConnection (host K E) -> res (TcpConnection (host K E)))
    `{!ReactorUser tid st user} `{!ServedUser user} `{!QueueUser user} (env : new_env) (fd owner : Z) (es : list event) :
  start_ok (K := K) (E := E) tid st env fd -> rounds_ok st -> Forall (event_ok tid) es ->
  undisturbed user st env fd owner tid es = true ->
  wp (serve_alive user st env fd owner tid es) (fun s =>
    let c := rc_conn s in
    sent c = written (socket_ops c) ++ readable (outputBuffer_ c) /\
    poller_ok (h_poller (loop c)) /\ queue_ok ∅ (h_timers (loop c)) /\
    (is_registered (loop c) -> kernel_mask (loop c) = u32 (events c)) /\
    (state_ c = kDisconnected -> events c = kNoneEvent) /\
    Forall pending_ok (pendingFunctors_ (h_loop (loop c)))).
Proof.
  intros Hs Hro He Ho. destruct (serve_ordered tid st user env fd owner Hs Hro es _ He Ho) as [_ ->].
  eapply wp_mono; [by apply (serve_sound tid st user)|]. intros s (live & (Hi & Hh & Hm) & _).
  pose proof (proj2 Hh) as Hcore. cbv zeta. split_and!.
  - apply (ci_stream _ Hi).
  - apply (co_poller _ _ _ _ _ _ Hcore).
  - apply (co_timers _ _ _ _ _ _ Hcore).
  - intros Hr. rewrite Hm. by apply (kernel_watches tid st live ∅).
  - apply (ci_closed _ Hi).
  - apply (co_pending _ _ _ _ _ _ Hcore).
Qed.

Lemma demo_events_ok : Forall (event_ok 100) (demo_events ++ demo_close ++ demo_end).
Proof. repeat constructor; done. Qed.

Lemma threads_safe_witness :
  exists s, demo_alive demo_events = Ok s /\ rc_turns s = 1%nat /\ sent (rc_conn s) = hello ++ [x21; x3f] /\
    sent (rc_conn s) = written (socket_ops (rc_conn s)) ++ readable (outputBuffer_ (rc_conn s)).
Proof.
  assert (match demo_alive demo_events with
    | Ok s => (rc_turns s =? 1)%nat && bool_decide (sent (rc_conn s) = hello ++ [x21; x3f]) | _ => false end = true) as H
    by (vm_compute; reflexivity).
  assert (undisturbed (E := Z) (echo_server false) demo_site demo_env 7 50 100 demo_events = true) as Ho by (vm_compute; reflexivity).
  pose proof (threads_safe 100 demo_site (echo_server false) demo_env 7 50 demo_events demo_start demo_rounds_ok
    (proj1 (proj1 (Forall_app _ _ _) demo_events_ok)) Ho) as Hs. clear Ho.
  change (serve_alive _ _ _ _ _ _ _) with (demo_alive demo_events) in Hs.
  destruct (demo_alive demo_events) as [s|]; [|done]. exists s. apply andb_true_iff in H as [H1 H2].
  split; [reflexivity|]. split; [by apply Nat.eqb_eq|]. split; [by apply bool_decide_eq_true in H2|]. apply Hs.
Defined.

(** [send] in another thread. *)
Lemma send_queued {K E : Type} `{!Epoll K, !EpollOpen K} `{!EventFd E}
    (user : user_call -> TcpConnection (host K E) -> res (TcpConnection (host K E)))
    (ef : Z -> Z) (tid i : Z) (m : list byte) (s s' : reactor K E) :
  rc_calls s !! i = Some (Enqueue (TSendInLoop m)) -> perform user ef tid (Continue i) s = Ok s' ->
  runs_by (queued s ++ [FUser (JTask (TSendInLoop m))]) (2 + rc_turns s) s'.
Proof.
  intros Hp E1. simpl in E1. rewrite Hp, enqueue_eq, bind_ret_l in E1. injection E1 as <-.
  split; cbn [rc_phase rc_turns with_call]; try lia.
  unfold queued, rc_batch, rc_pending. cbn [rc_phase rc_conn rc_ran with_call].
  change (queue_task (TSendInLoop m) ?c) with (queue_from i (TSendInLoop m) c).
  by rewrite queue_from_pending, !(assoc_L (++)).
Qed.

(** C6: functors run in the order in which all threads queue them.  Some thread that has
    called [send] with a message and found the connection up queues it; before and after,
    the loop and other threads do anything, their calls interrupted anywhere but none of
    them overtaken by the close of the connection.  Then [sendInLoop] of this message
    stands behind everything queued before it, by whatever thread, and nothing in that
    order is lost, repeated or overtaken; and when the loop has completed two more turns,
    all of it has been run, the message last. *)
Theorem calls_run_in_order {K E : Type} `{!Epoll K, !EpollOpen K} `{!EventFd E} (tid : Z) (st : site K)
    (user : user_call -> TcpConnection (host K E) -> res (TcpConnection (host K E))) `{!ReactorUser tid st user}
    (env : new_env) (fd owner i : Z) (m : list byte) (es es' : list event) :
  start_ok (K := K) (E := E) tid st env fd -> Forall (event_ok tid) (es ++ es') ->
  undisturbed user st env fd owner tid (es ++ Continue i :: es') = true ->
  wp (s1 ← serve user st env fd owner tid es;
      s2 ← performs user (ef st) tid (Continue i :: es') s1; Ok (s1, s2)) (fun x =>
    rc_calls x.1 !! i = Some (Enqueue (TSendInLoop m)) ->
    let fs := queued x.1 ++ [FUser (JTask (TSendInLoop m))] in
    fs `prefix_of` queued x.2 /\ ((2 + rc_turns x.1 <= rc_turns x.2)%nat -> fs `prefix_of` rc_ran x.2)).
Proof.
  intros Hs [He He']%Forall_app [Ho Ho']%undisturbed_app.
  eapply wp_bind; [apply (wp_and _ _ _ (serve_sound tid st user env fd owner Hs es He Ho) Ho')|]. intros s1 [H1 H2].
  simpl in H2. apply andb_true_iff in H2 as [Ho1%negb_true_iff Ho2].
  pose proof (perform_sound tid st user (Continue i) s1 H1 I Ho1) as H3.
  change (performs user (ef st) tid (Continue i :: es') s1)
    with (s ← perform user (ef st) tid (Continue i) s1; performs user (ef st) tid es' s).
  simpl overtakes in Ho1. destruct (perform user (ef st) tid (Continue i) s1) as [s|e] eqn:E1; [|done].
  change (match rc_calls s1 !! i with Some p => _ | None => _ end) with (perform user (ef st) tid (Continue i) s1) in Ho2.
  rewrite E1 in Ho2. rewrite bind_ret_l. destruct H3 as [H3 _].
  eapply wp_bind; [by apply (performs_sound tid st user es')|]. intros s2 [H4 Hor]. simpl. intros Hp.
  destruct (Hor _ (2 + rc_turns s1)%nat (send_queued user _ tid i m s1 s Hp E1)) as [F1 _ F3]. done.
Qed.

Lemma calls_run_in_order_witness :
  exists s1 s2, demo_threads (LoopStep :: whole 201 (CallSend [x3f]) ++ [Begin 200 (CallSend [x21]); Continue 200]) = Ok s1 /\
    performs (echo_server false) (ef demo_site) 100 (Continue 200 :: replicate 9 LoopStep) s1 = Ok s2 /\
    [FUser (JTask (TSendInLoop [x3f])); FUser (JTask (TSendInLoop [x21]))] `prefix_of` rc_ran s2.
Proof.
  set (es := LoopStep :: whole 201 (CallSend [x3f]) ++ [Begin 200 (CallSend [x21]); Continue 200]).
  set (es' := replicate 9 LoopStep).
  assert (match demo_threads es with
    | Ok s1 => match rc_calls s1 !! 200 with Some (Enqueue (TSendInLoop [x21])) => true | _ => false end && (rc_turns s1 =? 0)%nat &&
        bool_decide (length (queued s1) = 1%nat) && match queued s1 with FUser (JTask (TSendInLoop [x3f])) :: _ => true | _ => false end &&
        match performs (echo_server false) (ef demo_site) 100 (Continue 200 :: es') s1 with
        | Ok s2 => (rc_turns s2 =? 2)%nat | _ => false end
    | _ => false end = true) as H by (vm_compute; reflexivity).
  assert (Forall (event_ok 100) (es ++ es')) as He by (repeat constructor; done).
  assert (undisturbed (E := Z) (echo_server false) demo_site demo_env 7 50 100 (es ++ Continue 200 :: es') = true) as Ho by (vm_compute; reflexivity).
  pose proof (calls_run_in_order 100 demo_site (echo_server false) demo_env 7 50 200 [x21] es es' demo_start He Ho) as Hs. clear Ho.
  change (serve _ _ _ _ _ _ _) with (demo_threads es) in Hs.
  destruct (demo_threads es) as [s1|]; [|done]. rewrite bind_ret_l in Hs.
  destruct (performs _ _ _ (_ :: _) s1) as [s2|] eqn:E2; [|by rewrite andb_false_r in H].
  rewrite !andb_true_iff in H. destruct H as [[[[H1 H2%Nat.eqb_eq] H3%bool_decide_eq_true] H4] H5%Nat.eqb_eq].
  exists s1, s2. split; [reflexivity|]. split; [exact E2|].
  assert (rc_calls s1 !! 200 = Some (Enqueue (TSendInLoop [x21]))) as Hc
    by (destruct (rc_calls s1 !! 200) as [[| | | |[| |[|[] []]| | | | |]| | | | | | | | | | |]|]; done).
  assert (queued s1 = [FUser (JTask (TSendInLoop [x3f]))]) as Hq
    by (destruct (queued s1) as [|[[[| |[|[] []]| | | | |]| | |]| | | |] []]; done).
  destruct (Hs Hc) as [_ H]. simpl fst in H. rewrite Hq in H. apply H. simpl. lia.
Defined.

(** C4: whoever closes it, a connection is closed once.  Other threads are in any calls of
    the interface of the connection, interrupted anywhere, while its loop runs, the system
    and the user's callbacks behaving ([start_ok], [ReactorUser], [ServedUser]).  If no call
    is overtaken by the close, no round of polling reports the timer queue ahead of the
    connection and none reports a hang-up next to priority data or a half-close but no
    input, then the close callback has run once if the connection is disconnected and not
    at all before.  ([overtaken_closes_twice] and [timeout_and_hangup] show what happens
    otherwise.) *)
Theorem threads_close_once {K E : Type} `{!Epoll K, !EpollOpen K} `{!EventFd E} (tid : Z) (st : site K)
    (user : user_call -> TcpConnection (host K E) -> res (TcpConnection (host K E)))
    `{!ReactorUser tid st user} `{!ServedUser user} (env : new_env) (fd owner : Z) (es : list event) :
  start_ok (K := K) (E := E) tid st env fd -> rounds_ok st -> Forall (event_ok tid) es ->
  undisturbed user st env fd owner tid es = true ->
  wp (serve user st env fd owner tid es) (fun s =>
    h_closes (loop (rc_conn s)) = (if decide (state_ (rc_conn s) = kDisconnected) then 1 else 0)%nat).
Proof.
  intros Hs Hro He Ho. eapply wp_mono; [by apply (serve_in_life tid st user)|]. intros s. apply in_life_told.
Qed.

Definition demo_closed : list event := demo_events ++ demo_close ++ demo_end.

Lemma demo_closed_undisturbed :
  undisturbed (E := Z) (echo_server false) demo_site demo_env 7 50 100 demo_closed = true.
Proof. vm_compute. reflexivity. Qed.

Lemma threads_close_once_witness :
  exists s, demo_threads demo_closed = Ok s /\
    state_ (rc_conn s) = kDisconnected /\ h_closes (loop (rc_conn s)) = 1%nat.
Proof.
  assert (match demo_threads demo_closed with Ok s => bool_decide (state_ (rc_conn s) = kDisconnected) | _ => false end = true) as H
    by (vm_compute; reflexivity).
  pose proof (threads_close_once 100 demo_site (echo_server false) demo_env 7 50 demo_closed demo_start demo_rounds_ok
    demo_events_ok demo_closed_undisturbed) as Hs.
  change (serve _ _ _ _ _ _ _) with (demo_threads demo_closed) in Hs.
  destruct (demo_threads demo_closed) as [s|]; [|done]. exists s. apply bool_decide_eq_true in H.
  split; [reflexivity|]. split; [exact H|].
  transitivity (if decide (state_ (rc_conn s) = kDisconnected) then 1%nat else 0%nat); [exact Hs|by rewrite decide_True].
Defined.

(** C5: [forceClose] from another thread closes.  At any moment, wherever the loop thread is
    in its turn, some other thread, in no other call, calls [forceClose]; the loop and the
    other threads go on, and at some moment the call has returned.  When the loop has
    completed two more turns after that, the connection is disconnected and its close
    callback has run, once, provided that no call is overtaken by the close, no round of
    polling reports the timer queue ahead of the connection and none reports a hang-up next
    to priority data or a half-close but no input. *)
Theorem force_close_takes_effect {K E : Type} `{!Epoll K, !EpollOpen K} `{!EventFd E} (tid : Z) (st : site K)
    (user : user_call -> TcpConnection (host K E) -> res (TcpConnection (host K E)))
    `{!ReactorUser tid st user} `{!ServedUser user} (env : new_env) (fd owner i : Z) (es es1 es2 : list event) :
  start_ok (K := K) (E := E) tid st env fd -> rounds_ok st ->
  Forall (event_ok tid) (es ++ (Begin i CallForceClose :: es1) ++ es2) ->
  undisturbed user st env fd owner tid (es ++ (Begin i CallForceClose :: es1) ++ es2) = true ->
  wp (s1 ← serve user st env fd owner tid es;
      s2 ← performs user (ef st) tid (Begin i CallForceClose :: es1) s1;
      s3 ← performs user (ef st) tid es2 s2; Ok (s1, s2, s3)) (fun x =>
    let '(s1, s2, s3) := x in
    rc_calls s1 !! i = None -> rc_calls s2 !! i = None -> (2 + rc_turns s2 <= rc_turns s3)%nat ->
    state_ (rc_conn s3) = kDisconnected /\ h_closes (loop (rc_conn s3)) = 1%nat).
Proof.
  intros Hs Hro [He [He1 He2]%Forall_app]%Forall_app [Ho Ho']%undisturbed_app.
  eapply wp_bind; [apply (wp_and _ _ _ (serve_in_life tid st user env fd owner Hs Hro es He Ho) Ho')|].
  intros s1 [H1 [Ho1 Ho2]%never_overtaken_app].
  eapply (wp_bind _ _ (fun s2 => in_life tid st s2 /\ (rc_calls s1 !! i = None -> force_closing i s2) /\
                                never_overtaken user (ef st) tid es2 s2 = true)).
  - pose proof (forced_performs tid st user i es1 s1 H1 Hro He1 Ho1) as Hf.
    eapply wp_mono; [exact (wp_and _ _ _ Hf Ho2)|]. by intros s2 [[]].
  - intros s2 (H2 & Hf & Ho3). eapply wp_bind; [by apply (performs_in_life tid st user es2)|].
    intros s3 [H3 [[Hc Hd] _]]. simpl. intros Hn1 Hn2 Ht.
    assert (is_closed s3) as Hcl.
    { destruct (Hf Hn1) as [H|[[H|H]%Hd|(p & Hp & _)]]; [by apply Hc|done| |congruence].
      unfold due_by in H. destruct (rc_phase s3); lia. }
    apply stage_closed in Hcl. split; [done|]. rewrite (in_life_told tid st s3 H3). by rewrite decide_True.
Qed.

Lemma force_close_takes_effect_witness :
  exists s1 s2 s3, demo_threads demo_events = Ok s1 /\ state_ (rc_conn s1) = kConnected /\
    performs (echo_server false) (ef demo_site) 100 demo_close s1 = Ok s2 /\
    performs (echo_server false) (ef demo_site) 100 demo_end s2 = Ok s3 /\
    rc_turns s3 = 3%nat /\ state_ (rc_conn s3) = kDisconnected /\ h_closes (loop (rc_conn s3)) = 1%nat.
Proof.
  assert (match demo_threads demo_events with
    | Ok s1 => bool_decide (state_ (rc_conn s1) = kConnected) && bool_decide (rc_calls s1 = ∅) &&
        match performs (echo_server false) (ef demo_site) 100 demo_close s1 with
        | Ok s2 => bool_decide (rc_calls s2 !! 200 = None) && (rc_turns s2 =? 1)%nat &&
            match performs (echo_server false) (ef demo_site) 100 demo_end s2 with
            | Ok s3 => (rc_turns s3 =? 3)%nat | _ => false end
        | _ => false end
    | _ => false end = true) as H by (vm_compute; reflexivity).
  pose proof (force_close_takes_effect 100 demo_site (echo_server false) demo_env 7 50 200 demo_events
    (replicate 5 (Continue 200)) demo_end demo_start demo_rounds_ok demo_events_ok demo_closed_undisturbed) as Hs.
  change (serve _ _ _ _ _ _ _) with (demo_threads demo_events) in Hs.
  change (Begin 200 CallForceClose :: replicate 5 (Continue 200)) with demo_close in Hs.
  destruct (demo_threads demo_events) as [s1|]; [|done]. rewrite bind_ret_l in Hs.
  destruct (performs _ _ _ demo_close s1) as [s2|] eqn:E2; [|by rewrite andb_false_r in H]. rewrite bind_ret_l in Hs.
  destruct (performs _ _ _ demo_end s2) as [s3|] eqn:E3; [|by rewrite !andb_false_r in H].
  rewrite !andb_true_iff in H.
  destruct H as [[H1%bool_decide_eq_true H2%bool_decide_eq_true] [[H3%bool_decide_eq_true H4%Nat.eqb_eq] H5%Nat.eqb_eq]].
  exists s1, s2, s3. split; [reflexivity|]. split; [exact H1|]. split; [exact E2|]. split; [exact E3|]. split; [exact H5|].
  simpl in Hs. apply Hs; [rewrite H2; apply lookup_empty|exact H3|lia].
Defined.

(** C7: a functor never outlives its connection, unless its call was overtaken.  [send],
    [shutdown] and [forceClose] of another thread queue a functor that holds the connection
    by a plain pointer, and [connectDestroyed] is the functor after which the server lets
    go of it.  Other threads are in any calls of the interface, interrupted anywhere, while
    the loop runs, the system and the user's callbacks behaving
    ([start_ok], [ReactorUser], [ServedUser], [QueueUser]), but no call is overtaken by the close of the connection, no round of
    polling reports the timer queue ahead of the connection and none reports a hang-up next
    to priority data or a half-close but no input.  Then whatever has been queued, by
    whomever, no functor with a plain pointer stands behind [connectDestroyed], so all of
    them run while the connection exists.  ([late_send_dangles] shows what happens
    otherwise.) *)
Theorem functors_outlived {K E : Type} `{!Epoll K, !EpollOpen K} `{!EventFd E} (tid : Z) (st : site K)
    (user : user_call -> TcpConnection (host K E) -> res (TcpConnection (host K E)))
    `{!ReactorUser tid st user} `{!ServedUser user} `{!QueueUser user} (env : new_env) (fd owner : Z) (es : list event) :
  start_ok (K := K) (E := E) tid st env fd -> rounds_ok st -> Forall (event_ok tid) es ->
  undisturbed user st env fd owner tid es = true ->
  wp (serve user st env fd owner tid es) (fun s =>
    forall l1 f l2, queued s = l1 ++ f :: l2 -> plain_this f = true -> destroy ∉ l1).
Proof.
  intros Hs Hro He Ho. destruct (serve_ordered tid st user env fd owner Hs Hro es _ He Ho) as [Hq _].
  eapply wp_mono; [exact Hq|]. intros s [Hord _] l1 f l2 E1 Hf (k1 & k2 & ->)%list_elem_of_split.
  rewrite E1, <- (assoc_L (++)) in Hord. specialize (Hord _ _ eq_refl). unfold counted in Hord.
  rewrite Forall_app, Forall_cons in Hord. destruct Hord as (_ & Hn & _). congruence.
Qed.

Lemma functors_outlived_witness :
  exists s, demo_threads demo_closed = Ok s /\ destroy ∈ queued s /\ force_close ∈ queued s /\
    forall l1 f l2, queued s = l1 ++ f :: l2 -> plain_this f = true -> destroy ∉ l1.
Proof.
  assert (match demo_threads demo_closed with Ok s => existsb is_destroy (queued s) && existsb is_force_close (queued s) | _ => false end = true) as H
    by (vm_compute; reflexivity).
  pose proof (functors_outlived 100 demo_site (echo_server false) demo_env 7 50 demo_closed demo_start demo_rounds_ok
    demo_events_ok demo_closed_undisturbed) as Hs.
  change (serve _ _ _ _ _ _ _) with (demo_threads demo_closed) in Hs.
  destruct (demo_threads demo_closed) as [s|]; [|done]. exists s. apply andb_true_iff in H as [H1 H2]. split; [reflexivity|].
  apply existsb_exists in H1 as (f & H1 & Ef), H2 as (g & H2 & Eg). apply list_elem_of_In in H1, H2.
  split; [by destruct f as [[| | |]| | | |]|]. split; [by destruct g as [[[]| | |]| | | |]|]. exact Hs.
Defined.

(** ** Calls that are overtaken *)

(** Thread 200 is in [x] and has done the test of [state_]; thread 201 closes the
    connection, and the loop runs until the connection is destroyed. *)
Definition overtaking (x : thread_call) : list event :=
  demo_events ++ [Begin 200 x; Continue 200] ++ whole 201 CallForceClose ++ replicate 9 LoopStep.

(** [send] can outlive the connection: the functor that thread 200 queues then stands
    behind [connectDestroyed], and the loop runs it with a pointer to freed memory. *)
Theorem late_send_dangles :
  match demo_alive (overtaking (CallSend [x21])) with
  | Ok s => released s = true /\ rc_calls s !! 200 = Some (Enqueue (TSendInLoop [x21]))
  | Fault _ => False
  end /\
  demo_alive (overtaking (CallSend [x21]) ++ Continue 200 :: replicate 4 LoopStep) = Fault DanglingPointer.
Proof. vm_compute. split_and!; reflexivity. Qed.

(** [forceClose] can close twice: the assignment takes the connection out of
    [kDisconnected], and the functor, if somebody still holds the connection, runs
    [handleClose] again; the server's [assert(n == 1)] then ends the process. *)
Theorem overtaken_closes_twice :
  match demo_threads (overtaking CallForceClose ++ whole 200 CallForceClose ++ replicate 4 LoopStep) with
  | Ok s => state_ (rc_conn s) = kDisconnected /\ h_closes (loop (rc_conn s)) = 2%nat
  | Fault _ => False
  end /\
  serve (K := simple_epoll) (E := Z) (echo_server true) demo_site demo_env 7 50 100
    (overtaking CallForceClose ++ whole 200 CallForceClose ++ replicate 4 LoopStep) = Fault AssertionFailed.
Proof. vm_compute. split_and!; reflexivity. Qed.

(** ** A timeout that is switched off

    The kernel reports the timerfd in every round, at a time before a timeout of five
    seconds. *)
Definition idle_site : site simple_epoll :=
  mkSite 12 13 (script_env (fun _ => [(5, EPOLLIN)]) (fun _ => []) 2 2000000).
Definition state_after (es : list event) : option StateE :=
  match serve (E := Z) (echo_server false) idle_site demo_env 7 50 100 es with
  | Ok s => Some (state_ (rc_conn s))
  | Fault _ => None
  end.
Definition idle_on : list event := whole 200 (CallIdleTimeout (double_of_int 5)).
Definition idle_off : list event := whole 200 (CallIdleTimeout (double_of_int 0)).

(** Switching the idle timeout off closes the connection.  Another thread sets an idle
    timeout and switches it off before the loop has run [resetIdleTimerInLoop]: there is no
    timer to cancel yet, and the functor that is still queued sets one with the delay 0,
    which expires at once and closes the connection.  With either call alone, or with the
    loop's turn in between, the connection stays up. *)
Theorem idle_off_closes :
  state_after (idle_on ++ idle_off ++ replicate 12 LoopStep) = Some kDisconnected /\
  state_after (idle_on ++ replicate 12 LoopStep) = Some kConnected /\
  state_after (idle_off ++ replicate 12 LoopStep) = Some kConnected /\
  state_after (idle_on ++ replicate 5 LoopStep ++ idle_off ++ replicate 12 LoopStep) = Some kConnected.
Proof. vm_compute. split_and!; reflexivity. Qed.
