(* ===== verification/LogStream.v ===== *)
(** * LogStream: formatting log lines into a fixed array

    Models [include/LogStream.h] and [src/base/LogStream.cpp]: the digit loop of
    [convert], the insertion operators of [LogStream] with every store into
    [data_] checked against its 4000 bytes, and [FixedBuffer], of which only the
    bytes before [cur_] are ever read.  The text [snprintf] produces for a
    [double] is an input. *)
From Stdlib Require Import Strings.Byte.
From S2P Require Import Prelude Buffer.

(** ** [convert] *)

(** [digits], and [zero = digits + 9]. *)
Definition digits : list byte :=
  [x39; x38; x37; x36; x35; x34; x33; x32; x31; x30; x31; x32; x33; x34; x35; x36; x37; x38; x39].

Definition zero_at (lsd : Z) : res byte :=
  match digits !! Z.to_nat (9 + lsd) with
  | Some b => if 0 <=? 9 + lsd then Ok b else Fault OutOfBounds
  | None => Fault OutOfBounds
  end.

(** The [do ... while] loop: the digits, least significant first.  [T] has at most
    64 bits, so 20 turns are enough. *)
Fixpoint convert_loop (fuel : nat) (i : Z) : res (list byte) :=
  match fuel with
  | O => Fault OutOfFuel
  | S fuel =>
      b ← zero_at (Z.rem i 10);
      let i := Z.quot i 10 in
      if i =? 0 then Ok [b] else l ← convert_loop fuel i; Ok (b :: l)
  end.

Definition kMaxDigits : nat := 20.
Definition minus : byte := x2d.

(** The text [convert] leaves in [buf], without the terminating zero byte. *)
Definition convert (value : Z) : res (list byte) :=
  l ← convert_loop kMaxDigits value;
  Ok (reverse (l ++ if value <? 0 then [minus] else [])).

(** *** Reading a number back *)
Definition digit_value (b : byte) : option Z :=
  match b with
  | x30 => Some 0 | x31 => Some 1 | x32 => Some 2 | x33 => Some 3 | x34 => Some 4
  | x35 => Some 5 | x36 => Some 6 | x37 => Some 7 | x38 => Some 8 | x39 => Some 9
  | _ => None
  end.

(** Digits, least significant first. *)
Fixpoint value_lsf (l : list byte) : option Z :=
  match l with
  | [] => Some 0
  | b :: l => d ← digit_value b; n ← value_lsf l; Some (d + 10 * n)
  end.

Definition read_number (l : list byte) : option Z :=
  match l with
  | [] => None
  | b :: l' =>
      if decide (b = minus) then n ← value_lsf (reverse l'); Some (- n)
      else value_lsf (reverse l)
  end.

Lemma zero_at_spec r :
  -9 <= r <= 9 -> exists b, zero_at r = Ok b /\ digit_value b = Some (Z.abs r) /\ b <> minus.
Proof.
  intros Hr.
  assert (r ∈ [-9; -8; -7; -6; -5; -4; -3; -2; -1; 0; 1; 2; 3; 4; 5; 6; 7; 8; 9]) as Hin.
  { rewrite !elem_of_cons. lia. }
  repeat (apply elem_of_cons in Hin as [->|Hin]; [eexists; split; [reflexivity|]; split; [reflexivity|discriminate]|]).
  by apply elem_of_nil in Hin.
Qed.

Lemma rem_quot_abs i :
  -9 <= Z.rem i 10 <= 9 /\ Z.abs i = Z.abs (Z.rem i 10) + 10 * Z.abs (Z.quot i 10).
Proof.
  pose proof (Z.quot_rem' i 10) as Hq. pose proof (Z.rem_bound_abs i 10 ltac:(lia)).
  pose proof (Z.rem_sign_mul i 10 ltac:(lia)).
  destruct (Z.le_gt_cases 0 i).
  - pose proof (Z.quot_pos i 10 ltac:(lia) ltac:(lia)).
    pose proof (Z.rem_nonneg i 10 ltac:(lia) ltac:(lia)). lia.
  - pose proof (Z.rem_nonpos i 10 ltac:(lia) ltac:(lia)).
    pose proof (Z.quot_opp_l i 10 ltac:(lia)).
    pose proof (Z.quot_pos (- i) 10 ltac:(lia) ltac:(lia)). lia.
Qed.

(** The loop ends within [fuel] turns if the number has at most that many digits,
    and produces its digits, none of them a minus sign. *)
Lemma convert_loop_spec fuel i :
  (0 < fuel)%nat -> Z.abs i < 10 ^ Z.of_nat fuel ->
  exists l, convert_loop fuel i = Ok l /\ value_lsf l = Some (Z.abs i) /\
    (length l <= fuel)%nat /\ l <> [] /\ Forall (fun b => b <> minus) l.
Proof.
  revert i. induction fuel as [|fuel IH]; intros i Hf Hi; [lia|]. simpl convert_loop.
  destruct (rem_quot_abs i) as [Hr Habs].
  destruct (zero_at_spec _ Hr) as (b & -> & Hb & Hm). rewrite bind_ret_l.
  destruct (Z.eqb_spec (Z.quot i 10) 0) as [E|E].
  - exists [b]. split; [done|]. simpl. rewrite Hb. simpl.
    split; [f_equal; rewrite E in Habs; simpl in Habs; lia|].
    split; [lia|]. split; [done|]. by repeat constructor.
  - destruct (IH (Z.quot i 10)) as (l & -> & Hl & Hlen & Hne & Hms).
    + destruct fuel; [|lia]. simpl in Hi. lia.
    + rewrite Nat2Z.inj_succ, Z.pow_succ_r in Hi by lia. lia.
    + exists (b :: l). split; [done|]. simpl. rewrite Hb. simpl. rewrite Hl. simpl.
      split; [f_equal; lia|]. split; [lia|]. split; [done|]. by constructor.
Qed.

Lemma convert_spec v :
  - 2 ^ 63 <= v < 2 ^ 64 ->
  exists l, convert v = Ok l /\ read_number l = Some v /\ 0 < zlen l <= 21.
Proof.
  intros Hv. unfold convert.
  destruct (convert_loop_spec kMaxDigits v) as (l & -> & Hl & Hlen & Hne & Hms);
    [unfold kMaxDigits; lia|unfold kMaxDigits; simpl; lia|].
  rewrite bind_ret_l. eexists. split; [done|]. unfold kMaxDigits in Hlen.
  destruct (Z.ltb_spec v 0) as [Hneg|Hpos].
  - rewrite reverse_app. simpl.
    rewrite reverse_involutive, Hl. split; [simpl; f_equal; lia|].
    unfold zlen. simpl. rewrite length_reverse. lia.
  - rewrite app_nil_r. split.
    + destruct (reverse l) as [|b r] eqn:Er.
      { apply (f_equal reverse) in Er. rewrite reverse_involutive in Er. done. }
      simpl. rewrite decide_False.
      * rewrite <- Er, reverse_involutive, Hl. f_equal. lia.
      * rewrite Forall_forall in Hms. apply Hms. apply elem_of_reverse. rewrite Er. by left.
    + unfold zlen. rewrite length_reverse. destruct l; [done|]. simpl in *. lia.
Qed.

(** ** [LogStream] *)
Definition kMaxNumericSize : Z := 48.
Definition stream_size : Z := 4000.

(** [char data_[4000]] and the offset of [cur_] in it: the members of [LogStream] and
    of [FixedBuffer]. *)
Record chars := mkChars { data_ : list byte; cur_ : Z }.

Definition LogStream := chars.

Definition LogStream_new (garbage : list byte) : LogStream := mkChars garbage 0.

Definition avail (s : LogStream) : Z := stream_size - cur_ s.
Definition contents (s : LogStream) : list byte := slice (data_ s) 0 (cur_ s).
Definition reset (s : LogStream) : LogStream := mkChars (data_ s) 0.
Definition bzero (s : LogStream) : LogStream := mkChars (replicate (length (data_ s)) x00) (cur_ s).

(** [memcpy(cur_, d, len)] and [cur_ += len]. *)
Definition put (s : LogStream) (d : list byte) : res LogStream :=
  v ← copy_in (data_ s) d (cur_ s);
  Ok (mkChars v (cur_ s + zlen d)).

Definition append (s : LogStream) (d : list byte) : res LogStream :=
  if zlen d <? avail s then put s d else Ok s.

(** [formatInteger]: [convert] also stores a zero byte behind the text. *)
Definition formatInteger (s : LogStream) (v : Z) : res LogStream :=
  if kMaxNumericSize <=? avail s then
    text ← convert v;
    arr ← copy_in (data_ s) (text ++ [x00]) (cur_ s);
    Ok (mkChars arr (cur_ s + zlen text))
  else Ok s.

(** One hexadecimal digit of a pointer. *)
Definition nibble (v : Z) (i : Z) : byte :=
  let n := Z.land (Z.shiftr v (i * 4)) 15 in
  let c := if n <? 10 then 48 + n else 97 + n - 10 in
  match Byte.of_N (Z.to_N c) with Some b => b | None => x00 end.

Definition pointer_text (v : Z) : list byte :=
  [x30; x78] ++ (nibble v <$> [15; 14; 13; 12; 11; 10; 9; 8; 7; 6; 5; 4; 3; 2; 1; 0]).

Definition put_pointer (s : LogStream) (v : Z) : res LogStream :=
  if kMaxNumericSize <=? avail s then put s (pointer_text v) else Ok s.

(** [snprintf(cur_, 48, "%.12g", v)] stores the text it is given and a zero byte. *)
Definition put_double (s : LogStream) (text : list byte) : res LogStream :=
  if kMaxNumericSize <=? avail s then
    arr ← copy_in (data_ s) (text ++ [x00]) (cur_ s);
    Ok (mkChars arr (cur_ s + zlen text))
  else Ok s.

(** The insertion operators.  The integer types differ in range only. *)
Inductive piece :=
  | PBool (b : bool)
  | PInt (v : Z)
  | PPointer (v : Z)
  | PDouble (text : list byte)
  | PChar (b : byte)
  | PCString (s : option (list byte))
  | PString (s : list byte).

Definition null_text : list byte := [x28; x6e; x75; x6c; x6c; x29].

Definition insert_piece (s : LogStream) (p : piece) : res LogStream :=
  match p with
  | PBool b => append s (if b then [x31] else [x30])
  | PInt v => formatInteger s v
  | PPointer v => put_pointer s v
  | PDouble text => put_double s text
  | PChar b => append s [b]
  | PCString (Some t) => append s t
  | PCString None => append s null_text
  | PString t => append s t
  end.

Fixpoint insert_all (s : LogStream) (ps : list piece) : res LogStream :=
  match ps with
  | [] => Ok s
  | p :: ps => s ← insert_piece s p; insert_all s ps
  end.

(** ** [FixedBuffer] *)
Definition kSize : Z := 4000.
Definition FixedBuffer := chars.

Definition FixedBuffer_new (garbage : list byte) : FixedBuffer := mkChars garbage 0.
Definition fb_avail (b : FixedBuffer) : Z := kSize - cur_ b.
Definition fb_append (b : FixedBuffer) (d : list byte) : res FixedBuffer :=
  if zlen d <? fb_avail b then put b d else Ok b.
Definition fb_reset (b : FixedBuffer) : FixedBuffer := mkChars (data_ b) 0.
Definition fb_bzero (b : FixedBuffer) : FixedBuffer :=
  mkChars (replicate (length (data_ b)) x00) (cur_ b).

(** [current] is the cursor; [add] moves it without a check. *)
Definition fb_current (b : FixedBuffer) : Z := cur_ b.
Definition fb_add (b : FixedBuffer) (len : Z) : FixedBuffer := mkChars (data_ b) (cur_ b + len).

(** *** What is in the stream *)
Definition stream_ok (s : LogStream) : Prop :=
  zlen (data_ s) = stream_size /\ 0 <= cur_ s <= stream_size.

(** Pieces whose text the model knows to be right. *)
Definition piece_ok (p : piece) : Prop :=
  match p with
  | PInt v => - 2 ^ 63 <= v < 2 ^ 64
  | PDouble text => zlen text < kMaxNumericSize
  | _ => True
  end.

Definition text_of (p : piece) : list byte :=
  match p with
  | PBool b => if b then [x31] else [x30]
  | PInt v => match convert v with Ok l => l | Fault _ => [] end
  | PPointer v => pointer_text v
  | PDouble text => text
  | PChar b => [b]
  | PCString (Some t) | PString t => t
  | PCString None => null_text
  end.

(** Numbers need 48 bytes of room, everything else strictly more than its length. *)
Definition fits (used : Z) (p : piece) : bool :=
  match p with
  | PInt _ | PPointer _ | PDouble _ => kMaxNumericSize <=? stream_size - used
  | _ => zlen (text_of p) <? stream_size - used
  end.

(** The specification: a piece is appended whole if it fits and skipped otherwise. *)
Definition spec_insert (t : list byte) (p : piece) : list byte :=
  if fits (zlen t) p then t ++ text_of p else t.

Lemma stream_ok_len s : stream_ok s -> zlen (contents s) = cur_ s.
Proof. intros [H1 H2]. unfold contents. rewrite zlen_slice by lia. lia. Qed.

(** Storing [d ++ extra] at the cursor and advancing over [d]. *)
Lemma store_ok s d extra :
  stream_ok s -> zlen (d ++ extra) <= avail s ->
  exists v, copy_in (data_ s) (d ++ extra) (cur_ s) = Ok v /\
    stream_ok (mkChars v (cur_ s + zlen d)) /\
    contents (mkChars v (cur_ s + zlen d)) = contents s ++ d.
Proof.
  intros [H1 H2] Hlen. unfold avail in Hlen. rewrite copy_in_Ok by lia. eexists. split; [done|].
  rewrite zlen_app in Hlen. pose proof (zlen_nonneg d). pose proof (zlen_nonneg extra).
  split.
  - unfold stream_ok. simpl. rewrite zlen_splice by (rewrite ?zlen_app; lia). lia.
  - unfold contents. simpl. rewrite (slice_app_split _ 0 (cur_ s)) by (rewrite ?zlen_splice; rewrite ?zlen_app; lia).
    rewrite slice_splice_before by lia. f_equal.
    assert (slice (splice (data_ s) (cur_ s) (d ++ extra)) (cur_ s) (cur_ s + zlen (d ++ extra)) = d ++ extra) as Hs
      by (apply slice_splice_eq; rewrite ?zlen_app; lia).
    unfold slice in *. rewrite zlen_app in Hs.
    apply (f_equal (take (length d))) in Hs. rewrite take_app_length in Hs. rewrite take_take in Hs.
    etrans; [|exact Hs]. f_equal. unfold zlen in *. lia.
Qed.

Lemma put_ok s d :
  stream_ok s -> zlen d <= avail s ->
  exists s', put s d = Ok s' /\ stream_ok s' /\ contents s' = contents s ++ d.
Proof.
  intros Hs Hd. destruct (store_ok s d []) as (v & E & Hv & Hc); [done|by rewrite app_nil_r|].
  rewrite app_nil_r in E. unfold put. rewrite E. simpl. eauto.
Qed.

Lemma append_ok s d :
  stream_ok s ->
  exists s', append s d = Ok s' /\ stream_ok s' /\
    contents s' = if zlen d <? stream_size - zlen (contents s) then contents s ++ d else contents s.
Proof.
  intros Hs. rewrite (stream_ok_len s Hs). unfold append, avail.
  destruct (Z.ltb_spec (zlen d) (stream_size - cur_ s)); [|by eauto].
  apply put_ok; [done|]. unfold avail. lia.
Qed.

Lemma fb_append_ok b d :
  stream_ok b ->
  exists b', fb_append b d = Ok b' /\ stream_ok b' /\
    contents b' = if zlen d <? kSize - zlen (contents b) then contents b ++ d else contents b.
Proof. apply append_ok. Qed.

Lemma zlen_pointer v : zlen (pointer_text v) = 18.
Proof. done. Qed.

Lemma insert_piece_ok s p :
  stream_ok s -> piece_ok p ->
  exists s', insert_piece s p = Ok s' /\ stream_ok s' /\
    contents s' = spec_insert (contents s) p.
Proof.
  intros Hs Hp. pose proof (stream_ok_len s Hs) as Hl. unfold spec_insert, kMaxNumericSize in *.
  destruct p as [b|v|v|text|b|[t|]|t]; simpl; try (by apply append_ok); rewrite Hl.
  - unfold formatInteger, avail, kMaxNumericSize. destruct (convert_spec v Hp) as (l & -> & _ & Hlen).
    destruct (Z.leb_spec 48 (stream_size - cur_ s)) as [Hr|Hr]; [|by eauto]. rewrite bind_ret_l.
    destruct (store_ok s l [x00] Hs) as (v2 & -> & H1 & H2); [unfold avail; rewrite zlen_app; change (zlen [x00]) with 1; lia|]. simpl. eauto.
  - unfold put_pointer, avail, kMaxNumericSize.
    destruct (Z.leb_spec 48 (stream_size - cur_ s)) as [Hr|Hr]; [|by eauto].
    apply put_ok; [done|]. rewrite zlen_pointer. unfold avail. lia.
  - simpl in Hp. unfold put_double, avail, kMaxNumericSize.
    destruct (Z.leb_spec 48 (stream_size - cur_ s)) as [Hr|Hr]; [|by eauto].
    unfold kMaxNumericSize in Hp.
    destruct (store_ok s text [x00] Hs) as (v2 & -> & H1 & H2); [unfold avail; rewrite zlen_app; change (zlen [x00]) with 1; lia|]. simpl. eauto.
Qed.

Lemma insert_all_ok s ps :
  stream_ok s -> Forall piece_ok ps ->
  exists s', insert_all s ps = Ok s' /\ stream_ok s' /\
    contents s' = foldl spec_insert (contents s) ps.
Proof.
  intros Hs Hps. revert s Hs. induction Hps as [|p ps Hp Hps IH]; intros s Hs; simpl; [by eauto|].
  destruct (insert_piece_ok s p Hs Hp) as (s1 & -> & Hs1 & Hc1). simpl.
  destruct (IH s1 Hs1) as (s2 & -> & Hs2 & Hc2). exists s2. by rewrite Hc2, Hc1.
Qed.

(** ** Properties *)

(** Integers print and read back.  For every value of every integer type up to
    64 bits, signed minimum included, the loop of [convert] ends and the text it
    leaves denotes the value, in at most 20 digits and a sign. *)
Theorem convert_round_trip (v : Z) :
  - 2 ^ 63 <= v < 2 ^ 64 ->
  exists l, convert v = Ok l /\ read_number l = Some v /\ 0 < zlen l <= 21.
Proof. apply convert_spec. Qed.

Lemma convert_round_trip_witness :
  exists l, convert (- 2 ^ 63) = Ok l /\ read_number l = Some (- 2 ^ 63) /\ 0 < zlen l <= 21.
Proof. apply (convert_round_trip (- 2 ^ 63)). lia. Defined.

(** C32: a log stream never writes outside its array.  Any sequence of insertions
    returns, and leaves the texts of the pieces that fit, whole and in order. *)
Theorem log_stream_refines (garbage : list byte) (ps : list piece) :
  zlen garbage = stream_size -> Forall piece_ok ps ->
  exists s, insert_all (LogStream_new garbage) ps = Ok s /\ stream_ok s /\
    contents s = foldl spec_insert [] ps.
Proof.
  intros Hg Hps. destruct (insert_all_ok (LogStream_new garbage) ps) as (s & E & Hs & Hc); [|done|].
  - split; [done|]. simpl. unfold stream_size. lia.
  - exists s. split_and!; try done.
Qed.

Lemma log_stream_refines_witness :
  exists s, insert_all (LogStream_new (zeros 4000)) [PCString (Some [x61]); PInt (-12); PBool true] = Ok s /\
    contents s = [x61; x2d; x31; x32; x31].
Proof.
  destruct (log_stream_refines (zeros 4000) [PCString (Some [x61]); PInt (-12); PBool true])
    as (s & E & _ & Hc).
  - vm_compute. reflexivity.
  - repeat constructor; simpl; lia.
  - exists s. split; [exact E|]. rewrite Hc. vm_compute. reflexivity.
Defined.

