(* ===== verification/Printf.v ===== *)
(** * Printf: decimal numbers as text

    The conversions of the C library the code formats and parses numbers with: the
    text of [%d] (the printing function of the [stdpp] library), zero padding,
    the truncation of [snprintf], C strings, [isdigit] and [atoi]; and the proof that
    [convert] of [src/base/LogStream.cpp] prints what [%d] prints. *)
From Stdlib Require Import Strings.Byte Ascii String.
From stdpp Require Import pretty.
From S2P Require Import Prelude Buffer LogStream.

(** A string literal. *)
Definition str (s : string) : list byte := list_byte_of_string s.

(** ** Printing *)

(** [%d] of a number. *)
Definition decimal (v : Z) : list byte := list_byte_of_string (pretty v).

(** [snprintf(buf, n, ...)] leaves at most [n - 1] bytes of the text before the zero
    byte. *)
Definition snprintf (n : Z) (text : list byte) : list byte := take (Z.to_nat (n - 1)) text.

(** [%0wd] *)
Definition padded (w : Z) (v : Z) : list byte :=
  let t := decimal (Z.abs v) in
  let sign := if v <? 0 then [minus] else [] in
  sign ++ replicate (Z.to_nat (w - zlen t - zlen sign)) x30 ++ t.

(** [%wd] *)
Definition spaced (w : Z) (v : Z) : list byte :=
  let t := decimal v in replicate (Z.to_nat (w - zlen t)) x20 ++ t.

(** ** Parsing *)
Definition is_digit (b : byte) : bool := bool_decide (is_Some (digit_value b)).

(** The bytes of an array up to the first zero byte. *)
Fixpoint c_string (l : list byte) : list byte :=
  match l with
  | [] => []
  | b :: l => if decide (b = x00) then [] else b :: c_string l
  end.

Definition is_space (b : byte) : bool :=
  match b with x20 | x09 | x0a | x0b | x0c | x0d => true | _ => false end.

Fixpoint skip_space (l : list byte) : list byte :=
  match l with
  | b :: l' => if is_space b then skip_space l' else l
  | [] => []
  end.

(** The value of the digits at the front, [acc] the value of those before. *)
Fixpoint scan_digits (acc : Z) (l : list byte) : Z :=
  match l with
  | b :: l => match digit_value b with Some d => scan_digits (10 * acc + d) l | None => acc end
  | [] => acc
  end.

(** [atoi]: white space, a sign, digits; undefined when the value is not an [int]. *)
Definition atoi (l : list byte) : res Z :=
  let '(neg, l) :=
    match skip_space l with
    | x2d :: l => (true, l)
    | x2b :: l => (false, l)
    | l => (false, l)
    end in
  let v := if neg : bool then - scan_digits 0 l else scan_digits 0 l in
  if (-2147483648 <=? v) && (v <=? 2147483647) then Ok v else Fault SignedOverflow.

(** ** Digits *)
Lemma pretty_char_digit n :
  (n < 10)%N -> digit_value (byte_of_ascii (pretty_N_char n)) = Some (Z.of_N n).
Proof.
  intros Hn. assert (n ∈ [0; 1; 2; 3; 4; 5; 6; 7; 8; 9]%N) as Hin by (rewrite !elem_of_cons; lia).
  repeat (apply elem_of_cons in Hin as [->|Hin]; [reflexivity|]). by apply elem_of_nil in Hin.
Qed.

Lemma digit_value_inj b b' d : digit_value b = Some d -> digit_value b' = Some d -> b = b'.
Proof. destruct b; intros [= <-]; destruct b'; intros [=]; done. Qed.

Lemma list_byte_of_string_cons a s :
  list_byte_of_string (String a s) = byte_of_ascii a :: list_byte_of_string s.
Proof. done. Qed.

(** The digit loop of [convert] and that of [pretty], on a number that is not zero. *)
Lemma convert_loop_pretty fuel i l s :
  i <> 0 -> convert_loop fuel i = Ok l ->
  list_byte_of_string (pretty_N_go (Z.abs_N i) s) = reverse l ++ list_byte_of_string s.
Proof.
  revert i l s. induction fuel as [|fuel IH]; intros i l s Hi E; [done|]. simpl in E.
  destruct (rem_quot_abs i) as [Hr Habs]. destruct (zero_at_spec _ Hr) as (b & Eb & Hb & _).
  rewrite Eb, bind_ret_l in E.
  assert (Z.abs_N i `mod` 10 = Z.abs_N (Z.rem i 10))%N as Hm.
  { symmetry. apply (N.mod_unique _ _ (Z.abs_N (Z.quot i 10))); lia. }
  assert (Z.abs_N i `div` 10 = Z.abs_N (Z.quot i 10))%N as Hd.
  { symmetry. apply (N.div_unique _ _ _ (Z.abs_N (Z.rem i 10))); lia. }
  rewrite pretty_N_go_step, Hm, Hd by lia.
  assert (byte_of_ascii (pretty_N_char (Z.abs_N (Z.rem i 10))) = b) as Hc.
  { eapply digit_value_inj; [|exact Hb]. rewrite pretty_char_digit by lia. f_equal. lia. }
  destruct (Z.eqb_spec (Z.quot i 10) 0) as [Eq|Eq].
  - injection E as <-. rewrite Eq. simpl Z.abs_N. rewrite pretty_N_go_0, list_byte_of_string_cons, Hc. done.
  - apply bind_Ok in E as (l' & E & [= <-]). rewrite (IH _ l') by done.
    rewrite list_byte_of_string_cons, Hc, reverse_cons, <- app_assoc. done.
Qed.

Lemma decimal_pos v : 0 < v -> decimal v = list_byte_of_string (pretty_N_go (Z.abs_N v) "").
Proof. destruct v; [lia|done|lia]. Qed.

Lemma decimal_neg v : v < 0 -> decimal v = minus :: list_byte_of_string (pretty_N_go (Z.abs_N v) "").
Proof. destruct v; [lia|lia|done]. Qed.

Lemma convert_decimal v : - 2 ^ 63 <= v < 2 ^ 64 -> convert v = Ok (decimal v).
Proof.
  intros Hv. unfold convert.
  destruct (convert_loop_spec kMaxDigits v) as (l & El & _);
    [unfold kMaxDigits; lia|unfold kMaxDigits; simpl; lia|].
  destruct (decide (v = 0)) as [->|Hne]; [vm_compute in El; by injection El as <-|].
  rewrite El, bind_ret_l. f_equal. rewrite reverse_app.
  pose proof (convert_loop_pretty _ _ _ "" Hne El) as Hp. rewrite app_nil_r in Hp.
  destruct (Z.ltb_spec v 0); [rewrite decimal_neg by done|rewrite decimal_pos by lia]; by rewrite Hp.
Qed.

(** ** Reading back *)
Lemma value_lsf_snoc l b :
  value_lsf (l ++ [b]) = n ← value_lsf l; d ← digit_value b; Some (n + 10 ^ zlen l * d).
Proof.
  induction l as [|a l IH]; simpl.
  - destruct (digit_value b); simpl; [f_equal; unfold zlen; simpl; lia|done].
  - rewrite IH. destruct (digit_value a); simpl; [|done]. destruct (value_lsf l); simpl; [|done].
    destruct (digit_value b); simpl; [|done]. f_equal. unfold zlen. simpl length.
    rewrite Nat2Z.inj_succ, Z.pow_succ_r by lia. lia.
Qed.

(** The digits of a number, followed by something else. *)
Definition no_digit_first (l : list byte) : Prop := match l with b :: _ => digit_value b = None | [] => True end.

Lemma scan_digits_value l rest n acc :
  value_lsf (reverse l) = Some n -> no_digit_first rest ->
  scan_digits acc (l ++ rest) = acc * 10 ^ zlen l + n.
Proof.
  intros Hv Hr. revert n acc Hv. induction l as [|b l IH]; intros n acc Hv.
  - injection Hv as <-. destruct rest as [|b rest]; simpl in *; rewrite ?Hr; unfold zlen; simpl; lia.
  - rewrite reverse_cons, value_lsf_snoc in Hv.
    destruct (value_lsf (reverse l)) as [m|]; simpl in Hv; [|done].
    destruct (digit_value b) as [d|] eqn:Eb; simpl in Hv; [|done]. injection Hv as <-.
    cbn [app scan_digits]. rewrite Eb, (IH m) by done. unfold zlen. rewrite length_reverse. simpl length.
    rewrite Nat2Z.inj_succ, Z.pow_succ_r by lia. lia.
Qed.

Lemma value_lsf_nonneg l n : value_lsf l = Some n -> 0 <= n.
Proof.
  revert n. induction l as [|b l IH]; intros n; simpl; [by intros [= <-]|].
  destruct (digit_value b) as [d|] eqn:Eb; simpl; [|done]. destruct (value_lsf l) as [m|]; simpl; [|done].
  intros [= <-]. specialize (IH m eq_refl). assert (0 <= d) by (destruct b; simplify_eq/=; lia). lia.
Qed.

Lemma value_lsf_digits l n : value_lsf l = Some n -> Forall (fun b => is_digit b = true) l.
Proof.
  revert n. induction l as [|b l IH]; intros n; simpl; [constructor|].
  destruct (digit_value b) as [d|] eqn:Eb; simpl; [|done]. destruct (value_lsf l) as [m|]; simpl; [|done].
  intros _. constructor; [|by eapply IH]. unfold is_digit. rewrite bool_decide_true; [done|]. by rewrite Eb.
Qed.

(** The text of a non-negative number is a non-empty sequence of digits. *)
Lemma decimal_digits v :
  0 <= v < 2 ^ 64 ->
  value_lsf (reverse (decimal v)) = Some v /\ Forall (fun b => is_digit b = true) (decimal v) /\
  0 < zlen (decimal v) <= 21.
Proof.
  intros Hv. destruct (convert_spec v) as (l & E & Hr & Hl); [lia|]. rewrite convert_decimal in E by lia.
  injection E as <-.
  assert (value_lsf (reverse (decimal v)) = Some v) as Hval.
  { destruct (decide (v = 0)) as [->|Hne]; [reflexivity|].
    destruct (decimal v) as [|b t]; [done|]. unfold read_number in Hr. destruct (decide (b = minus)); [|done].
    destruct (value_lsf (reverse t)) as [n|] eqn:En; simpl in Hr; [|done]. injection Hr as Hr.
    apply value_lsf_nonneg in En. lia. }
  split_and!; [done| |lia|lia]. apply value_lsf_digits in Hval. rewrite !Forall_forall in *.
  intros b Hb. apply Hval. by apply elem_of_reverse.
Qed.

Lemma digit_facts b :
  is_digit b = true -> is_space b = false /\ b <> x2d /\ b <> x2b /\ b <> x00 /\ b <> x0a.
Proof. by destruct b. Qed.

Lemma decimal_cons v :
  0 <= v < 2 ^ 64 -> exists b t, decimal v = b :: t /\ is_digit b = true.
Proof.
  intros Hv. destruct (decimal_digits v Hv) as (_ & Hdig & Hlen).
  destruct (decimal v) as [|b t]; [unfold zlen in Hlen; simpl in Hlen; lia|].
  inversion Hdig as [|? ? Hb _]; subst. by exists b, t.
Qed.

(** [atoi] reads a printed number, whatever comes before in spaces and after it. *)
Lemma atoi_decimal spaces v rest :
  Forall (fun b => is_space b = true) spaces -> 0 <= v <= 2147483647 -> no_digit_first rest ->
  atoi (spaces ++ decimal v ++ rest) = Ok v.
Proof.
  intros Hs Hv Hr. destruct (decimal_digits v) as (Hval & _); [lia|].
  destruct (decimal_cons v) as (b & t & Ed & Hb); [lia|].
  destruct (digit_facts b Hb) as (H0 & H1 & H2 & _).
  unfold atoi. assert (skip_space (spaces ++ decimal v ++ rest) = decimal v ++ rest) as ->.
  { induction Hs as [|a s Ha _ IH]; simpl; [|by rewrite Ha]. rewrite Ed. simpl. by rewrite H0. }
  assert (match decimal v ++ rest with x2d :: l => (true, l) | x2b :: l => (false, l) | l => (false, l) end
    = (false, decimal v ++ rest)) as -> by (rewrite Ed; by destruct b).
  rewrite (scan_digits_value _ _ v) by done. rewrite Z.mul_0_l, Z.add_0_l.
  destruct (Z.leb_spec (-2147483648) v), (Z.leb_spec v 2147483647); try lia. done.
Qed.

(** *** Fixed width *)
Lemma decimal_length w v : 0 < w -> 0 <= v < 10 ^ w -> v < 2 ^ 64 -> zlen (decimal v) <= w.
Proof.
  intros Hw Hv Hb. destruct (decide (v = 0)) as [->|Hne]; [unfold zlen; simpl; lia|].
  destruct (convert_loop_spec (Z.to_nat w) v) as (l & El & _ & Hl & _); [lia|rewrite Z2Nat.id by lia; lia|].
  pose proof (convert_loop_pretty _ _ _ "" Hne El) as Hp. rewrite decimal_pos by lia.
  rewrite Hp, app_nil_r. unfold zlen. rewrite length_reverse. lia.
Qed.

Lemma value_lsf_zeros l k : value_lsf (l ++ replicate k x30) = value_lsf l.
Proof.
  induction l as [|b l IH]; simpl.
  - induction k as [|k IH]; simpl; [done|]. by rewrite IH.
  - by rewrite IH.
Qed.

(** A number in a field it fits into: exactly the width, all digits, the value. *)
Lemma padded_field w v :
  0 < w <= 19 -> 0 <= v < 10 ^ w ->
  zlen (padded w v) = w /\ value_lsf (reverse (padded w v)) = Some v /\
  Forall (fun b => is_digit b = true) (padded w v).
Proof.
  intros Hw Hv.
  assert (v < 2 ^ 64) as Hb by (assert (10 ^ w <= 10 ^ 19) by (apply Z.pow_le_mono_r; lia); lia).
  destruct (decimal_digits v) as (H1 & H2 & H3); [lia|]. pose proof (decimal_length w v ltac:(lia) Hv Hb) as Hl.
  assert (value_lsf (reverse (padded w v)) = Some v) as Hval.
  { unfold padded. destruct (Z.ltb_spec v 0); [lia|]. simpl. rewrite Z.abs_eq by lia.
    rewrite reverse_app, reverse_replicate, value_lsf_zeros. done. }
  split_and!; [|done|].
  - unfold padded. destruct (Z.ltb_spec v 0); [lia|]. simpl. rewrite Z.abs_eq by lia.
    unfold zlen in *. rewrite length_app, length_replicate. simpl. lia.
  - apply value_lsf_digits in Hval. rewrite !Forall_forall in *. intros b Hb'. apply Hval. by apply elem_of_reverse.
Qed.

(** A short enough text is not truncated. *)
Lemma snprintf_fits n text : zlen text < n -> snprintf n text = text.
Proof. intros H. unfold snprintf. apply take_ge. unfold zlen in H. lia. Qed.

Lemma c_string_id l : Forall (fun b => b <> x00) l -> c_string l = l.
Proof. induction 1 as [|b l Hb _ IH]; simpl; [done|]. rewrite decide_False by done. by rewrite IH. Qed.

Lemma c_string_take n l : c_string (take n l) = take n (c_string l).
Proof. revert n. induction l as [|b l IH]; intros [|n]; simpl; try done. destruct (decide (b = x00)); [done|]. by rewrite IH. Qed.

Lemma c_string_app l l' : Forall (fun b => b <> x00) l -> c_string (l ++ x00 :: l') = l.
Proof. induction 1 as [|b l Hb _ IH]; simpl; [done|]. rewrite decide_False by done. by rewrite IH. Qed.

(** ** Properties *)

(** C33: [convert] prints what [%d] prints.  For every value of every integer type of up
    to 64 bits the digit loop of [convert], which divides the signed number itself and
    indexes a table with negative remainders, ends and leaves the decimal text of the
    value: the text of the reference printer. *)
Theorem convert_is_decimal (v : Z) : - 2 ^ 63 <= v < 2 ^ 64 -> convert v = Ok (decimal v).
Proof. apply convert_decimal. Qed.

Lemma convert_is_decimal_witness : convert (-9223372036854775808) = Ok (decimal (-9223372036854775808)).
Proof. apply (convert_is_decimal (-9223372036854775808)). lia. Defined.
