(* ===== verification/TimeFormat.v ===== *)
(** * TimeFormat: a point in time as text

    Models [Timestamp::to_string] ([src/base/Timestamp.cpp]).  The broken-down local time
    is what [localtime] returns, a parameter: it depends on the time zone data of the
    system. *)
From Stdlib Require Import Strings.Byte String.
From S2P Require Import Prelude Buffer LogStream Printf Timestamp.

(** [struct tm] *)
Record tm := mkTm {
  tm_year : Z;
  tm_mon : Z;
  tm_mday : Z;
  tm_hour : Z;
  tm_min : Z;
  tm_sec : Z
}.

Definition colon : byte := x3a.

(** The text of the format, before [snprintf] stores it. *)
Definition time_text (m : tm) (microseconds : Z) : list byte :=
  spaced 4 (tm_year m + 1900) ++ padded 2 (tm_mon m + 1) ++ padded 2 (tm_mday m) ++ [x20] ++
  padded 2 (tm_hour m) ++ [colon] ++ padded 2 (tm_min m) ++ [colon] ++ padded 2 (tm_sec m) ++ [x2e] ++
  padded 6 microseconds.

(** [localtime] returns a null pointer when the year is out of range. *)
Definition to_string (localtime : Z -> option tm) (t : Timestamp) : res (list byte) :=
  let seconds := Z.quot t kMicroSecondsPerSecond in
  let microseconds := Z.rem t kMicroSecondsPerSecond in
  match localtime seconds with
  | None => Fault DanglingPointer
  | Some m => Ok (c_string (snprintf 128 (time_text m microseconds)))
  end.

(** What [localtime] delivers: fields in range; here with a year of four digits. *)
Definition tm_ok (m : tm) : Prop :=
  1000 <= tm_year m + 1900 <= 9999 /\ 0 <= tm_mon m <= 11 /\ 1 <= tm_mday m <= 31 /\
  0 <= tm_hour m <= 23 /\ 0 <= tm_min m <= 59 /\ 0 <= tm_sec m <= 60.

(** ** Fields *)

(** The number in the columns [i] to [j] of a text. *)
Definition field (l : list byte) (i j : Z) : option Z := value_lsf (reverse (slice l i j)).

Lemma value_lsf_bound l n : value_lsf l = Some n -> n < 10 ^ zlen l.
Proof.
  revert n. induction l as [|b l IH]; intros n; simpl; [intros [= <-]; done|].
  destruct (digit_value b) as [d|] eqn:Eb; simpl; [|done]. destruct (value_lsf l) as [m|]; simpl; [|done].
  intros [= <-]. specialize (IH m eq_refl). assert (d <= 9) by (destruct b; simplify_eq/=; lia).
  unfold zlen in *. simpl length. rewrite Nat2Z.inj_succ, Z.pow_succ_r by lia. lia.
Qed.

(** A year of four digits needs no blanks. *)
Lemma spaced_year y :
  1000 <= y <= 9999 ->
  zlen (spaced 4 y) = 4 /\ value_lsf (reverse (spaced 4 y)) = Some y /\ Forall (fun b => is_digit b = true) (spaced 4 y).
Proof.
  intros Hy. destruct (decimal_digits y) as (H1 & H2 & _); [lia|].
  pose proof (decimal_length 4 y ltac:(lia) ltac:(lia) ltac:(lia)) as Hle.
  pose proof (value_lsf_bound _ _ H1) as Hb.
  assert (zlen (decimal y) = 4) as Hl.
  { unfold zlen in *. rewrite length_reverse in Hb. destruct (decide (length (decimal y) <= 3)%nat); [|lia].
    assert (10 ^ Z.of_nat (length (decimal y)) <= 10 ^ 3) by (apply Z.pow_le_mono_r; lia). lia. }
  unfold spaced. rewrite Hl. done.
Qed.

Lemma slice_middle {A} (a b c : list A) i j : zlen a = i -> zlen b = j - i -> slice (a ++ b ++ c) i j = b.
Proof.
  intros Ha Hb. unfold slice. unfold zlen in *. rewrite drop_app_length' by lia. apply take_app_length'. lia.
Qed.

(** Columns of a text made of fields of known widths. *)
Ltac zlen_fields := unfold zlen in *; rewrite ?length_app; simpl length; lia.

Lemma time_slices (Y MO D H MI SE U : list byte) :
  zlen Y = 4 -> zlen MO = 2 -> zlen D = 2 -> zlen H = 2 -> zlen MI = 2 -> zlen SE = 2 -> zlen U = 6 ->
  let l := Y ++ MO ++ D ++ [x20] ++ H ++ [colon] ++ MI ++ [colon] ++ SE ++ [x2e] ++ U in
  zlen l = 24 /\ slice l 8 9 = [x20] /\ slice l 11 12 = [colon] /\ slice l 14 15 = [colon] /\ slice l 17 18 = [x2e] /\
  slice l 0 4 = Y /\ slice l 4 6 = MO /\ slice l 6 8 = D /\ slice l 9 11 = H /\ slice l 12 14 = MI /\
  slice l 15 17 = SE /\ slice l 18 24 = U.
Proof.
  intros LY LMO LD LH LMI LSE LU l.
  assert (forall a b c i j, l = a ++ b ++ c -> zlen a = i -> zlen b = j - i -> slice l i j = b) as Hsl
    by (intros a b c i j -> Ha Hb; by apply slice_middle).
  split_and!; [unfold l; zlen_fields|..].
  - apply (Hsl (Y ++ MO ++ D) _ (H ++ [colon] ++ MI ++ [colon] ++ SE ++ [x2e] ++ U)); [unfold l; by rewrite <- !app_assoc|zlen_fields..].
  - apply (Hsl (Y ++ MO ++ D ++ [x20] ++ H) _ (MI ++ [colon] ++ SE ++ [x2e] ++ U)); [unfold l; by rewrite <- !app_assoc|zlen_fields..].
  - apply (Hsl (Y ++ MO ++ D ++ [x20] ++ H ++ [colon] ++ MI) _ (SE ++ [x2e] ++ U)); [unfold l; by rewrite <- !app_assoc|zlen_fields..].
  - apply (Hsl (Y ++ MO ++ D ++ [x20] ++ H ++ [colon] ++ MI ++ [colon] ++ SE) _ U); [unfold l; by rewrite <- !app_assoc|zlen_fields..].
  - apply (Hsl [] _ (MO ++ D ++ [x20] ++ H ++ [colon] ++ MI ++ [colon] ++ SE ++ [x2e] ++ U)); [done|zlen_fields..].
  - apply (Hsl Y _ (D ++ [x20] ++ H ++ [colon] ++ MI ++ [colon] ++ SE ++ [x2e] ++ U)); [done|zlen_fields..].
  - apply (Hsl (Y ++ MO) _ ([x20] ++ H ++ [colon] ++ MI ++ [colon] ++ SE ++ [x2e] ++ U)); [unfold l; by rewrite <- !app_assoc|zlen_fields..].
  - apply (Hsl (Y ++ MO ++ D ++ [x20]) _ ([colon] ++ MI ++ [colon] ++ SE ++ [x2e] ++ U)); [unfold l; by rewrite <- !app_assoc|zlen_fields..].
  - apply (Hsl (Y ++ MO ++ D ++ [x20] ++ H ++ [colon]) _ ([colon] ++ SE ++ [x2e] ++ U)); [unfold l; by rewrite <- !app_assoc|zlen_fields..].
  - apply (Hsl (Y ++ MO ++ D ++ [x20] ++ H ++ [colon] ++ MI ++ [colon]) _ ([x2e] ++ U)); [unfold l; by rewrite <- !app_assoc|zlen_fields..].
  - apply (Hsl (Y ++ MO ++ D ++ [x20] ++ H ++ [colon] ++ MI ++ [colon] ++ SE ++ [x2e]) _ []); [unfold l; by rewrite <- !app_assoc, ?app_nil_r|zlen_fields..].
Qed.

(** Digits are not zero bytes. *)
Lemma digits_no_nul d : Forall (fun b => is_digit b = true) d -> Forall (fun b => b <> x00) d.
Proof. intros Hd. eapply Forall_impl; [exact Hd|]. intros b Hb. apply (digit_facts b Hb). Qed.

Lemma to_string_spec (localtime : Z -> option tm) (t : Timestamp) (m : tm) :
  0 <= t -> localtime (t / kMicroSecondsPerSecond) = Some m -> tm_ok m ->
  exists l, to_string localtime t = Ok l /\ zlen l = 24 /\
    slice l 8 9 = [x20] /\ slice l 11 12 = [colon] /\ slice l 14 15 = [colon] /\ slice l 17 18 = [x2e] /\
    field l 0 4 = Some (tm_year m + 1900) /\ field l 4 6 = Some (tm_mon m + 1) /\ field l 6 8 = Some (tm_mday m) /\
    field l 9 11 = Some (tm_hour m) /\ field l 12 14 = Some (tm_min m) /\ field l 15 17 = Some (tm_sec m) /\
    field l 18 24 = Some (t mod kMicroSecondsPerSecond).
Proof.
  intros Ht Hm (Hy & Hmo & Hd & Hh & Hmi & Hs). unfold to_string.
  change kMicroSecondsPerSecond with 1000000 in *. rewrite Z.quot_div_nonneg, Z.rem_mod_nonneg, Hm by lia.
  pose proof (Z.mod_pos_bound t 1000000 ltac:(lia)) as Hu. set (u := t mod 1000000) in *.
  destruct (spaced_year (tm_year m + 1900) Hy) as (Ly & Vy & Dy).
  destruct (padded_field 2 (tm_mon m + 1)) as (Lmo & Vmo & Dmo); [lia|lia|].
  destruct (padded_field 2 (tm_mday m)) as (Ld & Vd & Dd); [lia|lia|].
  destruct (padded_field 2 (tm_hour m)) as (Lh & Vh & Dh); [lia|lia|].
  destruct (padded_field 2 (tm_min m)) as (Lmi & Vmi & Dmi); [lia|lia|].
  destruct (padded_field 2 (tm_sec m)) as (Ls & Vs & Ds); [lia|lia|].
  destruct (padded_field 6 u) as (Lu & Vu & Du); [lia|lia|].
  destruct (time_slices _ _ _ _ _ _ _ Ly Lmo Ld Lh Lmi Ls Lu) as (Hl & H1 & H2 & H3 & H4 & S1 & S2 & S3 & S4 & S5 & S6 & S7).
  fold (time_text m u) in *. rewrite snprintf_fits by lia. rewrite c_string_id.
  - exists (time_text m u). unfold field. rewrite S1, S2, S3, S4, S5, S6, S7. done.
  - unfold time_text. rewrite !Forall_app. split_and!; auto using digits_no_nul; by repeat constructor.
Qed.

(** ** Properties *)

(** C40: the text of a time stamp.  For every time stamp since the epoch whose local time
    has a year of four digits, the text fits into the buffer and has exactly 24 bytes,
    [YYYYMMDD HH:MM:SS.uuuuuu]: the separators are in their columns, and each field,
    read back from its columns, is the field of the broken-down time or the
    microseconds. *)
Theorem to_string_format (localtime : Z -> option tm) (t : Timestamp) (m : tm) :
  0 <= t -> localtime (t / kMicroSecondsPerSecond) = Some m -> tm_ok m ->
  exists l, to_string localtime t = Ok l /\ zlen l = 24 /\
    slice l 8 9 = [x20] /\ slice l 11 12 = [colon] /\ slice l 14 15 = [colon] /\ slice l 17 18 = [x2e] /\
    field l 0 4 = Some (tm_year m + 1900) /\ field l 4 6 = Some (tm_mon m + 1) /\ field l 6 8 = Some (tm_mday m) /\
    field l 9 11 = Some (tm_hour m) /\ field l 12 14 = Some (tm_min m) /\ field l 15 17 = Some (tm_sec m) /\
    field l 18 24 = Some (t mod kMicroSecondsPerSecond).
Proof. apply to_string_spec. Qed.

(** 2023-11-14 22:13:20 UTC and 123 microseconds. *)
Definition demo_localtime (seconds : Z) : option tm :=
  if seconds =? 1700000000 then Some (mkTm 123 10 14 22 13 20) else None.

Lemma to_string_format_witness :
  exists l, to_string demo_localtime 1700000000000123 = Ok l /\ zlen l = 24 /\ field l 18 24 = Some 123.
Proof.
  destruct (to_string_format demo_localtime 1700000000000123 (mkTm 123 10 14 22 13 20))
    as (l & E & H & _ & _ & _ & _ & _ & _ & _ & _ & _ & _ & Hu).
  - lia.
  - vm_compute. reflexivity.
  - unfold tm_ok. simpl. lia.
  - exists l. split; [exact E|]. split; [exact H|exact Hu].
Defined.

(** A time stamp before the epoch prints a sign among the microseconds. *)
Lemma to_string_before_epoch :
  to_string (fun _ => Some (mkTm 70 0 1 0 0 0)) (-1) = Ok (str "19700101 00:00:00.-00001").
Proof. vm_compute. reflexivity. Qed.
