(* ===== verification/LogFile.v ===== *)
(** * LogFile: appending to rolling log files

    Models [AppendFile] ([include/FileUtil.h], [src/base/FileUtil.cpp]) and
    [LogFile] ([include/LogFile.h], [src/base/LogFile.cpp]).  The C library under
    them (stdio, [mkdir], [system], the clocks and the text of a date) is the class
    [Stdio]; the bytes each stream has taken are kept with it. *)
From Stdlib Require Import Strings.Byte.
From S2P Require Import Prelude.

(** ** The C library *)
Definition file_name := list byte.

(** The state [os] of everything outside the process.  [fwrite_unlocked] may take
    fewer bytes than it is given, never more. *)
Class Stdio (os : Type) := {
  fopen : file_name -> os -> bool * os;
  fwrite : list byte -> os -> Z * os;
  fflush : os -> os;
  fclose : os -> os;
  mkdir : file_name -> os -> sysret unit * os;
  system_mkdir_p : file_name -> os -> os;
  time_now : os -> Z * os;
  gettimeofday_usec : os -> Z * os;
  gmtime_text : Z -> list byte;
  fwrite_bound d s : 0 <= (fwrite d s).1 <= zlen d
}.

(** A disk on which every file opens and every byte is taken. *)
Class GoodDisk (os : Type) `{Stdio os} := {
  fopen_ok n s : (fopen n s).1 = true;
  fwrite_all d s : (fwrite d s).1 = zlen d
}.

Definition EEXIST : Z := 17.
Definition slash : byte := x2f.

(** The part of a name before its last slash, if it has one. *)
Fixpoint before_last_slash (n : file_name) : option file_name :=
  match n with
  | [] => None
  | b :: n' =>
      match before_last_slash n' with
      | Some d => Some (b :: d)
      | None => if decide (b = slash) then Some [] else None
      end
  end.

(** [dirname]: of a name without a slash it is the current directory. *)
Definition dirname (n : file_name) : file_name :=
  match before_last_slash n with
  | Some [] => [slash]
  | Some d => d
  | None => [x2e]
  end.

(** ** [AppendFile] *)
Record AppendFile := mkAppendFile {
  fp_ : bool;                 (* the stream is open *)
  taken : list byte;          (* the bytes stdio has taken for it *)
  writtenBytes_ : Z
}.

Section files.
Context {os : Type} {St : Stdio os}.
Implicit Types s : os.

Definition AppendFile_new (filename : file_name) (s : os) : AppendFile * os :=
  let '(ok, s) := fopen filename s in
  if ok then (mkAppendFile true [] 0, s)
  else
    let '(r, s) := mkdir (dirname filename) s in
    let retry := match r with Done _ => true | Errno e => e =? EEXIST end in
    if retry then let '(ok, s) := fopen filename s in (mkAppendFile ok [] 0, s)
    else (mkAppendFile false [] 0, s).

Definition AppendFile_destroy (f : AppendFile) (s : os) : os := if fp_ f then fclose s else s.

(** The loop that writes what the first [write] left over: the bytes of [logline]
    from [n] on.  A turn that does not end the loop takes at least one byte. *)
Fixpoint write_rest (fuel : nat) (logline : list byte) (n : Z) (s : os) : res (Z * os) :=
  match fuel with
  | O => Fault OutOfFuel
  | S fuel =>
      let remain := zlen logline - n in
      if 0 <? remain then
        let '(x, s) := fwrite (drop (Z.to_nat n) logline) s in
        if x =? 0 then Ok (n, s) else write_rest fuel logline (n + x) s
      else Ok (n, s)
  end.

Definition AppendFile_append (f : AppendFile) (logline : list byte) (s : os) : res (AppendFile * os) :=
  if negb (fp_ f) then Ok (f, s)
  else
    let '(n, s) := fwrite logline s in
    '(n, s) ← write_rest (S (length logline)) logline n s;
    Ok (mkAppendFile true (taken f ++ take (Z.to_nat n) logline) (writtenBytes_ f + zlen logline), s).

Definition AppendFile_flush (f : AppendFile) (s : os) : os := if fp_ f then fflush s else s.

(** *** The loop ends and takes a prefix *)
Lemma write_rest_spec fuel logline n s :
  0 <= n <= zlen logline -> zlen logline - n < Z.of_nat fuel ->
  exists n' s', write_rest fuel logline n s = Ok (n', s') /\ n <= n' <= zlen logline.
Proof.
  revert n s. induction fuel as [|fuel IH]; intros n s Hn Hf; [lia|]. simpl.
  destruct (Z.ltb_spec 0 (zlen logline - n)); [|by eauto with lia].
  pose proof (fwrite_bound (drop (Z.to_nat n) logline) s) as Hb.
  rewrite zlen_drop in Hb. destruct (fwrite _ s) as [x s1]. simpl in Hb.
  destruct (Z.eqb_spec x 0); [by eauto with lia|].
  destruct (IH (n + x) s1) as (n' & s' & -> & Hn'); [lia..|]. eauto with lia.
Qed.

Lemma AppendFile_append_spec f logline s :
  exists f' s' n, AppendFile_append f logline s = Ok (f', s') /\ 0 <= n <= zlen logline /\
    taken f' = taken f ++ take (Z.to_nat n) logline /\
    fp_ f' = fp_ f /\
    writtenBytes_ f' = if fp_ f then writtenBytes_ f + zlen logline else writtenBytes_ f.
Proof.
  unfold AppendFile_append. destruct (fp_ f) eqn:Ef; simpl.
  - pose proof (fwrite_bound logline s) as Hb. destruct (fwrite logline s) as [n0 s0]. simpl in Hb.
    destruct (write_rest_spec (S (length logline)) logline n0 s0) as (n & s' & E & Hn);
      [lia|unfold zlen; lia|].
    simpl in E. rewrite E. simpl. eexists _, _, n. split_and!; try done; lia.
  - eexists f, s, 0. zlen_nonneg_all. split_and!; try done. by rewrite take_0, app_nil_r.
Qed.

(** On a good disk the first [write] takes the line. *)
Lemma AppendFile_append_good `{!GoodDisk os} f logline s :
  fp_ f = true ->
  exists s', AppendFile_append f logline s =
    Ok (mkAppendFile true (taken f ++ logline) (writtenBytes_ f + zlen logline), s').
Proof.
  intros Ef. unfold AppendFile_append. rewrite Ef. simpl.
  pose proof (fwrite_all logline s) as Hf. destruct (fwrite logline s) as [n s0]. simpl in Hf. subst n.
  rewrite Z.sub_diag. simpl. exists s0. unfold zlen at 1. rewrite Nat2Z.id, take_ge by lia. done.
Qed.

Lemma AppendFile_new_spec n s :
  exists ok s', AppendFile_new n s = (mkAppendFile ok [] 0, s').
Proof.
  unfold AppendFile_new. destruct (fopen n s) as [[] s1]; [by eauto|].
  destruct (mkdir _ _) as [r s2]. destruct (match r with Done _ => _ | _ => _ end); [|by eauto].
  destruct (fopen n s2) as [ok s3]. eauto.
Qed.

Lemma AppendFile_new_good `{!GoodDisk os} n s :
  exists s', AppendFile_new n s = (mkAppendFile true [] 0, s').
Proof.
  unfold AppendFile_new. pose proof (fopen_ok n s) as H. destruct (fopen n s) as [ok s1]. simpl in H.
  subst ok. eauto.
Qed.

(** ** [LogFile] *)
Definition kRollPerSeconds : Z := 60 * 60 * 24.

(** [closed] keeps, for the specification, the [AppendFile] objects that [rollFile] has
    replaced, each with what was written through it.  The name of a file has the time in
    microseconds; should two objects get the same name, both append (mode ["ae"]) to one
    file, which then holds what was written through the one and then through the other. *)
Record LogFile := mkLogFile {
  basename_ : file_name;
  rollSize_ : Z;
  flushInterval_ : Z;
  checkEveryN_ : Z;
  count_ : Z;
  startOfPeriod_ : Z;
  lastRoll_ : Z;
  file_ : option AppendFile;
  closed : list AppendFile
}.

(** [snprintf(usecbuf, 16, ".%06ld", tv_usec)] for [0 <= tv_usec < 1000000]. *)
Definition decimal (d : Z) : byte :=
  match Byte.of_N (Z.to_N (48 + d mod 10)) with Some b => b | None => x00 end.
Definition usec_text (u : Z) : list byte :=
  x2e :: ((fun p => decimal (u / p)) <$> [100000; 10000; 1000; 100; 10; 1]).

Definition getLogFileName (basename : file_name) (s : os) : file_name * Z * os :=
  let '(now, s) := time_now s in
  let '(usec, s) := gettimeofday_usec s in
  (basename ++ gmtime_text now ++ usec_text usec ++ [x2e; x6c; x6f; x67], now, s).

Definition rollFile (lf : LogFile) (s : os) : LogFile * os :=
  let '(filename, now, s) := getLogFileName (basename_ lf) s in
  let start := Z.quot now kRollPerSeconds * kRollPerSeconds in
  let s := match before_last_slash filename with
           | Some dir => system_mkdir_p dir s
           | None => s
           end in
  let '(f, s) := AppendFile_new filename s in
  let s := match file_ lf with Some old => AppendFile_destroy old s | None => s end in
  (mkLogFile (basename_ lf) (rollSize_ lf) (flushInterval_ lf) (checkEveryN_ lf) (count_ lf)
     start now (Some f) (closed lf ++ from_option (fun old => [old]) [] (file_ lf)), s).

Definition LogFile_new (basename : file_name) (rollSize flushInterval checkEveryN : Z) (s : os)
    : LogFile * os :=
  rollFile (mkLogFile basename rollSize flushInterval checkEveryN 0 0 0 None []) s.

Definition set_file (lf : LogFile) (f : AppendFile) : LogFile :=
  mkLogFile (basename_ lf) (rollSize_ lf) (flushInterval_ lf) (checkEveryN_ lf) (count_ lf)
    (startOfPeriod_ lf) (lastRoll_ lf) (Some f) (closed lf).
Definition set_count (lf : LogFile) (n : Z) : LogFile :=
  mkLogFile (basename_ lf) (rollSize_ lf) (flushInterval_ lf) (checkEveryN_ lf) n
    (startOfPeriod_ lf) (lastRoll_ lf) (file_ lf) (closed lf).
Definition set_lastRoll (lf : LogFile) (t : Z) : LogFile :=
  mkLogFile (basename_ lf) (rollSize_ lf) (flushInterval_ lf) (checkEveryN_ lf) (count_ lf)
    (startOfPeriod_ lf) t (file_ lf) (closed lf).

(** [file_->...] *)
Definition deref_file (lf : LogFile) : res AppendFile :=
  match file_ lf with Some f => Ok f | None => Fault DanglingPointer end.

(** What follows the write: roll, or count and look at the clock now and then. *)
Definition after_append (lf : LogFile) (f : AppendFile) (s : os) : LogFile * os :=
  if rollSize_ lf <? writtenBytes_ f then rollFile lf s
  else
    let lf := set_count lf (count_ lf + 1) in
    if checkEveryN_ lf <=? count_ lf then
      let lf := set_count lf 0 in
      let '(now, s) := time_now s in
      let thisPeriod_ := Z.quot now kRollPerSeconds * kRollPerSeconds in
      if negb (thisPeriod_ =? startOfPeriod_ lf) then rollFile lf s
      else if flushInterval_ lf <? now - lastRoll_ lf then
        (set_lastRoll lf now, AppendFile_flush f s)
      else (lf, s)
    else (lf, s).

Definition append_unlocked (lf : LogFile) (logline : list byte) (s : os) : res (LogFile * os) :=
  f ← deref_file lf;
  '(f, s) ← AppendFile_append f logline s;
  Ok (after_append (set_file lf f) f s).

Definition LogFile_flush (lf : LogFile) (s : os) : res os :=
  f ← deref_file lf; Ok (AppendFile_flush f s).

Fixpoint append_lines (lf : LogFile) (ls : list (list byte)) (s : os) : res (LogFile * os) :=
  match ls with
  | [] => Ok (lf, s)
  | l :: ls => '(lf, s) ← append_unlocked lf l s; append_lines lf ls s
  end.

(** *** Invariant

    Between calls the current file exists, has not outgrown [rollSize_], and the
    counter is below [checkEveryN_]. *)
Definition log_ok (lf : LogFile) : Prop :=
  0 <= rollSize_ lf /\ 0 < checkEveryN_ lf /\ 0 <= count_ lf < checkEveryN_ lf /\
  exists f, file_ lf = Some f /\ 0 <= writtenBytes_ f <= rollSize_ lf.

(** All files, oldest first. *)
Definition all_files (lf : LogFile) : list AppendFile :=
  closed lf ++ from_option (fun f => [f]) [] (file_ lf).

Lemma rollFile_spec lf s :
  exists f start now s', AppendFile_new (getLogFileName (basename_ lf) s).1.1
      (match before_last_slash (getLogFileName (basename_ lf) s).1.1 with
       | Some dir => system_mkdir_p dir (getLogFileName (basename_ lf) s).2
       | None => (getLogFileName (basename_ lf) s).2 end) = (f, s') /\
    rollFile lf s =
      (mkLogFile (basename_ lf) (rollSize_ lf) (flushInterval_ lf) (checkEveryN_ lf) (count_ lf)
         start now (Some f) (all_files lf),
       match file_ lf with Some old => AppendFile_destroy old s' | None => s' end).
Proof.
  unfold rollFile. destruct (getLogFileName (basename_ lf) s) as [[n now] s0]. simpl.
  destruct (AppendFile_new n _) as [f s1]. by eexists f, _, _, s1.
Qed.

(** A roll keeps the settings and the counter and starts an empty file. *)
Lemma rollFile_new lf s :
  exists ok start now s', rollFile lf s =
    (mkLogFile (basename_ lf) (rollSize_ lf) (flushInterval_ lf) (checkEveryN_ lf) (count_ lf)
       start now (Some (mkAppendFile ok [] 0)) (all_files lf), s') /\
    (GoodDisk os -> ok = true).
Proof.
  destruct (rollFile_spec lf s) as (f & start & now & s' & E & ->).
  destruct (AppendFile_new_spec (getLogFileName (basename_ lf) s).1.1
    (match before_last_slash (getLogFileName (basename_ lf) s).1.1 with
       | Some dir => system_mkdir_p dir (getLogFileName (basename_ lf) s).2
       | None => (getLogFileName (basename_ lf) s).2 end)) as (ok & s2 & E2).
  rewrite E2 in E. injection E as <- <-. eexists ok, start, now, _. split; [done|].
  intros G. destruct (AppendFile_new_good (getLogFileName (basename_ lf) s).1.1
    (match before_last_slash (getLogFileName (basename_ lf) s).1.1 with
       | Some dir => system_mkdir_p dir (getLogFileName (basename_ lf) s).2
       | None => (getLogFileName (basename_ lf) s).2 end)) as (s3 & E3). congruence.
Qed.

(** [lf'] has the files of [lf], or one more, empty, that opened if files open. *)
Definition same_or_new (lf lf' : LogFile) : Prop :=
  all_files lf' = all_files lf \/
  exists ok, all_files lf' = all_files lf ++ [mkAppendFile ok [] 0] /\ (GoodDisk os -> ok = true).

(** [after_append] re-establishes the invariant and touches no file. *)
Lemma after_append_spec lf f s :
  0 <= rollSize_ lf -> 0 < checkEveryN_ lf -> 0 <= count_ lf < checkEveryN_ lf ->
  file_ lf = Some f -> 0 <= writtenBytes_ f ->
  log_ok (after_append lf f s).1 /\ rollSize_ (after_append lf f s).1 = rollSize_ lf /\
  same_or_new lf (after_append lf f s).1.
Proof.
  intros Hr Hc Hn Hf Hw.
  assert (forall lf' s1, rollSize_ lf' = rollSize_ lf -> checkEveryN_ lf' = checkEveryN_ lf ->
    0 <= count_ lf' < checkEveryN_ lf -> all_files lf' = all_files lf ->
    log_ok (rollFile lf' s1).1 /\ rollSize_ (rollFile lf' s1).1 = rollSize_ lf /\
    same_or_new lf (rollFile lf' s1).1) as Hroll.
  { intros lf' s1 E1 E2 E3 E4. destruct (rollFile_new lf' s1) as (ok & st & nw & s' & -> & Hok). simpl.
    split_and!; [|done|].
    - unfold log_ok. simpl. split_and!; try lia. eexists. split; [done|]. simpl. lia.
    - right. exists ok. rewrite <- E4. done. }
  assert (forall lf', rollSize_ lf' = rollSize_ lf -> checkEveryN_ lf' = checkEveryN_ lf ->
    0 <= count_ lf' < checkEveryN_ lf -> file_ lf' = file_ lf -> closed lf' = closed lf ->
    writtenBytes_ f <= rollSize_ lf ->
    log_ok lf' /\ rollSize_ lf' = rollSize_ lf /\ same_or_new lf lf') as Hstay.
  { intros lf' E1 E2 E3 E4 E5 E6. unfold log_ok, same_or_new, all_files.
    rewrite E1, E2, E4, E5, Hf. split_and!; try done; try lia; [|by left]. eexists. split; [done|]. lia. }
  unfold after_append. destruct (Z.ltb_spec (rollSize_ lf) (writtenBytes_ f)); [by apply Hroll|]. simpl.
  destruct (Z.leb_spec (checkEveryN_ lf) (count_ lf + 1)); [|apply Hstay; simpl; try done; lia].
  destruct (time_now s) as [now s1]. destruct (negb _); [apply Hroll; simpl; try done; lia|].
  destruct (_ <? _); apply Hstay; simpl; try done; lia.
Qed.

(** One [append]: the line goes to the current file, the last one. *)
Lemma append_unlocked_spec lf l s :
  log_ok lf ->
  exists lf' s' f f' n, append_unlocked lf l s = Ok (lf', s') /\ log_ok lf' /\
    rollSize_ lf' = rollSize_ lf /\
    all_files lf = closed lf ++ [f] /\ writtenBytes_ f <= rollSize_ lf /\
    same_or_new (set_file lf f') lf' /\
    0 <= n <= zlen l /\ taken f' = taken f ++ take (Z.to_nat n) l /\ fp_ f' = fp_ f /\
    writtenBytes_ f' = (if fp_ f then writtenBytes_ f + zlen l else writtenBytes_ f) /\
    (GoodDisk os -> fp_ f = true -> taken f' = taken f ++ l).
Proof.
  intros (Hr & Hc & Hn & f & Ef & Hw). unfold append_unlocked, deref_file. rewrite Ef. simpl.
  destruct (AppendFile_append_spec f l s) as (f' & s' & n & E & Hb & Ht & Hfp & Hwb). rewrite E. simpl.
  destruct (after_append_spec (set_file lf f') f' s') as (Ho & Hrs & Hsn); try done.
  { rewrite Hwb. zlen_nonneg_all. destruct (fp_ f); lia. }
  destruct (after_append (set_file lf f') f' s') as [lf' s2] eqn:Ea.
  exists lf', s2, f, f', n. split_and!; try done; try lia.
  - unfold all_files. by rewrite Ef.
  - intros G Hfp2. destruct (AppendFile_append_good f l s Hfp2) as (s3 & E3). rewrite E3 in E.
    by injection E as <- <-.
Qed.

(** ** Properties *)

(** A file may exceed the limit by the one line that made it roll. *)
Definition within (limit : Z) (f : AppendFile) : Prop := writtenBytes_ f <= limit.

Lemma append_lines_spec ls lf s M :
  log_ok lf -> Forall (fun l => zlen l <= M) ls -> 0 <= M ->
  Forall (within (rollSize_ lf + M)) (all_files lf) ->
  exists lf' s', append_lines lf ls s = Ok (lf', s') /\ log_ok lf' /\ rollSize_ lf' = rollSize_ lf /\
    Forall (within (rollSize_ lf + M)) (all_files lf').
Proof.
  intros Ho Hls HM Hfs. revert lf s Ho Hfs. induction Hls as [|l ls Hl Hls IH]; intros lf s Ho Hfs; simpl.
  { eauto 10. }
  destruct (append_unlocked_spec lf l s Ho)
    as (lf' & s' & f & f' & n & -> & Ho' & Hr & Ef & Hw & Hsn & _ & _ & _ & Hwb & _). simpl.
  rewrite <- Hr in *. apply IH; [done|].
  assert (Forall (within (rollSize_ lf' + M)) (all_files (set_file lf f'))) as Hf'.
  { rewrite Ef in Hfs. apply Forall_app in Hfs as [Hc _]. unfold all_files. simpl. apply Forall_app_2; [done|].
    constructor; [|done]. unfold within. rewrite Hwb. zlen_nonneg_all. destruct (fp_ f); lia. }
  destruct Hsn as [->|(ok & -> & _)]; [done|]. apply Forall_app_2; [done|]. constructor; [|done].
  unfold within. simpl. destruct Ho' as (? & _). lia.
Qed.

(** [groups]: which lines went to which file. *)
Definition files_hold (lf : LogFile) (ls : list (list byte)) : Prop :=
  Forall (fun f => fp_ f = true) (all_files lf) /\
  exists groups, concat groups = ls /\ taken <$> all_files lf = @concat byte <$> groups.

Lemma append_unlocked_holds `{!GoodDisk os} lf ls l s :
  log_ok lf -> files_hold lf ls ->
  exists lf' s', append_unlocked lf l s = Ok (lf', s') /\ log_ok lf' /\ files_hold lf' (ls ++ [l]).
Proof.
  intros Ho (Hfp & groups & Hg & Ht).
  destruct (append_unlocked_spec lf l s Ho)
    as (lf' & s' & f & f' & n & -> & Ho' & _ & Ef & _ & Hsn & _ & _ & Hfp' & _ & Hgood).
  exists lf', s'. split_and!; try done. rewrite Ef in *. rewrite fmap_app in Ht. simpl in Ht.
  apply Forall_app in Hfp as [Hc Hf]. apply Forall_cons in Hf as [Hf _].
  symmetry in Ht. apply fmap_app_inv in Ht as (g1 & g2 & E1 & E2 & ->).
  destruct g2 as [|g [|? ?]]; try done. simpl in E2. injection E2 as E2.
  assert (Forall (fun f => fp_ f = true) (all_files (set_file lf f')) /\
    taken <$> all_files (set_file lf f') = @concat byte <$> (g1 ++ [g ++ [l]])) as [Ha Hb].
  { unfold all_files. simpl. split; [apply Forall_app_2; [done|]; constructor; [congruence|done]|].
    rewrite !fmap_app. simpl. rewrite E1, concat_app. simpl. rewrite app_nil_r, Hgood, E2 by done. done. }
  rewrite concat_app in Hg. simpl in Hg. rewrite app_nil_r in Hg.
  assert (concat (g1 ++ [g ++ [l]]) = ls ++ [l]) as Hgl.
  { rewrite concat_app. simpl. rewrite app_nil_r, app_assoc, Hg. done. }
  destruct Hsn as [E|(ok & E & Hok)]; (split; [rewrite E|]).
  - done.
  - exists (g1 ++ [g ++ [l]]). by rewrite E.
  - apply Forall_app_2; [done|]. constructor; [|done]. by apply Hok.
  - exists ((g1 ++ [g ++ [l]]) ++ [[]]). rewrite concat_app, E, fmap_app, Hb, (fmap_app (@concat byte) (g1 ++ _)).
    by rewrite app_nil_r.
Qed.

Lemma append_lines_holds `{!GoodDisk os} ls lf ls0 s :
  log_ok lf -> files_hold lf ls0 ->
  exists lf' s', append_lines lf ls s = Ok (lf', s') /\ log_ok lf' /\ files_hold lf' (ls0 ++ ls).
Proof.
  revert lf ls0 s. induction ls as [|l ls IH]; intros lf ls0 s Ho Hh; simpl.
  { rewrite app_nil_r. eauto. }
  destruct (append_unlocked_holds lf ls0 l s Ho Hh) as (lf1 & s1 & -> & Ho1 & Hh1). simpl.
  destruct (IH lf1 (ls0 ++ [l]) s1 Ho1 Hh1) as (lf2 & s2 & E & Ho2 & Hh2).
  exists lf2, s2. by rewrite <- app_assoc in Hh2.
Qed.

Lemma LogFile_new_ok basename rollSize flushInterval checkEveryN s :
  0 <= rollSize -> 0 < checkEveryN ->
  log_ok (LogFile_new basename rollSize flushInterval checkEveryN s).1 /\
  rollSize_ (LogFile_new basename rollSize flushInterval checkEveryN s).1 = rollSize /\
  exists ok, all_files (LogFile_new basename rollSize flushInterval checkEveryN s).1 =
    [mkAppendFile ok [] 0] /\ (GoodDisk os -> ok = true).
Proof.
  intros Hr Hc. unfold LogFile_new.
  destruct (rollFile_new (mkLogFile basename rollSize flushInterval checkEveryN 0 0 0 None []) s)
    as (ok & st & nw & s' & -> & Hok). simpl. split_and!; [|done|by eauto].
  unfold log_ok. simpl. split_and!; try lia. eexists. split; [done|]. simpl. lia.
Qed.

(** C26: log files stay bounded.  Whatever the disk does, appending any lines
    returns; afterwards the current file has not been given more than [rollSize]
    bytes, and no file was ever given more than [rollSize] and one line. *)
Theorem logfile_bounded (basename : file_name) (rollSize flushInterval checkEveryN M : Z)
    (ls : list (list byte)) (s : os) :
  0 <= rollSize -> 0 < checkEveryN -> 0 <= M -> Forall (fun l => zlen l <= M) ls ->
  exists lf' s',
    append_lines (LogFile_new basename rollSize flushInterval checkEveryN s).1 ls
      (LogFile_new basename rollSize flushInterval checkEveryN s).2 = Ok (lf', s') /\
    (exists f, file_ lf' = Some f /\ writtenBytes_ f <= rollSize) /\
    Forall (within (rollSize + M)) (all_files lf').
Proof.
  intros Hr Hc HM Hls.
  destruct (LogFile_new_ok basename rollSize flushInterval checkEveryN s Hr Hc) as (Ho & Er & ok & Ef & _).
  destruct (append_lines_spec ls _ (LogFile_new basename rollSize flushInterval checkEveryN s).2 M Ho Hls HM)
    as (lf' & s' & E & (_ & _ & _ & f & Hf & Hw) & Er' & Hfs).
  { rewrite Ef, Er. constructor; [|done]. unfold within. simpl. lia. }
  rewrite Er in Hfs, Er'. exists lf', s'. split_and!; try done. exists f. split; [done|]. lia.
Qed.

(** C25: a good disk loses nothing.  If every file opens and every byte is taken, the
    files hold exactly the appended lines, in order, and no line is split over two
    files. *)
Theorem logfile_complete `{!GoodDisk os} (basename : file_name)
    (rollSize flushInterval checkEveryN : Z) (ls : list (list byte)) (s : os) :
  0 <= rollSize -> 0 < checkEveryN ->
  exists lf' s',
    append_lines (LogFile_new basename rollSize flushInterval checkEveryN s).1 ls
      (LogFile_new basename rollSize flushInterval checkEveryN s).2 = Ok (lf', s') /\
    exists groups, concat groups = ls /\ taken <$> all_files lf' = @concat byte <$> groups.
Proof.
  intros Hr Hc.
  destruct (LogFile_new_ok basename rollSize flushInterval checkEveryN s Hr Hc) as (Ho & _ & ok & Ef & Hok).
  destruct (append_lines_holds ls _ [] (LogFile_new basename rollSize flushInterval checkEveryN s).2 Ho)
    as (lf' & s' & E & _ & _ & Hh).
  { split; rewrite Ef; [constructor; [|done]; by apply Hok|]. by exists [[]]. }
  exists lf', s'. split; [done|]. done.
Qed.
End files.

(** ** Concrete disks

    A clock that advances by one second per reading, and a disk that takes at most
    [cap] bytes per write. *)
Definition capped_disk (cap : Z) (Hcap : 0 <= cap) : Stdio Z.
Proof.
  refine {| fopen _ s := (true, s); fwrite d s := (Z.min cap (zlen d), s); fflush s := s; fclose s := s;
            mkdir _ s := (Done tt, s); system_mkdir_p _ s := s;
            time_now s := (s, s + 1); gettimeofday_usec s := (0, s); gmtime_text _ := [] |}.
  intros d s. simpl. pose proof (zlen_nonneg d). lia.
Defined.

Definition good_disk : Stdio Z.
Proof.
  refine {| fopen _ s := (true, s); fwrite d s := (zlen d, s); fflush s := s; fclose s := s;
            mkdir _ s := (Done tt, s); system_mkdir_p _ s := s;
            time_now s := (s, s + 1); gettimeofday_usec s := (0, s); gmtime_text _ := [] |}.
  intros d s. simpl. pose proof (zlen_nonneg d). lia.
Defined.

Definition good_disk_good : @GoodDisk Z good_disk.
Proof. by split. Defined.

Lemma logfile_bounded_witness :
  exists lf' s',
    @append_lines Z good_disk (@LogFile_new Z good_disk [x61] 3 3 1024 0).1 [[x61; x62]; [x63; x64]; [x65]]
      (@LogFile_new Z good_disk [x61] 3 3 1024 0).2 = Ok (lf', s') /\
    (exists f, file_ lf' = Some f /\ writtenBytes_ f <= 3) /\
    Forall (within (3 + 2)) (all_files lf').
Proof.
  apply (@logfile_bounded Z good_disk [x61] 3 3 1024 2 [[x61; x62]; [x63; x64]; [x65]] 0); try lia.
  repeat constructor; vm_compute; discriminate.
Defined.

Lemma logfile_complete_witness :
  exists lf' s',
    @append_lines Z good_disk (@LogFile_new Z good_disk [x61] 3 3 1024 0).1 [[x61; x62]; [x63; x64]; [x65]]
      (@LogFile_new Z good_disk [x61] 3 3 1024 0).2 = Ok (lf', s') /\
    exists groups, concat groups = [[x61; x62]; [x63; x64]; [x65]] /\
      taken <$> all_files lf' = @concat byte <$> groups.
Proof.
  apply (@logfile_complete Z good_disk good_disk_good [x61] 3 3 1024 [[x61; x62]; [x63; x64]; [x65]] 0); lia.
Defined.

(** Two lines of two bytes fill a file of three; the third starts the next. *)
Example roll_example :
  match @append_lines Z good_disk (@LogFile_new Z good_disk [x61] 3 3 1024 0).1
          [[x61; x62]; [x63; x64]; [x65]] (@LogFile_new Z good_disk [x61] 3 3 1024 0).2 with
  | Ok (lf, _) => taken <$> all_files lf = [[x61; x62; x63; x64]; [x65]]
  | Fault _ => False
  end.
Proof. vm_compute. reflexivity. Qed.

(** A full disk: nothing of the line is stored, and [writtenBytes_] grows by its
    length all the same. *)
Theorem full_disk_counted :
  exists f' s', @AppendFile_append Z (capped_disk 0 (Z.le_refl 0)) (mkAppendFile true [] 0) [x61; x62] 0 =
    Ok (f', s') /\ taken f' = [] /\ writtenBytes_ f' = 2.
Proof. eexists _, _. vm_compute. done. Qed.
