(* ===== verification/AsyncLogging.v ===== *)
(** * AsyncLogging: the logging thread and its buffers

    Models [include/AsyncLogging.h] and [src/base/AsyncLogging.cpp].  Other threads
    append to [currentBuffer_] under the mutex; the logging thread takes all filled
    buffers in one critical section, writes them and recycles two of them.  A critical
    section is one step, except that the thread gives up the mutex inside
    [waitForSeconds]; what the thread does outside the mutex touches only its own
    variables.  Steps of the callers and of the thread interleave freely.  The class
    [LogSink] is what the thread needs of [LogFile]. *)
From Stdlib Require Import Strings.Byte.
From S2P Require Import Prelude LogStream LogFile.

(** ** What the logging thread needs of its file *)
Class LogSink (W : Type) := {
  sink_open : W -> res W;
  sink_append : list byte -> W -> res W;
  sink_flush : W -> res W;
  sink_ok : W -> Prop;
  sink_data : W -> list byte;
  sink_open_ok w : exists w', sink_open w = Ok w' /\ sink_ok w' /\ sink_data w' = [];
  sink_append_ok d w :
    sink_ok w -> exists w', sink_append d w = Ok w' /\ sink_ok w' /\ sink_data w' = sink_data w ++ d;
  sink_flush_ok w :
    sink_ok w -> exists w', sink_flush w = Ok w' /\ sink_ok w' /\ sink_data w' = sink_data w
}.

(** ** State *)

(** Where the logging thread is. *)
Inductive thread_pc :=
  | NotStarted
  | Entry          (* before [assert(running_ == true)] *)
  | LoopTest       (* before [while (running_)] *)
  | Locking        (* before [MutexLockGuard lock(mutex_)] *)
  | Waiting        (* in [cond_.waitForSeconds], the mutex released *)
  | Writing        (* after the critical section *)
  | Exited.

#[global] Instance thread_pc_eq_dec : EqDecision thread_pc.
Proof. solve_decision. Defined.

(** A [BufferPtr]: [None] is a null [unique_ptr]. *)
Definition BufferPtr := option FixedBuffer.

Record AsyncLogging (W : Type) := mkAsync {
  running_ : bool;
  currentBuffer_ : BufferPtr;
  nextBuffer_ : BufferPtr;
  buffers_ : list BufferPtr;
  pc : thread_pc;
  newBuffer1 : BufferPtr;
  newBuffer2 : BufferPtr;
  buffersToWrite : list BufferPtr;
  output : W
}.
Arguments mkAsync {W}.
Arguments running_ {W}.
Arguments currentBuffer_ {W}.
Arguments nextBuffer_ {W}.
Arguments buffers_ {W}.
Arguments pc {W}.
Arguments newBuffer1 {W}.
Arguments newBuffer2 {W}.
Arguments buffersToWrite {W}.
Arguments output {W}.

(** [ptr->...] *)
Definition deref (p : BufferPtr) : res FixedBuffer :=
  match p with Some b => Ok b | None => Fault DanglingPointer end.

(** [v.back()] and [v.pop_back()]. *)
Fixpoint pop_back {A} (l : list A) : res (A * list A) :=
  match l with
  | [] => Fault OutOfBounds
  | [x] => Ok (x, [])
  | x :: l => '(y, l) ← pop_back l; Ok (y, x :: l)
  end.

Section async.
Context {W : Type} {LS : LogSink W}.
(** The bytes a new [Buffer] is made of, before any [bzero]. *)
Variable fresh : list byte.
Implicit Types s : AsyncLogging W.

Definition new_Buffer : BufferPtr := Some (FixedBuffer_new fresh).
Definition new_zeroed_Buffer : BufferPtr := Some (fb_bzero (FixedBuffer_new fresh)).

Definition AsyncLogging_new (w : W) : AsyncLogging W :=
  mkAsync false new_zeroed_Buffer new_zeroed_Buffer [] NotStarted None None [] w.

(** ** [append] *)
Definition append (s : AsyncLogging W) (logline : list byte) : res (AsyncLogging W) :=
  cur ← deref (currentBuffer_ s);
  if zlen logline <? fb_avail cur then
    cur ← fb_append cur logline;
    Ok (mkAsync (running_ s) (Some cur) (nextBuffer_ s) (buffers_ s) (pc s)
          (newBuffer1 s) (newBuffer2 s) (buffersToWrite s) (output s))
  else
    let buffers := buffers_ s ++ [currentBuffer_ s] in
    let '(current, next) := match nextBuffer_ s with
                            | Some b => (Some b, None)
                            | None => (new_Buffer, None)
                            end in
    cur ← deref current;
    cur ← fb_append cur logline;
    Ok (mkAsync (running_ s) (Some cur) next buffers (pc s)
          (newBuffer1 s) (newBuffer2 s) (buffersToWrite s) (output s)).

(** ** [start] and the flag [stop] sets *)
Definition set_pc s (p : thread_pc) : AsyncLogging W :=
  mkAsync (running_ s) (currentBuffer_ s) (nextBuffer_ s) (buffers_ s) p
    (newBuffer1 s) (newBuffer2 s) (buffersToWrite s) (output s).
Definition set_running s (b : bool) : AsyncLogging W :=
  mkAsync b (currentBuffer_ s) (nextBuffer_ s) (buffers_ s) (pc s)
    (newBuffer1 s) (newBuffer2 s) (buffersToWrite s) (output s).

(** [thread_.start()] throws if the thread was started before. *)
Definition start (s : AsyncLogging W) : res (AsyncLogging W) :=
  let s := set_running s true in
  if decide (pc s = NotStarted) then Ok (set_pc s Entry) else Fault UncaughtException.

(** [stop] clears the flag, notifies, and waits until the thread has exited. *)
Definition stop (s : AsyncLogging W) : AsyncLogging W := set_running s false.

Definition AsyncLogging_destroy (s : AsyncLogging W) : AsyncLogging W :=
  if running_ s then stop s else s.

(** ** [threadFunc] *)
Definition thread_entry (s : AsyncLogging W) : res (AsyncLogging W) :=
  _ ← assert (running_ s);
  out ← sink_open (output s);
  Ok (mkAsync (running_ s) (currentBuffer_ s) (nextBuffer_ s) (buffers_ s) LoopTest
        new_zeroed_Buffer new_zeroed_Buffer [] out).

Definition thread_test (s : AsyncLogging W) : res (AsyncLogging W) :=
  if running_ s then Ok (set_pc s Locking)
  else
    out ← sink_flush (output s);
    Ok (mkAsync (running_ s) (currentBuffer_ s) (nextBuffer_ s) (buffers_ s) Exited
          (newBuffer1 s) (newBuffer2 s) (buffersToWrite s) out).

(** The rest of the critical section, once the mutex is held again. *)
Definition take_buffers (s : AsyncLogging W) : AsyncLogging W :=
  let buffers := buffers_ s ++ [currentBuffer_ s] in
  let current := newBuffer1 s in
  let '(toWrite, buffers) := (buffers, buffersToWrite s) in
  let '(next, new2) := match nextBuffer_ s with
                       | None => (newBuffer2 s, None)
                       | Some b => (Some b, newBuffer2 s)
                       end in
  mkAsync (running_ s) current next buffers Writing None new2 toWrite (output s).

Definition thread_lock (s : AsyncLogging W) : AsyncLogging W :=
  match buffers_ s with
  | [] => set_pc s Waiting
  | _ => take_buffers s
  end.

(** One of the two blocks that get a buffer back from [buffersToWrite]. *)
Definition recycle (new : BufferPtr) (toWrite : list BufferPtr) : res (BufferPtr * list BufferPtr) :=
  match new with
  | Some b => Ok (Some b, toWrite)
  | None =>
      _ ← assert (negb (bool_decide (toWrite = [])));
      '(b, toWrite) ← pop_back toWrite;
      b ← deref b;
      Ok (Some (fb_reset b), toWrite)
  end.

Definition write_one (p : BufferPtr) (w : W) : res W :=
  b ← deref p; sink_append (contents b) w.

(** Outside the mutex: write, recycle, flush. *)
Definition thread_write (s : AsyncLogging W) : res (AsyncLogging W) :=
  _ ← assert (negb (bool_decide (buffersToWrite s = [])));
  out ← for_each write_one (buffersToWrite s) (output s);
  let toWrite := if (2 <? zlen (buffersToWrite s)) then take 2 (buffersToWrite s) else buffersToWrite s in
  '(new1, toWrite) ← recycle (newBuffer1 s) toWrite;
  '(new2, _) ← recycle (newBuffer2 s) toWrite;
  out ← sink_flush out;
  Ok (mkAsync (running_ s) (currentBuffer_ s) (nextBuffer_ s) (buffers_ s) LoopTest new1 new2 [] out).

(** The thread's next step.  [Waiting] ends by a notification, the time-out or
    spuriously. *)
Definition thread_step (s : AsyncLogging W) : res (AsyncLogging W) :=
  match pc s with
  | NotStarted | Exited => Ok s
  | Entry => thread_entry s
  | LoopTest => thread_test s
  | Locking => Ok (thread_lock s)
  | Waiting => Ok (take_buffers s)
  | Writing => thread_write s
  end.

Inductive label :=
  | Append (logline : list byte)
  | Start
  | Stop
  | Thread.

Definition step (l : label) (s : AsyncLogging W) : res (AsyncLogging W) :=
  match l with
  | Append line => append s line
  | Start => start s
  | Stop => Ok (stop s)
  | Thread => thread_step s
  end.

Fixpoint run (ls : list label) (s : AsyncLogging W) : res (AsyncLogging W) :=
  match ls with
  | [] => Ok s
  | l :: ls => s ← step l s; run ls s
  end.

(** States reachable from a new object over [w], with the lines appended so far. *)
Definition appended_by (l : label) : list (list byte) :=
  match l with Append line => [line] | _ => [] end.

Inductive reach (w : W) : list (list byte) -> AsyncLogging W -> Prop :=
  | reach_new : reach w [] (AsyncLogging_new w)
  | reach_step lines s l s' :
      reach w lines s -> step l s = Ok s' -> reach w (lines ++ appended_by l) s'.

(** ** Invariant *)
Definition buf_ok (p : BufferPtr) : Prop := exists b, p = Some b /\ stream_ok b.
Definition empty_buf (p : BufferPtr) : Prop := exists b, p = Some b /\ stream_ok b /\ contents b = [].
Definition text (p : BufferPtr) : list byte := match p with Some b => contents b | None => [] end.
Definition texts (l : list BufferPtr) : list byte := concat (text <$> l).

(** [nextBuffer_] is null only after [append] has used it, which filled a buffer; so
    when the thread has to give [newBuffer2] away there are two buffers to take. *)
Definition thread_inv s : Prop :=
  match pc s with
  | NotStarted | Entry => buffersToWrite s = []
  | LoopTest | Locking | Waiting | Exited =>
      empty_buf (newBuffer1 s) /\ empty_buf (newBuffer2 s) /\ buffersToWrite s = [] /\ sink_ok (output s)
  | Writing =>
      newBuffer1 s = None /\ buffersToWrite s <> [] /\ Forall buf_ok (buffersToWrite s) /\
      sink_ok (output s) /\
      (empty_buf (newBuffer2 s) \/ newBuffer2 s = None /\ 2 <= zlen (buffersToWrite s))
  end.

Definition async_inv s : Prop :=
  buf_ok (currentBuffer_ s) /\ Forall buf_ok (buffers_ s) /\
  (empty_buf (nextBuffer_ s) \/ nextBuffer_ s = None /\ buffers_ s <> []) /\
  thread_inv s.

(** What the file was given. *)
Definition written s : list byte :=
  match pc s with NotStarted | Entry => [] | _ => sink_data (output s) end.

(** What is on its way, oldest first. *)
Definition pending s : list byte :=
  texts (buffersToWrite s) ++ texts (buffers_ s) ++ text (currentBuffer_ s).

(** A line as long as a buffer is dropped by [FixedBuffer::append]. *)
Definition kept (line : list byte) : Prop := zlen line < kSize.
#[local] Instance kept_dec line : Decision (kept line) := Z_lt_dec _ _.

Definition kept_text (lines : list (list byte)) : list byte := concat (filter kept lines).

Definition conserved (lines : list (list byte)) s : Prop := written s ++ pending s = kept_text lines.

Lemma empty_buf_ok p : empty_buf p -> buf_ok p.
Proof. intros (b & -> & H & _). by exists b. Qed.

Lemma empty_buf_text p : empty_buf p -> text p = [].
Proof. by intros (b & -> & _ & H). Qed.

Lemma texts_app l1 l2 : texts (l1 ++ l2) = texts l1 ++ texts l2.
Proof. unfold texts. by rewrite fmap_app, concat_app. Qed.

Lemma texts_singleton p : texts [p] = text p.
Proof. unfold texts. simpl. by rewrite app_nil_r. Qed.

Lemma kept_text_app l1 l2 : kept_text (l1 ++ l2) = kept_text l1 ++ kept_text l2.
Proof. unfold kept_text. by rewrite filter_app, concat_app. Qed.

Lemma kept_text_one line :
  kept_text [line] = if zlen line <? kSize then line else [].
Proof.
  unfold kept_text. rewrite filter_cons, filter_nil. unfold kept.
  destruct (Z.ltb_spec (zlen line) kSize).
  - rewrite decide_True by done. simpl. apply app_nil_r.
  - rewrite decide_False by lia. done.
Qed.

Section fresh.
Hypothesis fresh_len : zlen fresh = kSize.

Lemma new_Buffer_empty : empty_buf new_Buffer.
Proof.
  eexists. split; [done|]. split; [|by unfold contents; apply slice_nil].
  unfold stream_ok, FixedBuffer_new, stream_size, kSize in *. simpl. lia.
Qed.

Lemma new_zeroed_Buffer_empty : empty_buf new_zeroed_Buffer.
Proof.
  eexists. split; [done|]. split; [|by unfold contents; apply slice_nil].
  unfold stream_ok, fb_bzero, FixedBuffer_new, stream_size, kSize, zlen in *. simpl.
  rewrite length_replicate. lia.
Qed.
#[local] Hint Resolve new_Buffer_empty new_zeroed_Buffer_empty empty_buf_ok : core.

Lemma async_inv_new w : async_inv (AsyncLogging_new w).
Proof. unfold async_inv, thread_inv. simpl. split_and!; auto. Qed.

(** Writing to an empty buffer keeps the line if and only if it is short enough. *)
Lemma fb_append_empty b line :
  stream_ok b -> contents b = [] ->
  exists b', fb_append b line = Ok b' /\ stream_ok b' /\ contents b' = kept_text [line].
Proof.
  intros Hb Hc. destruct (fb_append_ok b line Hb) as (b' & E & Hb' & Hc'). exists b'. split_and!; try done.
  rewrite Hc', Hc, kept_text_one, zlen_nil, Z.sub_0_r. done.
Qed.

Lemma append_inv s line :
  async_inv s ->
  exists s', append s line = Ok s' /\ async_inv s' /\ pc s' = pc s /\ running_ s' = running_ s /\
    written s' = written s /\ pending s' = pending s ++ kept_text [line].
Proof.
  intros ((cur & Ec & Hcur) & Hbs & Hnext & Hth). unfold append. rewrite Ec. simpl.
  destruct (Z.ltb_spec (zlen line) (fb_avail cur)) as [Hfit|Hfull].
  - destruct (fb_append_ok cur line Hcur) as (cur' & -> & Hcur' & Hc'). simpl.
    eexists. split; [done|]. split_and!; try done.
    + split_and!; try done. by exists cur'.
    + unfold pending. simpl. rewrite Ec. simpl. rewrite Hc', <- !app_assoc. do 2 f_equal.
      unfold fb_avail in Hfit. rewrite (stream_ok_len cur Hcur), kept_text_one.
      destruct Hcur as (_ & ? & _).
      destruct (Z.ltb_spec (zlen line) (kSize - cur_ cur)); [|lia].
      destruct (Z.ltb_spec (zlen line) kSize); [done|lia].
  - assert (exists b, match nextBuffer_ s with Some b => (Some b, None) | None => (new_Buffer, None) end =
        (Some b, @None FixedBuffer) /\ stream_ok b /\ contents b = []) as (b & -> & Hb & Hbc).
    { destruct Hnext as [(b & -> & Hb & Hc)|[-> _]]; [by eauto|].
      destruct new_Buffer_empty as (b & -> & Hb & Hc). by eauto. }
    simpl. destruct (fb_append_empty b line Hb Hbc) as (b' & -> & Hb' & Hbc'). simpl.
    eexists. split; [done|]. split_and!; try done.
    + split_and!; simpl; try done.
      * by exists b'.
      * apply Forall_app_2; [done|]. constructor; [by exists cur|done].
      * right. split; [done|]. by destruct (buffers_ s).
    + unfold pending. simpl. rewrite texts_app, texts_singleton, Ec, Hbc'. simpl.
      by rewrite <- !app_assoc.
Qed.

Lemma take_buffers_inv s :
  async_inv s -> pc s = Locking \/ pc s = Waiting ->
  async_inv (take_buffers s) /\ pc (take_buffers s) = Writing /\
  running_ (take_buffers s) = running_ s /\
  written (take_buffers s) = written s /\ pending (take_buffers s) = pending s /\
  texts (buffersToWrite (take_buffers s)) = pending s.
Proof.
  intros (Hcur & Hbs & Hnext & Hth) Hpc.
  assert (empty_buf (newBuffer1 s) /\ empty_buf (newBuffer2 s) /\ buffersToWrite s = [] /\ sink_ok (output s))
    as (H1 & H2 & H3 & H4) by (unfold thread_inv in Hth; destruct Hpc as [E|E]; rewrite E in Hth; done).
  assert (buffers_ s ++ [currentBuffer_ s] <> []) as Hne by (by destruct (buffers_ s)).
  assert (Forall buf_ok (buffers_ s ++ [currentBuffer_ s])) as Hall
    by (apply Forall_app_2; [done|]; by constructor).
  assert (written s = sink_data (output s)) as Hw by (unfold written; by destruct Hpc as [->| ->]).
  assert (pending s = texts (buffers_ s ++ [currentBuffer_ s])) as Hp
    by (unfold pending; rewrite H3, texts_app, texts_singleton; done).
  unfold take_buffers. destruct Hnext as [(b & En & Hb)|[En Hbne]]; rewrite En, H3; simpl.
  - split_and!; try done; [|by unfold pending; simpl; rewrite (empty_buf_text _ H1), app_nil_r].
    split_and!; simpl; auto; [left; by exists b|]. split_and!; simpl; auto.
  - split_and!; try done; [|by unfold pending; simpl; rewrite (empty_buf_text _ H1), app_nil_r].
    split_and!; simpl; auto. split_and!; simpl; auto. right. split; [done|].
    unfold zlen. rewrite length_app. simpl. destruct (buffers_ s); [done|]. simpl. lia.
Qed.

Lemma write_all_spec l w :
  Forall buf_ok l -> sink_ok w ->
  exists w', for_each write_one l w = Ok w' /\ sink_ok w' /\ sink_data w' = sink_data w ++ texts l.
Proof.
  intros Hl. revert w. induction Hl as [|p l (b & -> & Hb) Hl IH]; intros w Hw; simpl.
  { exists w. unfold texts. simpl. by rewrite app_nil_r. }
  change (write_one (Some b) w) with (sink_append (contents b) w).
  destruct (sink_append_ok (contents b) w Hw) as (w1 & -> & Hw1 & Hd1). simpl.
  destruct (IH w1 Hw1) as (w2 & -> & Hw2 & Hd2). exists w2. split_and!; try done.
  rewrite Hd2, Hd1, <- app_assoc. done.
Qed.

Lemma pop_back_snoc {A} (l : list A) x : pop_back (l ++ [x]) = Ok (x, l).
Proof.
  induction l as [|y l IH]; [done|]. simpl. rewrite IH. simpl.
  by destruct (l ++ [x]) eqn:E; [destruct l|].
Qed.

Lemma recycle_null l p :
  buf_ok p -> exists b, recycle None (l ++ [p]) = Ok (b, l) /\ empty_buf b.
Proof.
  intros (b & -> & Hb). unfold recycle. rewrite bool_decide_false by (by destruct l). simpl.
  rewrite pop_back_snoc. simpl. eexists. split; [done|]. eexists. split; [done|].
  split; [|by unfold contents; apply slice_nil].
  destruct Hb as [Hb1 Hb2]. unfold stream_ok, stream_size in *. simpl. lia.
Qed.

Lemma recycle_some l p : empty_buf p -> recycle p l = Ok (p, l).
Proof. by intros (b & -> & _). Qed.

(** Both reserve buffers are refilled: at least one buffer was taken, and two if
    [newBuffer2] was given away. *)
Lemma recycle_both (l : list BufferPtr) new2 :
  l <> [] -> Forall buf_ok l -> (empty_buf new2 \/ new2 = None /\ 2 <= zlen l) ->
  exists b1 l1 b2 l2,
    recycle None (if 2 <? zlen l then take 2 l else l) = Ok (b1, l1) /\
    recycle new2 l1 = Ok (b2, l2) /\ empty_buf b1 /\ empty_buf b2.
Proof.
  intros Hne Hl Hn2.
  assert (exists l', (if 2 <? zlen l then take 2 l else l) = l' /\ Forall buf_ok l' /\
    (exists p, l' = [p] /\ empty_buf new2) \/ exists p q, (if 2 <? zlen l then take 2 l else l) = [p; q] /\
      buf_ok p /\ buf_ok q) as Hcase.
  { destruct l as [|p [|q [|r l]]]; [done| | |].
    - exists [p]. left. split_and!; try done. exists p. split; [done|]. destruct Hn2 as [|[_ H]]; [done|].
      unfold zlen in H. simpl in H. lia.
    - exists []. right. exists p, q. split; [done|]. rewrite !Forall_cons in Hl. tauto.
    - exists []. right. exists p, q. split.
      + destruct (Z.ltb_spec 2 (zlen (p :: q :: r :: l))) as [_|H]; [done|]. unfold zlen in H. simpl in H. lia.
      + rewrite !Forall_cons in Hl. tauto. }
  destruct Hcase as (l' & [(-> & Hl' & p & -> & Hn)|(p & q & -> & Hp & Hq)]).
  - apply Forall_cons in Hl' as [Hp _]. destruct (recycle_null [] p Hp) as (b1 & E1 & Hb1).
    exists b1, [], new2, []. split_and!; try done. by apply recycle_some.
  - destruct (recycle_null [p] q Hq) as (b1 & E1 & Hb1). destruct Hn2 as [Hn|[-> _]].
    + exists b1, [p], new2, [p]. split_and!; try done. by apply recycle_some.
    + destruct (recycle_null [] p Hp) as (b2 & E2 & Hb2). exists b1, [p], b2, []. done.
Qed.

Lemma thread_write_inv s :
  async_inv s -> pc s = Writing ->
  exists s', thread_write s = Ok s' /\ async_inv s' /\ pc s' = LoopTest /\ running_ s' = running_ s /\
    written s' = written s ++ texts (buffersToWrite s) /\
    pending s' = texts (buffers_ s) ++ text (currentBuffer_ s).
Proof.
  intros (Hcur & Hbs & Hnext & Hth) Hpc. unfold thread_inv in Hth. rewrite Hpc in Hth.
  destruct Hth as (E1 & Hne & Hbw & Hsink & Hn2). unfold thread_write.
  rewrite bool_decide_false by done. simpl.
  destruct (write_all_spec _ _ Hbw Hsink) as (w1 & -> & Hw1 & Hd1). simpl. rewrite E1.
  destruct (recycle_both _ _ Hne Hbw Hn2) as (b1 & l1 & b2 & l2 & -> & Hr2 & Hb1 & Hb2). simpl.
  rewrite Hr2. simpl. destruct (sink_flush_ok w1 Hw1) as (w2 & -> & Hw2 & Hd2). simpl.
  eexists. split; [done|]. split_and!; try done.
  unfold written. simpl. rewrite Hpc, Hd2. done.
Qed.

Lemma thread_step_inv s :
  async_inv s -> (pc s = Entry -> running_ s = true) ->
  exists s', thread_step s = Ok s' /\ async_inv s' /\ running_ s' = running_ s /\
    written s' ++ pending s' = written s ++ pending s.
Proof.
  intros Hinv Hrun. pose proof Hinv as (Hcur & Hbs & Hnext & Hth). unfold thread_step.
  destruct (pc s) eqn:Epc.
  - eauto 10.
  - unfold thread_entry. rewrite (assert_true _ (Hrun eq_refl)). simpl.
    destruct (sink_open_ok (output s)) as (w & -> & Hw & Hd). simpl. eexists. split; [done|].
    unfold thread_inv in Hth. rewrite Epc in Hth.
    split; [split_and!; simpl; auto; split_and!; simpl; auto|]. split; [done|].
    unfold written, pending. simpl. rewrite Epc, Hd, Hth. done.
  - unfold thread_inv in Hth. rewrite Epc in Hth. unfold thread_test. destruct (running_ s) eqn:Er.
    + eexists. split; [done|]. split_and!; try done. unfold written. by rewrite Epc.
    + destruct Hth as (H1 & H2 & H3 & H4). destruct (sink_flush_ok _ H4) as (w & -> & Hw & Hd). simpl.
      eexists. split; [done|]. split_and!; try done. unfold written. rewrite Epc. simpl. by rewrite Hd.
  - unfold thread_lock. destruct (buffers_ s) eqn:Eb.
    + eexists. split; [done|]. split_and!; try done.
      * unfold async_inv, set_pc, thread_inv in *. simpl. by rewrite Epc, Eb in *.
      * unfold written. by rewrite Epc.
    + eexists. split; [done|]. destruct (take_buffers_inv s Hinv) as (Hi & _ & Hr & -> & -> & _); auto.
  - eexists. split; [done|]. destruct (take_buffers_inv s Hinv) as (Hi & _ & Hr & -> & -> & _); auto.
  - destruct (thread_write_inv s Hinv Epc) as (s' & -> & Hi & _ & Hr & Hw & Hp). eexists. split; [done|].
    split_and!; try done. rewrite Hw, Hp. unfold pending. by rewrite <- app_assoc.
  - eauto 10.
Qed.

(** One step of anybody: it keeps the invariant and adds its line, unless the thread
    is started twice or starts after [stop]. *)
Lemma step_spec l s :
  async_inv s ->
  (exists s', step l s = Ok s' /\ async_inv s' /\
    written s' ++ pending s' = (written s ++ pending s) ++ kept_text (appended_by l)) \/
  (l = Start /\ pc s <> NotStarted /\ step l s = Fault UncaughtException) \/
  (l = Thread /\ pc s = Entry /\ running_ s = false /\ step l s = Fault AssertionFailed).
Proof.
  intros Hinv. destruct l as [line| | |]; simpl.
  - left. destruct (append_inv s line Hinv) as (s' & -> & Hi & _ & _ & Hw & Hp).
    eexists. split; [done|]. split; [done|]. by rewrite Hw, Hp, app_assoc.
  - unfold start. simpl. destruct (decide (pc s = NotStarted)) as [E|E]; [left|by auto].
    eexists. split; [done|]. unfold kept_text. rewrite filter_nil. simpl. rewrite app_nil_r.
    destruct Hinv as (H1 & H2 & H3 & H4). unfold async_inv, thread_inv, written in *. simpl. rewrite E in *.
    done.
  - left. eexists. split; [done|]. unfold kept_text. rewrite filter_nil. simpl. by rewrite app_nil_r.
  - destruct (decide (pc s = Entry /\ running_ s = false)) as [[E1 E2]|Hn].
    + right. right. split_and!; try done. unfold thread_step. rewrite E1. unfold thread_entry. by rewrite E2.
    + left. destruct (thread_step_inv s Hinv) as (s' & -> & Hi & _ & Hc).
      * intros E. destruct (running_ s); [done|]. by destruct Hn.
      * eexists. split; [done|]. split; [done|]. unfold kept_text. rewrite filter_nil. simpl.
        by rewrite app_nil_r.
Qed.

Lemma reach_inv w lines s : reach w lines s -> async_inv s /\ conserved lines s.
Proof.
  induction 1 as [|lines s l s' Hr [Hi Hc] Hstep].
  - split; [apply async_inv_new|]. unfold conserved, written, pending, kept_text.
    rewrite filter_nil. simpl. apply (empty_buf_text _ new_zeroed_Buffer_empty).
  - destruct (step_spec l s Hi) as [(s2 & E & Hi2 & Hc2)|[(_ & _ & E)|(_ & _ & _ & E)]]; [|congruence..].
    rewrite E in Hstep. injection Hstep as <-. split; [done|].
    unfold conserved in *. by rewrite Hc2, Hc, kept_text_app.
Qed.

(** ** Properties *)

(** C16: the asynchronous log neither loses, repeats nor reorders a line.  In every
    interleaving of appending threads, [start], [stop] and the logging thread, what
    the file was given followed by what is still in the buffers is the sequence of
    the lines appended so far, those of 4000 bytes or more left out.  No null buffer
    is dereferenced and no assertion of [threadFunc] fails, except the one at its
    entry, when [stop] came before the thread ran. *)
Theorem async_conserves (w : W) (lines : list (list byte)) s (l : label) :
  reach w lines s ->
  written s ++ pending s = kept_text lines /\
  ((exists s', step l s = Ok s') \/
   (l = Start /\ pc s <> NotStarted) \/
   (l = Thread /\ pc s = Entry /\ running_ s = false)).
Proof.
  intros Hr. destruct (reach_inv _ _ _ Hr) as [Hi Hc]. split; [done|].
  destruct (step_spec l s Hi) as [(s' & E & _)|[(? & ? & _)|(? & ? & ? & _)]]; eauto 10.
Qed.

Lemma turn_spec s :
  async_inv s -> pc s = Locking \/ pc s = Waiting ->
  exists s', thread_write (take_buffers s) = Ok s' /\ pc s' = LoopTest /\
    written s' = written s ++ pending s /\ pending s' = [].
Proof.
  intros Hi Hpc. destruct (take_buffers_inv s Hi Hpc) as (Hi1 & Epc & Hr & Hw & Hp & Ht).
  destruct (thread_write_inv _ Hi1 Epc) as (s' & E & _ & Hpc' & _ & Hw' & Hp').
  exists s'. split_and!; try done; [by rewrite Hw', Hw, Ht|].
  rewrite Hp'. apply (app_inv_head (texts (buffersToWrite (take_buffers s)))).
  rewrite app_nil_r. transitivity (pending (take_buffers s)); [done|]. by rewrite Hp, Ht.
Qed.

Lemma run_cons l ls s s1 : step l s = Ok s1 -> run (l :: ls) s = run ls s1.
Proof. intros E. simpl. by rewrite E. Qed.

(** C27: while the log is running, one turn of the thread's loop (at most four of its
    steps, the wait included, which the flush interval ends) hands every pending line
    to the file. *)
Theorem async_flushes (w : W) (lines : list (list byte)) s :
  reach w lines s -> pc s = LoopTest -> running_ s = true ->
  exists n s', (n <= 4)%nat /\ run (replicate n Thread) s = Ok s' /\ pc s' = LoopTest /\
    written s' = kept_text lines /\ pending s' = [].
Proof.
  intros Hr Hpc Hrun. destruct (reach_inv _ _ _ Hr) as [Hi Hc].
  assert (thread_step s = Ok (set_pc s Locking)) as E1
    by (unfold thread_step, thread_test; rewrite Hpc, Hrun; done).
  assert (written (set_pc s Locking) = written s) as Ew by (unfold written; by rewrite Hpc).
  assert (async_inv (set_pc s Locking)) as Hi1
    by (destruct (thread_step_inv s Hi) as (s1 & E & H & _); [by rewrite Hpc|]; congruence).
  assert (forall s0, pc (take_buffers s0) = Writing) as Hpw
    by (intros s0; unfold take_buffers; by destruct (nextBuffer_ s0)).
  destruct (buffers_ s) as [|p bs] eqn:Eb.
  - assert (thread_step (set_pc s Locking) = Ok (set_pc s Waiting)) as E2
      by (unfold thread_step, thread_lock; simpl; rewrite Eb; done).
    destruct (thread_step_inv _ Hi1) as (s2 & E & Hi2 & _); [done|]. rewrite E2 in E. injection E as <-.
    assert (written (set_pc s Waiting) = written s) as Ew2 by (unfold written; by rewrite Hpc).
    destruct (turn_spec (set_pc s Waiting) Hi2) as (s' & E & Hpc' & Hw & Hp); [by right|].
    exists 4%nat, s'. split; [lia|]. split; [|by rewrite Hw, Ew2].
    cbn [replicate]. rewrite (run_cons Thread _ s _ E1), (run_cons Thread _ _ _ E2), (run_cons Thread _ _ (take_buffers (set_pc s Waiting))) by done.
    rewrite (run_cons Thread [] _ s'); [done|]. simpl. unfold thread_step. by rewrite Hpw.
  - assert (thread_step (set_pc s Locking) = Ok (take_buffers (set_pc s Locking))) as E2
      by (unfold thread_step, thread_lock; simpl; rewrite Eb; done).
    destruct (turn_spec (set_pc s Locking) Hi1) as (s' & E & Hpc' & Hw & Hp); [by left|].
    exists 3%nat, s'. split; [lia|]. split; [|by rewrite Hw, Ew].
    cbn [replicate]. rewrite (run_cons Thread _ s _ E1), (run_cons Thread _ _ _ E2).
    rewrite (run_cons Thread [] _ s'); [done|]. simpl. unfold thread_step. by rewrite Hpw.
Qed.
End fresh.

Lemma run_reach w ls s0 s' lines :
  reach w lines s0 -> run ls s0 = Ok s' -> reach w (lines ++ concat (appended_by <$> ls)) s'.
Proof.
  revert s0 lines. induction ls as [|l ls IH]; intros s0 lines Hr E; simpl in *.
  { injection E as <-. by rewrite app_nil_r. }
  apply bind_Ok in E as (s1 & E1 & E2). rewrite app_assoc. eapply IH; [|exact E2]. by econstructor.
Qed.
End async.

(** ** [LogFile] as the sink

    [LogFile output(basename_, rollSize_, false)], with the other arguments at their
    defaults, on a disk that takes everything. *)
Section file_sink.
Context {os : Type} {St : Stdio os} {GD : GoodDisk os}.
Variable basename : file_name.
Variable rollSize : Z.
Hypothesis rollSize_pos : 0 <= rollSize.

Definition file_sink_ok (w : option LogFile * os) : Prop :=
  exists lf ls, w.1 = Some lf /\ log_ok lf /\ files_hold lf ls.

Definition file_sink_open (w : option LogFile * os) : res (option LogFile * os) :=
  let '(lf, s) := LogFile_new basename rollSize 3 1024 w.2 in Ok (Some lf, s).

Definition file_sink_append (d : list byte) (w : option LogFile * os) : res (option LogFile * os) :=
  match w.1 with
  | Some lf => '(lf, s) ← append_unlocked lf d w.2; Ok (Some lf, s)
  | None => Fault DanglingPointer
  end.

Definition file_sink_flush (w : option LogFile * os) : res (option LogFile * os) :=
  match w.1 with
  | Some lf => s ← LogFile_flush lf w.2; Ok (Some lf, s)
  | None => Fault DanglingPointer
  end.

Definition file_sink_data (w : option LogFile * os) : list byte :=
  match w.1 with Some lf => concat (taken <$> all_files lf) | None => [] end.

Lemma files_hold_data lf ls : files_hold lf ls -> concat (taken <$> all_files lf) = concat ls.
Proof.
  intros (_ & groups & <- & ->). induction groups as [|g groups IH]; [done|].
  simpl. rewrite concat_app. by f_equal.
Qed.

Definition file_sink : LogSink (option LogFile * os).
Proof.
  refine {| sink_open := file_sink_open; sink_append := file_sink_append; sink_flush := file_sink_flush;
            sink_ok := file_sink_ok; sink_data := file_sink_data |}.
  - intros [lf0 s]. unfold file_sink_open. simpl.
    destruct (LogFile_new_ok basename rollSize 3 1024 s) as (Ho & _ & ok & Ef & Hok); [lia..|].
    destruct (LogFile_new _ _ _ _ _) as [lf s']. simpl in *. eexists. split; [done|]. split.
    + exists lf, []. split_and!; try done. split; rewrite Ef; [constructor; [by apply Hok|done]|]. by exists [[]].
    + unfold file_sink_data. simpl. by rewrite Ef.
  - intros d [w s] (lf & ls & E & Ho & Hh). simpl in E. subst w. unfold file_sink_append. simpl.
    destruct (append_unlocked_holds lf ls d s Ho Hh) as (lf' & s' & -> & Ho' & Hh'). simpl.
    eexists. split; [done|]. split; [by exists lf', (ls ++ [d])|]. unfold file_sink_data. simpl.
    rewrite (files_hold_data _ _ Hh), (files_hold_data _ _ Hh'), concat_app. simpl. by rewrite app_nil_r.
  - intros [w s] (lf & ls & E & Ho & Hh). simpl in E. subst w. unfold file_sink_flush, LogFile_flush, deref_file.
    simpl. destruct Ho as (H1 & H2 & H3 & f & Ef & Hf). rewrite Ef. simpl. eexists. split; [done|].
    split; [|done]. exists lf, ls. split_and!; try done. unfold log_ok. eauto 10.
Defined.
End file_sink.

(** ** Concrete runs

    A log over a file on the good disk. *)
Lemma roll_1000 : 0 <= 1000.
Proof. lia. Qed.

Definition demo_sink : LogSink (option LogFile * Z) :=
  @file_sink Z good_disk good_disk_good [x61] 1000 roll_1000.

Definition demo_fresh : list byte := replicate 4000 x00.

Definition demo_new : AsyncLogging (option LogFile * Z) := AsyncLogging_new demo_fresh (None, 0).

Definition demo_run (ls : list label) : res (AsyncLogging (option LogFile * Z)) :=
  @run _ demo_sink demo_fresh ls demo_new.

Lemma demo_reach ls :
  match demo_run ls with
  | Ok s => @reach _ demo_sink demo_fresh (None, 0) (concat (appended_by <$> ls)) s
  | Fault _ => True
  end.
Proof.
  destruct (demo_run ls) as [s|] eqn:E; [|done].
  apply (@run_reach _ demo_sink demo_fresh (None, 0) ls demo_new s []); [constructor|done].
Qed.

(** The thread is running and two lines are in [currentBuffer_]. *)
Definition demo_trace : list label := [Start; Thread; Append [x61; x0a]; Append [x62; x0a]].

Lemma async_conserves_witness :
  match demo_run demo_trace with
  | Ok s => @written _ demo_sink s ++ pending s = [x61; x0a; x62; x0a]
  | Fault _ => False
  end.
Proof.
  pose proof (demo_reach demo_trace) as Hr.
  destruct (demo_run demo_trace) as [s|e] eqn:E; [|vm_compute in E; discriminate].
  etransitivity; [exact (proj1 (@async_conserves _ demo_sink demo_fresh ltac:(vm_compute; reflexivity)
    (None, 0) _ s Thread Hr))|]. vm_compute. reflexivity.
Defined.

Lemma async_flushes_witness :
  match demo_run demo_trace with
  | Ok s => exists n s', (n <= 4)%nat /\ @run _ demo_sink demo_fresh (replicate n Thread) s = Ok s' /\
      pc s' = LoopTest /\ @written _ demo_sink s' = [x61; x0a; x62; x0a] /\ pending s' = []
  | Fault _ => False
  end.
Proof.
  pose proof (demo_reach demo_trace) as Hr.
  destruct (demo_run demo_trace) as [s|e] eqn:E; [|vm_compute in E; discriminate].
  apply (@async_flushes _ demo_sink demo_fresh ltac:(vm_compute; reflexivity) (None, 0) _ s Hr).
  - transitivity (match demo_run demo_trace with Ok s => pc s | _ => Exited end); [by rewrite E|].
    vm_compute. reflexivity.
  - transitivity (match demo_run demo_trace with Ok s => running_ s | _ => false end); [by rewrite E|].
    vm_compute. reflexivity.
Defined.

(** ** What [stop] does not do *)

(** [stop] can lose lines.  The thread leaves its loop as soon as it sees
    [running_] cleared, without a last look at the buffers: a line appended after its
    last critical section is never written, although [stop] has joined the thread. *)
Theorem stop_loses_lines :
  exists lines s, @reach _ demo_sink demo_fresh (None, 0) lines s /\
    pc s = Exited /\ lines = [[x61; x0a]] /\ @written _ demo_sink s = [].
Proof.
  pose proof (demo_reach [Start; Thread; Append [x61; x0a]; Stop; Thread]) as Hr.
  destruct (demo_run [Start; Thread; Append [x61; x0a]; Stop; Thread]) as [s|e] eqn:E;
    [|vm_compute in E; discriminate].
  exists [[x61; x0a]], s. split; [exact Hr|].
  assert (match demo_run [Start; Thread; Append [x61; x0a]; Stop; Thread] with
          | Ok s => pc s = Exited /\ @written _ demo_sink s = []
          | Fault _ => False end) as H by (vm_compute; split; reflexivity).
  rewrite E in H. by destruct H.
Qed.

(** [stop] right after [start]: the thread's first assertion fails. *)
Theorem start_stop_aborts : demo_run [Start; Stop; Thread] = Fault AssertionFailed.
Proof. vm_compute. reflexivity. Qed.
