(* ===== verification/Logger.v ===== *)
(** * Logger: formatting a log line and handing it to the output

    Models [include/Logger.h], [src/base/Logger_new.cpp] and
    [src/base/AsyncLoggingInit.cpp] with its globals.  The text of the time stamp
    and the message a [LOG_*] macro formats are inputs; [buf] is an array of 1024
    bytes, and reading beyond it is a fault. *)
From Stdlib Require Import Strings.Byte.
From S2P Require Import Prelude LogStream Printf LogFile AsyncLogging.

(** ** [Logger] *)
Inductive LogLevel := INFO | ERROR | FATAL | DEBUG.

(** The enumerators; [LogLevel_] is an [int]. *)
Definition level_num (l : LogLevel) : Z :=
  match l with INFO => 0 | ERROR => 1 | FATAL => 2 | DEBUG => 3 end.

(** The [switch] of [log]. *)
Definition levelStr (level : Z) : list byte :=
  if level =? level_num INFO then [x49; x4e; x46; x4f]
  else if level =? level_num ERROR then [x45; x52; x52; x4f; x52]
  else if level =? level_num FATAL then [x46; x41; x54; x41; x4c]
  else if level =? level_num DEBUG then [x44; x45; x42; x55; x47]
  else [x55; x4e; x4b; x4e; x4f; x57; x4e].

Definition buf_size : Z := 1024.

(** [snprintf(buf, 1024, ...)]: the stored bytes end in a zero byte, the returned
    length is that of the whole text. *)
Definition snprintf (garbage text : list byte) : list byte * Z :=
  (splice garbage 0 (take 1023 text ++ [x00]), zlen text).

(** "[%s] %s: %s\n" *)
Definition line_text (stamp : list byte) (l : Z) (msg : list byte) : list byte :=
  [x5b] ++ stamp ++ [x5d; x20] ++ levelStr l ++ [x3a; x20] ++ msg ++ [x0a].

(** [output_(buf, len)] reads [len] bytes of [buf]. *)
Definition read_array (buf : list byte) (len : Z) : res (list byte) :=
  if len <=? zlen buf then Ok (take (Z.to_nat len) buf) else Fault OutOfBounds.

(** What [Logger::log] passes to [output_]. *)
Definition log_line (garbage stamp : list byte) (l : Z) (msg : list byte) : res (list byte) :=
  let '(buf, len) := snprintf garbage (line_text stamp l msg) in read_array buf len.

(** The macros format into a zeroed array of their own; the [std::string] made of it
    ends at its first zero byte.  ([LOG_DEBUG] is this only where [MUDEBUF] is defined, and
    nothing elsewhere.) *)
Definition macro_msg (text : list byte) : list byte := c_string (take 1023 text).

Lemma log_line_spec garbage stamp l msg :
  zlen garbage = buf_size ->
  log_line garbage stamp l msg =
    if zlen (line_text stamp l msg) <=? 1023 then Ok (line_text stamp l msg)
    else if zlen (line_text stamp l msg) =? 1024 then Ok (take 1023 (line_text stamp l msg) ++ [x00])
    else Fault OutOfBounds.
Proof.
  intros Hg. unfold log_line, snprintf, read_array. generalize (line_text stamp l msg). intros t. unfold buf_size in Hg.
  assert (zlen (take 1023 t ++ [x00]) = Z.min 1023 (zlen t) + 1) as Hl
    by (rewrite zlen_app, zlen_take; done).
  assert (zlen (splice garbage 0 (take 1023 t ++ [x00])) = 1024) as -> by (rewrite zlen_splice; lia).
  unfold splice. rewrite take_0. simpl app. unfold zlen in Hl. zlen_nonneg_all.
  destruct (Z.leb_spec (zlen t) 1023) as [H1|H1].
  - destruct (Z.leb_spec (zlen t) 1024); [|lia]. f_equal.
    rewrite (take_ge t) by (unfold zlen in *; lia). rewrite <- app_assoc.
    unfold zlen. rewrite Nat2Z.id. apply take_app_length.
  - destruct (Z.eqb_spec (zlen t) 1024) as [H2|H2]; destruct (Z.leb_spec (zlen t) 1024); try lia; [|done].
    f_equal. rewrite H2. rewrite take_app_le; [|unfold zlen in *; lia].
    apply take_ge. unfold zlen in *; lia.
Qed.

(** ** The globals of [AsyncLoggingInit.cpp] *)
Inductive output_fn := ToStdout | ToAsync.

Record globals (W : Type) := mkGlobals {
  g_asyncLog : option (AsyncLogging W);
  g_testMode : bool;
  g_hasErrorLog : bool;
  output_ : output_fn;
  stdout : list byte
}.
Arguments mkGlobals {W}.
Arguments g_asyncLog {W}.
Arguments g_testMode {W}.
Arguments g_hasErrorLog {W}.
Arguments output_ {W}.
Arguments stdout {W}.

Section init.
Context {W : Type} {LS : LogSink W}.
Variable fresh : list byte.
Implicit Types g : globals W.

Definition globals_new : globals W := mkGlobals None false false ToStdout [].

Definition initAsyncLogging (w : W) g : res (globals W) :=
  match g_asyncLog g with
  | Some _ => Ok g
  | None =>
      a ← start (AsyncLogging_new fresh w);
      Ok (mkGlobals (Some a) (g_testMode g) (g_hasErrorLog g) (output_ g) (stdout g))
  end.

(** [stop] has joined the thread when [g_asyncLog.reset()] runs. *)
Definition resetAsyncLogging g : globals W :=
  mkGlobals None (g_testMode g) (g_hasErrorLog g) (output_ g) (stdout g).

Definition setAsyncOutput g : globals W :=
  match g_asyncLog g with
  | Some _ => mkGlobals (g_asyncLog g) (g_testMode g) (g_hasErrorLog g) ToAsync (stdout g)
  | None => g
  end.

Definition enableTestMode g : globals W :=
  mkGlobals (g_asyncLog g) true false (output_ g) (stdout g).

Definition hasErrorLog g : bool := g_hasErrorLog g.

(** A call of [output_] with the bytes of the line. *)
Definition call_output (line : list byte) g : res (globals W) :=
  match output_ g with
  | ToStdout => Ok (mkGlobals (g_asyncLog g) (g_testMode g) (g_hasErrorLog g) ToStdout (stdout g ++ line))
  | ToAsync =>
      let err := match line with x45 :: _ => true | _ => g_hasErrorLog g end in
      match g_asyncLog g with
      | None => Fault DanglingPointer
      | Some a =>
          a ← append fresh a line;
          Ok (mkGlobals (Some a) (g_testMode g) err ToAsync (stdout g))
      end
  end.

Definition log (garbage stamp : list byte) (l : Z) (msg : list byte) g : res (globals W) :=
  line ← log_line garbage stamp l msg; call_output line g.

(** Calls from the program, and steps of the logging thread. *)
Inductive call :=
  | CInit (w : W)
  | CReset
  | CSetAsyncOutput
  | CEnableTestMode
  | CLog (garbage stamp : list byte) (l : LogLevel) (msg : list byte)
  | CThread.

Definition do_call (c : call) g : res (globals W) :=
  match c with
  | CInit w => initAsyncLogging w g
  | CReset => Ok (resetAsyncLogging g)
  | CSetAsyncOutput => Ok (setAsyncOutput g)
  | CEnableTestMode => Ok (enableTestMode g)
  | CLog garbage stamp l msg => log garbage stamp (level_num l) (macro_msg msg) g
  | CThread =>
      match g_asyncLog g with
      | Some a => a ← thread_step fresh a;
          Ok (mkGlobals (Some a) (g_testMode g) (g_hasErrorLog g) (output_ g) (stdout g))
      | None => Ok g
      end
  end.

Fixpoint do_calls (cs : list call) g : res (globals W) :=
  match cs with
  | [] => Ok g
  | c :: cs => g ← do_call c g; do_calls cs g
  end.

(** A line that reaches the output begins with a bracket. *)
Lemma log_line_head garbage stamp l msg line :
  log_line garbage stamp l msg = Ok line -> zlen garbage = buf_size -> exists t, line = x5b :: t.
Proof.
  intros E Hg. rewrite log_line_spec in E by done.
  destruct (_ <=? _); [|destruct (_ =? _)]; simplify_eq; unfold line_text; simpl; eauto.
Qed.

Definition call_ok (c : call) : Prop :=
  match c with CLog garbage _ _ _ => zlen garbage = buf_size | _ => True end.

Lemma do_call_error_flag c g g' :
  call_ok c -> do_call c g = Ok g' -> g_hasErrorLog g = false -> g_hasErrorLog g' = false.
Proof.
  destruct c; simpl; intros Hok E Hg.
  - unfold initAsyncLogging in E. destruct (g_asyncLog g); [by inv_res|]. by inv_res.
  - by injection E as <-.
  - injection E as <-. unfold setAsyncOutput. by destruct (g_asyncLog g).
  - by injection E as <-.
  - unfold log in E. apply bind_Ok in E as (line & E1 & E2).
    destruct (log_line_head _ _ _ _ _ E1 Hok) as (t & ->). unfold call_output in E2.
    destruct (output_ g); [by injection E2 as <-|]. destruct (g_asyncLog g); [|done]. by inv_res.
  - destruct (g_asyncLog g); by inv_res.
Qed.

Lemma error_flag_calls cs g0 g :
  g_hasErrorLog g0 = false -> Forall call_ok cs -> do_calls cs g0 = Ok g -> g_hasErrorLog g = false.
Proof.
  revert g0. induction cs as [|c cs IH]; intros g0 Hg Hok E; simpl in E; [by injection E as <-|].
  apply Forall_cons in Hok as [Hc Hcs]. apply bind_Ok in E as (g1 & E1 & E2).
  eapply IH; [|done|exact E2]. by eapply do_call_error_flag.
Qed.

(** [setAsyncOutput] takes a line for an error if it begins with the letter E, but every
    line [Logger::log] makes begins with a bracket: [hasErrorLog()] answers false. *)
Theorem error_flag_never_set (cs : list call) g :
  Forall call_ok cs -> do_calls cs globals_new = Ok g -> hasErrorLog g = false.
Proof. by apply (error_flag_calls cs globals_new). Qed.

(** A line of at most 1023 bytes reaches the output as it is; one of 1024 bytes has its
    newline replaced by a zero byte; for a longer one the output reads beyond [buf],
    because [snprintf] returns the length of the text and not of what it stored. *)
Theorem log_line_cases (garbage stamp : list byte) (l : Z) (msg : list byte) :
  zlen garbage = buf_size ->
  log_line garbage stamp l msg =
    if zlen (line_text stamp l msg) <=? 1023 then Ok (line_text stamp l msg)
    else if zlen (line_text stamp l msg) =? 1024 then Ok (take 1023 (line_text stamp l msg) ++ [x00])
    else Fault OutOfBounds.
Proof. apply log_line_spec. Qed.
End init.

(** [resetAsyncLogging] leaves [output_] pointing at the destroyed log. *)
Theorem log_after_reset :
  @do_calls _ demo_sink demo_fresh
    [CInit (None, 0); CSetAsyncOutput; CReset; CLog (replicate 1024 x00) (replicate 24 x30) INFO [x61]]
    (@globals_new (option LogFile * Z)) = Fault DanglingPointer.
Proof. vm_compute. reflexivity. Qed.

(** ** Two threads and one [LogLevel_]

    A macro sets the level of the only [Logger] and then logs; nothing keeps another
    thread from setting it in between. *)
Inductive level_step := SetLevel (l : LogLevel) | LogMsg (msg : list byte).

Fixpoint log_all (garbage stamp : list byte) (LogLevel_ : Z) (ls : list level_step) : list (res (list byte)) :=
  match ls with
  | [] => []
  | SetLevel l :: ls => log_all garbage stamp (level_num l) ls
  | LogMsg msg :: ls => log_line garbage stamp LogLevel_ msg :: log_all garbage stamp LogLevel_ ls
  end.

(** [LOG_INFO("a")] in one thread and [LOG_ERROR("b")] in another: the first line can
    come out as an error. *)
Theorem level_race :
  log_all (replicate 1024 x00) [] 0 [SetLevel INFO; SetLevel ERROR; LogMsg [x61]; LogMsg [x62]] =
  [Ok (line_text [] (level_num ERROR) [x61]); Ok (line_text [] (level_num ERROR) [x62])].
Proof. vm_compute. reflexivity. Qed.
