(* ===== verification/LogTime.v ===== *)
(** * LogTime: log lines with their time stamps, and what becomes of the log

    Composes [Logger::log] ([src/base/Logger_new.cpp]) with [Timestamp::to_string]; models
    [cleanupLogFiles] ([src/base/AsyncLoggingInit.cpp]) with the end of the benchmark
    programs that call it ([benchmark/throughput_test.cpp], [benchmark/self_stress_test.cpp]),
    and the logger of [src/base/Logger.cpp], which the build leaves out. *)
From Stdlib Require Import Strings.Byte String.
From S2P Require Import Prelude LogStream Printf Timestamp TimeFormat LogFile AsyncLogging Logger.

(** ** Time stamps *)

(** [Logger::log] at time [now]. *)
Definition log_now (localtime : Z -> option tm) (now : Timestamp) (garbage : list byte) (l : Z) (msg : list byte)
    : res (list byte) :=
  stamp ← to_string localtime now;
  log_line garbage stamp l msg.

(** A [LOG_*] macro whose format yields [text] ([LOG_DEBUG] where [MUDEBUF] is defined). *)
Definition log_macro (localtime : Z -> option tm) (now : Timestamp) (garbage : list byte) (l : LogLevel) (text : list byte)
    : res (list byte) :=
  log_now localtime now garbage (level_num l) (macro_msg text).

(** [LOG_FATAL] ends the process. *)
Definition macro_exits (l : LogLevel) : bool := match l with FATAL => true | _ => false end.

(** The longest message that fits with a level and a time stamp of 24 bytes. *)
Definition message_limit (l : LogLevel) : Z := 993 - zlen (levelStr (level_num l)).

Lemma line_text_length stamp l msg :
  zlen stamp = 24 -> zlen (line_text stamp (level_num l) msg) = 1023 - message_limit l + zlen msg.
Proof. intros Hs. unfold line_text, message_limit. unfold zlen in *. rewrite !length_app. simpl length at 1 3 5 7. lia. Qed.

(** ** Cleaning up *)
Section cleanup.
Context {W D : Type} {LS : LogSink W}.
(** What running a shell command does to the disk. *)
Variable system : string -> D -> D.

Definition cleanupLogFiles (d : D) : D :=
  let d := system "find log -type f -name '*.log' -delete 2>/dev/null" d in
  system "find log -type d -empty -delete 2>/dev/null" d.

(** The end of [main] in the benchmarks: the log is kept if there was an error. *)
Definition finish (g : globals W) (d : D) : D := if negb (hasErrorLog g) then cleanupLogFiles d else d.
End cleanup.

(** ** The logger the build leaves out *)
Definition old_level (level : Z) : list byte :=
  if level =? level_num INFO then str "INFO"
  else if level =? level_num ERROR then str "E"
  else if level =? level_num FATAL then str "F"
  else if level =? level_num DEBUG then str "D"
  else [].

(** What [log] writes to [std::cout]. *)
Definition old_log (level : Z) (msg : list byte) : list byte :=
  old_level level ++ str "time!" ++ str ": " ++ msg ++ [x0a].

(** ** Properties *)

(** C39: how long a message may be.  With the time stamp [Timestamp::to_string] makes, a
    macro whose text, up to its first zero byte, has at most 993 bytes less the name of the
    level reaches the output as one whole line; with one byte more the newline is lost; and any longer text makes
    the output read beyond the 1024 bytes of [buf], although the macros let 1023 bytes
    through. *)
Theorem log_message_limit (localtime : Z -> option tm) (now : Timestamp) (m : tm) (garbage text : list byte) (l : LogLevel) :
  0 <= now -> localtime (now / kMicroSecondsPerSecond) = Some m -> tm_ok m -> zlen garbage = buf_size ->
  let msg := c_string text in
  exists stamp, to_string localtime now = Ok stamp /\ zlen stamp = 24 /\
    (zlen msg <= message_limit l ->
       log_macro localtime now garbage l text = Ok (line_text stamp (level_num l) msg)) /\
    (zlen msg = message_limit l + 1 ->
       log_macro localtime now garbage l text = Ok (take 1023 (line_text stamp (level_num l) msg) ++ [x00])) /\
    (message_limit l + 1 < zlen msg -> log_macro localtime now garbage l text = Fault OutOfBounds).
Proof.
  intros Hn Hm Htm Hg msg. destruct (to_string_spec localtime now m Hn Hm Htm) as (stamp & Es & Hl & _).
  assert (0 <= message_limit l <= 989) as Hlim by (destruct l; vm_compute; split; discriminate).
  exists stamp. split; [done|]. split; [done|]. unfold log_macro, log_now. rewrite Es, bind_ret_l, log_line_spec by done.
  rewrite line_text_length by done.
  assert (macro_msg text = take 1023 msg) as Em by (unfold macro_msg; apply c_string_take). rewrite Em.
  assert (zlen msg <= 1023 -> take 1023 msg = msg) as Hid by (intros H; apply take_ge; unfold zlen in H; lia).
  assert (zlen (take 1023 msg) = Z.min 1023 (zlen msg)) as Hmm by (unfold zlen; rewrite length_take; lia).
  rewrite Hmm. split_and!; intros H.
  - rewrite Hid by lia. destruct (Z.leb_spec (1023 - message_limit l + Z.min 1023 (zlen msg)) 1023); [done|lia].
  - rewrite Hid by lia. destruct (Z.leb_spec (1023 - message_limit l + Z.min 1023 (zlen msg)) 1023); [lia|].
    destruct (Z.eqb_spec (1023 - message_limit l + Z.min 1023 (zlen msg)) 1024); [done|lia].
  - destruct (Z.leb_spec (1023 - message_limit l + Z.min 1023 (zlen msg)) 1023); [lia|].
    destruct (Z.eqb_spec (1023 - message_limit l + Z.min 1023 (zlen msg)) 1024); [lia|done].
Qed.

Lemma log_message_limit_witness :
  log_macro demo_localtime 1700000000000123 (replicate 1024 x00) INFO (replicate 991 x61) = Fault OutOfBounds.
Proof.
  destruct (log_message_limit demo_localtime 1700000000000123 (mkTm 123 10 14 22 13 20) (replicate 1024 x00)
    (replicate 991 x61) INFO) as (stamp & _ & _ & _ & _ & H).
  - lia.
  - vm_compute. reflexivity.
  - unfold tm_ok. simpl. lia.
  - vm_compute. reflexivity.
  - apply H. vm_compute. reflexivity.
Defined.

(** The benchmarks delete the log of a run with errors.  Whatever is logged, errors
    included, the program ends by deleting the log files: the flag that should keep them
    is never set, because every line begins with a bracket and not with the letter E, as
    those of the old logger did. *)
Theorem error_logs_deleted {W D : Type} {LS : LogSink W} (fresh : list byte) (system : string -> D -> D)
    (cs : list call) (g : globals W) (d : D) :
  Forall call_ok cs -> do_calls fresh cs globals_new = Ok g ->
  finish system g d = cleanupLogFiles system d /\
  forall msg, exists t, old_log (level_num ERROR) msg = x45 :: t.
Proof.
  intros Hok E. split; [|intros msg; by eexists]. unfold finish, hasErrorLog.
  by rewrite (error_flag_calls fresh cs globals_new g).
Qed.

Lemma error_logs_deleted_witness :
  match @do_calls _ demo_sink demo_fresh
          [CInit (None, 0); CSetAsyncOutput; CLog (replicate 1024 x00) (replicate 24 x30) ERROR [x61]]
          (@globals_new (option LogFile * Z)) with
  | Ok g => finish (fun c (l : list string) => c :: l) g []
            = cleanupLogFiles (fun c (l : list string) => c :: l) []
  | Fault _ => False
  end.
Proof.
  destruct (@do_calls _ demo_sink demo_fresh
          [CInit (None, 0); CSetAsyncOutput; CLog (replicate 1024 x00) (replicate 24 x30) ERROR [x61]]
          globals_new) as [g|e] eqn:E; [|vm_compute in E; discriminate].
  apply (@error_logs_deleted _ _ demo_sink demo_fresh (fun c (l : list string) => c :: l)
    [CInit (None, 0); CSetAsyncOutput; CLog (replicate 1024 x00) (replicate 24 x30) ERROR [x61]] g []); [|exact E].
  repeat constructor; vm_compute; reflexivity.
Defined.
