(* ===== verification/LoopThread.v ===== *)
(** * LoopThread: threads that run an event loop, and the pool of them

    Models [Thread] ([include/Thread.h], [src/base/Thread.cpp]), the hand-over of the
    loop from a new thread to the thread that started it ([EventLoopThread]), and
    the round-robin choice of [EventLoopThreadPool].  Each critical section of
    [EventLoopThread] is one step; starter, thread and owner interleave freely. *)
From Stdlib Require Import Strings.Byte.
From S2P Require Import Prelude LogStream Printf.

(** ** [Thread] *)
Record Thread := mkThread {
  m_started : bool;
  m_joined : bool;
  m_thread : bool;      (* the [std::thread] object exists *)
  m_tid : Z;
  m_name : list byte
}.

(** "Thread%d" with the number of threads created before. *)
Definition thread_text : list byte := [x54; x68; x72; x65; x61; x64].
Definition setDefaultName (numCreated : Z) (name : list byte) : list byte :=
  match name with [] => snprintf 32 (thread_text ++ decimal numCreated) | _ => name end.

(** Also yields the new value of [m_numCreated], an [int32_t] that wraps. *)
Definition Thread_new (name : list byte) (numCreated : Z) : Thread * Z :=
  (mkThread false false false 0 (setDefaultName numCreated name), s32 (numCreated + 1)).

Definition Thread_start (t : Thread) : res Thread :=
  if m_started t then Fault UncaughtException
  else Ok (mkThread true (m_joined t) true (m_tid t) (m_name t)).

(** What the new thread does first; until then [tid()] is 0. *)
Definition Thread_run (gettid : Z) (t : Thread) : Thread :=
  mkThread (m_started t) (m_joined t) (m_thread t) gettid (m_name t).

(** Returns the thread and whether it waited for the thread to end. *)
Definition Thread_join (t : Thread) : res (Thread * bool) :=
  if m_started t && negb (m_joined t) then
    if m_thread t then Ok (mkThread true true true (m_tid t) (m_name t), true) else Fault DanglingPointer
  else Ok (t, false).

(** The destructor detaches a thread that runs and was not joined; the result says
    whether it did. *)
Definition Thread_destroy (t : Thread) : res bool :=
  if m_started t && negb (m_joined t) then
    if m_thread t then Ok true else Fault DanglingPointer
  else Ok false.

(** *** Threads are named apart and released once *)
Lemma setDefaultName_eq n : 0 <= n < 2 ^ 31 -> setDefaultName n [] = thread_text ++ decimal n.
Proof.
  intros Hn. pose proof (decimal_length 10 n ltac:(lia) ltac:(lia) ltac:(lia)) as Hl.
  unfold setDefaultName, snprintf. apply take_ge. rewrite length_app. unfold zlen in Hl. simpl. lia.
Qed.

Lemma setDefaultName_inj a b :
  0 <= a < 2 ^ 31 -> 0 <= b < 2 ^ 31 -> setDefaultName a [] = setDefaultName b [] -> a = b.
Proof.
  intros Ha Hb. rewrite !setDefaultName_eq by done. intros E%(inj (app thread_text)).
  destruct (decimal_digits a) as [H1 _]; [lia|]. destruct (decimal_digits b) as [H2 _]; [lia|]. congruence.
Qed.

(** The constructor reads the counter in [setDefaultName] and increments it afterwards:
    two steps of one of several threads that construct a [Thread] each. *)
Inductive naming_step := NName | NCount.
Definition name_step (x : naming_step) (s : list (list byte) * Z) : list (list byte) * Z :=
  match x with
  | NName => (s.1 ++ [setDefaultName s.2 []], s.2)
  | NCount => (s.1, s32 (s.2 + 1))
  end.
Definition name_steps (xs : list naming_step) (s : list (list byte) * Z) : list (list byte) * Z :=
  foldl (fun s x => name_step x s) s xs.

Lemma names_in_turn k n names :
  0 <= n -> n + Z.of_nat k < 2 ^ 31 ->
  name_steps (concat (replicate k [NName; NCount])) (names, n) =
  (names ++ ((fun i => setDefaultName i []) <$> seqZ n (Z.of_nat k)), n + Z.of_nat k).
Proof.
  revert n names. induction k as [|k IH]; intros n names Hn Hk; [simpl; by rewrite app_nil_r, Z.add_0_r|].
  rewrite seqZ_cons by lia.
  assert (s32 (n + 1) = n + 1) as Es.
  { unfold s32, u32. rewrite Z.mod_small by lia. destruct (Z.ltb_spec (n + 1) 2147483648); lia. }
  transitivity (name_steps (concat (replicate k [NName; NCount])) (names ++ [setDefaultName n []], n + 1));
    [unfold name_steps; simpl; by rewrite Es|].
  rewrite IH by lia. rewrite <- (assoc_L (++)). simpl fmap. f_equal; [|lia]. repeat f_equal; lia.
Qed.

(** Default names.  Threads that are constructed one after the other have different default
    names, as long as there are fewer than 2^31; two that are constructed at the same time
    may have the same. *)
Theorem default_names (k : nat) :
  (Z.of_nat k < 2 ^ 31 -> NoDup (name_steps (concat (replicate k [NName; NCount])) ([], 0)).1) /\
  name_steps [NName; NName; NCount; NCount] ([], 0) = ([thread_text ++ [x30]; thread_text ++ [x30]], 2).
Proof.
  split; [|vm_compute; reflexivity]. intros Hk. rewrite names_in_turn by lia. simpl fst.
  apply NoDup_fmap_2_strong; [|apply NoDup_seqZ].
  intros x y Hx%elem_of_seqZ Hy%elem_of_seqZ. apply setDefaultName_inj; lia.
Qed.

Inductive thread_op := OpStart | OpJoin.
Definition thread_op_run (o : thread_op) (t : Thread) : res (Thread * bool) :=
  match o with OpStart => t ← Thread_start t; Ok (t, false) | OpJoin => Thread_join t end.

(** Calls on a [Thread], with the number of calls of [std::thread::join]. *)
Fixpoint thread_ops (os : list thread_op) (t : Thread) (joins : nat) : res (Thread * nat) :=
  match os with
  | [] => Ok (t, joins)
  | o :: os => '(t, j) ← thread_op_run o t; thread_ops os t (if j : bool then S joins else joins)
  end.

(** [m_thread] exists as soon as the thread was started, and was joined as often as
    [m_joined] says. *)
Definition thread_inv (t : Thread) (joins : nat) : Prop :=
  m_thread t = m_started t /\ joins = (if m_joined t then 1 else 0)%nat /\ implb (m_joined t) (m_started t) = true.

Lemma thread_op_inv o t t' joins j :
  thread_inv t joins -> thread_op_run o t = Ok (t', j) -> thread_inv t' (if j then S joins else joins).
Proof.
  destruct t as [[] [] th tid name]; intros (H1 & -> & H3) E; simpl in *; try done; subst th;
    destruct o; simpl in E; try done; by injection E as <- <-.
Qed.

Lemma thread_ops_inv os t t' joins joins' :
  thread_inv t joins -> thread_ops os t joins = Ok (t', joins') -> thread_inv t' joins'.
Proof.
  revert t joins. induction os as [|o os IH]; intros t joins Hi E; simpl in E; [by injection E as <- <-|].
  apply bind_Ok in E as ([t1 j] & E1 & E2). eapply IH; [|exact E2]. by eapply thread_op_inv.
Qed.

(** A [std::thread] is released once.  Whatever sequence of [start] and [join] is called on
    a new [Thread] (a second [start] throws): when the destructor has run, the
    [std::thread] was joined or detached, exactly once if it was started; so it is not
    destroyed while it can still be joined, which would end the process. *)
Theorem thread_released_once (os : list thread_op) (name : list byte) (n : Z) (t : Thread) (joins : nat) :
  thread_ops os (Thread_new name n).1 0 = Ok (t, joins) ->
  exists detached, Thread_destroy t = Ok detached /\
    (joins + (if detached : bool then 1 else 0) = if m_started t then 1 else 0)%nat.
Proof.
  intros E. apply thread_ops_inv in E as (H1 & -> & H3); [|done].
  unfold Thread_destroy. rewrite H1. destruct (m_started t), (m_joined t); try done; by eexists.
Qed.

(** ** [EventLoopThread] *)

(** Where [startLoop] is, and the destructor after it. *)
Inductive starter_pc :=
  | SIdle          (* before [thread.start()] *)
  | SCheck         (* about to lock and test [loop_ == nullptr] *)
  | SWait          (* in [cond_.wait(lock)] *)
  | SDone          (* [startLoop] has returned [loop_] *)
  | SJoin          (* the destructor is in [thread.join()] *)
  | SGone.

(** Where [threadFunc] is. *)
Inductive worker_pc :=
  | TNone
  | TInit          (* [loop] constructed, before [callback_] *)
  | TSet           (* before the first critical section *)
  | TNotify        (* before [loopStartedCallback_] *)
  | TLoop          (* at [while (!quit_)] *)
  | TClear         (* before [loop_ = nullptr] *)
  | TExit.         (* returned: [loop] is destroyed *)

#[global] Instance starter_pc_eq_dec : EqDecision starter_pc.
Proof. solve_decision. Defined.
#[global] Instance worker_pc_eq_dec : EqDecision worker_pc.
Proof. solve_decision. Defined.

Record EventLoopThread := mkLoopThread {
  loop_set : bool;        (* [loop_ != nullptr] *)
  exiting_ : bool;
  starter : starter_pc;
  woken : bool;           (* the waiter has been notified *)
  worker : worker_pc;
  quit_set : bool         (* [quit_] of the thread's loop *)
}.

Definition EventLoopThread_new : EventLoopThread := mkLoopThread false false SIdle false TNone false.

(** [loop] is alive from its construction until [threadFunc] returns. *)
Definition loop_alive (s : EventLoopThread) : bool :=
  match worker s with TNone | TExit => false | _ => true end.

Definition set_starter s p := mkLoopThread (loop_set s) (exiting_ s) p (woken s) (worker s) (quit_set s).
Definition set_worker s p := mkLoopThread (loop_set s) (exiting_ s) (starter s) (woken s) p (quit_set s).

(** [startLoop] and then the destructor, one critical section at a time. *)
Definition starter_step (s : EventLoopThread) : res EventLoopThread :=
  match starter s with
  | SIdle => Ok (mkLoopThread (loop_set s) (exiting_ s) SCheck (woken s) TInit (quit_set s))
  | SCheck =>
      if loop_set s then Ok (set_starter s SDone)
      else Ok (mkLoopThread (loop_set s) (exiting_ s) SWait false (worker s) (quit_set s))
  | SWait => if woken s then Ok (set_starter s SCheck) else Ok s
  | SDone =>
      (* [loop_->quit()] touches the loop *)
      if loop_set s then
        if loop_alive s then Ok (mkLoopThread true true SJoin (woken s) (worker s) true)
        else Fault DanglingPointer
      else Ok (mkLoopThread false true SJoin (woken s) (worker s) (quit_set s))
  | SJoin => if decide (worker s = TExit) then Ok (set_starter s SGone) else Ok s
  | SGone => Ok s
  end.

Definition worker_step (s : EventLoopThread) : EventLoopThread :=
  match worker s with
  | TNone | TExit => s
  | TInit => set_worker s TSet
  | TSet => mkLoopThread true (exiting_ s) (starter s) (woken s) TNotify (quit_set s)
  | TNotify =>
      (* [cond_.notify_one()] wakes the starter if it waits *)
      mkLoopThread (loop_set s) (exiting_ s) (starter s)
        (match starter s with SWait => true | _ => woken s end) TLoop (quit_set s)
  | TLoop => if quit_set s then set_worker s TClear else s
  | TClear => mkLoopThread false (exiting_ s) (starter s) (woken s) TExit (quit_set s)
  end.

(** [Quit]: the loop's own code (the init callback, an event or a functor) quits it.
    [Spurious]: the wait returns without a notification. *)
Inductive thread_label := LStarter | LWorker | LQuit | LSpurious.

Definition lt_step (l : thread_label) (s : EventLoopThread) : res EventLoopThread :=
  match l with
  | LStarter => starter_step s
  | LWorker => Ok (worker_step s)
  | LQuit =>
      match worker s with
      | TInit | TLoop => Ok (mkLoopThread (loop_set s) (exiting_ s) (starter s) (woken s) (worker s) true)
      | _ => Ok s
      end
  | LSpurious =>
      match starter s with
      | SWait => Ok (mkLoopThread (loop_set s) (exiting_ s) SWait true (worker s) (quit_set s))
      | _ => Ok s
      end
  end.

Fixpoint lt_run (ls : list thread_label) (s : EventLoopThread) : res EventLoopThread :=
  match ls with
  | [] => Ok s
  | l :: ls => s ← lt_step l s; lt_run ls s
  end.

(** *** Invariant *)

(** [loop_] is set exactly between the two critical sections of [threadFunc]; a
    waiting starter that nobody has notified either has its notification ahead, or
    the loop has been told to quit. *)
Definition lt_inv (s : EventLoopThread) : bool :=
  Bool.eqb (loop_set s) (match worker s with TNotify | TLoop | TClear => true | _ => false end) &&
  Bool.eqb (bool_decide (starter s = SIdle)) (bool_decide (worker s = TNone)) &&
  implb (bool_decide (starter s = SWait) && negb (woken s))
    (match worker s with TInit | TSet | TNotify => true | _ => quit_set s end) &&
  implb (match worker s with TClear | TExit => true | _ => false end) (quit_set s) &&
  implb (bool_decide (starter s = SGone)) (bool_decide (worker s = TExit)).

Lemma lt_step_inv l s :
  lt_inv s = true -> exists s', lt_step l s = Ok s' /\ lt_inv s' = true.
Proof.
  intros H.
  assert (match lt_step l s with Ok s' => lt_inv s' | Fault _ => false end = true) as H'.
  { revert H. destruct s as [[] [] st [] wk []], st, wk, l; vm_compute; intros H; done. }
  destruct (lt_step l s) as [s'|]; [by eauto|done].
Qed.

Lemma lt_run_inv ls s : lt_inv s = true -> exists s', lt_run ls s = Ok s' /\ lt_inv s' = true.
Proof.
  revert s. induction ls as [|l ls IH]; intros s Hs; simpl; [by eauto|].
  destruct (lt_step_inv l s Hs) as (s1 & -> & H1). simpl. by apply IH.
Qed.

(** [startLoop] has returned. *)
Definition returned (s : EventLoopThread) : bool :=
  match starter s with SDone | SJoin | SGone => true | _ => false end.

(** Lets the worker run to its loop and the starter look at [loop_] again. *)
Definition handover : list thread_label := [LWorker; LWorker; LWorker; LStarter; LStarter].

Lemma handover_returns s :
  lt_inv s = true -> quit_set s = false -> starter s <> SIdle ->
  exists s', lt_run handover s = Ok s' /\ returned s' = true.
Proof.
  intros H Hq Hs.
  assert (match lt_run handover s with Ok s' => returned s' | Fault _ => false end = true) as H'.
  { revert H Hq Hs. destruct s as [[] [] st [] wk []], st, wk; vm_compute; intros H Hq Hs; done. }
  destruct (lt_run handover s) as [s'|]; [by eauto|done].
Qed.

(** C28: the hand-over of the loop.  In every interleaving of [startLoop], the new
    thread, the destructor, spurious wake-ups and requests to quit, no step touches
    a destroyed loop, and [loop_] is null unless the loop is alive; as long as
    nothing has told the loop to quit, a started [startLoop] is never stuck: three
    steps of the thread and two of its own make it return. *)
Theorem handshake_correct (ls : list thread_label) :
  exists s, lt_run ls EventLoopThread_new = Ok s /\
    (loop_set s = true -> loop_alive s = true) /\
    (starter s <> SIdle -> quit_set s = false ->
       exists s', lt_run handover s = Ok s' /\ returned s' = true).
Proof.
  destruct (lt_run_inv ls EventLoopThread_new) as (s & E & Hs); [done|]. exists s.
  split; [done|]. split.
  - revert Hs. destruct s as [[] [] st [] wk []], st, wk; vm_compute; done.
  - intros H1 H2. by apply handover_returns.
Qed.

(** The state in which [startLoop] waits for a thread that has already exited. *)
Definition hung : EventLoopThread := mkLoopThread false false SWait false TExit true.

(** [startLoop] hangs if the loop ends before it has looked at [loop_]: the loop
    may quit at once (its init callback may ask it to), [threadFunc] clears [loop_],
    and the starter waits for a notification that has been and gone.  Nothing but a
    spurious wake-up moves it, and after that it waits again. *)
Theorem startLoop_can_hang :
  lt_run [LStarter; LQuit; LWorker; LWorker; LWorker; LWorker; LWorker; LStarter] EventLoopThread_new =
    Ok hung /\
  (forall l, l <> LSpurious -> lt_step l hung = Ok hung) /\
  lt_run [LSpurious; LStarter; LStarter] hung = Ok hung.
Proof.
  split; [vm_compute; reflexivity|]. split; [|vm_compute; reflexivity].
  intros [] Hl; [vm_compute; reflexivity..|done].
Qed.

(** [startLoop] may return before the thread has entered its loop. *)
Theorem returns_before_looping :
  exists ls s, lt_run ls EventLoopThread_new = Ok s /\ starter s = SDone /\ worker s = TNotify.
Proof. eexists [LStarter; LWorker; LWorker; LStarter], _. vm_compute. done. Qed.

(** ** [EventLoopThreadPool] *)
Record EventLoopThreadPool := mkPool {
  baseLoop_ : Z;
  name_ : list byte;
  started_ : bool;
  numThreads_ : Z;
  next_ : Z;
  threads_ : list (list byte);     (* the names of the threads *)
  loops_ : list Z
}.

Definition Pool_new (baseLoop : Z) (name : list byte) : EventLoopThreadPool :=
  mkPool baseLoop name false 0 0 [] [].

Definition setThreadNUm (n : Z) (p : EventLoopThreadPool) : EventLoopThreadPool :=
  mkPool (baseLoop_ p) (name_ p) (started_ p) n (next_ p) (threads_ p) (loops_ p).

(** Iteration [i] of the loop of [start]; [startLoop i] is what the [i]-th thread's
    [startLoop] returns. *)
Definition start_thread (startLoop : Z -> Z) (i : Z) (p : EventLoopThreadPool) : res EventLoopThreadPool :=
  let buf := snprintf (zlen (name_ p) + 32) (c_string (name_ p) ++ decimal i) in
  Ok (mkPool (baseLoop_ p) (name_ p) (started_ p) (numThreads_ p) (next_ p)
        (threads_ p ++ [buf]) (loops_ p ++ [startLoop i])).

(** [has_cb]: a callback was given.  The result lists the loops the callback is
    called with by this thread; the threads call it on their own loops. *)
Definition Pool_start (inLoop has_cb : bool) (startLoop : Z -> Z) (p : EventLoopThreadPool)
    : res (EventLoopThreadPool * list Z) :=
  _ ← assert (negb (started_ p));
  _ ← assert inLoop;
  let p := mkPool (baseLoop_ p) (name_ p) true (numThreads_ p) (next_ p) (threads_ p) (loops_ p) in
  p ← for_each (start_thread startLoop) (seqZ 0 (numThreads_ p)) p;
  Ok (p, if (numThreads_ p =? 0) && has_cb then [baseLoop_ p] else []).

Definition getNextLoop (inLoop : bool) (p : EventLoopThreadPool) : res (Z * EventLoopThreadPool) :=
  _ ← assert inLoop;
  _ ← assert (started_ p);
  match loops_ p with
  | [] => Ok (baseLoop_ p, p)
  | _ =>
      match loops_ p !! Z.to_nat (next_ p) with
      | None => Fault OutOfBounds
      | Some loop =>
          let next := next_ p + 1 in
          let next := if zlen (loops_ p) <=? next then 0 else next in
          Ok (loop, mkPool (baseLoop_ p) (name_ p) (started_ p) (numThreads_ p) next (threads_ p) (loops_ p))
      end
  end.

Definition getAllLoops (inLoop : bool) (p : EventLoopThreadPool) : res (list Z) :=
  _ ← assert inLoop;
  _ ← assert (started_ p);
  Ok (match loops_ p with [] => [baseLoop_ p] | ls => ls end).

(** [k] calls of [getNextLoop]. *)
Fixpoint next_loops (k : nat) (p : EventLoopThreadPool) : res (list Z * EventLoopThreadPool) :=
  match k with
  | O => Ok ([], p)
  | S k => '(l, p) ← getNextLoop true p; '(ls, p) ← next_loops k p; Ok (l :: ls, p)
  end.

(** The loop of the [i]-th call after [start]. *)
Definition nth_loop (p : EventLoopThreadPool) (i : nat) : Z :=
  match loops_ p with
  | [] => baseLoop_ p
  | ls => default 0 (ls !! (i mod length ls)%nat)
  end.

(** A started pool after [i] calls. *)
Definition pool_at (p : EventLoopThreadPool) (i : nat) : EventLoopThreadPool :=
  mkPool (baseLoop_ p) (name_ p) (started_ p) (numThreads_ p)
    (match loops_ p with [] => 0 | ls => Z.of_nat (i mod length ls)%nat end) (threads_ p) (loops_ p).

#[local] Arguments Nat.modulo : simpl never.

Lemma succ_mod i n :
  (0 < n)%nat -> (S i mod n = if decide (n <= S (i mod n)) then 0 else S (i mod n))%nat.
Proof.
  intros Hn. pose proof (Nat.mod_upper_bound i n ltac:(lia)).
  pose proof (Nat.div_mod_eq i n). destruct (decide _) as [Hd|Hd]; symmetry.
  - apply (Nat.mod_unique _ _ (S (i / n))); lia.
  - apply (Nat.mod_unique _ _ (i / n)); lia.
Qed.

Lemma getNextLoop_at p i :
  started_ p = true ->
  getNextLoop true (pool_at p i) = Ok (nth_loop p i, pool_at p (S i)).
Proof.
  intros Hs. unfold getNextLoop, pool_at, nth_loop. simpl. rewrite Hs. simpl.
  destruct (loops_ p) as [|l ls]; [done|]. change (S (length ls)) with (length (l :: ls)).
  assert (0 < length (l :: ls))%nat as Hn by (simpl; lia). unfold zlen. revert Hn.
  generalize (l :: ls). intros q Hn. pose proof (Nat.mod_upper_bound i (length q) ltac:(lia)).
  rewrite Nat2Z.id. destruct (lookup_lt_is_Some_2 q (i mod length q)) as [x E]; [done|]. rewrite E. simpl.
  do 3 f_equal. rewrite (succ_mod i (length q)) by done.
  destruct (Z.leb_spec (Z.of_nat (length q)) (Z.of_nat (i mod length q) + 1)); destruct (decide _); lia.
Qed.

Lemma next_loops_at k p i :
  started_ p = true ->
  next_loops k (pool_at p i) = Ok (nth_loop p <$> seq i k, pool_at p (i + k)).
Proof.
  intros Hs. revert i. induction k as [|k IH]; intros i; [by rewrite Nat.add_0_r|].
  cbn [next_loops seq]. rewrite getNextLoop_at by done. simpl. rewrite IH. simpl.
  by rewrite Nat.add_succ_r.
Qed.

Lemma start_threads_ok startLoop k a p :
  (0 <= a)%Z -> (a + Z.of_nat k <= 2 ^ 31)%Z ->
  exists p', for_each (start_thread startLoop) (seqZ a (Z.of_nat k)) p = Ok p' /\
    baseLoop_ p' = baseLoop_ p /\ started_ p' = started_ p /\ next_ p' = next_ p /\
    numThreads_ p' = numThreads_ p /\ name_ p' = name_ p /\
    loops_ p' = loops_ p ++ (startLoop <$> seqZ a (Z.of_nat k)).
Proof.
  revert a p. induction k as [|k IH]; intros a p Ha Hk.
  { exists p. simpl. rewrite app_nil_r. done. }
  rewrite seqZ_cons by lia. replace (Z.pred (Z.of_nat (S k))) with (Z.of_nat k) by lia.
  cbn [for_each]. set (p1 := mkPool (baseLoop_ p) (name_ p) (started_ p) (numThreads_ p) (next_ p)
    (threads_ p ++ [snprintf (zlen (name_ p) + 32) (c_string (name_ p) ++ decimal a)]) (loops_ p ++ [startLoop a])).
  change (start_thread startLoop a p) with (Ok p1). rewrite bind_ret_l.
  destruct (IH (Z.succ a) p1) as (p' & -> & H1 & H2 & H3 & H4 & H5 & H6); [lia..|].
  exists p'. simpl in *. rewrite <- app_assoc in H6. done.
Qed.

Lemma Pool_start_ok has_cb startLoop base name n :
  0 <= n < 2 ^ 31 ->
  exists p called, Pool_start true has_cb startLoop (setThreadNUm n (Pool_new base name)) = Ok (p, called) /\
    started_ p = true /\ baseLoop_ p = base /\ loops_ p = startLoop <$> seqZ 0 n /\ p = pool_at p 0.
Proof.
  intros Hn. unfold Pool_start. simpl.
  destruct (start_threads_ok startLoop (Z.to_nat n) 0 (mkPool base name true n 0 [] []))
    as (p & E & H1 & H2 & H3 & H4 & H5 & H6); [lia..|].
  rewrite Z2Nat.id in E, H6 by lia. rewrite E. simpl. eexists _, _. split; [done|].
  simpl in *. split_and!; try done. unfold pool_at. destruct p; simpl in *. subst.
  by destruct (startLoop <$> seqZ 0 n) eqn:El; [|rewrite Nat.Div0.mod_0_l].
Qed.

(** Round robin.  After [start] with [n] threads the first [k] calls of
    [getNextLoop] return the loops of the threads in turn, beginning anew after the
    last; without threads they return the base loop.  No index is out of range. *)
Theorem pool_round_robin (has_cb : bool) (startLoop : Z -> Z) (base n : Z) (name : list byte) (k : nat) :
  0 <= n < 2 ^ 31 ->
  exists p called p',
    Pool_start true has_cb startLoop (setThreadNUm n (Pool_new base name)) = Ok (p, called) /\
    next_loops k p =
      Ok ((fun i => if n =? 0 then base else startLoop (Z.of_nat i mod n)) <$> seq 0 k, p').
Proof.
  intros Hn. destruct (Pool_start_ok has_cb startLoop base name n Hn) as (p & called & E & Hs & Hb & Hl & Hp).
  exists p, called, (pool_at p k). split; [done|]. rewrite Hp at 1.
  rewrite next_loops_at by done. simpl. do 2 f_equal. apply list_fmap_ext. intros j i _.
  unfold nth_loop. rewrite Hl, Hb. destruct (Z.eqb_spec n 0) as [->|Hne]; [done|].
  destruct (startLoop <$> seqZ 0 n) as [|x xs] eqn:Ex.
  { apply (f_equal length) in Ex. rewrite length_fmap, length_seqZ in Ex. simpl in Ex. lia. }
  rewrite <- Ex, length_fmap, length_seqZ.
  pose proof (Nat.mod_upper_bound i (Z.to_nat n) ltac:(lia)).
  rewrite list_lookup_fmap, lookup_seqZ_lt by lia. simpl. f_equal.
  rewrite Nat2Z.inj_mod, Z2Nat.id by lia. lia.
Qed.

Lemma pool_round_robin_witness :
  exists p called p',
    Pool_start true true (fun i => 100 + i) (setThreadNUm 3 (Pool_new 7 [x54])) = Ok (p, called) /\
    next_loops 5 p = Ok ([100; 101; 102; 100; 101], p').
Proof. apply (pool_round_robin true (fun i => 100 + i) 7 3 [x54] 5). lia. Defined.
