(* ===== verification/Inet.v ===== *)
(** * Inet: addresses, sockets and the acceptor

    Models [InetAddress] ([include/InetAddress.h], [src/base/InetAddress.cpp]),
    the checked calls of [Socket] ([src/base/Socket.cpp]) and [Acceptor]
    ([include/Acceptor.h], [src/base/Acceptor.cpp]).  The results of system calls are
    inputs; the text of an address is the parameter [inet_ntop] of the class
    [InetText]. *)
From Stdlib Require Import Strings.Byte.
From S2P Require Import Prelude Buffer LogStream Printf.

(** ** [InetAddress] *)

(** [sin_port] is in network order, [s_addr] is the word [inet_addr] returns. *)
Record sockaddr_in := mkSockaddr { sin_port : Z; s_addr : Z }.

(** Byte swaps of a 16-bit word on a little-endian machine. *)
Definition htons (x : Z) : Z := Z.lor (Z.shiftl (Z.land x 255) 8) (Z.shiftr x 8).
Definition ntohs : Z -> Z := htons.

Definition InetAddress := sockaddr_in.
Definition InetAddress_new (port inet_addr : Z) : InetAddress := mkSockaddr (htons port) inet_addr.
Definition toPort (a : InetAddress) : Z := ntohs (sin_port a).

(** [inet_ntop] for IPv4: dotted decimal, at most [INET_ADDRSTRLEN - 1] bytes. *)
Class InetText := {
  inet_ntop : Z -> list byte;
  inet_ntop_len a : zlen (inet_ntop a) <= 15
}.

Definition ip_buf_size : Z := 64.

Section inet.
Context `{InetText}.

Definition toIp (a : InetAddress) : res (list byte) :=
  let text := inet_ntop (s_addr a) in
  _ ← copy_in (zeros ip_buf_size) (text ++ [x00]) 0;
  Ok text.

(** [sprintf(buf + end, ":%u", port)]: every byte it stores must lie in [buf]. *)
Definition toIpPort (a : InetAddress) : res (list byte) :=
  let ip := inet_ntop (s_addr a) in
  buf ← copy_in (zeros ip_buf_size) (ip ++ [x00]) 0;
  let port := ntohs (sin_port a) in
  let text := decimal port in
  buf ← copy_in buf ([x3a] ++ text ++ [x00]) (zlen ip);
  Ok (slice buf 0 (zlen ip + 1 + zlen text)).

Lemma htons_bytes x : 0 <= x < 65536 -> htons x = 256 * (x mod 256) + x / 256.
Proof.
  intros Hx. unfold htons.
  assert (0 <= x / 256 < 256) as Hd by (split; [apply Z.div_pos|apply Z.div_lt_upper_bound]; lia).
  rewrite Z.shiftl_mul_pow2, Z.shiftr_div_pow2 by lia. change 255 with (Z.ones 8).
  rewrite Z.land_ones by lia. change (2 ^ 8) with 256 at 1 3.
  pose proof (Z.add_lor_land (x mod 256 * 2 ^ 8) (x / 256)) as Hs.
  assert (Z.land (x mod 256 * 2 ^ 8) (x / 256) = 0) as Hz.
  { apply Z.bits_inj'. intros n Hn. rewrite Z.land_spec, Z.bits_0.
    destruct (Z.lt_ge_cases n 8) as [Hl|Hl]; [by rewrite Z.mul_pow2_bits_low|].
    rewrite <- (Z.mod_small (x / 256) (2 ^ 8)) by lia. rewrite (Z.mod_pow2_bits_high _ 8) by lia.
    apply andb_false_r. }
  rewrite Hz in Hs. lia.
Qed.

Lemma htons_involutive x : 0 <= x < 65536 -> htons (htons x) = x.
Proof.
  intros Hx. rewrite (htons_bytes x Hx).
  assert (0 <= x mod 256 < 256 /\ 0 <= x / 256 < 256 /\ x = 256 * (x / 256) + x mod 256) as (H1 & H2 & H3).
  { split; [by apply Z.mod_pos_bound|]. split; [split; [by apply Z.div_pos; lia|by apply Z.div_lt_upper_bound; lia]|].
    by apply Z.div_mod. }
  rewrite htons_bytes by lia.
  assert ((256 * (x mod 256) + x / 256) mod 256 = x / 256) as ->
    by (symmetry; apply (Z.mod_unique_pos _ _ (x mod 256)); lia).
  assert ((256 * (x mod 256) + x / 256) / 256 = x mod 256) as ->
    by (symmetry; apply (Z.div_unique_pos _ _ _ (x / 256)); lia).
  lia.
Qed.

Lemma toIpPort_ok a :
  0 <= toPort a < 2 ^ 64 ->
  exists text, convert (toPort a) = Ok text /\
    toIpPort a = Ok (inet_ntop (s_addr a) ++ [x3a] ++ text) /\ zlen (inet_ntop (s_addr a) ++ [x3a] ++ text) <= 37.
Proof.
  intros Hp. unfold toIpPort. pose proof (inet_ntop_len (s_addr a)) as Hl.
  set (ip := inet_ntop (s_addr a)) in *. pose proof (zlen_nonneg ip).
  rewrite copy_in_Ok; [|lia|rewrite zlen_app; unfold zeros, zlen at 3; rewrite length_replicate; change (zlen [x00]) with 1; unfold ip_buf_size; lia].
  rewrite bind_ret_l. destruct (convert_spec (toPort a)) as (t & Et & _ & Ht); [lia|].
  rewrite convert_decimal in Et by lia. injection Et as <-. exists (decimal (toPort a)).
  split; [apply convert_decimal; lia|]. change (ntohs (sin_port a)) with (toPort a). set (t := decimal (toPort a)) in *. cbv zeta.
  set (b1 := splice (zeros ip_buf_size) 0 (ip ++ [x00])).
  assert (zlen b1 = 64) as Hb1.
  { unfold b1. rewrite zlen_splice; [done|lia|]. rewrite zlen_app. change (zlen [x00]) with 1.
    change (zlen (zeros ip_buf_size)) with 64. lia. }
  assert (zlen ([x3a] ++ t ++ [x00]) = zlen t + 2) as Hd.
  { rewrite !zlen_app. change (zlen [x00]) with 1. change (zlen [x3a]) with 1. lia. }
  rewrite copy_in_Ok by lia. rewrite bind_ret_l. split.
  - f_equal. rewrite (slice_app_split _ 0 (zlen ip)) by lia.
    rewrite slice_splice_before by lia. f_equal.
    + unfold b1. replace (zlen ip) with (0 + zlen ip) by lia.
      assert (slice (splice (zeros ip_buf_size) 0 (ip ++ [x00])) 0 (0 + zlen (ip ++ [x00])) = ip ++ [x00]) as E.
      { apply slice_splice_eq; [lia|]. rewrite zlen_app. change (zlen [x00]) with 1.
        change (zlen (zeros ip_buf_size)) with 64. lia. }
      rewrite zlen_app in E. change (zlen [x00]) with 1 in E.
      rewrite (slice_app_split _ 0 (0 + zlen ip)) in E by lia.
      apply app_inj_1 in E as [E _]; [done|]. apply Nat2Z.inj. fold (zlen ip).
      change (zlen (slice (splice (zeros ip_buf_size) 0 (ip ++ [x00])) 0 (0 + zlen ip)) = zlen ip).
      rewrite zlen_slice; fold b1; lia.
    + assert (slice (splice b1 (zlen ip) ([x3a] ++ t ++ [x00])) (zlen ip) (zlen ip + zlen ([x3a] ++ t ++ [x00])) =
        [x3a] ++ t ++ [x00]) as E by (apply slice_splice_eq; lia).
      rewrite Hd in E. replace (zlen ip + (zlen t + 2)) with (zlen ip + 1 + zlen t + 1) in E by lia.
      rewrite (slice_app_split _ _ (zlen ip + 1 + zlen t)) in E by lia.
      rewrite (app_assoc [x3a]) in E. apply app_inj_1 in E as [E _]; [done|]. apply Nat2Z.inj.
      change (zlen (slice (splice b1 (zlen ip) ([x3a] ++ t ++ [x00])) (zlen ip) (zlen ip + 1 + zlen t)) =
        zlen ([x3a] ++ t)).
      rewrite zlen_slice; rewrite ?zlen_splice by lia; rewrite ?zlen_app; change (zlen [x3a]) with 1; lia.
  - rewrite !zlen_app. change (zlen [x3a]) with 1. lia.
Qed.
End inet.

(** ** [Socket] *)
Inductive sockopt := TCP_NODELAY | SO_REUSEADDR | SO_REUSEPORT | SO_KEEPALIVE.

(** The descriptor and the [setsockopt] calls made on it; their results are ignored. *)
Record Socket := mkSocket { sockfd_ : Z; opts : list (sockopt * Z) }.

Definition Socket_new (fd : Z) : Socket := mkSocket fd [].
Definition setsockopt (o : sockopt) (on : bool) (s : Socket) : Socket :=
  mkSocket (sockfd_ s) (opts s ++ [(o, if on then 1 else 0)]).
Definition setTcpNoDelay := setsockopt TCP_NODELAY.
Definition setReuseAddr := setsockopt SO_REUSEADDR.
Definition setReusePort := setsockopt SO_REUSEPORT.
Definition setKeepAlive := setsockopt SO_KEEPALIVE.

(** [bind] and [listen] failing is fatal. *)
Definition bindAddress (r : sysret unit) : res unit :=
  match r with Done _ => Ok tt | Errno _ => Fault FatalExit end.
Definition Socket_listen (r : sysret unit) : res unit :=
  match r with Done _ => Ok tt | Errno _ => Fault FatalExit end.

(** [accept]: the descriptor, with the peer's address stored if there is one. *)
Definition accept (r : sysret (Z * sockaddr_in)) (peer : InetAddress) : sysret Z * InetAddress :=
  match r with
  | Done (connfd, addr) => (Done connfd, addr)
  | Errno e => (Errno e, peer)
  end.

(** ** [Acceptor] *)
Record Acceptor := mkAcceptor {
  acceptSocket_ : Socket;
  acceptReading : bool;          (* [acceptChannel_] is registered for reading *)
  hasNewConnectionCallback : bool;
  listening_ : bool
}.

Definition createNonblockingOrDie (r : sysret Z) : res Z :=
  match r with Done fd => Ok fd | Errno _ => Fault FatalExit end.

Definition Acceptor_new (socket_r : sysret Z) (bind_r : sysret unit) (reuseport : bool) : res Acceptor :=
  fd ← createNonblockingOrDie socket_r;
  let s := setReusePort reuseport (setReuseAddr true (Socket_new fd)) in
  _ ← bindAddress bind_r;
  Ok (mkAcceptor s false false false).

Definition setNewConnectionCallback (a : Acceptor) : Acceptor :=
  mkAcceptor (acceptSocket_ a) (acceptReading a) true (listening_ a).

(** [listening_] is set before [listen] is known to succeed. *)
Definition Acceptor_listen (r : sysret unit) (a : Acceptor) : res Acceptor :=
  _ ← Socket_listen r;
  Ok (mkAcceptor (acceptSocket_ a) true (hasNewConnectionCallback a) true).

(** What [handleRead] does with the result of [accept]. *)
Inductive accepted :=
  | NewConnection (connfd : Z) (peer : InetAddress)
  | CloseAccepted (connfd : Z)
  | AcceptError (e : Z).

Definition Acceptor_handleRead (r : sysret (Z * sockaddr_in)) (a : Acceptor) : accepted :=
  match accept r (InetAddress_new 0 0) with
  | (Done connfd, peer) =>
      if hasNewConnectionCallback a then NewConnection connfd peer else CloseAccepted connfd
  | (Errno e, _) => AcceptError e
  end.

(** ** Properties *)

(** Addresses.  The port survives the byte order of the network, and [toIpPort]
    stays inside its array of 64 bytes and prints the address, a colon and the
    decimal port. *)
Theorem inet_round_trip `{InetText} (port a : Z) :
  0 <= port < 65536 ->
  toPort (InetAddress_new port a) = port /\
  exists digits, toIpPort (InetAddress_new port a) = Ok (inet_ntop a ++ [x3a] ++ digits) /\
    read_number digits = Some port.
Proof.
  intros Hp. assert (toPort (InetAddress_new port a) = port) as E by (by apply htons_involutive).
  split; [done|]. destruct (toIpPort_ok (InetAddress_new port a)) as (t & Et & Hi & _); [rewrite E; lia|].
  exists t. split; [done|]. rewrite E in Et. destruct (convert_spec port) as (t' & Et' & Hr & _); [lia|].
  congruence.
Qed.

(** An [inet_ntop] for the loopback address only. *)
Definition loopback_text : InetText.
Proof.
  refine {| inet_ntop _ := [x31; x32; x37; x2e; x30; x2e; x30; x2e; x31] |}.
  intros _. vm_compute. discriminate.
Defined.

Lemma inet_round_trip_witness :
  toPort (InetAddress_new 8080 16777343) = 8080 /\
  exists digits, @toIpPort loopback_text (InetAddress_new 8080 16777343) =
      Ok ([x31; x32; x37; x2e; x30; x2e; x30; x2e; x31] ++ [x3a] ++ digits) /\
    read_number digits = Some 8080.
Proof. apply (@inet_round_trip loopback_text 8080 16777343). lia. Defined.
