(* ===== verification/AcceptorPoll.v ===== *)
(** * AcceptorPoll: the acceptor and its channel

    Composes [Acceptor] and [Socket] ([src/base/Acceptor.cpp], [src/base/Socket.cpp])
    with the loop ([src/base/Eventloop.cpp]) and its poller: the channel the acceptor owns
    is created by its constructor, registered by [listen], deregistered by the destructor;
    after that the members are destroyed and [~Socket] closes the descriptor. *)
From S2P Require Import Prelude Timestamp TimerQueue Channel EpollPoller EventLoop LoopRun Inet.

Section acceptor.
Context {U K E W : Type} `{!Epoll K} `{!EventFd E} `{!LoopWorld U K E W}.
Variables (erased_first : Z -> Z) (tid : Z) (handleRead : Callback U).
Implicit Types (w : W) (s : EpollPoller (Callback U) K) (p : Z) (a : Acceptor).

(** The poller of the loop. *)
Definition poller_of w : EpollPoller (Callback U) K := poller_ (loop_ w).
Definition on_poller (f : EpollPoller (Callback U) K -> res (EpollPoller (Callback U) K)) w : res W :=
  try_loop (fun l => po ← f (poller_ l); Ok (with_poller po l)) w.

(** The constructor; [acceptChannel_] is the object at [p]. *)
Definition Acceptor_construct (loop p : Z) (socket_r : sysret Z) (bind_r : sysret unit) (reuseport : bool) w
    : res (Acceptor * W) :=
  fd ← createNonblockingOrDie socket_r;
  let sock := Socket_new fd in
  w ← on_poller (fun s => Ok (set_objects (<[p := Channel_new loop fd]> (objects s)) s)) w;
  let sock := setReuseAddr true sock in
  let sock := setReusePort reuseport sock in
  _ ← bindAddress bind_r;
  w ← on_poller (modify p (fun c => setReadCallback c (Some handleRead))) w;
  Ok (mkAcceptor sock false false false, w).

(** [listening_ = true; acceptSocket_.listen(); acceptChannel_.enableReading()] *)
Definition Acceptor_listen_poll (r : sysret unit) p a w : res (Acceptor * W) :=
  a ← Acceptor_listen r a;
  w ← set_mask erased_first tid EnableReading p w;
  Ok (a, w).

(** [~Socket] *)
Definition Socket_destroy (sock : Socket) : Z := sockfd_ sock.

(** The destructor, [disableAll] and [remove] through the loop, and those of the members:
    the result also gives the descriptor that is closed last. *)
Definition Acceptor_destroy p a w : res (W * Z) :=
  w ← set_mask erased_first tid DisableAll p w;
  w ← EventLoop.removeChannel erased_first tid p w;
  w ← on_poller (fun s => Ok (set_objects (delete p (objects s)) s)) w;
  Ok (w, Socket_destroy (acceptSocket_ a)).

(** [Socket::getLocalAddr]: when [getsockname] fails the address is what the
    uninitialised variable holds. *)
Definition getLocalAddr (getsockname : sysret sockaddr_in) (garbage : sockaddr_in) : InetAddress :=
  match getsockname with Done localaddr => localaddr | Errno _ => garbage end.

(** The poller is determined by the channels. *)
Lemma poller_same_objects s s' :
  poller_ok s -> poller_ok s' -> objects s' = objects s ->
  channels_ s' = channels_ s /\ interest (epollFd_ s') = interest (epollFd_ s).
Proof.
  intros H H' Ho. split; apply map_eq; intros fd.
  - apply option_eq. intros p. rewrite (ok_map _ H), (ok_map _ H'), Ho. done.
  - apply option_eq. intros ev. rewrite (ok_kernel _ H), (ok_kernel _ H'), Ho. done.
Qed.

(** The channel of a new acceptor. *)
Definition accept_channel (loop fd : Z) : Channel (Callback U) :=
  setReadCallback (Channel_new loop fd) (Some handleRead).

Lemma construct_ok loop p fd reuseport w :
  poller_ok (poller_of w) -> objects (poller_of w) !! p = None ->
  exists a w1 s1, Acceptor_construct loop p (Done fd) (Done tt) reuseport w = Ok (a, w1) /\
    loop_ w1 = with_poller s1 (loop_ w) /\ poller_ok s1 /\
    objects s1 = <[p := accept_channel loop fd]> (objects (poller_of w)) /\ channels_ s1 = channels_ (poller_of w) /\
    epollFd_ s1 = epollFd_ (poller_of w) /\ sockfd_ (acceptSocket_ a) = fd /\ listening_ a = false /\
    opts (acceptSocket_ a) = [(SO_REUSEADDR, 1); (SO_REUSEPORT, if reuseport then 1 else 0)].
Proof.
  intros Hok Hp. unfold Acceptor_construct, on_poller, try_loop. simpl. rewrite loop_set. simpl.
  rewrite (modify_eq p _ _ (Channel_new loop fd)) by apply lookup_insert_eq. simpl.
  eexists _, _, _. split; [done|]. rewrite loop_set. split; [done|]. simpl. rewrite insert_insert_eq. split; [|done].
  apply (poller_ok_new (poller_of w) p (accept_channel loop fd)); done.
Qed.

(** [enableReading], [disableAll] in the thread of the loop. *)
Lemma set_mask_in_loop o p w c :
  poller_ok (poller_of w) -> objects (poller_of w) !! p = Some c -> may_add (poller_of w) c ->
  Loop c = this_ (loop_ w) -> isInLoopThread tid (loop_ w) = true ->
  exists w1 s1, set_mask erased_first tid o p w = Ok w1 /\ loop_ w1 = with_poller s1 (loop_ w) /\ poller_ok s1 /\
    objects s1 = <[p := masked o c]> (objects (poller_of w)).
Proof.
  intros Hok Hp Hadd Hl Hi. destruct (change_mask_ok o p (poller_of w) c Hok Hp Hadd) as (s1 & E1 & Hok1 & Ho1).
  unfold change_mask in E1. rewrite (modify_eq p _ _ c Hp), bind_ret_l in E1.
  unfold set_mask, try_loop, poller_of in *. rewrite (modify_eq p _ _ c Hp), !bind_ret_l.
  unfold EventLoop.updateChannel, channel_of. rewrite loop_set. simpl.
  rewrite (channel_Some _ _ (with_events c (mask o (Events c)))) by apply lookup_insert_eq. simpl.
  rewrite Hl, Z.eqb_refl. simpl. unfold isInLoopThread in *. simpl. rewrite Hi. unfold try_loop. rewrite loop_set. simpl.
  rewrite E1. simpl. eexists _, s1. split; [done|]. rewrite loop_set. done.
Qed.

(** Destroying an acceptor whose channel is in state [c], not from its own callback. *)
Lemma destroy_ok p a w c :
  poller_ok (poller_of w) -> objects (poller_of w) !! p = Some c -> may_add (poller_of w) c ->
  Loop c = this_ (loop_ w) -> isInLoopThread tid (loop_ w) = true -> currentActiveChannel_ (loop_ w) <> p ->
  exists w' s', Acceptor_destroy p a w = Ok (w', sockfd_ (acceptSocket_ a)) /\ loop_ w' = with_poller s' (loop_ w) /\
    poller_ok s' /\ objects s' = delete p (objects (poller_of w)).
Proof.
  intros Hok Hp Hadd Hl Hi Hcur. unfold Acceptor_destroy.
  destruct (set_mask_in_loop DisableAll p w c Hok Hp Hadd Hl Hi) as (w1 & s1 & -> & Hw1 & Hok1 & Ho1). rewrite bind_ret_l.
  assert (objects s1 !! p = Some (masked DisableAll c)) as Hp1 by (rewrite Ho1; apply lookup_insert_eq).
  destruct (removeChannel_ok p s1 _ Hok1 Hp1) as (s2 & E2 & Hok2 & Ho2).
  { unfold masked. simpl. by destruct (_ && _). }
  unfold EventLoop.removeChannel, channel_of. rewrite Hw1. simpl. rewrite (channel_Some _ _ _ Hp1). simpl.
  rewrite Hl, Z.eqb_refl. simpl. unfold isInLoopThread in *. simpl. rewrite Hi.
  unfold on_poller, try_loop, remove_unless_current. rewrite Hw1. simpl.
  rewrite (proj2 (Z.eqb_neq _ _) Hcur), E2. simpl. rewrite loop_set. simpl.
  eexists _, _. split; [done|]. rewrite loop_set. split; [done|]. split.
  - eapply poller_ok_delete; [done|rewrite Ho2; apply lookup_insert_eq|done].
  - simpl. by rewrite Ho2, Ho1, insert_insert_eq, delete_insert_eq.
Qed.
End acceptor.

(** ** Properties *)

(** C34: the life of an acceptor.  Construct an acceptor in a loop with a consistent
    poller, on a descriptor nobody uses and the kernel agrees to watch, and possibly let it listen, in the loop's thread:
    then the kernel reports new connections to its channel, for reading and nothing else,
    and not before [listen].  Its destructor, called in that thread and not from the
    acceptor's own callback (for which [removeChannel] refuses), leaves the poller and the
    kernel's list exactly as they were before, so the descriptor is watched by nobody when
    [~Socket] closes it. *)
Theorem acceptor_life {U K E W : Type} `{!Epoll K} `{!EventFd E} `{!LoopWorld U K E W} (ef : Z -> Z) (tid : Z)
    (handleRead : Callback U) (p fd : Z) (reuseport listens : bool) (w : W) :
  let s := poller_of w in
  poller_ok s -> objects s !! p = None -> channels_ s !! fd = None -> accepts (epollFd_ s) fd = true ->
  isInLoopThread tid (loop_ w) = true -> currentActiveChannel_ (loop_ w) <> p ->
  exists a1 w1 a2 w2 w3,
    Acceptor_construct handleRead (this_ (loop_ w)) p (Done fd) (Done tt) reuseport w = Ok (a1, w1) /\
    interest (epollFd_ (poller_of w1)) = interest (epollFd_ s) /\
    (if listens then Acceptor_listen_poll ef tid (Done tt) p a1 w1 else Ok (a1, w1)) = Ok (a2, w2) /\
    poller_ok (poller_of w2) /\ listening_ a2 = listens /\
    interest (epollFd_ (poller_of w2)) !! fd = (if listens then Some (mkEpollEvent kReadEvent p) else None) /\
    Acceptor_destroy ef tid p a2 w2 = Ok (w3, fd) /\
    poller_ok (poller_of w3) /\ objects (poller_of w3) = objects s /\ channels_ (poller_of w3) = channels_ s /\
    interest (epollFd_ (poller_of w3)) = interest (epollFd_ s) /\ interest (epollFd_ (poller_of w3)) !! fd = None.
Proof.
  intros s Hok Hp Hfd Hacc Hi Hcur. set (L := this_ (loop_ w)).
  destruct (construct_ok handleRead L p fd reuseport w Hok Hp) as (a1 & w1 & s1 & E1 & Hw1 & Hok1 & Ho1 & Hm1 & Hk1 & Hf & Hl1 & _).
  set (c1 := accept_channel handleRead L fd) in *.
  assert (poller_of w1 = s1) as Hs1 by (unfold poller_of; by rewrite Hw1).
  assert (objects s1 !! p = Some c1) as Hp1 by (rewrite Ho1; apply lookup_insert_eq).
  assert (may_add s1 c1) as Hadd by (split; intros _; [by rewrite Hm1|by rewrite Hk1]).
  assert (interest (epollFd_ s) !! fd = None) as Hfree by (by apply kernel_free).
  assert (exists a2 w2 s2 c2, (if listens then Acceptor_listen_poll ef tid (Done tt) p a1 w1 else Ok (a1, w1)) = Ok (a2, w2) /\
    loop_ w2 = with_poller s2 (loop_ w) /\ poller_ok s2 /\ objects s2 = <[p := c2]> (objects s) /\ may_add s2 c2 /\ Loop c2 = L /\
    listening_ a2 = listens /\ sockfd_ (acceptSocket_ a2) = fd /\
    interest (epollFd_ s2) !! fd = if listens then Some (mkEpollEvent kReadEvent p) else None)
    as (a2 & w2 & s2 & c2 & E2 & Hw2 & Hok2 & Ho2 & Hadd2 & Hlc & Hl2 & Hf2 & Hi2).
  { destruct listens.
    - unfold Acceptor_listen_poll. simpl.
      destruct (set_mask_in_loop ef tid EnableReading p w1 c1) as (w2 & s2 & -> & Hw2 & Hok2 & Ho2);
        rewrite ?Hs1; try done; [by rewrite Hw1..|]. rewrite Hs1 in Ho2. simpl.
      eexists _, w2, s2, (masked EnableReading c1). split; [done|]. rewrite Hw2, Hw1. split; [done|].
      assert (objects s2 !! p = Some (masked EnableReading c1)) as Hp2 by (rewrite Ho2; apply lookup_insert_eq).
      split_and!; try done; [by rewrite Ho2, Ho1, insert_insert_eq|].
      change fd with (Fd (masked EnableReading c1)). by rewrite (kernel_at s2 p _ Hok2 Hp2).
    - exists a1, w1, s1, c1. split_and!; try done. by rewrite Hk1. }
  assert (poller_of w2 = s2) as Hs2 by (unfold poller_of; by rewrite Hw2).
  destruct (destroy_ok ef tid p a2 w2 c2) as (w3 & s3 & E3 & Hw3 & Hok3 & Ho3);
    rewrite ?Hs2; try done; [rewrite Ho2; apply lookup_insert_eq|by rewrite Hw2..|]. rewrite Hs2 in Ho3.
  assert (poller_of w3 = s3) as Hs3 by (unfold poller_of; by rewrite Hw3).
  assert (objects s3 = objects s) as Ho by (rewrite Ho3, Ho2, delete_insert_eq; by apply delete_id).
  destruct (poller_same_objects s s3 Hok Hok3 Ho) as [Hm3 Hk3]. rewrite Hf2 in E3.
  exists a1, w1, a2, w2, w3. rewrite Hs1, Hs2, Hs3. split_and!; try done; [by rewrite Hk1|by rewrite Hk3].
Qed.

(** A new loop of thread 100. *)
Definition accept_world (l : EventLoop nat simple_epoll Z) : script_loop :=
  mkScriptLoop l [] 0 None (1000, 0) (mkReadEnv 0 (8, 0) 0 None) [].
#[local] Instance accept_loop : LoopWorld nat simple_epoll Z script_loop := script_loop_world 100 (fun _ => []).

Lemma acceptor_life_witness :
  exists l a1 w1 a2 w2, EventLoop_new false nullptr demo_env = Ok l /\
    Acceptor_construct (CbUser 7%nat) (this_ l) 77 (Done 8) (Done tt) true (accept_world l) = Ok (a1, w1) /\
    Acceptor_listen_poll (fun x => x) 100 (Done tt) 77 a1 w1 = Ok (a2, w2) /\
    interest (epollFd_ (poller_of w2)) !! 8 = Some (mkEpollEvent kReadEvent 77).
Proof.
  destruct (EventLoop_new_ok (U := nat) (K := simple_epoll) (E := Z) demo_env) as (l & cw & ct & E & Hok & _);
    [vm_compute; congruence|vm_compute; congruence|reflexivity|reflexivity|].
  pose proof E as E0. vm_compute in E0. injection E0 as El.
  destruct (acceptor_life (fun x => x) 100 (CbUser 7%nat) 77 8 true true (accept_world l))
    as (a1 & w1 & a2 & w2 & w3 & E1 & _ & E2 & _ & _ & Hi & _).
  - exact Hok.
  - rewrite <- El. reflexivity.
  - rewrite <- El. reflexivity.
  - rewrite <- El. reflexivity.
  - rewrite <- El. reflexivity.
  - rewrite <- El. discriminate.
  - exists l, a1, w1, a2, w2. split; [exact E|]. split; [exact E1|]. split; [exact E2|exact Hi].
Defined.
