(* ===== verification/TcpServer.v ===== *)
(** * TcpServer: the table of connections

    Models [include/TcpServer.h] and [src/base/TcpServer.cpp] over the acceptor and
    the thread pool.  Several loops run in threads of their own: each has a queue of
    functors, [runInLoop] runs a functor at once in the loop's own thread and queues
    it from any other, [queueInLoop] always queues it.  Of a connection the server
    sees its name, its loop and the stage of its life. *)
From Stdlib Require Import Strings.Byte.
From Stdlib Require Import Floats.SpecFloat.
From S2P Require Import Prelude LogStream Printf Timestamp Inet LoopThread.

(** ** Connections and functors *)

(** [kConnecting]; [kConnected] or [kDisconnecting]; [kDisconnected], the close
    callback having been called; [connectDestroyed] has run. *)
Inductive stage := Connecting | Up | Closed | Destroyed.

(** Settings [newConnection] applies before the connection is established. *)
Inductive setting :=
  | ConnectionTimeout (seconds : double)
  | IdleTimeout (seconds : double)
  | KeepAlive (interval : Z).

Record conn := mkConn {
  c_name : list byte;
  c_fd : Z;
  c_peer : InetAddress;
  c_loop : Z;
  c_stage : stage;
  c_settings : list setting
}.

(** What the server's code binds; a connection is its index in [heap]. *)
Inductive functor :=
  | connectEstablished (c : nat)
  | applySetting (c : nat) (s : setting)
  | removeInLoop (c : nat)
  | connectDestroyed (c : nat)
  | acceptorListen (r : sysret unit).

#[global] Instance stage_eq_dec : EqDecision stage.
Proof. solve_decision. Defined.

(** ** The server and the loops around it *)
Record TcpServer := mkServer {
  loop_ : Z;
  ipPort_ : list byte;
  srv_name : list byte;
  acceptor_ : Acceptor;
  threadPool_ : EventLoopThreadPool;
  srv_started : Z;
  nextConnId_ : Z;
  connections_ : gmap (list byte) nat;
  connectionTimeout_ : double;
  idleTimeout_ : double;
  keepAliveEnabled_ : bool;
  keepAliveInterval_ : Z
}.

Record world := mkWorld { server : TcpServer; heap : list conn; queues : gmap Z (list functor) }.

Definition with_server (s : TcpServer) w : world := mkWorld s (heap w) (queues w).
Definition with_pool (p : EventLoopThreadPool) s : TcpServer :=
  mkServer (loop_ s) (ipPort_ s) (srv_name s) (acceptor_ s) p (srv_started s) (nextConnId_ s)
    (connections_ s) (connectionTimeout_ s) (idleTimeout_ s) (keepAliveEnabled_ s) (keepAliveInterval_ s).
Definition with_acceptor (a : Acceptor) s : TcpServer :=
  mkServer (loop_ s) (ipPort_ s) (srv_name s) a (threadPool_ s) (srv_started s) (nextConnId_ s)
    (connections_ s) (connectionTimeout_ s) (idleTimeout_ s) (keepAliveEnabled_ s) (keepAliveInterval_ s).
Definition with_connections (m : gmap (list byte) nat) s : TcpServer :=
  mkServer (loop_ s) (ipPort_ s) (srv_name s) (acceptor_ s) (threadPool_ s) (srv_started s) (nextConnId_ s)
    m (connectionTimeout_ s) (idleTimeout_ s) (keepAliveEnabled_ s) (keepAliveInterval_ s).
Definition with_nextConnId (n : Z) s : TcpServer :=
  mkServer (loop_ s) (ipPort_ s) (srv_name s) (acceptor_ s) (threadPool_ s) (srv_started s) n
    (connections_ s) (connectionTimeout_ s) (idleTimeout_ s) (keepAliveEnabled_ s) (keepAliveInterval_ s).

Definition queue w (L : Z) : list functor := default [] (queues w !! L).
Definition set_queue (L : Z) (q : list functor) w : world := mkWorld (server w) (heap w) (<[L := q]> (queues w)).

(** [L->queueInLoop(f)] *)
Definition queueInLoop (L : Z) (f : functor) w : world := set_queue L (queue w L ++ [f]) w.

Definition get_conn w (c : nat) : res conn :=
  match heap w !! c with Some cn => Ok cn | None => Fault DanglingPointer end.
Definition set_conn (c : nat) (cn : conn) w : world := mkWorld (server w) (<[c := cn]> (heap w)) (queues w).
Definition with_stage (st : stage) cn : conn :=
  mkConn (c_name cn) (c_fd cn) (c_peer cn) (c_loop cn) st (c_settings cn).
Definition with_setting (x : setting) cn : conn :=
  mkConn (c_name cn) (c_fd cn) (c_peer cn) (c_loop cn) (c_stage cn) (c_settings cn ++ [x]).

(** ** Operations *)

(** [cur] is the loop whose thread is running.  [erase] removes by name. *)
Definition removeConnectionInLoop (cur : Z) (c : nat) w : res world :=
  _ ← assert (cur =? loop_ (server w));
  cn ← get_conn w c;
  let n := match connections_ (server w) !! c_name cn with Some _ => 1 | None => 0 end in
  let w := with_server (with_connections (delete (c_name cn) (connections_ (server w))) (server w)) w in
  _ ← assert (n =? 1);
  Ok (queueInLoop (c_loop cn) (connectDestroyed c) w).

(** While the server lives, [connectDestroyed] is queued by [removeConnectionInLoop] only,
    for a connection whose [state_] is [kDisconnected], and then only removes its channel.
    The run stops if it ever meets another one, which [server_table] excludes; the
    destructor, which destroys connections that are up, is in [ServerDown.v], where their
    [state_] is known. *)
Definition run_bound (cur : Z) (f : functor) w : res world :=
  match f with
  | connectEstablished c => cn ← get_conn w c; Ok (set_conn c (with_stage Up cn) w)
  | applySetting c x => cn ← get_conn w c; Ok (set_conn c (with_setting x cn) w)
  | removeInLoop c => removeConnectionInLoop cur c w
  | connectDestroyed c =>
      cn ← get_conn w c;
      _ ← assert (bool_decide (c_stage cn = Closed));
      Ok (set_conn c (with_stage Destroyed cn) w)
  | acceptorListen r =>
      a ← Acceptor_listen r (acceptor_ (server w));
      Ok (with_server (with_acceptor a (server w)) w)
  end.

(** [L->runInLoop(f)] *)
Definition runInLoop (cur L : Z) (f : functor) w : res world :=
  if cur =? L then run_bound cur f w else Ok (queueInLoop L f w).

Definition removeConnection (cur : Z) (c : nat) w : res world :=
  runInLoop cur (loop_ (server w)) (removeInLoop c) w.

(** [snprintf(buf, 64, "-%s#%d", ipPort, id)] and [name_ + buf]. *)
Definition conn_name (name ipPort : list byte) (id : Z) : list byte :=
  name ++ snprintf 64 ([x2d] ++ ipPort ++ [x23] ++ decimal id).
#[global] Arguments conn_name : simpl never.

Definition INT_MAX : Z := 2147483647.

(** The settings the server is configured with, in the order of the code. *)
Definition settings_of (s : TcpServer) : list setting :=
  (if dltb dzero (connectionTimeout_ s) then [ConnectionTimeout (connectionTimeout_ s)] else []) ++
  (if dltb dzero (idleTimeout_ s) then [IdleTimeout (idleTimeout_ s)] else []) ++
  (if keepAliveEnabled_ s then [KeepAlive (keepAliveInterval_ s)] else []).

Definition newConnection (cur sockfd : Z) (peerAddr : InetAddress) w : res world :=
  let s := server w in
  _ ← assert (cur =? loop_ s);
  '(ioLoop, pool) ← getNextLoop (cur =? baseLoop_ (threadPool_ s)) (threadPool_ s);
  let connName := conn_name (srv_name s) (ipPort_ s) (nextConnId_ s) in
  if nextConnId_ s =? INT_MAX then Fault SignedOverflow
  else
    let c := length (heap w) in
    let s := with_connections (<[connName := c]> (connections_ s))
               (with_nextConnId (nextConnId_ s + 1) (with_pool pool s)) in
    let w := mkWorld s (heap w ++ [mkConn connName sockfd peerAddr ioLoop Connecting []]) (queues w) in
    w ← for_each (fun x w => runInLoop cur ioLoop (applySetting c x) w) (settings_of s) w;
    runInLoop cur ioLoop (connectEstablished c) w.

(** [Acceptor::handleRead], which runs in the server's loop once it listens. *)
Definition accept_ready (cur : Z) (r : sysret (Z * sockaddr_in)) w : res world :=
  match Acceptor_handleRead r (acceptor_ (server w)) with
  | NewConnection connfd peer => newConnection cur connfd peer w
  | CloseAccepted _ | AcceptError _ => Ok w
  end.

Definition TcpServer_new (loop : Z) (ipPort : list byte) (socket_r : sysret Z) (bind_r : sysret unit)
    (reuseport : bool) : res TcpServer :=
  a ← Acceptor_new socket_r bind_r reuseport;
  Ok (mkServer loop ipPort ipPort (setNewConnectionCallback a)
        (Pool_new loop [x54; x63; x70; x53; x65; x72; x76; x65; x72]) 0 1 ∅ dzero dzero false 30).

Definition setThreadNum (n : Z) (s : TcpServer) : res TcpServer :=
  _ ← assert (0 <=? n);
  Ok (with_pool (setThreadNUm n (threadPool_ s)) s).

Definition configure (timeout idle : double) (keepAlive : bool) (interval : Z) (s : TcpServer) : TcpServer :=
  mkServer (loop_ s) (ipPort_ s) (srv_name s) (acceptor_ s) (threadPool_ s) (srv_started s) (nextConnId_ s)
    (connections_ s) timeout idle keepAlive interval.

(** [startLoop] gives the loops of the pool's threads, [listen_r] the result of
    [listen].  Later calls only count. *)
Definition start (cur : Z) (has_cb : bool) (startLoop : Z -> Z) (listen_r : sysret unit) w : res world :=
  let s := server w in
  let was := srv_started s in
  let s := mkServer (loop_ s) (ipPort_ s) (srv_name s) (acceptor_ s) (threadPool_ s) (was + 1) (nextConnId_ s)
             (connections_ s) (connectionTimeout_ s) (idleTimeout_ s) (keepAliveEnabled_ s) (keepAliveInterval_ s) in
  if was =? 0 then
    '(pool, _) ← Pool_start (cur =? baseLoop_ (threadPool_ s)) has_cb startLoop (threadPool_ s);
    _ ← assert (negb (listening_ (acceptor_ s)));
    runInLoop cur (loop_ s) (acceptorListen listen_r) (with_server (with_pool pool s) w)
  else Ok (with_server s w).

(** [TcpConnection::handleClose] in the connection's loop: the connection is down,
    and the close callback is [removeConnection]. *)
Definition close_conn (c : nat) w : res world :=
  cn ← get_conn w c;
  removeConnection (c_loop cn) c (set_conn c (with_stage Closed cn) w).

(** ** Steps of the whole *)
Inductive srv_label :=
  | SAccept (r : sysret (Z * sockaddr_in))
  | SClose (c : nat)
  | SRun (L : Z).

(** A connection closes once, while it is up; a loop runs the functor at the head
    of its queue. *)
Definition srv_step (l : srv_label) w : res world :=
  match l with
  | SAccept r =>
      if acceptReading (acceptor_ (server w)) then accept_ready (loop_ (server w)) r w else Ok w
  | SClose c =>
      match heap w !! c with
      | Some cn => if decide (c_stage cn = Up) then close_conn c w else Ok w
      | None => Ok w
      end
  | SRun L =>
      match queue w L with
      | [] => Ok w
      | f :: q => run_bound L f (set_queue L q w)
      end
  end.

Fixpoint srv_run (ls : list srv_label) w : res world :=
  match ls with
  | [] => Ok w
  | l :: ls => w ← srv_step l w; srv_run ls w
  end.

(** ** Connection names *)
Lemma conn_name_ok name ipPort id :
  zlen ipPort <= 37 -> 0 <= id <= INT_MAX ->
  read_number (decimal id) = Some id /\ conn_name name ipPort id = name ++ [x2d] ++ ipPort ++ [x23] ++ decimal id.
Proof.
  intros Hip Hid. unfold INT_MAX in Hid. destruct (convert_spec id) as (t & Et & Hr & Hl); [lia|].
  rewrite convert_decimal in Et by lia. injection Et as <-. split; [done|].
  unfold conn_name, snprintf. f_equal. apply take_ge.
  unfold zlen in *. rewrite !length_app. simpl. lia.
Qed.

(** Different numbers make different names. *)
Lemma conn_name_inj name ipPort id1 id2 nm :
  zlen ipPort <= 37 -> 0 <= id1 <= INT_MAX -> 0 <= id2 <= INT_MAX ->
  conn_name name ipPort id1 = nm -> conn_name name ipPort id2 = nm -> id1 = id2.
Proof.
  intros Hip H1 H2 E1 E2.
  destruct (conn_name_ok name ipPort id1 Hip H1) as [R1 N1].
  destruct (conn_name_ok name ipPort id2 Hip H2) as [R2 N2].
  rewrite N1 in E1. rewrite N2 in E2. rewrite <- E1 in E2.
  apply app_inv_head in E2. simpl in E2. injection E2 as E2. apply app_inv_head in E2.
  injection E2 as E2. congruence.
Qed.

(** ** Invariant *)

(** The functors that move connection [c] through its life. *)
Definition about (c : nat) (f : functor) : bool :=
  match f with
  | connectEstablished c' | removeInLoop c' | connectDestroyed c' => (c' =? c)%nat
  | applySetting _ _ | acceptorListen _ => false
  end.
Definition life (c : nat) (q : list functor) : list functor := filter (fun f => about c f = true) q.

(** The connection a queued functor belongs to exists. *)
Definition functor_ok (n : nat) (f : functor) : Prop :=
  match f with
  | connectEstablished c | applySetting c _ | removeInLoop c | connectDestroyed c => (c < n)%nat
  | acceptorListen _ => False
  end.

Definition listed w (c : nat) (cn : conn) : Prop := connections_ (server w) !! c_name cn = Some c.
#[global] Instance listed_dec w c cn : Decision (listed w c cn).
Proof. unfold listed. apply _. Defined.

(** The life functors of a connection that may be queued on loop [L]: none or the one
    that its stage calls for, where it belongs. *)
Definition expected w (c : nat) (cn : conn) (L : Z) : list functor :=
  match c_stage cn with
  | Connecting => if decide (L = c_loop cn) then [connectEstablished c] else []
  | Up | Destroyed => []
  | Closed =>
      if decide (listed w c cn) then if decide (L = loop_ (server w)) then [removeInLoop c] else []
      else if decide (L = c_loop cn) then [connectDestroyed c] else []
  end.

(** Name and loop follow from the order of arrival. *)
Definition ident w (c : nat) (cn : conn) : Prop :=
  conn_name (srv_name (server w)) (ipPort_ (server w)) (Z.of_nat c + 1) = c_name cn /\
  c_loop cn = nth_loop (threadPool_ (server w)) c.

Definition table_ok w (c : nat) (cn : conn) : Prop :=
  match c_stage cn with
  | Connecting | Up => listed w c cn
  | Closed => True
  | Destroyed => ~ listed w c cn
  end.

Definition conn_ok w (c : nat) (cn : conn) : Prop :=
  ident w c cn /\ table_ok w c cn /\ forall L, life c (queue w L) = expected w c cn L.

Definition common w : Prop :=
  zlen (ipPort_ (server w)) <= 37 /\
  nextConnId_ (server w) = Z.of_nat (length (heap w)) + 1 /\ nextConnId_ (server w) <= INT_MAX /\
  (forall nm c, connections_ (server w) !! nm = Some c ->
     exists cn, heap w !! c = Some cn /\ c_name cn = nm) /\
  (forall L f, f ∈ queue w L -> functor_ok (length (heap w)) f) /\
  LoopThread.started_ (threadPool_ (server w)) = true /\
  baseLoop_ (threadPool_ (server w)) = loop_ (server w) /\
  threadPool_ (server w) = pool_at (threadPool_ (server w)) (length (heap w)).

Definition server_inv w : Prop :=
  common w /\ forall c cn, heap w !! c = Some cn -> conn_ok w c cn.

(** The invariant of all connections but [c], which has no life functor queued. *)
Definition near (c : nat) (cn : conn) w : Prop :=
  common w /\ (forall c' cn', c' <> c -> heap w !! c' = Some cn' -> conn_ok w c' cn') /\
  heap w !! c = Some cn /\ ident w c cn /\ forall L, life c (queue w L) = [].

(** *** Queues *)
Lemma queue_set L L' q w : queue (set_queue L q w) L' = if decide (L = L') then q else queue w L'.
Proof.
  unfold queue, set_queue. simpl. destruct (decide (L = L')) as [->|].
  - by rewrite lookup_insert_eq.
  - by rewrite lookup_insert_ne.
Qed.

Lemma life_snoc c q f : life c (q ++ [f]) = life c q ++ if about c f then [f] else [].
Proof.
  unfold life. rewrite filter_app. f_equal. rewrite filter_cons, filter_nil.
  by destruct (about c f).
Qed.

Lemma life_cons c q f : life c (f :: q) = (if about c f then [f] else []) ++ life c q.
Proof. unfold life. rewrite filter_cons. by destruct (about c f). Qed.

Lemma life_enqueue c L f w L' :
  life c (queue (queueInLoop L f w) L') =
    life c (queue w L') ++ if decide (L = L') then if about c f then [f] else [] else [].
Proof.
  unfold queueInLoop. rewrite queue_set. destruct (decide (L = L')) as [->|].
  - apply life_snoc.
  - by rewrite app_nil_r.
Qed.

Lemma expected_queue w L q c cn L' : expected (set_queue L q w) c cn L' = expected w c cn L'.
Proof. done. Qed.

Lemma common_queue w L q :
  common w -> (forall f, f ∈ q -> functor_ok (length (heap w)) f) -> common (set_queue L q w).
Proof.
  intros (H1 & H2 & H3 & H4 & H5 & H6) Hq. split_and!; try done; try tauto.
  intros L' f. rewrite queue_set. destruct (decide _); [by apply Hq|apply H5].
Qed.

Lemma functor_ok_queue w L f : common w -> f ∈ queue w L -> functor_ok (length (heap w)) f.
Proof. intros (_ & _ & _ & _ & H & _). apply H. Qed.

Lemma common_enqueue w L f :
  common w -> functor_ok (length (heap w)) f -> common (queueInLoop L f w).
Proof.
  intros Hc Hf. apply common_queue; [done|]. intros f'. rewrite elem_of_app, list_elem_of_singleton.
  intros [H| ->]; [|done]. by eapply functor_ok_queue.
Qed.

Lemma common_set_conn w c cn cn' :
  common w -> heap w !! c = Some cn -> c_name cn' = c_name cn -> common (set_conn c cn' w).
Proof.
  intros (H1 & H2 & H3 & H4 & H5 & H6 & H7 & H8) Hc Hn. unfold common, set_conn. simpl.
  rewrite length_insert. split_and!; try done. intros nm d Hd.
  destruct (H4 nm d Hd) as (cd & Hcd & Hnm). destruct (decide (c = d)) as [->|].
  - exists cn'. split; [|congruence]. apply list_lookup_insert_eq. by eapply lookup_lt_Some.
  - exists cd. by rewrite list_lookup_insert_ne.
Qed.

(** *** Connections with nothing queued *)
Lemma near_set_conn c cn cn' w :
  near c cn w -> c_name cn' = c_name cn -> c_loop cn' = c_loop cn -> near c cn' (set_conn c cn' w).
Proof.
  intros (Hc & Ho & Hh & [Hi1 Hi2] & Hl) Hn Hlp. split_and!.
  - by eapply common_set_conn.
  - intros c' cx Hne Hx. unfold set_conn in Hx. simpl in Hx. rewrite list_lookup_insert_ne in Hx by done.
    by apply (Ho c' cx).
  - apply list_lookup_insert_eq. by eapply lookup_lt_Some.
  - split; simpl; congruence.
  - done.
Qed.

(** A functor that is not about any life can be queued anywhere. *)
Lemma near_setting c cn w L x : near c cn w -> near c cn (queueInLoop L (applySetting c x) w).
Proof.
  intros (Hc & Ho & Hh & Hi & Hl). split_and!; try done.
  - apply common_enqueue; [done|]. simpl. by eapply lookup_lt_Some.
  - intros c' cn' Hne Hx. destruct (Ho c' cn' Hne Hx) as (H1 & H2 & H3). split_and!; try done.
    intros L'. rewrite life_enqueue. simpl. rewrite H3. destruct (decide _); by rewrite app_nil_r.
  - intros L'. rewrite life_enqueue, Hl. by destruct (decide _).
Qed.

Lemma names_distinct c c' cn cn' w :
  common w -> ident w c cn -> ident w c' cn' -> (c < length (heap w))%nat -> (c' < length (heap w))%nat ->
  c_name cn = c_name cn' -> c = c'.
Proof.
  intros (H1 & H2 & H3 & _) [I1 _] [I2 _] Hc Hc' En. rewrite En in I1.
  enough (Z.of_nat c + 1 = Z.of_nat c' + 1) by lia. eapply (conn_name_inj _ _ _ _ _ H1); [..|done|done]; lia.
Qed.

(** Taking [c] out of the table. *)
Definition unlist (cn : conn) w : world :=
  with_server (with_connections (delete (c_name cn) (connections_ (server w))) (server w)) w.

Lemma near_unlist c cn w :
  near c cn w -> near c cn (unlist cn w) /\ ~ listed (unlist cn w) c cn.
Proof.
  intros (Hc & Ho & Hh & Hi & Hl). split; [|unfold listed, unlist; simpl; by rewrite lookup_delete_eq].
  split_and!; try done.
  - destruct Hc as (H1 & H2 & H3 & H4 & H5). split_and!; try tauto; try done. intros nm d.
    simpl. rewrite lookup_delete_Some. intros [_ Hd]. by apply H4.
  - intros c' cn' Hne Hx. destruct (Ho c' cn' Hne Hx) as (I & T & E).
    assert (c_name cn <> c_name cn') as Hnn.
    { intros En. apply Hne. symmetry. eapply (names_distinct c c' cn cn' w); try done; by eapply lookup_lt_Some. }
    assert (listed (unlist cn w) c' cn' <-> listed w c' cn') as Hlist.
    { unfold listed, unlist. simpl. by rewrite lookup_delete_ne. }
    split_and!; [done| |].
    + unfold table_ok in *. destruct (c_stage cn'); tauto.
    + intros L. transitivity (expected w c' cn' L); [apply E|]. unfold expected.
      destruct (c_stage cn'); try done. destruct (decide (listed w c' cn')), (decide (listed (unlist cn w) c' cn')); tauto.
Qed.

(** Queueing the functor the stage calls for completes the invariant. *)
Lemma near_done c cn w :
  near c cn w -> table_ok w c cn -> (forall L, expected w c cn L = []) -> server_inv w.
Proof.
  intros (Hc & Ho & Hh & Hi & Hl) Ht He. split; [done|]. intros c' cn' Hx.
  destruct (decide (c' = c)) as [->|]; [|by apply Ho]. simplify_eq. split_and!; try done.
  intros L. by rewrite Hl, He.
Qed.

Lemma near_enqueue c cn w L f :
  near c cn w -> table_ok w c cn -> about c f = true -> functor_ok (S c) f ->
  (forall L', expected w c cn L' = if decide (L = L') then [f] else []) -> server_inv (queueInLoop L f w).
Proof.
  intros (Hc & Ho & Hh & Hi & Hl) Ht Ha Hf He.
  assert (functor_ok (length (heap w)) f) as Hf'.
  { apply lookup_lt_Some in Hh. destruct f; simpl in *; try done; lia. }
  assert (forall c', c' <> c -> about c' f = false) as Hna.
  { intros c' Hne. destruct f; simpl in *; try done; apply Nat.eqb_eq in Ha; apply Nat.eqb_neq; lia. }
  split; [by apply common_enqueue|]. intros c' cn' Hx. simpl in Hx. destruct (decide (c' = c)) as [->|Hne].
  - simplify_eq. split_and!; try done. intros L'. rewrite life_enqueue, Hl, Ha. simpl. symmetry. apply He.
  - destruct (Ho c' cn' Hne Hx) as (H1 & H2 & H3). split_and!; try done. intros L'.
    rewrite life_enqueue, (Hna c' Hne), H3. destruct (decide _); by rewrite app_nil_r.
Qed.

(** Taking the head of a queue: its connection expected it there. *)
Lemma near_pop w L f q c :
  server_inv w -> queue w L = f :: q -> about c f = true ->
  exists cn, near c cn (set_queue L q w) /\ expected w c cn L = [f] /\ table_ok w c cn.
Proof.
  intros [Hc Ho] Hq Ha.
  assert (functor_ok (length (heap w)) f) as Hf by (eapply functor_ok_queue; [done|]; rewrite Hq; by left).
  assert (c < length (heap w))%nat as Hlt by (destruct f; simpl in *; try done; apply Nat.eqb_eq in Ha; lia).
  destruct (lookup_lt_is_Some_2 _ _ Hlt) as [cn Hcn]. destruct (Ho c cn Hcn) as (Hi & Ht & He).
  assert (forall c', c' <> c -> about c' f = false) as Hna.
  { intros c' Hne. destruct f; simpl in *; try done; apply Nat.eqb_eq in Ha; apply Nat.eqb_neq; lia. }
  assert (expected w c cn L = [f] /\ life c q = []) as [E1 E2].
  { pose proof (He L) as HL. rewrite Hq, life_cons, Ha in HL. simpl in HL.
    unfold expected in *. destruct (c_stage cn); repeat destruct (decide _); try done;
      injection HL as <- HL; done. }
  assert (forall L', L' <> L -> expected w c cn L' = []) as Hoth.
  { intros L' Hne. unfold expected in *. destruct (c_stage cn); repeat destruct (decide _); try done; congruence. }
  exists cn. split_and!; try done.
  - split_and!; try done.
    + apply common_queue; [done|]. intros f' Hf'. eapply (functor_ok_queue w L); [done|]. rewrite Hq. by right.
    + intros c' cn' Hne Hx. destruct (Ho c' cn' Hx) as (H1 & H2 & H3). split_and!; try done.
      intros L'. rewrite queue_set, expected_queue, <- H3. destruct (decide (L = L')) as [<-|]; [|done].
      rewrite Hq, life_cons, (Hna c' Hne). done.
    + intros L'. rewrite queue_set. destruct (decide (L = L')) as [<-|Hne]; [done|]. rewrite He. by apply Hoth.
Qed.

(** *** The steps *)
Lemma near_get c cn w : near c cn w -> get_conn w c = Ok cn.
Proof. intros (_ & _ & H & _). unfold get_conn. by rewrite H. Qed.

Lemma remove_ok c cn w :
  near c cn w -> c_stage cn = Closed -> listed w c cn ->
  exists w', removeConnectionInLoop (loop_ (server w)) c w = Ok w' /\ server_inv w' /\ heap w' = heap w.
Proof.
  intros Hn Hst Hl. unfold removeConnectionInLoop. rewrite Z.eqb_refl. simpl.
  rewrite (near_get _ _ _ Hn), bind_ret_l. unfold listed in Hl. rewrite Hl. simpl.
  eexists. split; [done|]. split; [|done]. destruct (near_unlist _ _ _ Hn) as [Hn' Hnl].
  apply (near_enqueue c cn (unlist cn w)); try done.
  - unfold table_ok. by rewrite Hst.
  - simpl. apply Nat.eqb_refl.
  - simpl. lia.
  - intros L'. unfold expected. rewrite Hst, decide_False by done.
    destruct (decide (L' = c_loop cn)), (decide (c_loop cn = L')); congruence.
Qed.

Lemma established_ok c cn w :
  near c cn w -> listed w c cn -> server_inv (set_conn c (with_stage Up cn) w).
Proof.
  intros Hn Hl. apply (near_done c (with_stage Up cn)); [by apply (near_set_conn c cn)|done|done].
Qed.

Lemma destroyed_ok c cn w :
  near c cn w -> ~ listed w c cn -> server_inv (set_conn c (with_stage Destroyed cn) w).
Proof.
  intros Hn Hl. apply (near_done c (with_stage Destroyed cn)); [by apply (near_set_conn c cn)|done|done].
Qed.

Lemma functor_cases n f : functor_ok n f -> (exists c, about c f = true) \/ exists c x, f = applySetting c x.
Proof.
  destruct f as [c|c x|c|c|r]; simpl; intros H; [left; exists c; apply Nat.eqb_refl|by eauto|left; exists c; apply Nat.eqb_refl|left; exists c; apply Nat.eqb_refl|done].
Qed.

(** Taking a setting off a queue, and applying it. *)
Lemma pop_setting w L c x q :
  server_inv w -> queue w L = applySetting c x :: q -> server_inv (set_queue L q w).
Proof.
  intros [Hc Ho] Hq. split.
  - apply common_queue; [done|]. intros f' Hf'. eapply (functor_ok_queue w L); [done|]. rewrite Hq. by right.
  - intros c' cn' Hx. destruct (Ho c' cn' Hx) as (H1 & H2 & H3). split_and!; try done.
    intros L'. rewrite queue_set, expected_queue, <- H3. destruct (decide (L = L')) as [<-|]; [|done].
    rewrite Hq, life_cons. done.
Qed.

Lemma apply_setting_ok w c x :
  server_inv w -> (c < length (heap w))%nat ->
  exists cn, heap w !! c = Some cn /\ server_inv (set_conn c (with_setting x cn) w).
Proof.
  intros [Hc Ho] Hlt. destruct (lookup_lt_is_Some_2 _ _ Hlt) as [cn Hcn]. exists cn. split; [done|].
  split; [by eapply common_set_conn|]. intros c' cn' Hx. unfold set_conn in Hx. simpl in Hx.
  destruct (decide (c' = c)) as [->|Hne].
  - rewrite list_lookup_insert_eq in Hx by done. injection Hx as <-. by destruct (Ho c cn Hcn) as (H1 & H2 & H3).
  - rewrite list_lookup_insert_ne in Hx by done. by destruct (Ho c' cn' Hx) as (H1 & H2 & H3).
Qed.

Lemma run_ok w L f q :
  server_inv w -> queue w L = f :: q ->
  exists w', run_bound L f (set_queue L q w) = Ok w' /\ server_inv w' /\ length (heap w') = length (heap w).
Proof.
  intros Hinv Hq. pose proof (functor_ok_queue w L f (proj1 Hinv)) as Hf.
  rewrite Hq in Hf. specialize (Hf ltac:(by left)).
  destruct (functor_cases _ _ Hf) as [(c & Ha)|(c & x & ->)].
  - destruct (near_pop w L f q c Hinv Hq Ha) as (cn & Hn & He & Ht).
    pose proof (near_get _ _ _ Hn) as Hg. unfold expected, table_ok in He, Ht.
    destruct f as [c0|c0 x|c0|c0|r]; simpl in Ha; try done; apply Nat.eqb_eq in Ha; subst c0; simpl run_bound.
    + destruct (c_stage cn); repeat destruct (decide _); try done. rewrite Hg. simpl.
      eexists. split; [done|]. split; [by apply established_ok|]. simpl. apply length_insert.
    + destruct (c_stage cn) eqn:Est; repeat destruct (decide _); try done. subst L.
      destruct (remove_ok c cn _ Hn Est) as (w' & E & Hi & Hh); [done|]. exists w'. split; [done|].
      split; [done|]. by rewrite Hh.
    + destruct (c_stage cn) eqn:Est; repeat destruct (decide _); try done. rewrite Hg, bind_ret_l, Est. simpl.
      eexists. split; [done|]. split; [by apply destroyed_ok|]. simpl. apply length_insert.
  - simpl in Hf. destruct (apply_setting_ok (set_queue L q w) c x) as (cn & Hcn & Hi).
    + by eapply pop_setting.
    + done.
    + simpl. unfold get_conn. rewrite Hcn. simpl. eexists. split; [done|]. split; [done|].
      simpl. apply length_insert.
Qed.

Lemma near_of_quiet w c cn :
  server_inv w -> heap w !! c = Some cn -> c_stage cn = Up -> near c cn w /\ listed w c cn.
Proof.
  intros [Hc Ho] Hcn Hst. destruct (Ho c cn Hcn) as (Hi & Ht & He). unfold table_ok in Ht. rewrite Hst in Ht.
  split; [|done]. split_and!; try done.
  - intros c' cn' _ Hx. by apply Ho.
  - intros L. rewrite He. unfold expected. by rewrite Hst.
Qed.

Lemma close_ok w c cn :
  server_inv w -> heap w !! c = Some cn -> c_stage cn = Up ->
  exists w', close_conn c w = Ok w' /\ server_inv w' /\ length (heap w') = length (heap w).
Proof.
  intros Hinv Hcn Hst. destruct (near_of_quiet w c cn Hinv Hcn Hst) as [Hn Hl].
  unfold close_conn, get_conn. rewrite Hcn. simpl.
  assert (near c (with_stage Closed cn) (set_conn c (with_stage Closed cn) w)) as Hn'
    by (by apply (near_set_conn c cn)).
  unfold removeConnection, runInLoop. simpl. destruct (Z.eqb_spec (c_loop cn) (loop_ (server w))) as [E|E].
  - rewrite E. destruct (remove_ok c _ _ Hn') as (w' & E' & Hi & Hh); [done|done|]. exists w'. split; [exact E'|].
    split; [done|]. rewrite Hh. simpl. apply length_insert.
  - eexists. split; [done|]. split; [|simpl; apply length_insert].
    apply (near_enqueue c (with_stage Closed cn)); try done.
    + simpl. apply Nat.eqb_refl.
    + simpl. lia.
    + intros L'. unfold expected. cbn [c_stage with_stage]. rewrite decide_True by done. simpl.
      destruct (decide (L' = loop_ (server w))), (decide (loop_ (server w) = L')); congruence.
Qed.

(** Settings do not touch the life of a connection. *)
Lemma settings_ok xs cur ioLoop c cn w :
  near c cn w ->
  exists w' cn', for_each (fun x w => runInLoop cur ioLoop (applySetting c x) w) xs w = Ok w' /\
    near c cn' w' /\ c_name cn' = c_name cn /\ c_loop cn' = c_loop cn /\ c_stage cn' = c_stage cn /\
    server w' = server w /\ length (heap w') = length (heap w).
Proof.
  revert cn w. induction xs as [|x xs IH]; intros cn w Hn; cbn [for_each]; [by eauto 10|].
  assert (exists w1 cn1, runInLoop cur ioLoop (applySetting c x) w = Ok w1 /\ near c cn1 w1 /\
    c_name cn1 = c_name cn /\ c_loop cn1 = c_loop cn /\ c_stage cn1 = c_stage cn /\
    server w1 = server w /\ length (heap w1) = length (heap w)) as (w1 & cn1 & -> & Hn1 & E1 & E2 & E3 & E4 & E5).
  { unfold runInLoop. destruct (cur =? ioLoop).
    - simpl. rewrite (near_get _ _ _ Hn). simpl. eexists _, (with_setting x cn). split; [done|].
      split_and!; try done; [by apply (near_set_conn c cn)|]. simpl. apply length_insert.
    - eexists _, cn. split; [done|]. split_and!; try done. by apply near_setting. }
  rewrite bind_ret_l. destruct (IH cn1 w1 Hn1) as (w' & cn' & E & H1 & H2 & H3 & H4 & H5 & H6).
  exists w', cn'. split; [exact E|]. split_and!; congruence.
Qed.

(** The world in which [newConnection] has entered the connection in the table. *)
Definition with_new (nm : list byte) (cn : conn) (pool : EventLoopThreadPool) w : world :=
  mkWorld (with_connections (<[nm := length (heap w)]> (connections_ (server w)))
             (with_nextConnId (nextConnId_ (server w) + 1) (with_pool pool (server w))))
    (heap w ++ [cn]) (queues w).

Lemma nth_loop_at p i c : nth_loop (pool_at p i) c = nth_loop p c.
Proof. done. Qed.

Lemma with_new_near w nm cn :
  server_inv w -> nextConnId_ (server w) < INT_MAX ->
  conn_name (srv_name (server w)) (ipPort_ (server w)) (nextConnId_ (server w)) = nm ->
  c_name cn = nm -> c_loop cn = nth_loop (threadPool_ (server w)) (length (heap w)) ->
  near (length (heap w)) cn (with_new nm cn (pool_at (threadPool_ (server w)) (S (length (heap w)))) w) /\
  listed (with_new nm cn (pool_at (threadPool_ (server w)) (S (length (heap w)))) w) (length (heap w)) cn.
Proof.
  intros [Hc Ho] Hmax Hnm Hcn Hlp. pose proof Hc as (H1 & H2 & H3 & H4 & H5 & H6 & H7 & H8).
  set (w' := with_new nm cn _ w).
  assert (ident w' (length (heap w)) cn) as Hid.
  { split; simpl; [|by rewrite Hlp]. by rewrite Hcn, <- Hnm, H2. }
  split; [|unfold listed; simpl; rewrite Hcn; by rewrite lookup_insert_eq].
  assert (forall c' cn', c' <> length (heap w) -> heap w' !! c' = Some cn' -> heap w !! c' = Some cn') as Hold.
  { intros c' cn' Hne Hx. simpl in Hx. apply lookup_snoc_Some in Hx as [[_ Hx]|[Hx _]]; [done|congruence]. }
  split_and!.
  - split_and!; try done; simpl.
    + rewrite length_app. simpl. lia.
    + lia.
    + intros nm' d. rewrite lookup_insert_Some. intros [[<- <-]|[Hne Hd]].
      * exists cn. split; [|done]. by apply list_lookup_middle.
      * destruct (H4 nm' d Hd) as (cd & Hcd & En). exists cd. split; [|done]. by apply lookup_app_l_Some.
    + intros L f Hf. specialize (H5 L f Hf). rewrite length_app. simpl. destruct f; simpl in *; try done; lia.
    + rewrite length_app. simpl. rewrite Nat.add_1_r. done.
  - intros c' cn' Hne Hx. pose proof (Hold c' cn' Hne Hx) as Hx'. destruct (Ho c' cn' Hx') as (I & T & E).
    assert (ident w' c' cn') as Hid' by (destruct I as [I1 I2]; split; [done|]; exact I2).
    assert (nm <> c_name cn') as Hnn.
    { intros En. apply lookup_lt_Some in Hx'. destruct I as [I1 _].
      enough (Z.of_nat c' + 1 = nextConnId_ (server w)) by lia.
      eapply (conn_name_inj _ _ _ _ _ H1); [lia|lia|exact I1|congruence]. }
    assert (listed w' c' cn' <-> listed w c' cn') as Hlist.
    { unfold listed. simpl. by rewrite lookup_insert_ne. }
    split_and!; [done| |].
    + unfold table_ok in *. destruct (c_stage cn'); tauto.
    + intros L. transitivity (expected w c' cn' L); [apply E|]. unfold expected.
      destruct (c_stage cn'); try done. destruct (decide (listed w c' cn')), (decide (listed w' c' cn')); tauto.
  - simpl. by apply list_lookup_middle.
  - done.
  - intros L. change (queue w' L) with (queue w L). apply filter_drop. intros f Hf Ha.
    pose proof (H5 L f Hf) as Hfo. destruct f; simpl in *; try done; apply Nat.eqb_eq in Ha; lia.
Qed.

Lemma newConnection_ok w fd peer :
  server_inv w -> nextConnId_ (server w) < INT_MAX ->
  exists w', newConnection (loop_ (server w)) fd peer w = Ok w' /\ server_inv w' /\
    length (heap w') = S (length (heap w)).
Proof.
  intros Hinv Hmax. pose proof Hinv as [(H1 & H2 & H3 & H4 & H5 & H6 & H7 & H8) Ho].
  unfold newConnection. rewrite Z.eqb_refl. simpl. rewrite H7, Z.eqb_refl, H8.
  rewrite getNextLoop_at by done. rewrite bind_ret_l.
  destruct (Z.eqb_spec (nextConnId_ (server w)) INT_MAX); [lia|].
  set (nm := conn_name _ _ _) in *.
  set (cn := mkConn nm fd peer (nth_loop (threadPool_ (server w)) (length (heap w))) Connecting []).
  destruct (with_new_near w nm cn Hinv Hmax eq_refl) as [Hn Hl]; [done|done|].
  destruct (settings_ok (settings_of (server (with_new nm cn (pool_at (threadPool_ (server w)) (S (length (heap w)))) w)))
    (loop_ (server w)) (c_loop cn) _ _ _ Hn) as (w' & cn' & E & Hn' & En & El & Es & Hs & Hlen).
  match goal with |- context [for_each ?f ?l ?x] => replace (for_each f l x) with (Ok w') by (symmetry; exact E) end.
  rewrite bind_ret_l. simpl in Hlen. rewrite length_app in Hlen. simpl in Hlen.
  assert (listed w' (length (heap w)) cn') as Hl'.
  { unfold listed in *. rewrite Hs, En. exact Hl. }
  unfold runInLoop. simpl in Es. destruct (Z.eqb_spec (loop_ (server w)) (nth_loop (threadPool_ (server w)) (length (heap w)))) as [Ecur|Ecur].
  - simpl. rewrite (near_get _ _ _ Hn'). simpl. eexists. split; [done|]. split; [by apply established_ok|].
    simpl. rewrite length_insert. lia.
  - eexists. split; [done|]. split; [|simpl; lia].
    apply (near_enqueue (length (heap w)) cn'); try done.
    + unfold table_ok. by rewrite Es.
    + simpl. apply Nat.eqb_refl.
    + simpl. lia.
    + intros L'. unfold expected. rewrite Es, El. simpl.
      destruct (decide (L' = _)), (decide (_ = L')); congruence.
Qed.

Lemma srv_step_ok l w :
  server_inv w -> nextConnId_ (server w) < INT_MAX ->
  exists w', srv_step l w = Ok w' /\ server_inv w' /\
    Z.of_nat (length (heap w')) <= Z.of_nat (length (heap w)) + 1.
Proof.
  intros Hinv Hmax. destruct l as [r|c|L]; simpl.
  - destruct (acceptReading _); [|by eauto with lia]. unfold accept_ready.
    destruct (Acceptor_handleRead _ _) as [fd peer|fd|e]; [|by eauto with lia..].
    destruct (newConnection_ok w fd peer Hinv Hmax) as (w' & E & Hi & Hl). exists w'. split_and!; try done. lia.
  - destruct (heap w !! c) as [cn|] eqn:Ec; [|by eauto with lia].
    destruct (decide (c_stage cn = Up)) as [Est|]; [|by eauto with lia].
    destruct (close_ok w c cn Hinv Ec Est) as (w' & E & Hi & Hl). exists w'. split_and!; try done. lia.
  - destruct (queue w L) as [|f q] eqn:Eq; [by eauto with lia|].
    destruct (run_ok w L f q Hinv Eq) as (w' & E & Hi & Hl). exists w'. split_and!; try done. lia.
Qed.

(** ** Properties *)
Lemma srv_run_ok ls w :
  server_inv w -> Z.of_nat (length (heap w)) + Z.of_nat (length ls) + 1 <= INT_MAX ->
  exists w', srv_run ls w = Ok w' /\ server_inv w'.
Proof.
  revert w. induction ls as [|l ls IH]; intros w Hinv Hb; simpl; [by eauto|]. simpl in Hb.
  assert (nextConnId_ (server w) < INT_MAX) as Hmax by (destruct Hinv as [(_ & -> & _) _]; lia).
  destruct (srv_step_ok l w Hinv Hmax) as (w1 & -> & Hi & Hl). simpl. apply IH; [done|]. lia.
Qed.

(** A server on loop [loop] with [n] threads, constructed, configured and started in
    the thread of its loop, all system calls succeeding. *)
Definition started_server (loop listenfd n : Z) (ipPort : list byte) (reuseport has_cb : bool)
    (timeout idle : double) (keepAlive : bool) (interval : Z) (startLoop : Z -> Z) : res world :=
  s ← TcpServer_new loop ipPort (Done listenfd) (Done tt) reuseport;
  s ← setThreadNum n s;
  start loop has_cb startLoop (Done tt) (mkWorld (configure timeout idle keepAlive interval s) [] ∅).

Lemma started_ok loop listenfd n ipPort reuseport has_cb timeout idle keepAlive interval startLoop :
  zlen ipPort <= 37 -> 0 <= n < 2 ^ 31 ->
  exists w, started_server loop listenfd n ipPort reuseport has_cb timeout idle keepAlive interval startLoop = Ok w /\
    server_inv w /\ heap w = [] /\ loop_ (server w) = loop /\
    loops_ (threadPool_ (server w)) = startLoop <$> seqZ 0 n /\ baseLoop_ (threadPool_ (server w)) = loop.
Proof.
  intros Hip Hn. unfold started_server. simpl. unfold setThreadNum. rewrite (assert_true (0 <=? n)) by lia. simpl.
  unfold start. simpl. rewrite Z.eqb_refl.
  destruct (Pool_start_ok has_cb startLoop loop [x54; x63; x70; x53; x65; x72; x76; x65; x72] n Hn)
    as (p & called & -> & Hs & Hb & Hl & Hp). simpl.
  unfold runInLoop. rewrite Z.eqb_refl. simpl. eexists. split; [done|]. split; [|done].
  split; [|intros c cn Hx; simpl in Hx; done]. split_and!; simpl; try done.
  intros L f. unfold queue. simpl. rewrite lookup_empty. simpl. by intros Hf%elem_of_nil.
Qed.

(** All [L] with something queued. *)
Definition quiet w : Prop := forall L, queue w L = [].

Lemma quiet_table w c cn :
  server_inv w -> quiet w -> heap w !! c = Some cn ->
  connections_ (server w) !! c_name cn = Some c /\ c_stage cn = Up \/
  connections_ (server w) !! c_name cn = None /\ c_stage cn = Destroyed.
Proof.
  intros [Hc Ho] Hq Hcn. destruct (Ho _ _ Hcn) as (I & T & L). unfold table_ok in *.
  assert (forall L0, [] = expected w c cn L0) as L' by (intros L0; rewrite <- (L L0), Hq; done).
  clear L. unfold expected in L'. destruct (c_stage cn) eqn:Est.
  - specialize (L' (c_loop cn)). by rewrite decide_True in L'.
  - by left.
  - destruct (decide (listed w c cn)).
    + specialize (L' (loop_ (server w))). by rewrite decide_True in L'.
    + specialize (L' (c_loop cn)). by rewrite decide_True in L'.
  - right. split; [|done]. destruct (connections_ (server w) !! c_name cn) as [d|] eqn:Ed; [|done].
    pose proof Hc as (_ & _ & _ & H4 & _). destruct (H4 _ _ Ed) as (cd & Hcd & Hnm).
    destruct (Ho _ _ Hcd) as (I2 & _). exfalso. apply T. unfold listed.
    assert (d = c) as ->; [|done].
    eapply (names_distinct d c cd cn w); try done; by eapply lookup_lt_Some.
Qed.

(** C14: the server's table of connections.  Start a server with any number of
    threads and any settings, and let connections arrive, close once each and all
    loops run their queues in any order: no assertion of the server fails, different
    connections have different names, and a listed name belongs to the connection it
    is listed with.  Whenever no functor is queued anywhere, the table holds exactly
    the connections that are up, and every closed connection has been destroyed. *)
Theorem server_table (loop listenfd n interval : Z) (ipPort : list byte) (reuseport has_cb keepAlive : bool)
    (timeout idle : double) (startLoop : Z -> Z) (ls : list srv_label) :
  zlen ipPort <= 37 -> 0 <= n < 2 ^ 31 -> Z.of_nat (length ls) < INT_MAX ->
  exists w w',
    started_server loop listenfd n ipPort reuseport has_cb timeout idle keepAlive interval startLoop = Ok w /\
    srv_run ls w = Ok w' /\
    (forall c1 c2 cn1 cn2, heap w' !! c1 = Some cn1 -> heap w' !! c2 = Some cn2 ->
       c_name cn1 = c_name cn2 -> c1 = c2) /\
    (forall nm c, connections_ (server w') !! nm = Some c -> exists cn, heap w' !! c = Some cn /\ c_name cn = nm) /\
    (quiet w' -> forall c cn, heap w' !! c = Some cn ->
       connections_ (server w') !! c_name cn = Some c /\ c_stage cn = Up \/
       connections_ (server w') !! c_name cn = None /\ c_stage cn = Destroyed).
Proof.
  intros Hip Hn Hls.
  destruct (started_ok loop listenfd n ipPort reuseport has_cb timeout idle keepAlive interval startLoop Hip Hn)
    as (w & E & Hinv & Hh & _).
  destruct (srv_run_ok ls w Hinv) as (w' & E' & [Hc Ho]); [rewrite Hh; simpl; lia|].
  exists w, w'. split_and!; try done.
  - intros c1 c2 cn1 cn2 H1 H2 Hnm. destruct (Ho _ _ H1) as (I1 & _), (Ho _ _ H2) as (I2 & _).
    eapply (names_distinct c1 c2 cn1 cn2 w'); try done; by eapply lookup_lt_Some.
  - apply Hc.
  - intros Hq c cn Hcn. by apply quiet_table.
Qed.

(** Two connections, one of them on a thread's loop, closed and removed. *)
Definition demo_labels : list srv_label :=
  [SAccept (Done (7, mkSockaddr 0 0)); SAccept (Done (8, mkSockaddr 0 0)); SRun 100; SRun 101;
   SClose 0; SRun 1; SRun 100].

Lemma server_table_witness :
  exists w w', started_server 1 3 2 [x61] false false dzero dzero true 30 (fun i => 100 + i) = Ok w /\
    srv_run demo_labels w = Ok w' /\
    (forall nm c, connections_ (server w') !! nm = Some c -> exists cn, heap w' !! c = Some cn /\ c_name cn = nm).
Proof.
  destruct (server_table 1 3 2 30 [x61] false false true dzero dzero (fun i => 100 + i) demo_labels)
    as (w & w' & E & E' & _ & H & _).
  - vm_compute. discriminate.
  - lia.
  - vm_compute. reflexivity.
  - exists w, w'. split; [exact E|]. split; [exact E'|exact H].
Defined.

(** A connection that closes a second time before it is destroyed makes the server
    abort: its name is no longer in the table. *)
Theorem double_close_aborts :
  (w ← started_server 1 3 0 [x61] false false dzero dzero false 30 (fun i => 100 + i);
   w ← srv_run [SAccept (Done (7, mkSockaddr 0 0))] w;
   w ← close_conn 0 w;
   close_conn 0 w) = Fault AssertionFailed.
Proof. vm_compute. reflexivity. Qed.

(** The 2147483647th connection overflows [nextConnId_]. *)
Theorem connection_numbers_overflow w fd peer :
  server_inv w -> nextConnId_ (server w) = INT_MAX ->
  newConnection (loop_ (server w)) fd peer w = Fault SignedOverflow.
Proof.
  intros [(H1 & H2 & H3 & H4 & H5 & H6 & H7 & H8) Ho] Hmax.
  unfold newConnection. rewrite Z.eqb_refl. simpl. rewrite H7, Z.eqb_refl, H8.
  rewrite getNextLoop_at by done. rewrite bind_ret_l.
  by rewrite Hmax, Z.eqb_refl.
Qed.
