(* ===== verification/ServerNet.v ===== *)
(** * ServerNet: a server with its connections

    [TcpServer.v] follows a server that knows of a connection only the stage of its life
    and assumes that each connection closes once, while it is up.  Here the server holds
    the connections of [TcpConnection.v]: [newConnection] constructs and configures one
    ([src/base/TcpServer.cpp]), the functors [connectEstablished] and [connectDestroyed]
    run the methods of that name ([src/base/TcpConnection.cpp]), and whenever a
    connection's close callback runs, [removeConnection] runs.  The assumption of
    [TcpServer.v] is discharged by [ServedConn.v]. *)
From Stdlib Require Import Strings.Byte.
From S2P Require Import Prelude Buffer Timestamp Channel TcpConnection TcpSpec ServedConn Inet LoopThread TcpServer.

(** The connections in the order of the heap. *)
Record net (S : Type) := mkNet { nw : world; conns : list (TcpConnection S) }.
Arguments mkNet {S}. Arguments nw {S}. Arguments conns {S}.

Section net.
Context {S : Type} `{!ConnLoop S, !ServedLoop S}.
Context (user : user_call -> TcpConnection S -> res (TcpConnection S)).
Implicit Types c : TcpConnection S.
Implicit Types n : net S.

(** [conn->setConnectionTimeout(...)] and its siblings, called by the server's thread;
    [inLoop] tells whether that is the connection's. *)
Definition apply_setting (inLoop : bool) (x : setting) c : res (TcpConnection S) :=
  match x with
  | ConnectionTimeout s => setConnectionTimeout inLoop s c
  | IdleTimeout s => setIdleTimeout inLoop s c
  | KeepAlive i => enableKeepAlive inLoop true i c
  end.

(** The close callback, [removeConnection], if it ran while [c] became [c']. *)
Definition tell (i : nat) c c' (w : world) : res world :=
  if decide (closes (loop c') = closes (loop c)) then Ok w else close_conn i w.

(** What the connection with index [i] did. *)
Definition update (i : nat) c c' n : res (net S) :=
  w ← tell i c c' (nw n);
  Ok (mkNet w (<[i := c']> (conns n))).

Definition get_tcp (i : nat) n : res (TcpConnection S) :=
  match conns n !! i with Some c => Ok c | None => Fault DanglingPointer end.

(** The listening socket is ready; [now] and [l] are the clock and the loop the new
    connection is constructed with. *)
Definition net_accept (r : sysret (Z * sockaddr_in)) (now : Timestamp) (l : S) n : res (net S) :=
  w ← srv_step (SAccept r) (nw n);
  match heap w !! length (conns n) with
  | None => Ok (mkNet w (conns n))
  | Some cn =>
      let inLoop := loop_ (server (nw n)) =? c_loop cn in
      c ← TcpConnection_new now l;
      c ← for_each (apply_setting inLoop) (settings_of (server (nw n))) c;
      let n := mkNet w (conns n ++ [c]) in
      if inLoop then
        c' ← TcpConnection.connectEstablished user c;
        update (length (conns n) - 1) c c' n
      else Ok n
  end.

(** A loop runs the functor at the head of its queue.  (What a setting queues in the loop
    of its connection is among the connection's own functors, [os_task].) *)
Definition net_run (L : Z) n : res (net S) :=
  match queue (nw n) L with
  | [] => Ok n
  | f :: _ =>
      w ← srv_step (SRun L) (nw n);
      let n := mkNet w (conns n) in
      match f with
      | connectEstablished i => c ← get_tcp i n; c' ← TcpConnection.connectEstablished user c; update i c c' n
      | connectDestroyed i => c ← get_tcp i n; c' ← TcpConnection.connectDestroyed user c; update i c c' n
      | applySetting _ _ | removeInLoop _ | acceptorListen _ => Ok n
      end
  end.

(** What connections do is in order ([ServedConn.v]). *)
Inductive net_step : net S -> net S -> Prop :=
  | ns_accept r now l n n' :
      closes l = 0%nat -> posted l = [] -> net_accept r now l n = Ok n' -> net_step n n'
  | ns_run L n n' : net_run L n = Ok n' -> net_step n n'
  | ns_conn i c c' n n' :
      conns n !! i = Some c -> own_step user true c c' -> update i c c' n = Ok n' -> net_step n n'.

(** ** Agreement of the two views *)
Definition same_stage (st : stage) (ls : life_stage) : Prop :=
  match st with
  | Connecting => ls = LConnecting
  | Up => ls = LUp
  | Closed | Destroyed => ls = LClosed
  end.

Definition agree (cn : conn) c : Prop := served_inv c /\ told c /\ same_stage (c_stage cn) (stage_of c).

Definition net_inv n : Prop := server_inv (nw n) /\ Forall2 agree (heap (nw n)) (conns n).

(** *** What the server's steps do to the heap *)
Lemma close_conn_heap i w w' cn :
  heap w !! i = Some cn -> close_conn i w = Ok w' -> heap w' = <[i := with_stage Closed cn]> (heap w).
Proof.
  intros Hi E. unfold close_conn, get_conn in E. rewrite Hi, bind_ret_l in E.
  unfold removeConnection, runInLoop in E. destruct (_ =? _); [|by injection E as <-].
  simpl in E. unfold removeConnectionInLoop in E. inv_res. done.
Qed.

Lemma agree_insert i cn c h l : agree cn c -> Forall2 agree h l -> Forall2 agree (<[i := cn]> h) (<[i := c]> l).
Proof. intros H1 H2. by apply Forall2_insert. Qed.

(** The server hears of a connection that follows its life. *)
Lemma tell_ok i cn c c' w :
  server_inv w -> heap w !! i = Some cn -> same_stage (c_stage cn) (stage_of c) -> told c ->
  served_inv c' -> live c c' ->
  exists w' ls cn', tell i c c' w = Ok w' /\ srv_run ls w = Ok w' /\ (length ls <= 1)%nat /\ server_inv w' /\
    heap w' = <[i := cn']> (heap w) /\ agree cn' c'.
Proof.
  intros Hinv Hi Hst Ht Hc' HL. pose proof (live_told c c' HL Ht) as Ht'. unfold tell.
  destruct HL as [[E N]|(E1 & E2 & N)].
  - rewrite decide_True by done. exists w, [], cn. split_and!; try done; [by simpl; lia|by rewrite list_insert_id|].
    split_and!; try done. by rewrite E.
  - rewrite decide_False by lia. rewrite E1 in Hst.
    assert (c_stage cn = Up) as Hup by (by destruct (c_stage cn)).
    destruct (close_ok w i cn Hinv Hi Hup) as (w' & E & Hinv' & _).
    exists w', [SClose i], (with_stage Closed cn). split_and!; try done.
    + simpl. rewrite Hi, decide_True, E by done. done.
    + by eapply close_conn_heap.
Qed.

Lemma update_ok i cn c c' n :
  server_inv (nw n) -> heap (nw n) !! i = Some cn -> same_stage (c_stage cn) (stage_of c) -> told c ->
  good c c' -> (forall j cnj cj, j <> i -> heap (nw n) !! j = Some cnj -> conns n !! j = Some cj -> agree cnj cj) ->
  length (heap (nw n)) = length (conns n) ->
  exists n' ls, update i c c' n = Ok n' /\ srv_run ls (nw n) = Ok (nw n') /\ (length ls <= 1)%nat /\ net_inv n' /\
    length (heap (nw n')) = length (heap (nw n)).
Proof.
  intros Hinv Hi Hst Ht (Hc' & HL & _) Hoth Hlen.
  destruct (tell_ok i cn c c' (nw n) Hinv Hi Hst Ht Hc' HL) as (w' & ls & cn' & E & Er & Hl & Hinv' & Hh & Ha).
  unfold update. rewrite E. simpl. eexists _, ls. split; [done|]. simpl.
  split_and!; [done|done| |by rewrite Hh, length_insert]. split; [done|]. simpl. rewrite Hh.
  apply Forall2_same_length_lookup_2; [by rewrite !length_insert|]. intros j x y Hx Hy.
  destruct (decide (j = i)) as [->|Hne].
  - pose proof (lookup_lt_Some _ _ _ Hi). rewrite list_lookup_insert_eq in Hx by done.
    rewrite list_lookup_insert_eq in Hy by lia. congruence.
  - rewrite list_lookup_insert_ne in Hx by done. rewrite list_lookup_insert_ne in Hy by done. by eapply Hoth.
Qed.

(** The head of a queue calls for its stage. *)
Lemma run_established_heap w L i q w' cn :
  queue w L = connectEstablished i :: q -> heap w !! i = Some cn -> srv_step (SRun L) w = Ok w' ->
  heap w' = <[i := with_stage Up cn]> (heap w).
Proof.
  intros Hq Hi E. simpl in E. rewrite Hq in E. simpl in E. unfold get_conn in E. simpl in E. rewrite Hi in E.
  by injection E as <-.
Qed.

Lemma run_destroyed_heap w L i q w' cn :
  queue w L = connectDestroyed i :: q -> heap w !! i = Some cn -> srv_step (SRun L) w = Ok w' ->
  heap w' = <[i := with_stage Destroyed cn]> (heap w).
Proof.
  intros Hq Hi E. simpl in E. rewrite Hq in E. simpl in E. unfold get_conn in E. simpl in E. rewrite Hi in E.
  inv_res. done.
Qed.

(** Other functors leave the stages alone. *)
Lemma run_other_agree w L f q w' l :
  server_inv w -> queue w L = f :: q ->
  (forall i, f <> connectEstablished i) -> (forall i, f <> connectDestroyed i) ->
  srv_step (SRun L) w = Ok w' -> Forall2 agree (heap w) l -> Forall2 agree (heap w') l.
Proof.
  intros Hinv Hq H1 H2 E Ha. simpl in E. rewrite Hq in E. destruct f as [i|i x|i|i|r].
  - by destruct (H1 i).
  - simpl in E. apply bind_Ok in E as (cn & Ecn & E). injection E as <-. simpl.
    unfold get_conn in Ecn. simpl in Ecn. destruct (heap w !! i) as [cn'|] eqn:Hi; [|done]. injection Ecn as ->.
    destruct (Forall2_lookup_l _ _ _ _ _ Ha Hi) as (c & Hc & Hac).
    rewrite <- (list_insert_id l i c) by done. by apply Forall2_insert.
  - simpl in E. unfold removeConnectionInLoop in E. by inv_res.
  - by destruct (H2 i).
  - pose proof (functor_ok_queue w L (acceptorListen r) (proj1 Hinv)) as Hf. rewrite Hq in Hf.
    by specialize (Hf ltac:(by left)).
Qed.

Lemma queued_stage w L f q i :
  server_inv w -> queue w L = f :: q -> about i f = true ->
  exists cn, heap w !! i = Some cn /\
    match f with
    | connectEstablished _ => c_stage cn = Connecting
    | connectDestroyed _ | removeInLoop _ => c_stage cn = Closed
    | _ => True
    end.
Proof.
  intros Hinv Hq Ha. destruct (near_pop w L f q i Hinv Hq Ha) as (cn & (_ & _ & Hh & _) & He & _).
  exists cn. split; [exact Hh|]. unfold expected in He.
  destruct (c_stage cn), f; repeat destruct (decide _); try done; congruence.
Qed.

Context `{!ServedUser user}.

(** A functor of the server's moves a connection on: the server's view has changed
    already, the connection follows. *)
Lemma moved_ok i cn c c1 c' w n :
  net_inv n -> conns n !! i = Some c ->
  server_inv w -> heap w = <[i := cn]> (heap (nw n)) ->
  same_stage (c_stage cn) (stage_of c1) -> told c1 -> closes (loop c1) = closes (loop c) -> good c1 c' ->
  exists n' ls, update i c c' (mkNet w (conns n)) = Ok n' /\ srv_run ls w = Ok (nw n') /\ (length ls <= 1)%nat /\
    net_inv n' /\ length (heap (nw n')) = length (heap (nw n)).
Proof.
  intros [Hinv Ha] Hc Hw Hh Hst Ht Hn Hg.
  assert (forall n0, update i c c' n0 = update i c1 c' n0) as -> by (intros n0; unfold update, tell; by rewrite Hn).
  pose proof (Forall2_length _ _ _ Ha) as Hlen. pose proof (lookup_lt_Some _ _ _ Hc) as Hlt.
  destruct (update_ok i cn c1 c' (mkNet w (conns n))) as (n' & ls & E & Er & Hl & Hi & Hhl); simpl; try done.
  - rewrite Hh. apply list_lookup_insert_eq. lia.
  - intros j cnj cj Hne Hx Hy. rewrite Hh, list_lookup_insert_ne in Hx by done.
    by eapply (Forall2_lookup_lr agree).
  - by rewrite Hh, length_insert.
  - exists n', ls. split_and!; try done. simpl in Hhl. by rewrite Hhl, Hh, length_insert.
Qed.

Lemma established_told c : state_ c = kConnecting -> told c -> told (established c).
Proof.
  unfold told, stage_of. intros Hs. rewrite Hs. unfold established, channel_mask. simpl. by rewrite closes_update.
Qed.

(** Running a loop's queue is a run of the server alone. *)
Lemma net_run_ok L n n' :
  net_inv n -> net_run L n = Ok n' ->
  exists ls, srv_run ls (nw n) = Ok (nw n') /\ (length ls <= 2)%nat /\ net_inv n' /\
    length (heap (nw n')) = length (heap (nw n)).
Proof.
  intros Hn E. pose proof Hn as [Hinv Ha]. unfold net_run in E. destruct (queue (nw n) L) as [|f q] eqn:Hq.
  { injection E as <-. exists []. split_and!; try done. simpl. lia. }
  apply bind_Ok in E as (w & Ew & E).
  destruct (run_ok (nw n) L f q Hinv Hq) as (w0 & Ew0 & Hw & Hlw).
  assert (w0 = w) as -> by (simpl in Ew; rewrite Hq in Ew; congruence).
  assert (forall ls w', srv_run ls w = Ok w' -> srv_run (SRun L :: ls) (nw n) = Ok w') as Hrun.
  { intros ls w' Er. cbn [srv_run]. by rewrite Ew, bind_ret_l. }
  assert (forall i, f = connectEstablished i \/ f = connectDestroyed i -> forall c, get_tcp i (mkNet w (conns n)) = Ok c ->
    exists cn, heap (nw n) !! i = Some cn /\ conns n !! i = Some c /\ agree cn c /\
      match f with connectEstablished _ => c_stage cn = Connecting | connectDestroyed _ => c_stage cn = Closed | _ => True end) as Hcase.
  { intros i Hf c Hc. unfold get_tcp in Hc. simpl in Hc. destruct (conns n !! i) as [c'|] eqn:Ec; [|done]. injection Hc as ->.
    destruct (queued_stage (nw n) L f q i Hinv Hq) as (cn & Hcn & Hs); [by destruct Hf as [->| ->]; simpl; apply Nat.eqb_refl|].
    exists cn. split_and!; try done; [by eapply (Forall2_lookup_lr agree)|]. by destruct Hf as [->| ->]. }
  destruct f as [i|i x|i|i|r].
  - apply bind_Ok in E as (c & Ec & E). apply bind_Ok in E as (c' & Ec' & E).
    destruct (Hcase i (or_introl eq_refl) c Ec) as (cn & Hcn & Hc & (A1 & A2 & A3) & Hst). rewrite Hst in A3.
    assert (state_ c = kConnecting) as Hs by (unfold same_stage, stage_of in A3; by destruct (state_ c)).
    destruct (established_good user c c' A1 Hs Ec') as (Hg & Hup & Hcl).
    destruct (moved_ok i (with_stage Up cn) c (established c) c' w n Hn Hc Hw) as (n1 & ls & E1 & Er & Hl & Hi & Hhl);
      [by eapply run_established_heap|done|by apply established_told|done|done|].
    exists (SRun L :: ls). assert (n1 = n') as -> by congruence. split_and!; [by apply Hrun|simpl; lia|done|done].
  - injection E as <-. exists [SRun L]. split_and!; [by apply Hrun|simpl; lia| |done]. split; [done|].
    by eapply (run_other_agree (nw n) L).
  - injection E as <-. exists [SRun L]. split_and!; [by apply Hrun|simpl; lia| |done]. split; [done|].
    by eapply (run_other_agree (nw n) L).
  - apply bind_Ok in E as (c & Ec & E). apply bind_Ok in E as (c' & Ec' & E).
    destruct (Hcase i (or_intror eq_refl) c Ec) as (cn & Hcn & Hc & (A1 & A2 & A3) & Hst). rewrite Hst in A3.
    assert (state_ c = kDisconnected) as Hs by (by apply stage_closed).
    destruct (moved_ok i (with_stage Destroyed cn) c c c' w n Hn Hc Hw) as (n1 & ls & E1 & Er & Hl & Hi & Hhl);
      [by eapply run_destroyed_heap|done|done|done|by eapply destroyed_good|].
    exists (SRun L :: ls). assert (n1 = n') as -> by congruence. split_and!; [by apply Hrun|simpl; lia|done|done].
  - injection E as <-. exists [SRun L]. split_and!; [by apply Hrun|simpl; lia| |done]. split; [done|].
    by eapply (run_other_agree (nw n) L).
Qed.

(** *** Accepting *)
Lemma settings_heap xs cur ioLoop h cn w w' :
  heap w = h ++ [cn] ->
  for_each (fun x w => runInLoop cur ioLoop (applySetting (length h) x) w) xs w = Ok w' ->
  exists cn', heap w' = h ++ [cn'] /\ c_stage cn' = c_stage cn /\ c_loop cn' = c_loop cn.
Proof.
  revert cn w. induction xs as [|x xs IH]; intros cn w Hh E; cbn [for_each] in E; [injection E as <-; by eauto|].
  apply bind_Ok in E as (w1 & E1 & E). unfold runInLoop in E1. destruct (cur =? ioLoop).
  - simpl in E1. unfold get_conn in E1. rewrite Hh, list_lookup_middle in E1 by done. simpl in E1. injection E1 as <-.
    destruct (IH (with_setting x cn) (set_conn (length h) (with_setting x cn) w)) as (cn' & H1 & H2 & H3).
    + simpl. rewrite Hh, insert_app_r_alt, Nat.sub_diag by lia. done.
    + exact E.
    + by exists cn'.
  - injection E1 as <-. destruct (IH cn (queueInLoop ioLoop (applySetting (length h) x) w)) as (cn' & H1 & H2 & H3); [done|exact E|].
    by exists cn'.
Qed.

(** A new connection is up at once exactly if it lives in the server's own loop. *)
Lemma newConnection_heap w w' fd peer :
  newConnection (loop_ (server w)) fd peer w = Ok w' ->
  exists cn, heap w' = heap w ++ [cn] /\
    c_stage cn = if loop_ (server w) =? c_loop cn then Up else Connecting.
Proof.
  intros E. unfold newConnection in E. rewrite Z.eqb_refl in E. simpl in E.
  apply bind_Ok in E as ([ioLoop pool] & _ & E). set (nm := conn_name _ _ _) in E.
  destruct (_ =? INT_MAX); [done|]. apply bind_Ok in E as (w1 & E1 & E).
  eapply (settings_heap _ _ _ (heap w) (mkConn nm fd peer ioLoop Connecting [])) in E1 as (cn & H1 & H2 & H3); [|done].
  simpl in H2, H3. unfold runInLoop in E. destruct (_ =? ioLoop) eqn:El.
  - simpl in E. unfold get_conn in E. rewrite H1, list_lookup_middle in E by done. simpl in E. injection E as <-.
    exists (with_stage Up cn). simpl. rewrite H1, insert_app_r_alt, Nat.sub_diag, H3, El by lia. done.
  - injection E as <-. exists cn. simpl. by rewrite H1, H3, El.
Qed.

(** A configured connection is new. *)
Lemma apply_setting_calm b x c c' : apply_setting b x c = Ok c' -> calm c c'.
Proof. destruct x; unfold apply_setting; [apply setConnectionTimeout_calm|apply setIdleTimeout_calm|apply enableKeepAlive_calm]. Qed.

Lemma apply_setting_good b x c c' : served_inv c -> apply_setting b x c = Ok c' -> good c c'.
Proof.
  intros Hc E. apply calm_good; [done| |by eapply apply_setting_calm]. destruct x; unfold apply_setting in E.
  - eapply setConnectionTimeout_inv; [apply Hc|exact E].
  - eapply setIdleTimeout_inv; [apply Hc|exact E].
  - eapply enableKeepAlive_inv; [apply Hc|exact E].
Qed.

Lemma settings_good b xs c c' :
  served_inv c -> for_each (apply_setting b) xs c = Ok c' -> good c c' /\ state_ c' = state_ c.
Proof.
  revert c. induction xs as [|x xs IH]; intros c Hc E; simpl in E.
  { injection E as <-. split; [by apply good_refl|done]. }
  apply bind_Ok in E as (c1 & E1 & E). pose proof (apply_setting_good b x c c1 Hc E1) as H1.
  destruct (IH c1 (proj1 H1) E) as [H2 Hs]. split; [by eapply good_trans|].
  rewrite Hs. apply (calm_state _ _ (apply_setting_calm b x c c1 E1)).
Qed.

Lemma accept_cases r w w' :
  server_inv w -> nextConnId_ (server w) < INT_MAX -> srv_step (SAccept r) w = Ok w' ->
  server_inv w' /\ (w' = w \/ exists cn, heap w' = heap w ++ [cn] /\
    c_stage cn = if loop_ (server w) =? c_loop cn then Up else Connecting).
Proof.
  intros Hinv Hmax E. destruct (srv_step_ok (SAccept r) w Hinv Hmax) as (w0 & E0 & Hi & _).
  assert (w0 = w') as -> by congruence. split; [done|]. simpl in E. destruct (acceptReading _); [|left; congruence].
  unfold accept_ready in E. destruct (Acceptor_handleRead _ _) as [fd peer|fd|e]; [right|left; congruence..].
  by eapply newConnection_heap.
Qed.

Lemma net_accept_ok r now l n n' :
  net_inv n -> nextConnId_ (server (nw n)) < INT_MAX -> closes l = 0%nat -> posted l = [] ->
  net_accept r now l n = Ok n' ->
  exists ls, srv_run ls (nw n) = Ok (nw n') /\ (length ls <= 2)%nat /\ net_inv n' /\
    (length (heap (nw n')) <= Datatypes.S (length (heap (nw n))))%nat.
Proof.
  intros [Hinv Ha] Hmax Hl Hp E. unfold net_accept in E. apply bind_Ok in E as (w & Ew & E).
  pose proof (Forall2_length _ _ _ Ha) as Hlen.
  assert (forall ls w', srv_run ls w = Ok w' -> srv_run (SAccept r :: ls) (nw n) = Ok w') as Hrun.
  { intros ls w' Er. cbn [srv_run]. by rewrite Ew, bind_ret_l. }
  destruct (accept_cases r (nw n) w Hinv Hmax Ew) as [Hw [->|(cn & Hh & Hst)]].
  { rewrite lookup_ge_None_2 in E by lia. injection E as <-. exists [SAccept r]. split_and!; [by apply Hrun|simpl; lia|done|simpl; lia]. }
  rewrite Hh, list_lookup_middle in E by done.
  destruct (served_new now l Hl Hp) as (c0 & E0 & Hc0 & Ht0 & _ & Hs0). rewrite E0, bind_ret_l in E.
  apply bind_Ok in E as (c & Ec & E). destruct (settings_good _ _ c0 c Hc0 Ec) as [(Hc & HL & _) Hs].
  pose proof (live_told c0 c HL Ht0) as Ht. rewrite Hs0 in Hs.
  destruct (_ =? c_loop cn).
  - apply bind_Ok in E as (c' & Ec' & E). destruct (established_good user c c' Hc Hs Ec') as (Hg & Hup & Hcl).
    simpl in E. rewrite length_app in E. simpl in E. rewrite Nat.add_sub in E.
    destruct (update_ok (length (conns n)) cn (established c) c' (mkNet w (conns n ++ [c])))
      as (n1 & ls & E1 & Er & Hl1 & Hi & Hhl); simpl; try done.
    + rewrite Hh. by apply list_lookup_middle.
    + by rewrite Hst.
    + by apply established_told.
    + intros j cnj cj Hne Hx Hy. rewrite Hh in Hx.
      apply lookup_snoc_Some in Hx as [[_ Hx]|[Hx _]]; [|lia]. apply lookup_snoc_Some in Hy as [[_ Hy]|[Hy _]]; [|lia].
      by eapply (Forall2_lookup_lr agree).
    + rewrite Hh, !length_app. simpl. lia.
    + unfold update, tell in E, E1. rewrite Hcl in E1. assert (n1 = n') as -> by congruence.
      exists (SAccept r :: ls). split_and!; [by apply Hrun|simpl; lia|done|]. simpl in Hhl. rewrite Hhl, Hh, length_app. simpl. lia.
  - injection E as <-. exists [SAccept r]. split_and!; [by apply Hrun|simpl; lia| |].
    + split; [done|]. simpl. rewrite Hh. apply Forall2_app; [done|]. constructor; [|done]. split_and!; try done.
      rewrite Hst. unfold stage_of. by rewrite Hs.
    + simpl. rewrite Hh, length_app. simpl. lia.
Qed.

(** *** Every step *)
Lemma own_update_ok i c c' n :
  net_inv n -> conns n !! i = Some c -> own_step user true c c' ->
  exists n' ls, update i c c' n = Ok n' /\ srv_run ls (nw n) = Ok (nw n') /\ (length ls <= 1)%nat /\ net_inv n' /\
    length (heap (nw n')) = length (heap (nw n)).
Proof.
  intros [Hinv Ha] Hc Hst. destruct (Forall2_lookup_r _ _ _ _ _ Ha Hc) as (cn & Hcn & (A1 & A2 & A3)).
  eapply update_ok; try done.
  - by apply (own_step_good user true).
  - intros j cnj cj _ Hx Hy. by eapply (Forall2_lookup_lr agree).
  - by eapply Forall2_length.
Qed.

Lemma net_step_ok n n' :
  net_inv n -> nextConnId_ (server (nw n)) < INT_MAX -> net_step n n' ->
  exists ls, srv_run ls (nw n) = Ok (nw n') /\ net_inv n' /\
    (length (heap (nw n')) <= Datatypes.S (length (heap (nw n))))%nat.
Proof.
  intros Hn Hmax Hst. destruct Hst as [r now l n n' Hl Hp E|L n n' E|i c c' n n' Hc Hst E].
  - destruct (net_accept_ok r now l n n' Hn Hmax Hl Hp E) as (ls & H1 & _ & H2 & H3). by exists ls.
  - destruct (net_run_ok L n n' Hn E) as (ls & H1 & _ & H2 & H3). exists ls. split_and!; [done|done|lia].
  - destruct (own_update_ok i c c' n Hn Hc Hst) as (n1 & ls & E1 & H1 & _ & H2 & H3).
    assert (n1 = n') as -> by congruence. exists ls. split_and!; [done|done|lia].
Qed.

Lemma srv_run_app ls1 ls2 w w1 w2 : srv_run ls1 w = Ok w1 -> srv_run ls2 w1 = Ok w2 -> srv_run (ls1 ++ ls2) w = Ok w2.
Proof.
  revert w. induction ls1 as [|l ls1 IH]; intros w E1 E2; simpl in *; [congruence|].
  apply bind_Ok in E1 as (w0 & E0 & E1). rewrite E0. simpl. by apply IH.
Qed.

Lemma net_steps_ok k n n' :
  nsteps net_step k n n' -> net_inv n -> Z.of_nat (length (heap (nw n))) + Z.of_nat k + 1 <= INT_MAX ->
  exists ls, srv_run ls (nw n) = Ok (nw n') /\ net_inv n'.
Proof.
  induction 1 as [n|k n n1 n' Hst _ IH]; intros Hn Hb; [by exists []|].
  assert (nextConnId_ (server (nw n)) < INT_MAX) as Hmax by (destruct Hn as [[(_ & -> & _) _] _]; lia).
  destruct (net_step_ok n n1 Hn Hmax Hst) as (ls1 & E1 & H1 & Hl).
  destruct IH as (ls2 & E2 & H2); [done|lia|]. exists (ls1 ++ ls2). split; [|done]. by eapply srv_run_app.
Qed.
End net.

(** ** Properties *)

(** C10: a server with its connections.  Start a server with any number of threads and
    any settings; let connections arrive, loops run the functors queued for them, and
    every connection do anything that is in order for it (events while its channel watches
    something and without a hang-up next to priority data or a half-close but no input,
    functors, timers, calls from any thread, which may be interrupted but not overtaken by
    the close), with any user code that follows the rules of a connection.  Then the
    server as a whole does what the server of the table does, the real connections closing
    as it expects: whatever a connection does next in order, the server's part of it, with
    its assertions, succeeds (a step out of order may close a connection twice, and the
    assertion of [removeConnectionInLoop] fails: [double_close_aborts]); and whenever no functor of the server's is queued, the
    table holds exactly the connections that are connected or disconnecting, and every
    other one is disconnected and has told so once. *)
Theorem server_of_connections {S : Type} `{!ConnLoop S, !ServedLoop S}
    (user : user_call -> TcpConnection S -> res (TcpConnection S)) `{!ServedUser user}
    (loop listenfd n interval : Z) (ipPort : list byte) (reuseport has_cb keepAlive : bool)
    (timeout idle : double) (startLoop : Z -> Z) (w0 : world) (k : nat) (s : net S) :
  zlen ipPort <= 37 -> 0 <= n < 2 ^ 31 -> Z.of_nat k < INT_MAX ->
  started_server loop listenfd n ipPort reuseport has_cb timeout idle keepAlive interval startLoop = Ok w0 ->
  nsteps (net_step user) k (mkNet w0 []) s ->
  (exists ls, srv_run ls w0 = Ok (nw s)) /\
  (forall i c c', conns s !! i = Some c -> own_step user true c c' -> exists s', update i c c' s = Ok s') /\
  (quiet (nw s) -> forall i cn c, heap (nw s) !! i = Some cn -> conns s !! i = Some c ->
     connections_ (server (nw s)) !! c_name cn = Some i /\
       (state_ c = kConnected \/ state_ c = kDisconnecting) /\ closes (TcpConnection.loop c) = 0%nat \/
     connections_ (server (nw s)) !! c_name cn = None /\
       state_ c = kDisconnected /\ closes (TcpConnection.loop c) = 1%nat).
Proof.
  intros Hip Hn Hk E Hsteps.
  destruct (started_ok loop listenfd n ipPort reuseport has_cb timeout idle keepAlive interval startLoop Hip Hn)
    as (w & E' & Hinv & Hh & _). assert (w = w0) as -> by congruence.
  destruct (net_steps_ok user k _ s Hsteps) as (ls & Er & Hs); [by split; [|simpl; rewrite Hh]|simpl; rewrite Hh; simpl; lia|].
  split_and!; [by exists ls| |].
  - intros i c c' Hc Hst. destruct (own_update_ok user i c c' s Hs Hc Hst) as (s' & _ & Eu & _). by exists s'.
  - intros Hq i cn c Hi Hc. destruct Hs as [Hi' Ha].
    pose proof (Forall2_lookup_lr _ _ _ _ _ _ Ha Hi Hc) as (_ & Ht & Hst). unfold told in Ht.
    destruct (quiet_table (nw s) i cn Hi' Hq Hi) as [[HT Hup]|[HT Hd]]; [left|right]; split; try done.
    + rewrite Hup in Hst. simpl in Hst. rewrite Hst in Ht. split; [by apply stage_up|done].
    + rewrite Hd in Hst. simpl in Hst. rewrite Hst in Ht. split; [by apply stage_closed|done].
Qed.

(** A server on one loop: a connection arrives, is hung up and destroyed. *)
Definition net_or (d : net counted_loop) (r : res (net counted_loop)) : net counted_loop :=
  match r with Ok n => n | Fault _ => d end.
Definition ndemo_w : res world := started_server 1 3 0 [x61] false false dzero dzero true 30 (fun i => 100 + i).
Definition ndemo1 (n : net counted_loop) :=
  net_or n (net_accept (counted_echo 2) (Done (7, mkSockaddr 0 0)) 1000 cloop0 n).
Definition ndemo_c (n : net counted_loop) : TcpConnection counted_loop := default cdemo0 (conns n !! 0%nat).
Definition ndemo_hup (c : TcpConnection counted_loop) :=
  cconn_or c (conn_event (counted_echo 2) EPOLLHUP 2000 (Done []) take_up 0 c).
Definition ndemo2 (n : net counted_loop) := net_or n (update 0 (ndemo_c n) (ndemo_hup (ndemo_c n)) n).
Definition ndemo3 (n : net counted_loop) := net_or n (net_run (counted_echo 2) 1 n).

Lemma ndemo_steps w :
  ndemo_w = Ok w ->
  let n := ndemo3 (ndemo2 (ndemo1 (mkNet w []))) in
  nsteps (net_step (counted_echo 2)) 3 (mkNet w []) n /\ queue (nw n) 1 = [] /\ length (conns n) = 1%nat.
Proof.
  intros E n. vm_compute in E. injection E as <-. split; [|split; vm_compute; reflexivity].
  set (n0 := mkNet _ []) in *. set (n1 := ndemo1 n0) in *. set (c := ndemo_c n1).
  apply (nsteps_l _ _ _ n1); [|apply (nsteps_l _ _ _ (ndemo2 n1)); [|apply nsteps_once]].
  - apply (ns_accept _ (Done (7, mkSockaddr 0 0)) 1000 cloop0); vm_compute; reflexivity.
  - apply (ns_conn _ 0 c (ndemo_hup c)); [vm_compute; reflexivity| |vm_compute; reflexivity].
    apply (os_event_in_order _ EPOLLHUP 2000 (Done []) take_up 0);
      [vm_compute; reflexivity|vm_compute; discriminate|vm_compute; discriminate|intros z Hz; simpl; lia|vm_compute; reflexivity].
  - apply (ns_run _ 1). vm_compute. reflexivity.
Qed.

Lemma server_of_connections_witness :
  exists w, ndemo_w = Ok w /\ exists ls, srv_run ls w = Ok (nw (ndemo3 (ndemo2 (ndemo1 (mkNet w []))))).
Proof.
  destruct ndemo_w as [w|] eqn:E; [|vm_compute in E; discriminate E].
  exists w. split; [reflexivity|]. destruct (ndemo_steps w E) as [H _].
  apply (server_of_connections (counted_echo 2) 1 3 0 30 [x61] false false true dzero dzero (fun i => 100 + i) w 3
           (ndemo3 (ndemo2 (ndemo1 (mkNet w []))))).
  - vm_compute. discriminate.
  - lia.
  - vm_compute. reflexivity.
  - exact E.
  - exact H.
Defined.
