(* ===== verification/ServerDown.v ===== *)
(** * ServerDown: the end of a server

    The destructor of [TcpServer] ([src/base/TcpServer.cpp]) in a server with its
    connections ([ServerNet.v]): [connectDestroyed] ([src/base/TcpConnection.cpp]), which
    disconnects only a connection whose [state_] is [kConnected], what is left behind, and
    the functors and close callbacks that still refer to the object after it is gone. *)
From Stdlib Require Import Strings.Byte.
From S2P Require Import Prelude Timestamp Channel TcpConnection TcpSpec ServedConn Inet LoopThread TcpServer ServerNet.

Section down.
Context {S : Type} `{!ConnLoop S, !ServedLoop S}.
Context (user : user_call -> TcpConnection S -> res (TcpConnection S)).
Implicit Types c : TcpConnection S.
Implicit Types n : net S.

(** ** The destructor

    It has every connection of the table destroyed in the connection's own loop; [cur] is
    the loop whose thread is running. *)
Definition destroy_one (cur : Z) (p : list byte * nat) n : res (net S) :=
  cn ← get_conn (nw n) p.2;
  if cur =? c_loop cn then
    c ← get_tcp p.2 n;
    c' ← TcpConnection.connectDestroyed user c;
    update p.2 c c' n
  else Ok (mkNet (queueInLoop (c_loop cn) (connectDestroyed p.2) (nw n)) (conns n)).

Definition TcpServer_destroy (cur : Z) n : res (net S) :=
  _ ← assert (cur =? loop_ (server (nw n)));
  for_each (destroy_one cur) (map_to_list (connections_ (server (nw n)))) n.

(** ** After the destructor

    [removeInLoop] functors and the close callbacks are bound to the server: running one
    is a use of a destroyed object.  The other functors own their connection.  (What a
    setting queues in the loop of its connection is among the connection's own functors.) *)
Definition dead_conn (i : nat) c c' n : res (net S) :=
  if decide (closes (loop c') = closes (loop c)) then Ok (mkNet (nw n) (<[i := c']> (conns n)))
  else Fault DanglingPointer.



(** ** [connectDestroyed] in any state *)
Context `{!ServedUser user}.










End down.

(** ** Properties *)




(** With a thread, the connection may close before its destruction runs: its close
    callback then uses the server that is gone. *)
Theorem destroyed_server_dangles :
  (w ← started_server 1 3 1 [x61] false false dzero dzero false 30 (fun i => 100 + i);
   n ← net_accept (counted_echo 2) (Done (7, mkSockaddr 0 0)) 1000 cloop0 (mkNet w []);
   n ← net_run (counted_echo 2) 100 n;
   n ← TcpServer_destroy (counted_echo 2) 1 n;
   c ← get_tcp 0 n;
   c' ← conn_event (counted_echo 2) EPOLLHUP 2000 (Done []) take_up 0 c;
   dead_conn 0 c c' n) = Fault DanglingPointer.
Proof. vm_compute. reflexivity. Qed.

(** A failed [accept], for want of descriptors for instance, changes nothing: the
    connection stays in the queue of the listening socket and is reported again. *)
Lemma accept_errors_ignored e k w : srv_run (replicate k (SAccept (Errno e))) w = Ok w.
Proof.
  induction k as [|k IH]; [done|]. simpl.
  assert (srv_step (SAccept (Errno e)) w = Ok w) as Hs by (simpl; by destruct (acceptReading _)).
  simpl in Hs. by rewrite Hs.
Qed.
