(* ===== verification/Sync.v ===== *)
(** * Sync: thread ids, mutex and condition variable

    Models [include/CurrentThread.h], [src/base/CurrentThread.cpp],
    [include/Mutex.h] and [include/Condition.h].  The pthread mutex is the thread
    that owns it; [holder_] is the class's own record of the owner. *)
From Stdlib Require Import Floats.SpecFloat.
From S2P Require Import Prelude Timestamp.

(** ** [CurrentThread] *)

(** [t_cachedTid] of one thread; [gettid] is the result of the system call. *)
Definition cacheTid (gettid cached : Z) : Z := if cached =? 0 then gettid else cached.
Definition tid (gettid cached : Z) : Z * Z :=
  let cached := if cached =? 0 then cacheTid gettid cached else cached in (cached, cached).

(** ** [MutexLock] *)
Record MutexLock := mkMutex { owner : option Z; holder_ : Z }.

Definition MutexLock_new : MutexLock := mkMutex None 0.

(** [lock] by thread [t]; [None] while another thread (or [t] itself) owns it. *)
Definition lock (t : Z) (m : MutexLock) : option MutexLock :=
  match owner m with None => Some (mkMutex (Some t) t) | Some _ => None end.
Definition unlock (m : MutexLock) : MutexLock := mkMutex None 0.
Definition isLockedByThisThread (t : Z) (m : MutexLock) : bool := holder_ m =? t.

(** ** [Condition] *)

(** [wait] gives the mutex up and takes it again inside [pthread_cond_wait], without
    passing through [lock] and [unlock]. *)
Definition wait_release (m : MutexLock) : MutexLock := mkMutex None (holder_ m).
Definition wait_acquire (t : Z) (m : MutexLock) : option MutexLock :=
  match owner m with None => Some (mkMutex (Some t) (holder_ m)) | Some _ => None end.

(** The deadline [waitForSeconds] computes from the clock. *)
Definition kNanoSecondsPerSecond : Z := 1000000000.
Definition deadline (tv_sec tv_nsec : Z) (seconds : double) : res (Z * Z) :=
  nanoseconds ← double_to_int64 (dmul seconds (double_of_int kNanoSecondsPerSecond));
  total ← int64 (tv_nsec + nanoseconds);
  sec ← int64 (tv_sec + Z.quot total kNanoSecondsPerSecond);
  Ok (sec, Z.rem total kNanoSecondsPerSecond).

(** [MutexLockGuard]: the critical section [f] between [lock] and [unlock]. *)
Definition guarded {A} (t : Z) (f : A -> A) (m : MutexLock) (a : A) : option (MutexLock * A) :=
  m ← lock t m; Some (unlock m, f a).

(** ** Threads that lock, wait, notify and unlock *)
Inductive mutex_label :=
  | MLock (t : Z)
  | MUnlock (t : Z)
  | MWait (t : Z)          (* [wait] or [waitForSeconds], up to the release of the mutex *)
  | MNotify (t : Z)        (* [notify], which wakes [t] if it waits *)
  | MNotifyAll
  | MTimeout (t : Z)       (* the deadline of [t], or a spurious wake-up *)
  | MWake (t : Z).         (* [t] takes the mutex again and [wait] returns *)

(** [waiting] holds the threads inside [wait], [ready] those of them that may take the
    mutex again.  Only an owner unlocks or waits, and a waiting thread does neither. *)
Record mutex_state := mkMState { mtx : MutexLock; waiting : gset Z; ready : gset Z }.

Definition wake_one (t : Z) (s : mutex_state) : mutex_state :=
  if decide (t ∈ waiting s) then mkMState (mtx s) (waiting s ∖ {[t]}) ({[t]} ∪ ready s) else s.

Definition mutex_step (l : mutex_label) (s : mutex_state) : option mutex_state :=
  match l with
  | MLock t =>
      if decide (t ∈ waiting s ∪ ready s) then None
      else m ← lock t (mtx s); Some (mkMState m (waiting s) (ready s))
  | MUnlock t =>
      if decide (owner (mtx s) = Some t) then Some (mkMState (unlock (mtx s)) (waiting s) (ready s)) else None
  | MWait t =>
      if decide (owner (mtx s) = Some t) then Some (mkMState (wait_release (mtx s)) ({[t]} ∪ waiting s) (ready s))
      else None
  | MNotify t | MTimeout t => Some (wake_one t s)
  | MNotifyAll => Some (mkMState (mtx s) ∅ (waiting s ∪ ready s))
  | MWake t =>
      if decide (t ∈ ready s) then
        m ← wait_acquire t (mtx s); Some (mkMState m (waiting s) (ready s ∖ {[t]}))
      else None
  end.

Fixpoint mutex_run (ls : list mutex_label) (s : mutex_state) : option mutex_state :=
  match ls with
  | [] => Some s
  | l :: ls => s ← mutex_step l s; mutex_run ls s
  end.

Definition mutex_start : mutex_state := mkMState MutexLock_new ∅ ∅.

(** ** What the record of the holder is worth *)

(** Whoever is recorded owns the mutex or is inside [wait]; an owner is not. *)
Definition mutex_inv (s : mutex_state) : Prop :=
  (holder_ (mtx s) <> 0 -> owner (mtx s) = Some (holder_ (mtx s)) \/ holder_ (mtx s) ∈ waiting s ∪ ready s) /\
  (forall t, owner (mtx s) = Some t -> t ∉ waiting s ∪ ready s) /\ waiting s ## ready s.

Lemma mutex_step_inv l s s' : mutex_inv s -> mutex_step l s = Some s' -> mutex_inv s'.
Proof.
  intros (H1 & H2 & H3) E.
  assert (forall t, mutex_inv (wake_one t s)) as Hwake.
  { intros t. unfold wake_one. case_decide; [|by split_and!]. split_and!; simpl.
    - intros Hh. destruct (H1 Hh) as [|Hw]; [by left|]. right.
      destruct (decide (holder_ (mtx s) = t)); set_solver.
    - intros t' Ho. specialize (H2 t' Ho). set_solver.
    - set_solver. }
  destruct l as [t|t|t|t| |t|t]; simpl in E.
  - case_decide as Hd; [done|]. unfold lock in E. destruct (owner (mtx s)); [done|]. simplify_eq/=.
    split_and!; simpl; [by left| |done]. intros t' [= <-]. done.
  - case_decide; [|done]. simplify_eq/=. split_and!; simpl; done.
  - case_decide as Ho; [|done]. simplify_eq/=. specialize (H2 t Ho). split_and!; simpl; [|done|set_solver].
    intros Hh. right. destruct (H1 Hh) as [E|Hw]; [|set_solver]. assert (holder_ (mtx s) = t) as -> by congruence. set_solver.
  - simplify_eq. apply Hwake.
  - simplify_eq/=. split_and!; simpl.
    + intros Hh. destruct (H1 Hh) as [|Hw]; [by left|right; set_solver].
    + intros t Ho. specialize (H2 t Ho). set_solver.
    + set_solver.
  - simplify_eq. apply Hwake.
  - case_decide as Hr; [|done]. unfold wait_acquire in E. destruct (owner (mtx s)) eqn:Eo; [done|]. simplify_eq/=.
    split_and!; simpl.
    + intros Hh. destruct (decide (holder_ (mtx s) = t)) as [->|Hne]; [by left|]. right.
      destruct (H1 Hh) as [|Hw]; [done|set_solver].
    + intros t' [= <-]. set_solver.
    + set_solver.
Qed.

Lemma mutex_run_inv ls s s' : mutex_inv s -> mutex_run ls s = Some s' -> mutex_inv s'.
Proof.
  revert s. induction ls as [|l ls IH]; intros s Hs E; simpl in E; [by simplify_eq|].
  apply bind_Some in E as (s1 & E1 & E2). eapply IH; [|exact E2]. by eapply mutex_step_inv.
Qed.

Lemma mutex_start_inv : mutex_inv mutex_start.
Proof. split_and!; simpl; [done|done|set_solver]. Qed.

(** [isLockedByThisThread] never claims too much, and a notification is not lost.
    Threads lock, unlock, wait, time out and notify in any order.  A thread that runs (is
    not inside [wait]) and is told that it holds the mutex does hold it; and after
    [notifyAll] every thread that waited can return from [wait] as soon as the mutex is
    free. *)
Theorem mutex_claims_sound (ls : list mutex_label) (s s' : mutex_state) (t : Z) :
  mutex_run ls mutex_start = Some s -> t <> 0 ->
  (isLockedByThisThread t (mtx s) = true -> t ∉ waiting s ∪ ready s -> owner (mtx s) = Some t) /\
  (mutex_step MNotifyAll s = Some s' -> t ∈ waiting s -> owner (mtx s) = None ->
   exists s2, mutex_step (MWake t) s' = Some s2 /\ owner (mtx s2) = Some t /\ t ∉ waiting s2 ∪ ready s2).
Proof.
  intros E Ht. destruct (mutex_run_inv ls _ _ mutex_start_inv E) as (H1 & H2 & H3). split.
  - unfold isLockedByThisThread. intros Hl%Z.eqb_eq Hw. destruct (H1 ltac:(congruence)) as [Ho|Hin]; congruence.
  - simpl. intros [= <-] Hw Ho. simpl. rewrite decide_True by set_solver. unfold wait_acquire. rewrite Ho. simpl.
    eexists. split; [done|]. split; [done|]. set_solver.
Qed.

Lemma mutex_claims_sound_witness :
  isLockedByThisThread 1 (mkMutex (Some 1) 1) = true /\ owner (mkMutex (Some 1) 1) = Some 1.
Proof.
  split; [reflexivity|]. assert (mutex_run [MLock 2; MWait 2; MLock 1] mutex_start
    = Some (mkMState (mkMutex (Some 1) 1) {[2]} ∅)) as E by (vm_compute; reflexivity).
  apply (proj1 (mutex_claims_sound _ _ mutex_start 1 E ltac:(discriminate))); [reflexivity|].
  vm_compute. intros H. discriminate H.
Defined.

(** As long as nobody waits, the record agrees with the mutex. *)
Definition waits (l : mutex_label) : bool := match l with MWait _ => true | _ => false end.

Theorem holder_is_owner (ls : list mutex_label) (s : mutex_state) (t : Z) :
  t <> 0 -> forallb (fun l => negb (waits l)) ls = true -> mutex_run ls mutex_start = Some s ->
  (isLockedByThisThread t (mtx s) = true <-> owner (mtx s) = Some t).
Proof.
  intros Ht.
  assert (forall s0, ready s0 = ∅ -> waiting s0 = ∅ -> holder_ (mtx s0) = default 0 (owner (mtx s0)) ->
    forallb (fun l => negb (waits l)) ls = true -> mutex_run ls s0 = Some s ->
    holder_ (mtx s) = default 0 (owner (mtx s))) as H.
  { induction ls as [|l ls IH]; intros s0 Hr Hw Hh Hl E; simpl in E; [by simplify_eq|].
    simpl in Hl. apply andb_true_iff in Hl as [Hl Hls]. apply bind_Some in E as (s1 & E1 & E2).
    assert (ready s1 = ∅ /\ waiting s1 = ∅ /\ holder_ (mtx s1) = default 0 (owner (mtx s1))) as (R1 & W1 & H1).
    { destruct l as [u|u|u|u| |u|u]; simpl in E1.
      - case_decide; [done|]. unfold lock in E1. destruct (owner (mtx s0)); [done|]. by simplify_eq/=.
      - case_decide; [|done]. by simplify_eq/=.
      - done.
      - unfold wake_one in E1. rewrite Hw in E1. case_decide; [set_solver|]. by simplify_eq.
      - simplify_eq/=. rewrite Hw, Hr. split_and!; [set_solver|done|done].
      - unfold wake_one in E1. rewrite Hw in E1. case_decide; [set_solver|]. by simplify_eq.
      - rewrite Hr in E1. case_decide; [set_solver|done]. }
    by apply (IH s1). }
  intros Hl E. specialize (H mutex_start eq_refl eq_refl eq_refl Hl E).
  unfold isLockedByThisThread. rewrite H. clear H.
  destruct (owner (mtx s)) as [o|]; cbn [from_option id].
  - destruct (Z.eqb_spec o t) as [<-|]; naive_solver.
  - destruct (Z.eqb_spec 0 t) as [<-|]; naive_solver.
Qed.

(** It can claim too little: thread 1 owns the mutex again, but [holder_] is 0, because
    thread 2 has locked and unlocked it while thread 1 waited. *)
Theorem holder_lost_by_wait :
  exists s, mutex_run [MLock 1; MWait 1; MLock 2; MNotify 1; MUnlock 2; MWake 1] mutex_start = Some s /\
    owner (mtx s) = Some 1 /\ isLockedByThisThread 1 (mtx s) = false.
Proof. eexists. split; [vm_compute; reflexivity|]. done. Qed.

(** The deadline of a wait is a normalised time of day. *)
Lemma deadline_normal tv_sec tv_nsec seconds s ns :
  0 <= tv_nsec < kNanoSecondsPerSecond -> dltb dzero seconds = true ->
  deadline tv_sec tv_nsec seconds = Ok (s, ns) ->
  exists nanos, double_to_int64 (dmul seconds (double_of_int kNanoSecondsPerSecond)) = Ok nanos /\
    0 <= ns < kNanoSecondsPerSecond /\
    s * kNanoSecondsPerSecond + ns = tv_sec * kNanoSecondsPerSecond + tv_nsec + nanos.
Proof.
  intros Hn Hs E. unfold deadline in E. apply bind_Ok in E as (nanos & E1 & E).
  apply bind_Ok in E as (total & E2 & E). apply bind_Ok in E as (sec & E3 & E). injection E as <- <-.
  apply int64_Ok in E2 as [-> _]. apply int64_Ok in E3 as [-> _].
  assert (0 <= nanos) as Hpos.
  { eapply double_to_int64_nonneg; [|exact E1].
    assert (exists m e, double_of_int kNanoSecondsPerSecond = S754_finite false m e) as (m & e & ->)
      by (eexists _, _; vm_compute; reflexivity).
    by apply dmul_nonneg. }
  exists nanos. split; [done|]. unfold kNanoSecondsPerSecond in *.
  pose proof (Z.quot_rem' (tv_nsec + nanos) 1000000000).
  pose proof (Z.rem_bound_pos (tv_nsec + nanos) 1000000000 ltac:(lia) ltac:(lia)). lia.
Qed.
