(* ===== verification/ProcessInfo.v ===== *)
(** * ProcessInfo: what a process can ask about itself

    Models [include/ProcessInfo.h] and [src/base/ProcessInfo.cpp].  The system is a
    record of what its calls return: files and directories of [/proc] by path, the
    user database, the host name, the limit on open files. *)
From Stdlib Require Import Strings.Byte String.
From S2P Require Import Prelude Buffer LogStream Printf.

(** [getpwuid_r] gives [pw_name] or no entry; [gethostname] the bytes it stores;
    [fopen] the bytes a file delivers; [opendir] the names [readdir] returns. *)
Record system := mkSystem {
  getpid : Z;
  getuid : Z;
  geteuid : Z;
  getpwuid_r : Z -> option (list byte);
  gethostname : sysret (list byte);
  fopen : list byte -> option (list byte);
  opendir : list byte -> option (list (list byte));
  getrlimit_nofile : sysret Z
}.

(** ** Simple queries *)
Definition pid (s : system) : Z := getpid s.
Definition uid (s : system) : Z := getuid s.
Definition euid (s : system) : Z := geteuid s.
Definition pidString (s : system) : list byte := snprintf 32 (decimal (pid s)).
Definition username (s : system) : list byte := default [] (getpwuid_r s (uid s)).
Definition procname : list byte := str "unknown".

(** [garbage] is what [char buf[256]] holds before the call. *)
Definition hostname (garbage : list byte) (s : system) : list byte :=
  match gethostname s with
  | Done stored => c_string (take 255 (stored ++ drop (length stored) garbage) ++ [x00])
  | Errno _ => str "unknownhost"
  end.

(** [static_cast<int>] of a 64-bit value. *)
Definition cast_int (v : Z) : Z := (v + 2147483648) mod 4294967296 - 2147483648.
Definition maxOpenFiles (s : system) : Z :=
  match getrlimit_nofile s with Done rlim_cur => cast_int rlim_cur | Errno _ => -1 end.

(** ** Files *)

(** [fgets(line, n, fp)]: up to [n - 1] bytes, through the next newline; nothing at
    the end of the file. *)
Fixpoint fgets_scan (n : nat) (fp : list byte) : list byte * list byte :=
  match n, fp with
  | S n, b :: fp =>
      if decide (b = x0a) then ([b], fp) else let '(line, rest) := fgets_scan n fp in (b :: line, rest)
  | _, _ => ([], fp)
  end.
Definition fgets (n : nat) (fp : list byte) : option (list byte * list byte) :=
  match fp with [] => None | _ => Some (fgets_scan (n - 1) fp) end.

(** [/proc/<pid><suffix>] in a buffer of [n] bytes. *)
Definition proc_path (n : Z) (suffix : list byte) (s : system) : list byte :=
  snprintf n (str "/proc/" ++ decimal (pid s) ++ suffix).

(** [content += line] appends up to the first zero byte. *)
Fixpoint status_loop (fuel : nat) (content fp : list byte) : res (list byte) :=
  match fuel with
  | O => Fault OutOfFuel
  | S fuel =>
      match fgets 256 fp with
      | Some (line, fp) => status_loop fuel (content ++ c_string line) fp
      | None => Ok content
      end
  end.

Definition procStatus (fuel : nat) (s : system) : res (list byte) :=
  match fopen s (proc_path 1024 (str "/status") s) with
  | Some fp => status_loop fuel [] fp
  | None => Ok []
  end.

Definition threads_label : list byte := str "Threads:".

Fixpoint threads_loop (fuel : nat) (fp : list byte) : res Z :=
  match fuel with
  | O => Fault OutOfFuel
  | S fuel =>
      match fgets 256 fp with
      | Some (line, fp) =>
          if decide (take 8 line = threads_label) then atoi (c_string (drop 8 line)) else threads_loop fuel fp
      | None => Ok 0
      end
  end.

Definition threads (fuel : nat) (s : system) : res Z :=
  match fopen s (proc_path 64 (str "/status") s) with
  | Some fp => threads_loop fuel fp
  | None => Ok 0
  end.

(** ** Directories *)

(** [isdigit(pentry->d_name[0])] *)
Definition numeric (name : list byte) : bool :=
  match name with b :: _ => is_digit b | [] => false end.

Fixpoint count_loop (entries : list (list byte)) (count : Z) : Z :=
  match entries with
  | [] => count
  | e :: entries => count_loop entries (if numeric e then count + 1 else count)
  end.

Definition openFiles (s : system) : Z :=
  match opendir s (proc_path 64 (str "/fd") s) with
  | Some entries => count_loop entries 0
  | None => 0
  end.

Fixpoint tids_loop (entries : list (list byte)) (result : list Z) : res (list Z) :=
  match entries with
  | [] => Ok result
  | e :: entries =>
      if numeric e then t ← atoi e; tids_loop entries (result ++ [t]) else tids_loop entries result
  end.

Definition threadsList (s : system) : res (list Z) :=
  match opendir s (proc_path 64 (str "/task") s) with
  | Some entries => tids_loop entries []
  | None => Ok []
  end.

(** ** [fgets] *)
Lemma fgets_scan_app n fp line rest : fgets_scan n fp = (line, rest) -> fp = line ++ rest.
Proof.
  revert fp line. induction n as [|n IH]; intros fp line; simpl; [by intros [= <- <-]|].
  destruct fp as [|b fp]; [by intros [= <- <-]|]. case_decide; [by intros [= <- <-]|].
  destruct (fgets_scan n fp) as [l r] eqn:E. intros [= <- <-]. simpl. f_equal. by apply IH.
Qed.

(** Every call that delivers something takes at least one byte off the file. *)
Lemma fgets_Some n fp line rest :
  (1 < n)%nat -> fgets n fp = Some (line, rest) -> fp = line ++ rest /\ (length rest < length fp)%nat.
Proof.
  intros Hn E. unfold fgets in E. destruct fp as [|b fp]; [done|]. injection E as E.
  pose proof (fgets_scan_app _ _ _ _ E) as Ha. split; [done|]. rewrite Ha, length_app.
  destruct n as [|[|n]]; [lia|lia|]. simpl in E. case_decide; [injection E as <- <-; simpl; lia|].
  destruct (fgets_scan n fp). injection E as <- <-. simpl. lia.
Qed.

(** A line that fits is delivered whole. *)
Lemma fgets_line n body rest :
  x0a ∉ body -> (length body + 1 < n)%nat -> fgets n ((body ++ [x0a]) ++ rest) = Some (body ++ [x0a], rest).
Proof.
  intros Hb Hn. unfold fgets. rewrite <- app_assoc.
  assert (fgets_scan (n - 1) (body ++ [x0a] ++ rest) = (body ++ [x0a], rest)) as E.
  { destruct n as [|n]; [lia|]. rewrite Nat.sub_succ, Nat.sub_0_r.
    revert n Hn. induction body as [|b body IH]; intros n Hn; (destruct n as [|n]; [simpl in Hn; lia|]); simpl.
    - done.
    - apply not_elem_of_cons in Hb as [Hb Hb']. rewrite decide_False by done. rewrite IH; [done|done|simpl in Hn; lia]. }
  destruct body; simpl in *; by rewrite E.
Qed.

Lemma status_loop_total fuel content fp :
  (length fp < fuel)%nat ->
  exists r, status_loop fuel content fp = Ok r /\ (Forall (fun b => b <> x00) fp -> r = content ++ fp).
Proof.
  revert content fp. induction fuel as [|fuel IH]; intros content fp Hf; [lia|]. simpl.
  destruct (fgets 256 fp) as [[line rest]|] eqn:E.
  - apply fgets_Some in E as [-> Hl]; [|lia]. destruct (IH (content ++ c_string line) rest) as (r & Er & Hr).
    { rewrite length_app in *. lia. }
    exists r. split; [done|]. intros Hnul. apply Forall_app in Hnul as [H1 H2].
    rewrite Hr, c_string_id, app_assoc by done. done.
  - destruct fp; [|done]. exists content. split; [done|]. intros _. by rewrite app_nil_r.
Qed.

(** A process number never makes a path too long. *)
Lemma proc_path_fits n suffix s :
  0 <= getpid s < 2 ^ 31 -> zlen suffix <= 7 -> 64 <= n ->
  proc_path n suffix s = str "/proc/" ++ decimal (getpid s) ++ suffix.
Proof.
  intros Hp Hs Hn. unfold proc_path, pid. apply snprintf_fits.
  destruct (decimal_digits (getpid s)) as (_ & _ & Hl); [lia|].
  unfold zlen in *. rewrite !length_app. simpl. lia.
Qed.

(** *** The thread count *)

(** A whole line of the file, short enough for the buffer and not the one looked for. *)
Definition other_line (l : list byte) : Prop :=
  exists body, l = body ++ [x0a] /\ (x0a ∉ body) /\ (length body <= 254)%nat /\ take 8 l <> threads_label.

Lemma threads_loop_skip fuel ls fp :
  Forall other_line ls -> threads_loop (length ls + fuel) (concat ls ++ fp) = threads_loop fuel fp.
Proof.
  induction 1 as [|l ls (body & -> & Hnl & Hlen & Ht) _ IH]; [done|].
  cbn [concat length Nat.add threads_loop]. rewrite <- app_assoc, fgets_line by (done || lia).
  rewrite decide_False by done. exact IH.
Qed.

Lemma threads_loop_found fuel n rest :
  0 <= n <= 2147483647 ->
  threads_loop (S fuel) ((threads_label ++ [x09] ++ decimal n ++ [x0a]) ++ rest) = Ok n.
Proof.
  intros Hn. destruct (decimal_digits n) as (_ & Hd & Hl); [lia|]. cbn [threads_loop].
  assert (forall b, b ∈ decimal n -> b <> x0a /\ b <> x00) as Hb.
  { intros b Hin. rewrite Forall_forall in Hd. pose proof (digit_facts b (Hd b Hin)). naive_solver. }
  replace (threads_label ++ [x09] ++ decimal n ++ [x0a]) with ((threads_label ++ [x09] ++ decimal n) ++ [x0a])
    by (by rewrite <- !app_assoc).
  rewrite fgets_line.
  - rewrite decide_True by done. simpl (drop 8 _).
    rewrite c_string_id; [apply (atoi_decimal [x09]); [by repeat constructor|done|done]|].
    constructor; [done|]. apply Forall_app. split; [|by repeat constructor].
    apply Forall_forall. intros b Hin. by apply Hb.
  - rewrite !elem_of_app. intros [H|[H|H]]; [vm_compute in H|vm_compute in H|by destruct (Hb _ H)];
      repeat (apply elem_of_cons in H as [H|H]; [discriminate H|]); by apply elem_of_nil in H.
  - rewrite !length_app. unfold zlen in Hl. simpl. lia.
Qed.

(** *** Directory listings *)

(** The names a directory of numbered entries lists, in the order of [readdir], with
    the numbers. *)
Inductive listing : list (list byte) -> list Z -> Prop :=
  | li_nil : listing [] []
  | li_other e es ts : numeric e = false -> listing es ts -> listing (e :: es) ts
  | li_number t es ts : 0 <= t <= 2147483647 -> listing es ts -> listing (decimal t :: es) (t :: ts).

Lemma numeric_decimal t : 0 <= t <= 2147483647 -> numeric (decimal t) = true.
Proof. intros Ht. destruct (decimal_cons t) as (b & l & -> & Hb); [lia|done]. Qed.

Lemma tids_loop_listing es ts acc : listing es ts -> tids_loop es acc = Ok (acc ++ ts).
Proof.
  intros H. revert acc. induction H as [|e es ts He _ IH|t es ts Ht _ IH]; intros acc; simpl.
  - by rewrite app_nil_r.
  - by rewrite He.
  - rewrite numeric_decimal by done.
    replace (decimal t) with ([] ++ decimal t ++ []) by (by rewrite app_nil_r). rewrite atoi_decimal by done.
    simpl. by rewrite IH, <- app_assoc.
Qed.

Lemma count_loop_listing es ts n : listing es ts -> count_loop es n = n + Z.of_nat (length ts).
Proof.
  intros H. revert n. induction H as [|e es ts He _ IH|t es ts Ht _ IH]; intros n; simpl.
  - lia.
  - by rewrite He.
  - rewrite numeric_decimal, IH by done. lia.
Qed.

(** ** Properties *)

(** C38: the loop of [procStatus] ends.  Whatever the status file holds, reading it in
    pieces of at most 255 bytes ends after at most as many calls of [fgets] as it has
    bytes and one more; and a file without zero bytes is returned whole, however long its
    lines. *)
Theorem procStatus_terminates (s : system) (file : list byte) (fuel : nat) :
  0 <= getpid s < 2 ^ 31 ->
  fopen s (str "/proc/" ++ decimal (getpid s) ++ str "/status") = Some file ->
  (length file < fuel)%nat ->
  exists r, procStatus fuel s = Ok r /\ (Forall (fun b => b <> x00) file -> r = file).
Proof.
  intros Hp Hf Hfuel. unfold procStatus. rewrite proc_path_fits by (done || lia). rewrite Hf.
  apply (status_loop_total fuel [] file Hfuel).
Qed.

(** C37: [threads] and [threadsList] read what the kernel prints.  If the status file has
    a line [Threads:<tab>n] after lines that fit into the buffer, [threads] returns [n];
    if the task directory lists the thread numbers among other names, [threadsList]
    returns these numbers in order, and [openFiles] likewise counts the numbered entries. *)
Theorem threads_read_back (s : system) (before : list (list byte)) (n : Z) (rest : list byte)
    (tasks fds : list (list byte)) (tids nums : list Z) (fuel : nat) :
  0 <= getpid s < 2 ^ 31 -> 0 <= n <= 2147483647 -> Forall other_line before ->
  fopen s (str "/proc/" ++ decimal (getpid s) ++ str "/status")
    = Some (concat before ++ (threads_label ++ [x09] ++ decimal n ++ [x0a]) ++ rest) ->
  opendir s (str "/proc/" ++ decimal (getpid s) ++ str "/task") = Some tasks -> listing tasks tids ->
  opendir s (str "/proc/" ++ decimal (getpid s) ++ str "/fd") = Some fds -> listing fds nums ->
  (length before < fuel)%nat ->
  threads fuel s = Ok n /\ threadsList s = Ok tids /\ openFiles s = Z.of_nat (length nums).
Proof.
  intros Hp Hn Hb Hf Ht Htl Hd Hdl Hfuel. unfold threads, threadsList, openFiles.
  rewrite !proc_path_fits by (done || lia). rewrite Hf, Ht, Hd. split_and!.
  - replace fuel with (length before + S (fuel - length before - 1))%nat by lia.
    rewrite threads_loop_skip by done. by apply threads_loop_found.
  - by apply (tids_loop_listing tasks tids []).
  - by apply (count_loop_listing fds nums 0).
Qed.

(** The host name is returned up to its end, or cut to the 255 bytes the buffer holds. *)
Lemma hostname_spec garbage name s :
  zlen garbage = 256 -> Forall (fun b => b <> x00) name ->
  gethostname s = Done (take 256 (name ++ [x00])) ->
  hostname garbage s = take 255 name.
Proof.
  intros Hg Hn E. unfold hostname. rewrite E.
  destruct (decide (length name < 256)%nat) as [Hl|Hl].
  - rewrite (take_ge (name ++ [x00])) by (rewrite length_app; simpl; lia).
    rewrite <- app_assoc. simpl app at 2. destruct (decide (length name = 255)%nat) as [Heq|Hne].
    + rewrite <- Heq, take_app_length, take_ge by lia. by rewrite c_string_app.
    + rewrite take_app_ge by lia. replace (255 - length name)%nat with (S (254 - length name)) by lia.
      simpl. rewrite <- app_assoc. simpl. rewrite c_string_app by done. symmetry. apply take_ge. lia.
  - rewrite (take_app_le name) by lia. rewrite take_app_le by (rewrite length_take; lia).
    rewrite take_take, Nat.min_l by lia. apply (c_string_app (take 255 name) []). by apply Forall_take.
Qed.

(** An unlimited number of open files is reported like a failure. *)
Lemma maxOpenFiles_unlimited s v :
  getrlimit_nofile s = Done v ->
  (0 <= v <= 2147483647 -> maxOpenFiles s = v) /\ (v = 2 ^ 64 - 1 -> maxOpenFiles s = -1).
Proof.
  intros E. unfold maxOpenFiles, cast_int. rewrite E. split.
  - intros Hv. rewrite Z.mod_small by lia. lia.
  - intros ->. reflexivity.
Qed.

(** A process with number 42 and three threads. *)
Definition demo_status : list byte := str "Name: x" ++ [x0a] ++ str "Threads:" ++ [x09; x33; x0a] ++ str "NSpid: 42".
Definition demo_system : system :=
  mkSystem 42 0 0 (fun _ => None) (Errno 0)
    (fun path => if decide (path = str "/proc/42/status") then Some demo_status else None)
    (fun path => if decide (path = str "/proc/42/task") then Some [str "."; str ".."; str "42"; str "43"; str "57"]
                 else if decide (path = str "/proc/42/fd") then Some [str "."; str ".."; str "0"; str "7"] else None)
    (Done 1024).

Lemma procStatus_terminates_witness : exists r, procStatus 100 demo_system = Ok r /\ r = demo_status.
Proof.
  destruct (procStatus_terminates demo_system demo_status 100) as (r & E & H).
  - simpl. lia.
  - vm_compute. reflexivity.
  - vm_compute. lia.
  - exists r. split; [exact E|]. apply H. repeat (constructor; [discriminate|]). constructor.
Defined.

Lemma threads_read_back_witness :
  threads 10 demo_system = Ok 3 /\ threadsList demo_system = Ok [42; 43; 57] /\ openFiles demo_system = 2.
Proof.
  apply (threads_read_back demo_system [str "Name: x" ++ [x0a]] 3 (str "NSpid: 42")
    [str "."; str ".."; str "42"; str "43"; str "57"] [str "."; str ".."; str "0"; str "7"]
    [42; 43; 57] [0; 7] 10).
  - simpl. lia.
  - lia.
  - constructor; [|constructor]. exists (str "Name: x"). split; [reflexivity|].
    split; [|split; [vm_compute; lia|vm_compute; discriminate]].
    intros H. vm_compute in H. repeat (apply elem_of_cons in H as [H|H]; [discriminate H|]). by apply elem_of_nil in H.
  - vm_compute. reflexivity.
  - vm_compute. reflexivity.
  - apply li_other; [reflexivity|]. apply li_other; [reflexivity|].
    apply (li_number 42); [lia|]. apply (li_number 43); [lia|]. apply (li_number 57); [lia|]. constructor.
  - vm_compute. reflexivity.
  - apply li_other; [reflexivity|]. apply li_other; [reflexivity|].
    apply (li_number 0); [lia|]. apply (li_number 7); [lia|]. constructor.
  - simpl. lia.
Defined.
