(* ===== verification/Benchmark.v ===== *)
(** * Benchmark: latency statistics

    Models [BenchmarkBase] ([benchmark/benchmark_base.h], [benchmark/benchmark_base.cpp]):
    the recorded latencies and the figures computed from them.  [std::sort] on [double]
    is a merge sort by the order of the numbers, which [operator<] decides as long as
    there is no NaN. *)
From Stdlib Require Import Floats.SpecFloat.
From stdpp Require Import sorting.
From S2P Require Import Prelude Timestamp.

Definition dadd (x y : double) : double := SFadd 53 1024 x y.

(** ** The order of [double] *)
Definition not_nan (x : double) : bool := match x with S754_nan => false | _ => true end.

(** Sign class, exponent, significand. *)
Definition key (x : double) : Z * Z * Z :=
  match x with
  | S754_nan => (-3, 0, 0)
  | S754_infinity true => (-2, 0, 0)
  | S754_finite true m e => (-1, - e, Z.neg m)
  | S754_zero _ => (0, 0, 0)
  | S754_finite false m e => (1, e, Z.pos m)
  | S754_infinity false => (2, 0, 0)
  end.

Definition key_le (k k' : Z * Z * Z) : Prop :=
  k.1.1 < k'.1.1 \/ k.1.1 = k'.1.1 /\ (k.1.2 < k'.1.2 \/ k.1.2 = k'.1.2 /\ k.2 <= k'.2).
#[global] Instance key_le_dec k k' : Decision (key_le k k').
Proof. unfold key_le. apply _. Defined.

Definition double_le (x y : double) : Prop := key_le (key x) (key y).
#[global] Instance double_le_dec x y : Decision (double_le x y).
Proof. unfold double_le. apply _. Defined.

#[global] Instance double_le_total : Total double_le.
Proof. intros x y. unfold double_le, key_le. lia. Qed.
#[global] Instance double_le_trans : Transitive double_le.
Proof. intros x y z. unfold double_le, key_le. lia. Qed.

Lemma dleb_spec x y : not_nan x = true -> not_nan y = true -> dleb x y = true <-> double_le x y.
Proof.
  unfold dleb, SFleb, double_le, key_le.
  destruct x as [s1|[]| |[] m1 e1], y as [s2|[]| |[] m2 e2]; intros Hx Hy; try done; cbn -[Z.opp];
    try (split; [intros; (done || lia)|intros; (done || lia)]).
  - destruct (Z.compare_spec e1 e2) as [->|H|H]; [|split; [done|lia]|split; [lia|done]].
    rewrite <- Pos.compare_antisym. change (Pos.compare_cont Eq m2 m1) with (Pos.compare m2 m1).
    destruct (Pos.compare_spec m2 m1); split; try done; lia.
  - destruct (Z.compare_spec e1 e2) as [->|H|H]; [|split; [lia|done]|split; [done|lia]].
    change (Pos.compare_cont Eq m1 m2) with (Pos.compare m1 m2).
    destruct (Pos.compare_spec m1 m2); split; try done; lia.
Qed.

Lemma dltb_spec x y : not_nan x = true -> not_nan y = true -> dltb x y = negb (dleb y x).
Proof.
  unfold dltb, dleb, SFltb, SFleb.
  destruct x as [s1|[]| |[] m1 e1], y as [s2|[]| |[] m2 e2]; intros Hx Hy; try done; cbn.
  - rewrite (Z.compare_antisym e1 e2). destruct (Z.compare_spec e1 e2); try done. cbn.
    change (Pos.compare_cont Eq m1 m2) with (Pos.compare m1 m2).
    change (Pos.compare_cont Eq m2 m1) with (Pos.compare m2 m1).
    rewrite (Pos.compare_antisym m1 m2). by destruct (Pos.compare m1 m2).
  - rewrite (Z.compare_antisym e1 e2). destruct (Z.compare_spec e1 e2); try done. cbn.
    change (Pos.compare_cont Eq m1 m2) with (Pos.compare m1 m2).
    change (Pos.compare_cont Eq m2 m1) with (Pos.compare m2 m1).
    rewrite (Pos.compare_antisym m1 m2). by destruct (Pos.compare m1 m2).
Qed.

(** ** Recording and evaluating *)
Record Result := mkResult {
  total_requests : Z;
  total_bytes : Z;
  duration_seconds : double;
  qps : double;
  throughput_mbps : double;
  avg_latency_ms : double;
  p50_latency_ms : double;
  p95_latency_ms : double;
  p99_latency_ms : double
}.

Definition recordLatency (latency_ms : double) (latencies_ : list double) : list double :=
  latencies_ ++ [latency_ms].

Definition std_sort (l : list double) : list double := merge_sort double_le l.

(** [v[i]] *)
Definition vector_at (v : list double) (i : Z) : res double :=
  match v !! Z.to_nat i with Some x => Ok x | None => Fault OutOfBounds end.

(** [n * p / 100] in [size_t]. *)
Definition percentile_index (n p : Z) : Z := u64 (n * p) / 100.

Definition calculateResult (requests bytes : Z) (duration : double) (latencies_ : list double) : res Result :=
  let '(q, t) :=
    if dltb dzero duration then
      (ddiv (double_of_int requests) duration,
       ddiv (ddiv (double_of_int bytes) (dmul (double_of_int 1024) (double_of_int 1024))) duration)
    else (dzero, dzero) in
  if bool_decide (latencies_ <> []) then
    let sorted_latencies := std_sort latencies_ in
    let sum := foldl dadd dzero sorted_latencies in
    let n := zlen sorted_latencies in
    p50 ← vector_at sorted_latencies (percentile_index n 50);
    p95 ← vector_at sorted_latencies (percentile_index n 95);
    p99 ← vector_at sorted_latencies (percentile_index n 99);
    Ok (mkResult requests bytes duration q t (ddiv sum (double_of_int n)) p50 p95 p99)
  else Ok (mkResult requests bytes duration q t dzero dzero dzero dzero).

(** ** Order statistics *)
Lemma sort_spec l : StronglySorted double_le (std_sort l) /\ std_sort l ≡ₚ l.
Proof.
  split; [|apply merge_sort_Permutation]. apply (StronglySorted_merge_sort double_le l).
Qed.

(** The elements before and after a place of a sorted list. *)
Lemma sorted_around l k p :
  StronglySorted double_le l -> l !! k = Some p ->
  Forall (fun x => double_le x p) (take (S k) l) /\ Forall (fun x => double_le p x) (drop k l).
Proof.
  intros Hs. revert k. induction Hs as [|a l Hs IH Ha]; intros k Hk; [done|]. rewrite Forall_forall in Ha.
  destruct k as [|k]; simpl in *.
  - injection Hk as ->. assert (double_le p p) by (unfold double_le, key_le; lia).
    split; [by repeat constructor|]. constructor; [done|]. by apply Forall_forall.
  - destruct (IH k Hk) as [H1 H2]. split; [|done]. constructor; [|done].
    apply Ha. by eapply list_elem_of_lookup_2.
Qed.

(** [p] has rank [k] in [l]: at most [k] elements are smaller, more than [k] are not
    larger. *)
Definition has_rank (l : list double) (k : Z) (p : double) : Prop :=
  p ∈ l /\ zlen (filter (fun x => dltb x p = true) l) <= k < zlen (filter (fun x => dleb x p = true) l).

Lemma filter_all {A} (P : A -> Prop) `{!forall x, Decision (P x)} (l : list A) : Forall P l -> filter P l = l.
Proof. induction 1 as [|x l Hx _ IH]; [done|]. rewrite filter_cons_True by done. by rewrite IH. Qed.

Lemma filter_none {A} (P : A -> Prop) `{!forall x, Decision (P x)} (l : list A) :
  Forall (fun x => ~ P x) l -> filter P l = [].
Proof. induction 1 as [|x l Hx _ IH]; [done|]. by rewrite filter_cons_False. Qed.

Lemma sorted_rank l s k p :
  Forall (fun x => not_nan x = true) l -> StronglySorted double_le s -> s ≡ₚ l -> s !! k = Some p ->
  has_rank l (Z.of_nat k) p.
Proof.
  intros Hn Hs Hp Hk. destruct (sorted_around s k p Hs Hk) as [H1 H2].
  assert (Forall (fun x => not_nan x = true) s) as Hns by (by rewrite Hp).
  assert (not_nan p = true) as Hnp by (exact (Forall_lookup_1 _ _ _ _ Hns Hk)).
  split; [rewrite <- Hp; by eapply list_elem_of_lookup_2|]. unfold zlen.
  rewrite <- (filter_Permutation _ _ _ Hp), <- (filter_Permutation (fun x => dleb x p = true) _ _ Hp).
  pose proof (lookup_lt_Some _ _ _ Hk) as Hlt. split.
  - rewrite <- (take_drop k s), filter_app, length_app, (filter_none _ (drop k s)).
    + simpl. pose proof (length_filter (fun x => dltb x p = true) (take k s)). rewrite length_take in *. lia.
    + apply Forall_forall. intros x Hx. rewrite Forall_forall in H2. specialize (H2 x Hx).
      assert (not_nan x = true) as Hnx.
      { rewrite Forall_forall in Hns. apply Hns. rewrite <- (take_drop k s). apply elem_of_app. by right. }
      rewrite dltb_spec by done. apply (dleb_spec p x Hnp Hnx) in H2. by rewrite H2.
  - rewrite <- (take_drop (S k) s), filter_app, length_app, (filter_all _ (take (S k) s)).
    + rewrite length_take. lia.
    + apply Forall_forall. intros x Hx. rewrite Forall_forall in H1. specialize (H1 x Hx).
      apply dleb_spec; [|done|done]. rewrite Forall_forall in Hns. apply Hns.
      rewrite <- (take_drop (S k) s). apply elem_of_app. by left.
Qed.

Lemma percentile_in_range n p :
  0 < n < 2 ^ 56 -> 0 <= p < 100 -> 0 <= percentile_index n p < n.
Proof.
  intros Hn Hp. unfold percentile_index, u64, two64. rewrite Z.mod_small by nia.
  split; [apply Z.div_pos; nia|apply Z.div_lt_upper_bound; nia].
Qed.

Lemma percentile_mono n p q :
  0 < n < 2 ^ 56 -> 0 <= p <= q -> q < 100 -> percentile_index n p <= percentile_index n q.
Proof.
  intros Hn Hp Hq. unfold percentile_index, u64, two64. rewrite !Z.mod_small by nia.
  apply Z.div_le_mono; nia.
Qed.

(** Later places of a sorted list hold larger elements. *)
Lemma sorted_lookup_le l i j x y :
  StronglySorted double_le l -> (i <= j)%nat -> l !! i = Some x -> l !! j = Some y -> double_le x y.
Proof.
  intros Hs Hij Hi Hj. destruct (sorted_around l i x Hs Hi) as [_ H]. rewrite Forall_forall in H. apply H.
  apply (list_elem_of_lookup_2 _ (j - i)). rewrite lookup_drop. by replace (i + (j - i))%nat with j by lia.
Qed.

(** ** Properties *)

(** The percentiles of a benchmark.  For any non-empty set of recorded latencies that
    are numbers, [calculateResult] returns without reading outside its array; the three
    percentiles are recorded latencies of the ranks n*50/100, n*95/100 and n*99/100, and
    they do not decrease. *)
Theorem calculateResult_percentiles (requests bytes : Z) (duration : double) (l : list double) :
  l <> [] -> zlen l < 2 ^ 56 -> Forall (fun x => not_nan x = true) l ->
  exists r, calculateResult requests bytes duration l = Ok r /\
    total_requests r = requests /\ total_bytes r = bytes /\ duration_seconds r = duration /\
    has_rank l (zlen l * 50 / 100) (p50_latency_ms r) /\
    has_rank l (zlen l * 95 / 100) (p95_latency_ms r) /\
    has_rank l (zlen l * 99 / 100) (p99_latency_ms r) /\
    dleb (p50_latency_ms r) (p95_latency_ms r) = true /\ dleb (p95_latency_ms r) (p99_latency_ms r) = true.
Proof.
  intros Hne Hlen Hn. unfold calculateResult. destruct (if dltb dzero duration then _ else _) as [q t].
  rewrite bool_decide_true by done. destruct (sort_spec l) as [Hs Hp]. set (s := std_sort l) in *.
  assert (zlen s = zlen l) as Hzs by (unfold zlen; by rewrite Hp). rewrite Hzs.
  assert (0 < zlen l) as Hpos by (destruct l; [done|unfold zlen; simpl; lia]).
  assert (forall p, 0 <= p < 100 -> percentile_index (zlen l) p = zlen l * p / 100) as Hidx.
  { intros p Hpp. unfold percentile_index, u64, two64. rewrite Z.mod_small; [done|]. nia. }
  assert (forall p, 0 <= p < 100 -> exists x, s !! Z.to_nat (percentile_index (zlen l) p) = Some x /\
    has_rank l (zlen l * p / 100) x /\ not_nan x = true) as Hat.
  { intros p Hpp. pose proof (percentile_in_range (zlen l) p ltac:(lia) Hpp) as Hr.
    destruct (lookup_lt_is_Some_2 s (Z.to_nat (percentile_index (zlen l) p))) as [x Hx]; [unfold zlen in *; lia|].
    exists x. split; [done|]. pose proof (sorted_rank l s _ x Hn Hs Hp Hx) as Hk.
    rewrite Z2Nat.id, Hidx in Hk by lia. split; [done|]. rewrite Forall_forall in Hn. apply Hn, Hk. }
  destruct (Hat 50) as (x50 & E50 & R50 & N50); [lia|]. destruct (Hat 95) as (x95 & E95 & R95 & N95); [lia|].
  destruct (Hat 99) as (x99 & E99 & R99 & N99); [lia|].
  pose proof (percentile_mono (zlen l) 50 95 ltac:(lia) ltac:(lia) ltac:(lia)).
  pose proof (percentile_mono (zlen l) 95 99 ltac:(lia) ltac:(lia) ltac:(lia)).
  unfold vector_at. rewrite E50, E95, E99. simpl. eexists. split; [done|]. simpl. split_and!; try done.
  - apply dleb_spec; [done|done|]. by eapply (sorted_lookup_le s); [| |exact E50|exact E95]; [|lia].
  - apply dleb_spec; [done|done|]. by eapply (sorted_lookup_le s); [| |exact E95|exact E99]; [|lia].
Qed.

(** Twenty latencies of 20, 19, ..., 1 milliseconds. *)
Definition demo_latencies : list double := double_of_int <$> reverse (seqZ 1 20).

Lemma calculateResult_percentiles_witness :
  exists r, calculateResult 20 2560 (double_of_int 1) demo_latencies = Ok r /\
    dleb (p50_latency_ms r) (p95_latency_ms r) = true /\ p50_latency_ms r = double_of_int 11 /\
    p95_latency_ms r = double_of_int 20.
Proof.
  destruct (calculateResult_percentiles 20 2560 (double_of_int 1) demo_latencies)
    as (r & E & _ & _ & _ & _ & _ & _ & H & _).
  - vm_compute. discriminate.
  - vm_compute. reflexivity.
  - vm_compute. repeat constructor.
  - exists r. split; [exact E|]. split; [exact H|]. vm_compute in E. injection E as <-. split; vm_compute; reflexivity.
Defined.
