(* ===== verification/BenchClients.v ===== *)
(** * BenchClients: the load generators

    Models the client threads of the benchmarks: [EchoServerBench::run]
    ([benchmark/echo_server_bench.cpp]), [SelfStressTest::runClients]
    ([benchmark/self_stress_test.cpp]), [LatencyTest::run] ([benchmark/latency_test.cpp]),
    [NginxLatencyTest::run] ([compare/nginx/latency_test.cpp]) and
    [MuduoLatencyTest::run] ([compare/muduo/latency_test.cpp]).  What the system
    answers is a script: the results of [send] and [recv], the values [running] is found
    to have, the clock.  A loop that has used up its script is still running ([None]). *)
From Stdlib Require Import Floats.SpecFloat.
From S2P Require Import Prelude Timestamp TcpConnection Benchmark.

(** ** Counters

    The atomic counters of a run and the recorded latencies. *)
Record counters := mkCounters {
  requests : Z;
  bytes : Z;
  failed : Z;
  latencies : list double
}.
Definition no_counts : counters := mkCounters 0 0 0 [].

(** An exchange of [payload] bytes both ways. *)
Definition count_request (payload : Z) (s : counters) : counters :=
  mkCounters (requests s + 1) (bytes s + payload * 2) (failed s) (latencies s).
Definition count_failure (s : counters) : counters :=
  mkCounters (requests s) (bytes s) (failed s + 1) (latencies s).
Definition count_latency (ms : double) (s : counters) : counters :=
  mkCounters (requests s) (bytes s) (failed s) (recordLatency ms (latencies s)).

(** ** Receiving an answer

    Each loop yields how much was received. *)

(** [EchoServerBench]: an error ends it; a closed connection ([recv] returns 0) does not. *)
Fixpoint echo_recv (payload total : Z) (answers : list (sysret Z)) : option Z :=
  if total <? payload then
    match answers with
    | [] => None
    | Errno _ :: _ => Some total
    | Done received :: answers => echo_recv payload (total + received) answers
    end
  else Some total.

(** [NginxLatencyTest]: both end it. *)
Fixpoint nginx_recv (payload total : Z) (answers : list (sysret Z)) : option Z :=
  if total <? payload then
    match answers with
    | [] => None
    | Errno _ :: _ => Some total
    | Done received :: answers =>
        if received =? 0 then Some total else nginx_recv payload (total + received) answers
    end
  else Some total.

(** [SelfStressTest]: both end it and count as failures. *)
Fixpoint stress_recv (payload total : Z) (answers : list (sysret Z)) (s : counters) : option (Z * counters) :=
  if total <? payload then
    match answers with
    | [] => None
    | Errno _ :: _ => Some (total, count_failure s)
    | Done received :: answers =>
        if received =? 0 then Some (total, count_failure s)
        else stress_recv payload (total + received) answers s
    end
  else Some (total, s).

(** [LatencyTest], sockets not blocking: try again on [EAGAIN]; [Some false] when the
    thread returns. *)
Fixpoint busy_send (payload sent : Z) (answers : list (sysret Z)) : option bool :=
  if sent <? payload then
    match answers with
    | [] => None
    | Errno e :: answers => if e =? EAGAIN then busy_send payload sent answers else Some false
    | Done n :: answers => busy_send payload (sent + n) answers
    end
  else Some true.

Fixpoint busy_recv (payload received : Z) (answers : list (sysret Z)) : option bool :=
  if received <? payload then
    match answers with
    | [] => None
    | Errno e :: answers => if e =? EAGAIN then busy_recv payload received answers else Some false
    | Done n :: answers => if n =? 0 then Some false else busy_recv payload (received + n) answers
    end
  else Some true.

(** *** Warming up

    Ten exchanges of 64 bytes on each socket; an error ends the loop it occurs in. *)
Fixpoint warm_send (sent : Z) (answers : list (sysret Z)) : option Z :=
  if sent <? 64 then
    match answers with
    | [] => None
    | Errno e :: answers => if e =? EAGAIN then warm_send sent answers else Some sent
    | Done n :: answers => warm_send (sent + n) answers
    end
  else Some sent.

Fixpoint warm_recv (received : Z) (answers : list (sysret Z)) : option Z :=
  if received <? 64 then
    match answers with
    | [] => None
    | Errno e :: answers => if e =? EAGAIN then warm_recv received answers else Some received
    | Done n :: answers => if n =? 0 then Some received else warm_recv (received + n) answers
    end
  else Some received.

Fixpoint warm_socket (j : nat) (rounds : list (list (sysret Z) * list (sysret Z))) : option unit :=
  match j with
  | O => Some tt
  | S j =>
      match rounds with
      | [] => None
      | (sends, recvs) :: rounds =>
          sent ← warm_send 0 sends;
          if negb (sent =? 64) then Some tt
          else _ ← warm_recv 0 recvs; warm_socket j rounds
      end
  end.

Fixpoint warm_up (sockets : list (list (list (sysret Z) * list (sysret Z)))) : option unit :=
  match sockets with
  | [] => Some tt
  | rounds :: sockets => _ ← warm_socket 10 rounds; warm_up sockets
  end.

(** ** Client threads *)

(** One turn of a client's loop: [running], the clock before and after in
    microseconds, the result of [send] and those of [recv]. *)
Record turn := mkTurn {
  running : bool;
  send_start : Timestamp;
  send_end : Timestamp;
  send_r : sysret Z;
  recv_r : list (sysret Z)
}.

(** [timeDifference(end, start) * 1000] *)
Definition latency_of (t : turn) : res double :=
  d ← timeDifference (send_end t) (send_start t);
  Ok (dmul d (double_of_int 1000)).

(** [EchoServerBench]: every turn that got past [send] counts, whatever was received. *)
Fixpoint echo_client (payload : Z) (turns : list turn) (s : counters) : res (option counters) :=
  match turns with
  | [] => Ok None
  | t :: turns =>
      if negb (running t) then Ok (Some s)
      else match send_r t with
      | Errno _ => Ok (Some s)
      | Done _ =>
          match echo_recv payload 0 (recv_r t) with
          | None => Ok None
          | Some _ =>
              latency ← latency_of t;
              echo_client payload turns (count_request payload (count_latency latency s))
          end
      end
  end.

Fixpoint nginx_client (payload : Z) (turns : list turn) (s : counters) : res (option counters) :=
  match turns with
  | [] => Ok None
  | t :: turns =>
      if negb (running t) then Ok (Some s)
      else match send_r t with
      | Errno _ => Ok (Some s)
      | Done _ =>
          match nginx_recv payload 0 (recv_r t) with
          | None => Ok None
          | Some _ =>
              latency ← latency_of t;
              nginx_client payload turns (count_request payload (count_latency latency s))
          end
      end
  end.

(** [SelfStressTest]: only a complete answer counts; a failure does not end the thread. *)
Fixpoint stress_client (payload : Z) (turns : list turn) (s : counters) : option counters :=
  match turns with
  | [] => None
  | t :: turns =>
      if negb (running t) then Some s
      else match send_r t with
      | Errno _ => Some (count_failure s)
      | Done _ =>
          match stress_recv payload 0 (recv_r t) s with
          | None => None
          | Some (total, s) =>
              stress_client payload turns (if total =? payload then count_request payload s else s)
          end
      end
  end.

(** A turn of [LatencyTest]: [now] decides whether the time is up; [sends] and [recvs]
    the results of the system calls. *)
Record busy_turn := mkBusy {
  b_running : bool;
  b_now : Z;
  b_start : Z;
  b_end : Z;
  b_sends : list (sysret Z);
  b_recvs : list (sysret Z)
}.

(** Only latencies above 0 and below a second count. *)
Definition count_busy (payload latency_us : Z) (s : counters) : counters :=
  if (0 <? latency_us) && (latency_us <? 1000000) then
    count_request payload (count_latency (ddiv (double_of_int latency_us) (double_of_int 1000)) s)
  else s.

(** [Some (s, closed)]: the thread has ended; it closes its socket unless it returned
    early. *)
Fixpoint latency_client (payload test_end : Z) (turns : list busy_turn) (s : counters) : option (counters * bool) :=
  match turns with
  | [] => None
  | t :: turns =>
      if negb (b_running t) then Some (s, true)
      else if test_end <=? b_now t then Some (s, true)
      else match busy_send payload 0 (b_sends t) with
      | None => None
      | Some false => Some (s, false)
      | Some true =>
          match busy_recv payload 0 (b_recvs t) with
          | None => None
          | Some false => Some (s, false)
          | Some true => latency_client payload test_end turns (count_busy payload (b_end t - b_start t) s)
          end
      end
  end.

(** ** Connecting

    [LatencyTest::run], first step: the sockets that connect in time, and those closed. *)
Record attempt := mkAttempt {
  a_socket : sysret Z;
  a_connect : sysret unit;
  a_select : Z;
  a_getsockopt : sysret Z
}.

Definition EINPROGRESS : Z := 115.

Definition connect_one (a : attempt) (client_sockets closed : list Z) : list Z * list Z :=
  match a_socket a with
  | Errno _ => (client_sockets, closed)
  | Done sockfd =>
      let under_way := match a_connect a with Done _ => true | Errno e => e =? EINPROGRESS end in
      if negb under_way then (client_sockets, closed ++ [sockfd])
      else if a_select a <=? 0 then (client_sockets, closed ++ [sockfd])
      else match a_getsockopt a with
           | Done 0 => (client_sockets ++ [sockfd], closed)
           | _ => (client_sockets, closed ++ [sockfd])
           end
  end.

Fixpoint connect_all (attempts : list attempt) (client_sockets closed : list Z) : list Z * list Z :=
  match attempts with
  | [] => (client_sockets, closed)
  | a :: attempts => let '(cs, cl) := connect_one a client_sockets closed in connect_all attempts cs cl
  end.

Definition max_clients : Z := 100.

(** ** Runs

    The threads only meet in the counters, which they add to; the order of additions
    does not matter, so the threads are run one after the other. *)
Fixpoint client_threads (client : list turn -> counters -> res (option counters)) (scripts : list (list turn))
    (s : counters) : res (option counters) :=
  match scripts with
  | [] => Ok (Some s)
  | turns :: scripts =>
      r ← client turns s;
      match r with Some s => client_threads client scripts s | None => Ok None end
  end.

(** [EchoServerBench::run] and [NginxLatencyTest::run]: the join of a client that is
    still running does not return. *)
Definition bench_run (client : list turn -> counters -> res (option counters)) (start_time end_time : Timestamp)
    (scripts : list (list turn)) : res (option Result) :=
  r ← client_threads client scripts no_counts;
  match r with
  | None => Ok None
  | Some s =>
      duration ← timeDifference end_time start_time;
      result ← calculateResult (requests s) (bytes s) duration (latencies s);
      Ok (Some result)
  end.
Definition echo_run (payload : Z) := bench_run (echo_client payload).
Definition nginx_run (payload : Z) := bench_run (nginx_client payload).

Fixpoint latency_threads (payload test_end : Z) (scripts : list (list busy_turn)) (s : counters)
    : option (counters * list bool) :=
  match scripts with
  | [] => Some (s, [])
  | turns :: scripts =>
      '(s, closed) ← latency_client payload test_end turns s;
      '(s, rest) ← latency_threads payload test_end scripts s;
      Some (s, closed :: rest)
  end.

(** The sockets closed during [LatencyTest::run], in order: by the attempts to connect
    that failed, by the threads, and all of [client_sockets] again. *)
Record latency_outcome := mkOutcome { l_result : Result; l_closes : list Z }.

Fixpoint thread_closed (client_sockets : list Z) (ended : list bool) : list Z :=
  match client_sockets, ended with
  | fd :: fds, b :: ended => (if b then [fd] else []) ++ thread_closed fds ended
  | _, _ => []
  end.

(** [None]: the run throws because no client is connected, or it never returns. *)
Definition latency_run (concurrent_clients payload test_end : Z) (attempts : list attempt)
    (warmups : list (list (list (sysret Z) * list (sysret Z)))) (scripts : list (list busy_turn)) (duration : double)
    : res (option latency_outcome) :=
  let '(client_sockets, closed) :=
    connect_all (take (Z.to_nat (Z.min concurrent_clients max_clients)) attempts) [] [] in
  if bool_decide (client_sockets = []) then Ok None
  else match (_ ← warm_up (take (length client_sockets) warmups);
              latency_threads payload test_end (take (length client_sockets) scripts) no_counts) with
  | None => Ok None
  | Some (s, ended) =>
      result ← calculateResult (requests s) (bytes s) duration (latencies s);
      Ok (Some (mkOutcome result (closed ++ thread_closed client_sockets ended ++ client_sockets)))
  end.

(** ** Receive loops *)

(** What [recv] may return when asked for [n] bytes. *)
Definition recv_ok (r : sysret Z) : Prop := match r with Done n => 0 <= n | Errno _ => True end.

(** The loop of [SelfStressTest] ends within as many calls as bytes are missing. *)
Lemma stress_recv_ends payload total answers s :
  Forall recv_ok answers -> payload - total <= zlen answers ->
  exists t s', stress_recv payload total answers s = Some (t, s') /\
    requests s' = requests s /\ bytes s' = bytes s /\ latencies s' = latencies s /\
    (payload <= t /\ failed s' = failed s \/ t < payload /\ failed s' = failed s + 1).
Proof.
  intros Ha. revert total. induction Ha as [|r answers Hr _ IH]; intros total Hl; simpl.
  - destruct (Z.ltb_spec total payload); [unfold zlen in Hl; simpl in Hl; lia|]. eexists _, _. split; [done|].
    split_and!; try done. left. lia.
  - destruct (Z.ltb_spec total payload) as [Hlt|Hge]; [|eexists _, _; split; [done|]; split_and!; try done; left; lia].
    destruct r as [e|n]; [eexists _, _; split; [done|]; split_and!; try done; right; simpl; lia|]. simpl in Hr.
    destruct (Z.eqb_spec n 0); [eexists _, _; split; [done|]; split_and!; try done; right; simpl; lia|].
    apply IH. unfold zlen in *. simpl in Hl. lia.
Qed.

(** A closed connection keeps the loop of [EchoServerBench] going. *)
Lemma echo_recv_spins payload total k :
  total < payload -> echo_recv payload total (replicate k (Done 0)) = None.
Proof.
  intros Ht. revert total Ht. induction k as [|k IH]; intros total Ht; simpl; destruct (Z.ltb_spec total payload); try lia; [done|].
  apply IH. lia.
Qed.

(** A server that does not answer keeps the loop of [LatencyTest] going. *)
Lemma busy_recv_spins payload received k :
  received < payload -> busy_recv payload received (replicate k (Errno EAGAIN)) = None.
Proof.
  intros Ht. induction k as [|k IH]; simpl; destruct (Z.ltb_spec received payload); try lia; done.
Qed.

(** [recv] never delivers more than it is asked for. *)
Fixpoint answers_ok (payload total : Z) (answers : list (sysret Z)) : Prop :=
  match answers with
  | [] => True
  | Errno _ :: answers => answers_ok payload total answers
  | Done n :: answers => 0 <= n <= Z.max 0 (payload - total) /\ answers_ok payload (total + n) answers
  end.

Lemma answers_ok_recv payload total answers : answers_ok payload total answers -> Forall recv_ok answers.
Proof.
  revert total. induction answers as [|[e|n] answers IH]; intros total H; simpl in *; constructor; try done.
  - by eapply IH.
  - simpl. lia.
  - by eapply IH, H.
Qed.

Lemma stress_recv_bound payload total answers s t s' :
  total <= payload -> answers_ok payload total answers -> stress_recv payload total answers s = Some (t, s') -> t <= payload.
Proof.
  revert total. induction answers as [|[e|n] answers IH]; intros total Ht Ha E; simpl in *;
    destruct (Z.ltb_spec total payload); simplify_eq; try lia.
  destruct (n =? 0); simplify_eq; [lia|]. destruct Ha as [Hn Ha]. eapply IH; [|exact Ha|exact E]. lia.
Qed.

(** A turn that is served: [send] succeeds, and there are answers enough. *)
Definition served_turn (payload : Z) (t : turn) : Prop :=
  running t = true /\ (exists n, send_r t = Done n) /\
  answers_ok payload 0 (recv_r t) /\ payload <= zlen (recv_r t).

(** ** Properties *)

(** The stress test ends and counts.  However the server behaves, a client of
    [SelfStressTest] whose turns are followed by one that finds [running] false ends: no
    turn takes more calls of [recv] than the payload has bytes.  Every turn is counted
    once, as a request if the whole payload came back and as a failure otherwise, and
    the bytes are those of the requests, both ways. *)
Theorem stress_client_accounts (payload : Z) (turns : list turn) (stop : turn) (rest : list turn) (s : counters) :
  0 <= payload -> Forall (served_turn payload) turns -> running stop = false ->
  exists s', stress_client payload (turns ++ stop :: rest) s = Some s' /\
    (requests s' - requests s) + (failed s' - failed s) = zlen turns /\
    bytes s' - bytes s = payload * 2 * (requests s' - requests s) /\ requests s <= requests s' /\ failed s <= failed s'.
Proof.
  intros Hp Ht Hstop. revert s. induction Ht as [|t turns (Hrun & (n & Hsend) & Hok & Hlen) _ IH]; intros s.
  { simpl. rewrite Hstop. simpl. exists s. split; [done|]. unfold zlen. simpl. lia. }
  cbn [app stress_client]. rewrite Hrun, Hsend. cbn [negb].
  destruct (stress_recv_ends payload 0 (recv_r t) s) as (tot & s1 & E & R1 & B1 & _ & Hc);
    [by eapply answers_ok_recv|lia|].
  pose proof (stress_recv_bound payload 0 (recv_r t) s tot s1 ltac:(lia) Hok E) as Hle. rewrite E.
  set (s2 := if tot =? payload then _ else s1).
  destruct (IH s2) as (s' & E' & H1 & H2 & H3 & H4). exists s'. split; [exact E'|].
  assert (zlen (t :: turns) = zlen turns + 1) as -> by (unfold zlen; simpl; lia).
  unfold s2 in *. destruct (Z.eqb_spec tot payload) as [Eq|Eq]; cbn [requests bytes failed count_request] in *; destruct Hc as [[? ?]|[? ?]]; lia.
Qed.

Definition demo_turn (answers : list (sysret Z)) : turn := mkTurn true 0 1000 (Done 4) answers.

Lemma stress_client_accounts_witness :
  exists s', stress_client 4 ([demo_turn [Done 3; Done 1; Errno 4; Errno 4]; demo_turn [Done 3; Done 0; Done 0; Done 0]]
      ++ mkTurn false 0 0 (Errno 0) [] :: []) no_counts = Some s' /\
    (requests s' - 0) + (failed s' - 0) = 2 /\ bytes s' - 0 = 4 * 2 * (requests s' - 0) /\ 0 <= requests s' /\ 0 <= failed s'.
Proof.
  apply (stress_client_accounts 4 [demo_turn [Done 3; Done 1; Errno 4; Errno 4]; demo_turn [Done 3; Done 0; Done 0; Done 0]]
           (mkTurn false 0 0 (Errno 0) []) [] no_counts).
  - lia.
  - repeat constructor; simpl; try (by eexists); try lia; unfold zlen; simpl; lia.
  - reflexivity.
Defined.

(** Where the echo benchmark goes wrong.  If the server closes a connection, the
    client spins in [recv], which returns 0, for as long as one looks, and the run never
    returns; and a turn in which nothing but an error was received counts as a request
    with all its bytes. *)
Theorem echo_bench_faults (payload : Z) (t0 t1 : Timestamp) (n e : Z) (rest : list turn) (scripts : list (list turn))
    (start_time end_time : Timestamp) (k : nat) (s : counters) :
  0 < payload ->
  echo_run payload start_time end_time ((mkTurn true t0 t1 (Done n) (replicate k (Done 0)) :: rest) :: scripts) = Ok None /\
  forall d, timeDifference t1 t0 = Ok d ->
    echo_client payload (mkTurn true t0 t1 (Done n) [Errno e] :: rest) s
    = echo_client payload rest (count_request payload (count_latency (dmul d (double_of_int 1000)) s)).
Proof.
  intros Hp. split.
  - unfold echo_run, bench_run. cbn [client_threads echo_client running negb send_r recv_r].
    rewrite echo_recv_spins by lia. done.
  - intros d Hd. simpl. destruct (Z.ltb_spec 0 payload); [|lia]. unfold latency_of. simpl. by rewrite Hd.
Qed.

Lemma echo_bench_faults_witness :
  echo_run 64 0 1000000 [[mkTurn true 0 10 (Done 64) (replicate 50 (Done 0))]] = Ok None.
Proof. apply (echo_bench_faults 64 0 10 64 104 [] [] 0 1000000 50 no_counts). lia. Defined.

(** *** The latency test *)
Definition created (attempts : list attempt) : list Z :=
  omap (fun a => match a_socket a with Done fd => Some fd | Errno _ => None end) attempts.

Lemma connect_all_created attempts cs cl :
  let '(cs', cl') := connect_all attempts cs cl in cl' ++ cs' ≡ₚ (cl ++ cs) ++ created attempts.
Proof.
  revert cs cl. induction attempts as [|a attempts IH]; intros cs cl; simpl; [by rewrite app_nil_r|].
  assert (forall fd, (cl ++ [fd]) ++ cs ≡ₚ (cl ++ cs) ++ [fd]) as H1 by (intros fd; solve_Permutation).
  assert (forall fd, cl ++ (cs ++ [fd]) ≡ₚ (cl ++ cs) ++ [fd]) as H2 by (intros fd; by rewrite app_assoc).
  destruct (connect_one a cs cl) as [cs1 cl1] eqn:E. specialize (IH cs1 cl1).
  destruct (connect_all attempts cs1 cl1) as [cs' cl']. rewrite IH. unfold connect_one in E.
  destruct (a_socket a) as [e|fd]; [by injection E as <- <-|].
  assert (cl1 ++ cs1 ≡ₚ (cl ++ cs) ++ [fd]) as ->; [|by rewrite <- app_assoc].
  destruct (negb _); [injection E as <- <-; apply H1|]. destruct (_ <=? 0); [injection E as <- <-; apply H1|].
  destruct (a_getsockopt a) as [e|[|n|n]]; injection E as <- <-; (apply H1 || apply H2).
Qed.

(** A request counted is a latency recorded. *)
Definition balanced (payload : Z) (s : counters) : Prop :=
  bytes s = payload * 2 * requests s /\ requests s = zlen (latencies s).

Lemma latency_client_balanced payload test_end turns s s' b :
  balanced payload s -> latency_client payload test_end turns s = Some (s', b) -> balanced payload s'.
Proof.
  revert s. induction turns as [|t turns IH]; intros s Hs E; simpl in E; [done|].
  destruct (negb (b_running t)); [by simplify_eq|]. destruct (test_end <=? b_now t); [by simplify_eq|].
  destruct (busy_send _ _ _) as [[]|]; [|by simplify_eq|done]. destruct (busy_recv _ _ _) as [[]|]; [|by simplify_eq|done].
  eapply IH; [|exact E]. unfold count_busy. destruct (_ && _); [|done]. destruct Hs as [H1 H2].
  unfold balanced. simpl. unfold recordLatency, zlen in *. rewrite length_app. simpl. lia.
Qed.

Lemma latency_threads_balanced payload test_end scripts s s' ended :
  balanced payload s -> latency_threads payload test_end scripts s = Some (s', ended) ->
  balanced payload s' /\ length ended = length scripts.
Proof.
  revert s ended. induction scripts as [|turns scripts IH]; intros s ended Hs E; simpl in E; [by simplify_eq|].
  destruct (latency_client payload test_end turns s) as [[s1 b]|] eqn:E1; simpl in E; [|done].
  destruct (latency_threads payload test_end scripts s1) as [[s2 rest]|] eqn:E2; simpl in E; [|done]. simplify_eq.
  destruct (IH s1 rest) as [H1 H2]; [by eapply latency_client_balanced|done|]. simpl. by rewrite H2.
Qed.

Lemma calculateResult_totals r b d l res : calculateResult r b d l = Ok res -> total_requests res = r /\ total_bytes res = b.
Proof.
  unfold calculateResult. destruct (if dltb dzero d then _ else _). destruct (bool_decide _); intros E; by inv_res.
Qed.

Lemma thread_closes cs ended i fd :
  cs !! i = Some fd -> ended !! i = Some true -> exists l1 l2, thread_closed cs ended = l1 ++ [fd] ++ l2.
Proof.
  revert cs ended. induction i as [|i IH]; intros [|c cs] [|b ended]; try done; simpl.
  - intros [= ->] [= ->]. exists []. by eexists.
  - intros H1 H2. destruct (IH cs ended H1 H2) as (l1 & l2 & ->). exists ((if b then [c] else []) ++ l1), l2.
    by rewrite <- app_assoc.
Qed.

(** What the latency test does with its sockets.  Every socket it creates is closed;
    the bytes it reports are those of the requests it counts; and a client that ends
    because the time is up has its descriptor closed twice, by its thread and by the
    loop that closes what might be left open. *)
Theorem latency_sockets (n payload test_end : Z) (attempts : list attempt)
    (warmups : list (list (list (sysret Z) * list (sysret Z)))) (scripts : list (list busy_turn))
    (duration : double) (o : latency_outcome) :
  latency_run n payload test_end attempts warmups scripts duration = Ok (Some o) ->
  let attempts := take (Z.to_nat (Z.min n max_clients)) attempts in
  let cs := (connect_all attempts [] []).1 in
  total_bytes (l_result o) = payload * 2 * total_requests (l_result o) /\
  (forall fd, fd ∈ created attempts -> fd ∈ l_closes o) /\
  (forall i fd s ended, cs !! i = Some fd ->
     latency_threads payload test_end (take (length cs) scripts) no_counts = Some (s, ended) -> ended !! i = Some true ->
     exists l1 l2 l3, l_closes o = l1 ++ [fd] ++ l2 ++ [fd] ++ l3).
Proof.
  intros E att cs. unfold latency_run in E. fold att in E. pose proof (connect_all_created att [] []) as Hcr.
  unfold cs. destruct (connect_all att [] []) as [cs0 cl0]. simpl in *. destruct (bool_decide _); [done|].
  destruct (warm_up _); simpl in E; [|done].
  destruct (latency_threads payload test_end (take (length cs0) scripts) no_counts) as [[s ended]|] eqn:Et; [|done].
  apply bind_Ok in E as (r & Er & E). simplify_eq. simpl.
  destruct (latency_threads_balanced payload test_end (take (length cs0) scripts) no_counts s ended) as [[H1 H2] _]; [by split; [simpl; lia|]|exact Et|].
  destruct (calculateResult_totals _ _ _ _ _ Er) as [-> ->]. split_and!; [done| |].
  - intros fd. rewrite <- Hcr, !elem_of_app. tauto.
  - intros i fd s' ended' Hi [= <- <-] He. destruct (thread_closes cs0 ended i fd Hi He) as (l1 & l2 & ->).
    apply list_elem_of_split_length in Hi as (l3 & l4 & -> & _). exists (cl0 ++ l1), (l2 ++ l3), l4. by rewrite <- !app_assoc.
Qed.

(** Two clients, one of which ends in time while the other's connection is closed. *)
Definition demo_attempt (fd : Z) : attempt := mkAttempt (Done fd) (Errno EINPROGRESS) 1 (Done 0).
Definition demo_busy : list (list busy_turn) :=
  [[mkBusy true 0 0 500 [Done 4] [Errno EAGAIN; Done 4]; mkBusy true 99 0 0 [] []];
   [mkBusy true 0 0 0 [Done 4] [Done 0]]].

Definition demo_warm : list (list (list (sysret Z) * list (sysret Z))) :=
  [replicate 10 ([Done 64], [Errno EAGAIN; Done 64]); [([Errno EPIPE], [])]].

Lemma latency_sockets_witness :
  exists o, latency_run 2 4 99 [demo_attempt 7; demo_attempt 8] demo_warm demo_busy (double_of_int 1) = Ok (Some o) /\
    total_bytes (l_result o) = 4 * 2 * total_requests (l_result o) /\ l_closes o = [7; 7; 8].
Proof.
  destruct (latency_run 2 4 99 [demo_attempt 7; demo_attempt 8] demo_warm demo_busy (double_of_int 1)) as [[o|]|e] eqn:E;
    [|vm_compute in E; discriminate E..].
  exists o. split; [reflexivity|]. split.
  - exact (proj1 (latency_sockets 2 4 99 [demo_attempt 7; demo_attempt 8] demo_warm demo_busy (double_of_int 1) o E)).
  - vm_compute in E. injection E as <-. reflexivity.
Defined.

(** ** The comparison with muduo

    [MuduoLatencyTest] ([compare/muduo/latency_test.cpp]): the same busy loops, but an
    error ends the turn by an exception that is caught, and every thread closes its
    socket, which nobody else does. *)

(** The first loop of [run]: sockets whose [connect] failed at once are closed. *)
Fixpoint muduo_start (attempts : list attempt) (client_sockets : list (Z * attempt)) (closed : list Z)
    : list (Z * attempt) * list Z :=
  match attempts with
  | [] => (client_sockets, closed)
  | a :: attempts =>
      match a_socket a with
      | Errno _ => muduo_start attempts client_sockets closed
      | Done sockfd =>
          match a_connect a with
          | Errno e =>
              if negb (e =? EINPROGRESS) then muduo_start attempts client_sockets (closed ++ [sockfd])
              else muduo_start attempts (client_sockets ++ [(sockfd, a)]) closed
          | Done _ => muduo_start attempts (client_sockets ++ [(sockfd, a)]) closed
          end
      end
  end.

(** The second one: those with a pending error are closed and erased. *)
Fixpoint muduo_verify (client_sockets : list (Z * attempt)) (closed : list Z) : list Z * list Z :=
  match client_sockets with
  | [] => ([], closed)
  | (sockfd, a) :: client_sockets =>
      match a_getsockopt a with
      | Done 0 => let '(cs, cl) := muduo_verify client_sockets closed in (sockfd :: cs, cl)
      | _ => muduo_verify client_sockets (closed ++ [sockfd])
      end
  end.

Fixpoint muduo_client (payload : Z) (turns : list busy_turn) (s : counters) : option counters :=
  match turns with
  | [] => None
  | t :: turns =>
      if negb (b_running t) then Some s
      else match busy_send payload 0 (b_sends t) with
      | None => None
      | Some false => Some s
      | Some true =>
          match busy_recv payload 0 (b_recvs t) with
          | None => None
          | Some false => Some s
          | Some true =>
              let ms := ddiv (double_of_int (b_end t - b_start t)) (double_of_int 1000) in
              muduo_client payload turns (count_request payload (count_latency ms s))
          end
      end
  end.

Fixpoint muduo_threads (payload : Z) (scripts : list (list busy_turn)) (s : counters) : option counters :=
  match scripts with
  | [] => Some s
  | turns :: scripts => s ← muduo_client payload turns s; muduo_threads payload scripts s
  end.

(** The counters when all threads have ended, and the sockets closed. *)
Definition muduo_run (concurrent_clients payload : Z) (attempts : list attempt) (scripts : list (list busy_turn))
    : option (counters * list Z) :=
  let '(pending, closed) := muduo_start (take (Z.to_nat (Z.min concurrent_clients 1000)) attempts) [] [] in
  let '(client_sockets, closed) := muduo_verify pending closed in
  s ← muduo_threads payload (take (length client_sockets) scripts) no_counts;
  Some (s, closed ++ client_sockets).

Lemma muduo_start_created attempts cs cl :
  let '(cs', cl') := muduo_start attempts cs cl in cl' ++ cs'.*1 ≡ₚ (cl ++ cs.*1) ++ created attempts.
Proof.
  revert cs cl. induction attempts as [|a attempts IH]; intros cs cl; simpl; [by rewrite app_nil_r|].
  destruct (a_socket a) as [e|fd]; [apply IH|].
  assert (let '(cs', cl') := muduo_start attempts (cs ++ [(fd, a)]) cl in
    cl' ++ cs'.*1 ≡ₚ (cl ++ cs.*1) ++ fd :: created attempts) as Hkeep.
  { specialize (IH (cs ++ [(fd, a)]) cl). destruct (muduo_start attempts (cs ++ [(fd, a)]) cl) as [cs' cl'].
    rewrite IH, fmap_app. simpl. solve_Permutation. }
  destruct (a_connect a) as [e|u]; [|exact Hkeep]. destruct (negb _); [|exact Hkeep].
  specialize (IH cs (cl ++ [fd])). destruct (muduo_start attempts cs (cl ++ [fd])) as [cs' cl'].
  rewrite IH. solve_Permutation.
Qed.

Lemma muduo_verify_all cs cl : let '(cs', cl') := muduo_verify cs cl in cl' ++ cs' ≡ₚ cl ++ cs.*1.
Proof.
  revert cl. induction cs as [|[fd a] cs IH]; intros cl; simpl; [done|].
  assert (let '(cs', cl') := muduo_verify cs (cl ++ [fd]) in cl' ++ cs' ≡ₚ cl ++ fd :: cs.*1) as Hclose.
  { specialize (IH (cl ++ [fd])). destruct (muduo_verify cs (cl ++ [fd])) as [cs' cl']. rewrite IH. solve_Permutation. }
  destruct (a_getsockopt a) as [e|[|n|n]]; [exact Hclose| |exact Hclose..].
  specialize (IH cl). destruct (muduo_verify cs cl) as [cs' cl']. rewrite <- Permutation_middle, IH. solve_Permutation.
Qed.

Lemma muduo_threads_balanced payload scripts s s' :
  balanced payload s -> muduo_threads payload scripts s = Some s' -> balanced payload s'.
Proof.
  assert (forall turns s s', balanced payload s -> muduo_client payload turns s = Some s' -> balanced payload s') as Hc.
  { intros turns. induction turns as [|t turns IH]; intros s0 s1 Hs E; simpl in E; [done|].
    destruct (negb (b_running t)); [by simplify_eq|].
    destruct (busy_send _ _ _) as [[]|]; [|by simplify_eq|done]. destruct (busy_recv _ _ _) as [[]|]; [|by simplify_eq|done].
    eapply IH; [|exact E]. destruct Hs as [H1 H2]. unfold balanced. simpl. unfold recordLatency, zlen in *.
    rewrite length_app. simpl. lia. }
  revert s. induction scripts as [|turns scripts IH]; intros s Hs E; simpl in E; [by simplify_eq|].
  apply bind_Some in E as (s1 & E1 & E). eapply IH; [|exact E]. by eapply Hc.
Qed.

(** The comparison closes every socket it created exactly once, and its bytes are those of
    its requests, each with its latency. *)
Theorem muduo_sockets (n payload : Z) (attempts : list attempt) (scripts : list (list busy_turn)) (s : counters) (closes : list Z) :
  muduo_run n payload attempts scripts = Some (s, closes) ->
  closes ≡ₚ created (take (Z.to_nat (Z.min n 1000)) attempts) /\
  bytes s = payload * 2 * requests s /\ requests s = zlen (latencies s).
Proof.
  unfold muduo_run. intros E. set (att := take _ attempts) in *. pose proof (muduo_start_created att [] []) as H1.
  destruct (muduo_start att [] []) as [pending closed]. pose proof (muduo_verify_all pending closed) as H2.
  destruct (muduo_verify pending closed) as [cs cl]. apply bind_Some in E as (s1 & E1 & E). simplify_eq.
  split; [by rewrite H2, H1|]. by apply (muduo_threads_balanced payload _ no_counts) in E1; [|by split; [simpl; lia|]].
Qed.
